(* ===== verification/_CoqProject ===== *)
-Q . S2P
Prelude.v
GoMem.v
GoStd.v
GoText.v
Frame.v
Crypto.v
TestLib.v
RelayBody.v
Session.v
Stream.v
RxLoop.v
SessionTypes.v
Memory.v
Pools.v
Endpoints.v
SessionApi.v
Kick.v
Carrier.v
Dns.v
TestJson.v
Version.v
CarrierSteps.v
Worker.v
Poll.v
Config.v
ConfigProps.v
ConfigFile.v
Fronting.v
Conn.v
Exit.v
ExitDrain.v
ExitSteps.v
Oversized.v
ExitProps.v
Routing.v
Race.v
Tunnel.v
TunnelProps.v
Diagnose.v
Stats.v
CmdMain.v
BenchDiff.v
Bench.v
Link.v
Upload.v
Download.v
System.v
Orderly.v
SocksServer.v
Startup.v
FrontedClients.v
HarnessRun.v
