(* ===== verification/Prelude.v ===== *)
(** * GooseRelayVPN: a verification development

    ** The program

    GooseRelayVPN carries TCP connections inside HTTP requests to a Google Apps
    Script.  A client (cmd/client, internal/carrier, internal/socks) accepts
    SOCKS connections; each becomes a session (internal/session), whose bytes
    are cut into numbered _frames_ (internal/frame/frame.go).  Pollers drain
    the sessions that have something to send into a batch, seal it
    (internal/frame/crypto.go), post it to one of several script deployments
    and route the frames of the answer.  The script forwards both bodies
    unchanged to the server (cmd/server, internal/exit), which opens a
    connection per session, and answers a poll with the frames the client's
    sessions have for it, at once or within its long-poll window.

    ** The files

    Every operation is named after its Go function.  A struct protected by a
    mutex is a [Record]; a function that holds the mutex from its start to its
    end is one Rocq function on the record; what runs concurrently is a step
    relation over those functions.

    - [Prelude] (this file): bytes, slices, machine integers, big-endian
      integers, and the type [res] of the results of Go functions: a value, an
      error, or a [Panic] (an index or slice out of range, a send on a closed
      channel).  Tactics [len_tac], [case_bool], [b2p] and the rewrite
      database [golen].
    - [GoMem]: arrays, slices that share them, and [append].  The other files have
      a slice as the list of its elements; [Memory] and [Pools] say where that is
      right.
    - [GoStd]: the functions of Go's [bytes], [strings], [base64] and [hex]
      that the source calls on bytes.  [GoText]: [strconv], [strings.Join],
      padding, and JSON trees with the interface of the JSON library
      ([JsonLib], law [JsonLibOk]); [TestJson] is an executable instance of it.
    - [Frame]: internal/frame/frame.go.  [Crypto]: internal/frame/crypto.go.
      [TestLib] instantiates the parameters of [Crypto] by executable
      functions, for the witnesses.
    - [Session]: the methods of internal/session/session.go.  [Stream]: the two
      directions put together, sender to receiver.  [RxLoop]: the receive
      goroutine with everything that runs next to it, as a step relation.
      [SessionTypes]: what well typed states of a session are.  [Memory]: the
      transmit side on shared arrays.  [Pools]: [EncodeBatch] on pooled buffers,
      called concurrently.
    - [SessionApi]: the interface (class [SessionApi], laws [SessionApiOk])
      through which the client's and the server's theorems use sessions, and
      the instance that [Session] provides.  [Carrier], [Poll], [Exit],
      [ExitDrain], [ExitSteps] and [Tunnel] are proved against the laws only,
      except where a file says otherwise.
    - internal/carrier/client.go is split by the mutex that protects the
      state: [Endpoints] (with quota.go and part of stats.go) the rotation over
      deployments, [Carrier] the session table, [Kick] the coalescing timer,
      [Worker] the broadcast and the loop of a poller.  [CarrierSteps]
      interleaves the critical sections of [Carrier]; [Poll] composes them
      into [New], [pollOnce] and [Shutdown].  [RelayBody] is its reading of
      error pages, [Fronting] the choice of SNI hosts and [FrontedClients] the
      clients for them (fronting.go).
    - [Dns]: internal/exit/dnscache.go.  [Exit]: the critical sections of
      internal/exit/exit.go; [ExitDrain] the contract of [drainAll];
      [ExitSteps] the interleavings; [Oversized] the worst case of [drainAll];
      [ExitProps] routing, dialling, collection; [Routing] a call of
      [routeIncoming] part by part, among others; [Race] two requests with the
      same SYN.
      [Tunnel]: the HTTP handler, with its theorems in [TunnelProps].
    - [Config] and [ConfigProps]: internal/config from the decoded file on,
      [ConfigFile]: the decoding.  [Conn]: internal/socks/conn.go, [SocksServer]:
      server.go there.
    - [Version]: internal/protocol.  [Diagnose]: internal/carrier/diagnose.go,
      composed with the server's handler and with doGet and doPost of Code.gs.  [Stats]:
      the statistics lines of both programs.  [CmdMain]: the log writer and the
      start-up lines of cmd/client and cmd/server.  [Startup]: both [main]
      functions, [New] and [dialFunc] of the server, and the loops beside the
      workers and handlers.  [BenchDiff], [Bench] and [HarnessRun]: bench/diff;
      the transfers, statistics and results of bench/harness and bench/sink; and
      their configuration files, children and loops.
    - The two programs together.  [Link]: what one direction of the tunnel is,
      whichever program sends.  [Upload] and [Download]: a client and the
      server composed, one direction at a time.  [System]: any number of clients and
      the server, which projects to both directions of each client.  [Orderly]:
      the order in which frames are routed when no request is repeated.

    ** What the theorems show

    - Wire formats.  [Marshal] lays a frame out as documented or refuses it;
      [Unmarshal] accepts exactly what [Marshal] produces, never panics;
      [DecodeBatch] inverts [EncodeBatch] under the same key, is safe on any
      input, and a batch is encoded if and only if each of its frames is.
    - The stream.  Whatever the schedule of writes and drains, and in whatever
      order and however often the frames arrive, the receiver gets the bytes
      that the sender accepted once, in order, closed by the FIN; one drain has its
      contract ([drainTx_contract]).  The receive goroutine never sends on or
      closes a closed channel, under every interleaving; what has arrived gets
      through ([rxloop_delivers]); its reader sees the end of the stream only after
      all of it, unless the session was killed ([rxloop_eof]); and after [Stop] it
      ends in a bounded number of steps ([rxloop_stop_terminates]).  The sequential
      [deliverRx], which the rest of the development uses, is simulated by its
      steps.  Any sequence of method calls, one at a time, keeps a session well
      typed.  A reader of
      [VirtualConn] gets the bytes of the channel, with reads of any sizes.
    - Shared memory.  A session whose frames are windows of its buffer behaves as
      one on values, and drained frames keep their bytes, for every server session
      and for every client whose writers leave the buffers of early writes alone
      ([memory_refines]); concurrent calls of [EncodeBatch] on shared pools return
      what the function on values returns ([pooled_encode]).
    - The system.  In every interleaving of any number of clients and the
      server, whatever bodies are lost, repeated or reordered, what an upstream
      connection gets is a prefix of the stream of the application whose session
      it is; what an application reads is a prefix of what its connection
      answered, if the server has opened only one session under its identifier;
      and every session of the server belongs to the client whose application
      opened it.  Each direction also holds by itself: downloads whatever frames
      the server is sent and by whom ([download_integrity]), uploads whatever
      other clients send ([upload_integrity]).  Without retries the frames of a
      session are routed in order, the SYN first, however polls, handlers and
      goroutines are interleaved.
    - The client.  Under every interleaving no session is in two polls at once
      and pending data is in [txReady] or about to be; a batch has its bounds;
      a ready session is served or stays ready; a poll releases what it holds
      on every path and routes exactly the frames it was answered; wake-ups
      are delayed by at most the cap.  Rotation, failover, back-off ramp and
      daily counters of the endpoints.
    - The server.  Its six tables agree under every interleaving; a client
      sees its own sessions only, and changes those of others only in one race
      ([route_isolated]); what a SYN does on each outcome
      of the dial; which frames are refused; the bounds of one drain; no frame
      of a batch is refused because of its place in it; ready data is answered
      at once and every poll ends; an answer decodes to what was drained; a
      session nobody uses is gone eleven minutes after its last activity
      ([abandoned_collected]); with an upstream proxy targets go to the proxy as
      they are ([server_starts]).
    - Configuration and tools.  A file that loads starts the client with the
      endpoints it names, and decides what its HTTP clients dial and name
      ([loaded_fronting]) and who may use the proxy ([loaded_auth]); a connection
      through the proxy becomes a SYN for its target ([socks_connect]); a
      deployment ID is recognised however it is pasted.
      The diagnosis accepts a working installation, and never names a wrong key.  The statistics of an account are sums over its
      deployments.  The log writer makes one line of a record.  The benchmark
      gate fails exactly on a regression, on what the harness measures; the
      files the harness writes load and fit ([harness_configs]).
    - Behaviour that differs from a comment or from its purpose is proved as
      it is: early writes that are sent in the wrong order
      ([EnqueueInitialData_reorders]) or whose bytes are replaced, because the
      session keeps the buffer of the writer ([Write_retains]); answers that are
      too large for the client ([oversized_answer]); [CloseRx] against the receive goroutine
      ([CloseRx_panics_sender]), frames lost by failed and by cancelled polls
      ([failed_poll_drops], [cancelled_poll_loses]), batches refused or
      mistaken for error pages ([long_target_drops_batch],
      [HTTP_nonce_batch_rejected]), farewell resets that the server drops
      ([shutdown_rst_ignored]), a 25-hour day ([daily_window_long_day]), a
      repeated SYN that opens a finished session again
      ([stale_syn_reopens]), a SYN routed twice at once that leaves its first
      connection to nobody ([syn_race]) or a session to another client
      ([route_hijacks]), an answer with more frames than the cap
      ([answer_passes_cap]), a wrong key that is not recognised
      ([diagnose_wrong_key]), a check that always fails without a script
      ([diagnose_direct]), direct relays that are addressed as www.google.com
      ([loaded_fronting]), children that outlive a failed harness
      ([harness_leaves]).

    ** Conventions and bounds

    - Integers.  Sequence numbers are 64-bit with wrap-around ([u64]); the
      theorems on streams assume fewer than 2^64 frames per direction.  Lengths
      are [Z]; the fields of the wire formats have their width.
    - Fuel.  [drain_chunks] runs on the length of the buffer, and takes at
      least one byte per turn; [reassemble] on one more than the size of the
      queue, and takes one entry of it per turn; [itoa_loop] on one more than
      the binary logarithm; [write_loop] on the bytes to write, of which each
      turn writes one or more.  Each is shown enough where the function's
      specification is proved ([drain_chunks_spec], [reassemble_spec],
      [atoi_itoa], [write_loop_spec]).  [pollOnce] makes at most two attempts, as the code does.
    - Waiting.  The handler runs over a list that tells how each of its waits
      ended; [None] means that it still waits, and [serve_ends] gives the
      lists that are long enough.
    - Nondeterminism.  The order in which Go iterates over a map, and in which
      the unstable [sort.Slice] leaves equal elements, is an argument
      constrained by [valid_order]; [some_order] shows that one exists.
    - Clock, random bytes, HTTP exchanges, dialler, resolver, AES-GCM,
      Zstandard, DEFLATE, the JSON text and [url.Parse] are arguments.
      [CryptoLibOk] has the documented laws of the cryptographic and
      compression libraries, [JsonLibOk] those of [encoding/json] and [Stringify]
      those of JavaScript's [JSON.stringify], the only hypotheses about such code;
      [TestLib], [TestJson] and [Diagnose.test_stringify] are instances of them.
    - Critical sections.  [routeIncoming] looks a session up, dials, registers and
      delivers in different critical sections.  [Exit.route_after] runs them
      without interruption, after a look-up of any age; [Routing.route_one] one
      after the other, and the step relations of [ExitSteps], [Upload], [Download]
      and [System] have each of them as a step of its own.
    - Early writes.  [EnqueueInitialData] puts a write in front of the earlier ones
      as long as the SYN has not been drained.  The stream of a sender is what this
      gives ([Stream.accepted]); no theorem excludes such writes.
    - Identifiers.  Applications draw new identifiers; the server, for which a
      repeated or concurrent SYN can open a second session under one, keeps the set
      of those ([again] in [Download] and [System]), and only the stream from the
      upstream connection to the application is not claimed for them.
    - The network.  Bodies and answers stay deliverable for ever in [System],
      [Upload] and [Download], whose theorems are about safety; [Orderly] routes
      each body once.
    - Log lines, their throttling and [debugStarts] are left out: they do not
      influence a result.
    - Memory.  Outside [Memory] and [Pools] a slice is a value.  The slices those
      two files do not follow are only read once they are shared: the payloads of
      received frames, which are windows of the plaintext [DecodeBatch] has made,
      and the body of a poll.  The theorems on the whole system take a write as the
      bytes it had when it was made.

    ** What is not modelled

    Flags, signal handlers, process creation, pipes and [ps], the tickers of the
    statistics lines and the Windows console mode are input and output only.  The
    HTTP, HTTP/2, TLS, SOCKS and proxy libraries are not part of the repository:
    what they are told is modelled ([FrontedClients], [SocksServer], [Startup]),
    not what they do with it; timeouts and buffer sizes handed to them are left
    out.  Throttled and debug log lines and the texts of most errors are left out.
    The pools of Zstandard encoders and decoders hold objects of that library.
    Code.gs is JavaScript run by Google; only the object its doGet prints and what
    its doPost makes of an answer are modelled.  Nothing else of the program is left to model: what remains are
    import lists, option structs handed to libraries and these. *)

From Stdlib Require Export ZArith Lia.
From Stdlib Require Import Strings.Byte.
From stdpp Require Export base gmap list strings sorting.

#[global] Open Scope Z_scope.

(** ** Bytes

    A Go [byte] is the 256-element type [byte]; a Go [[]byte] or [string] is a
    list of them.  [b2z] and [z2b] are the conversions [int(b)] and [byte(x)]:
    the second truncates modulo 256, as Go's conversion does. *)

Abbreviation byte := Init.Byte.byte.
Abbreviation bytes := (list byte).

Definition b2z (b : byte) : Z := Z.of_N (Byte.to_N b).

Definition z2b (z : Z) : byte :=
  match Byte.of_N (Z.to_N (z mod 256)) with
  | Some b => b
  | None => x00
  end.

#[global] Instance byte_eq_dec : EqDecision byte := Byte.byte_eq_dec.

Lemma byte_of_to (b : byte) : Byte.of_N (Byte.to_N b) = Some b.
Proof. apply Byte.of_to_N. Qed.

#[global] Program Instance byte_countable : Countable byte :=
  inj_countable Byte.to_N Byte.of_N _.
Next Obligation. apply byte_of_to. Qed.

Lemma b2z_range (b : byte) : 0 <= b2z b < 256.
Proof. unfold b2z. pose proof (Byte.to_N_bounded b). lia. Qed.

Lemma z2b_b2z (b : byte) : z2b (b2z b) = b.
Proof.
  unfold z2b. rewrite Z.mod_small by apply b2z_range.
  unfold b2z. rewrite N2Z.id, byte_of_to. done.
Qed.

Lemma b2z_z2b (z : Z) : b2z (z2b z) = z mod 256.
Proof.
  unfold z2b, b2z. pose proof (Z.mod_pos_bound z 256 ltac:(lia)) as Hb.
  destruct (Byte.of_N (Z.to_N (z mod 256))) as [b|] eqn:E.
  - apply Byte.to_of_N in E. rewrite E. lia.
  - apply Byte.of_N_None_iff in E. lia.
Qed.

Lemma b2z_inj (a b : byte) : b2z a = b2z b -> a = b.
Proof. intros H. by rewrite <- (z2b_b2z a), <- (z2b_b2z b), H. Qed.

(** A Go string literal. *)
Definition str (s : String.string) : bytes := String.list_byte_of_string s.
Arguments str _ : simpl never.

(** Go's [len], as an [int]. *)
Definition len {A} (l : list A) : Z := Z.of_nat (length l).
Arguments len {A} _ : simpl never.

(** ** Results of Go functions

    [Ok] is the normal return, [Err] a returned non-nil error, [Panic] a
    run-time panic (slice index out of range, send on a closed channel). *)

Inductive res (E A : Type) : Type :=
| Ok (a : A)
| Err (e : E)
| Panic.
Arguments Ok {E A} _.
Arguments Err {E A} _.
Arguments Panic {E A}.

Definition res_bind {E A B} (m : res E A) (k : A -> res E B) : res E B :=
  match m with
  | Ok a => k a
  | Err e => Err e
  | Panic => Panic
  end.

(** Wrapping an error, as [fmt.Errorf("...: %w", err)] does. *)
Definition res_map_err {E F A} (f : E -> F) (m : res E A) : res F A :=
  match m with
  | Ok a => Ok a
  | Err e => Err (f e)
  | Panic => Panic
  end.

Definition is_ok {E A} (m : res E A) : bool :=
  match m with Ok _ => true | _ => false end.

Declare Scope go_scope.
Delimit Scope go_scope with go.
Notation "'let!' x ':=' m 'in' k" := (res_bind m (fun x => k))
  (at level 10, x name, m at level 100, k at level 200) : go_scope.
#[global] Open Scope go_scope.

(** [b[lo:hi]]: panics when the bounds are out of range. *)
Definition slice {E} (b : bytes) (lo hi : Z) : res E bytes :=
  if (0 <=? lo) && (lo <=? hi) && (hi <=? len b)
  then Ok (take (Z.to_nat (hi - lo)) (drop (Z.to_nat lo) b))
  else Panic.

(** [b[i]]: panics when [i] is out of range. *)
Definition index {E} (b : bytes) (i : Z) : res E byte :=
  if (0 <=? i) && (i <? len b)
  then match b !! Z.to_nat i with Some x => Ok x | None => Panic end
  else Panic.

(** ** Machine integers *)

Definition u32 (z : Z) : Z := z mod 2 ^ 32.
Definition u64 (z : Z) : Z := z mod 2 ^ 64.

Lemma u64_small (z : Z) : 0 <= z < 2 ^ 64 -> u64 z = z.
Proof. apply Z.mod_small. Qed.

Lemma u64_range (z : Z) : 0 <= u64 z < 2 ^ 64.
Proof. apply Z.mod_pos_bound. lia. Qed.

Lemma u64_add_l (a b : Z) : u64 (u64 a + b) = u64 (a + b).
Proof. unfold u64. by rewrite Zplus_mod_idemp_l. Qed.

(** [encoding/binary]'s [BigEndian.PutUintN] and [BigEndian.UintN]. *)
Fixpoint be_put (n : nat) (v : Z) : bytes :=
  match n with
  | O => []
  | S n => z2b (Z.shiftr v (8 * Z.of_nat n)) :: be_put n v
  end.

Fixpoint be_get (b : bytes) : Z :=
  match b with
  | [] => 0
  | x :: t => b2z x * 2 ^ (8 * len t) + be_get t
  end.

(** [binary.BigEndian.UintN(b)] on an [n]-byte integer: the first [n] bytes of
    [b], with Go's bounds check. *)
Definition read_uint {E} (n : nat) (b : bytes) : res E Z :=
  if len b <? Z.of_nat n then Panic else Ok (be_get (take n b)).

(** [copy(dst[off:], src)]: copies as much as fits. *)
Definition copy_to {E} (dst : bytes) (off : Z) (src : bytes) : res E bytes :=
  if (0 <=? off) && (off <=? len dst) then
    let n := Z.min (len src) (len dst - off) in
    Ok (take (Z.to_nat off) dst ++ take (Z.to_nat n) src
        ++ drop (Z.to_nat (off + n)) dst)
  else Panic.

(** [binary.BigEndian.PutUintN(dst[off:], v)]. *)
Definition put_uint {E} (n : nat) (dst : bytes) (off : Z) (v : Z) : res E bytes :=
  if (0 <=? off) && (off + Z.of_nat n <=? len dst)
  then copy_to dst off (be_put n v)
  else Panic.

(** [dst[off] = b]. *)
Definition set_byte {E} (dst : bytes) (off : Z) (b : byte) : res E bytes :=
  if (0 <=? off) && (off <? len dst)
  then Ok (<[Z.to_nat off := b]> dst)
  else Panic.

(** ** Automation

    [len] collects the length equations; [len_tac] rewrites with them and calls
    [lia]. *)

Create Rewrite HintDb golen.

Lemma len_nil {A} : len (@nil A) = 0.
Proof. done. Qed.

Lemma len_cons {A} (x : A) (l : list A) : len (x :: l) = 1 + len l.
Proof. unfold len. simpl length. lia. Qed.

Lemma len_app {A} (l k : list A) : len (l ++ k) = len l + len k.
Proof. unfold len. rewrite length_app. lia. Qed.

Lemma len_nonneg {A} (l : list A) : 0 <= len l.
Proof. unfold len. lia. Qed.

Lemma len_zero {A} (l : list A) : len l = 0 <-> l = [].
Proof. unfold len. destruct l; simpl; split; intros; try done; lia. Qed.

Lemma lt_len {A} (l : list A) (i : nat) : (i < length l)%nat <-> 0 <= Z.of_nat i < len l.
Proof. unfold len. lia. Qed.

Lemma len_pos {A} (l : list A) : 0 < len l <-> l <> [].
Proof. unfold len. destruct l; simpl; split; intros; try done; lia. Qed.

Lemma len_replicate {A} (n : nat) (x : A) : len (replicate n x) = Z.of_nat n.
Proof. unfold len. by rewrite length_replicate. Qed.

Lemma len_map {A B} (f : A -> B) (l : list A) : len (map f l) = len l.
Proof. unfold len. by rewrite length_map. Qed.

Lemma len_take {A} (n : nat) (l : list A) :
  len (take n l) = Z.min (Z.of_nat n) (len l).
Proof. unfold len. rewrite length_take. lia. Qed.

Lemma len_drop {A} (n : nat) (l : list A) :
  len (drop n l) = Z.max 0 (len l - Z.of_nat n).
Proof. unfold len. rewrite length_drop. lia. Qed.

Lemma len_be_put (n : nat) (v : Z) : len (be_put n v) = Z.of_nat n.
Proof.
  unfold len. induction n as [|n IH]; [done|]. simpl length in *. lia.
Qed.

#[export] Hint Rewrite @len_nil @len_cons @len_app @len_replicate @len_map
  @len_take @len_drop @len_be_put : golen.

Ltac len_tac :=
  autorewrite with golen in *;
  repeat match goal with
         | l : list ?A |- _ =>
             lazymatch goal with
             | _ : 0 <= len l |- _ => fail
             | _ => pose proof (@len_nonneg A l)
             end
         end;
  try lia.

(** Case analysis on every boolean test of the goal and the hypotheses. *)
Ltac case_bool :=
  match goal with
  | |- context [if ?b then _ else _] =>
      lazymatch type of b with bool => destruct b eqn:? end
  | H : context [if ?b then _ else _] |- _ =>
      lazymatch type of b with bool => destruct b eqn:? end
  end.

(** Turns boolean comparisons in the context into propositions. *)
Ltac b2p :=
  repeat match goal with
         | H : (_ && _) = true |- _ => apply andb_true_iff in H; destruct H
         | H : (_ || _) = false |- _ => apply orb_false_iff in H; destruct H
         | H : (_ && _) = false |- _ => apply andb_false_iff in H
         | H : (_ || _) = true |- _ => apply orb_true_iff in H
         | H : negb _ = true |- _ => apply negb_true_iff in H
         | H : negb _ = false |- _ => apply negb_false_iff in H
         | H : (_ <? _) = true |- _ => apply Z.ltb_lt in H
         | H : (_ <? _) = false |- _ => apply Z.ltb_ge in H
         | H : (_ <=? _) = true |- _ => apply Z.leb_le in H
         | H : (_ <=? _) = false |- _ => apply Z.leb_gt in H
         | H : (_ =? _) = true |- _ => apply Z.eqb_eq in H
         | H : (_ =? _) = false |- _ => apply Z.eqb_neq in H
         end.

Lemma elem_of_concat {A} (x : A) (ls : list (list A)) :
  x ∈ concat ls <-> exists l, x ∈ l /\ l ∈ ls.
Proof.
  rewrite list_elem_of_In, in_concat. setoid_rewrite list_elem_of_In.
  split; intros (l & H1 & H2); eauto.
Qed.

(** ** Lemmas on slices and buffers *)

Lemma take_len_app {A} (l k : list A) (n : nat) :
  Z.of_nat n = len l -> take n (l ++ k) = l.
Proof. unfold len. intros. apply take_app_length'. lia. Qed.

Lemma drop_len_app {A} (l k : list A) (n : nat) :
  Z.of_nat n = len l -> drop n (l ++ k) = k.
Proof. unfold len. intros. apply drop_app_length'. lia. Qed.

(** A slice of a buffer that is a prefix, a field and a rest. *)
Lemma slice_mid {E} (pre field rest : bytes) (lo hi : Z) :
  lo = len pre -> hi = len pre + len field ->
  slice (E := E) (pre ++ field ++ rest) lo hi = Ok field.
Proof.
  intros -> ->. unfold slice. rewrite !len_app.
  pose proof (len_nonneg pre). pose proof (len_nonneg field).
  pose proof (len_nonneg rest).
  rewrite (proj2 (Z.leb_le _ _)) by lia. rewrite (proj2 (Z.leb_le _ _)) by lia.
  rewrite (proj2 (Z.leb_le _ _)) by lia. simpl.
  rewrite drop_len_app by lia. rewrite take_len_app by lia. done.
Qed.

Lemma slice_rest {E} (pre rest : bytes) (lo hi : Z) :
  lo = len pre -> hi = len pre + len rest ->
  slice (E := E) (pre ++ rest) lo hi = Ok rest.
Proof.
  intros -> ->. pose proof (slice_mid (E := E) pre rest [] (len pre)
    (len pre + len rest) eq_refl eq_refl) as H.
  by rewrite app_nil_r in H.
Qed.

(** The same reads, with the decomposition of the buffer as an equation. *)
Lemma slice_at {E} (pre field rest b : bytes) (lo hi : Z) :
  b = pre ++ field ++ rest -> lo = len pre -> hi = len pre + len field ->
  slice (E := E) b lo hi = Ok field.
Proof. intros ->. apply slice_mid. Qed.

(** The [n] elements of [b] from offset [off]. *)
Definition sub {A} (b : list A) (off n : Z) : list A :=
  take (Z.to_nat n) (drop (Z.to_nat off) b).

Lemma drop_sub {A} (b : list A) (off n : Z) :
  0 <= off -> 0 <= n ->
  drop (Z.to_nat off) b = sub b off n ++ drop (Z.to_nat (off + n)) b.
Proof.
  intros. unfold sub. rewrite Z2Nat.inj_add, <- drop_drop by lia.
  by rewrite take_drop.
Qed.

Lemma len_sub {A} (b : list A) (off n : Z) :
  0 <= off -> 0 <= n -> off + n <= len b -> len (sub b off n) = n.
Proof. intros. unfold sub. len_tac. Qed.

Lemma slice_sub {E} (b : bytes) (lo hi : Z) :
  0 <= lo -> lo <= hi -> hi <= len b ->
  slice (E := E) b lo hi = Ok (sub b lo (hi - lo)).
Proof.
  intros. unfold slice. by rewrite !(proj2 (Z.leb_le _ _)) by lia.
Qed.

Lemma index_mid {E} (pre rest : bytes) (x : byte) (i : Z) :
  i = len pre -> index (E := E) (pre ++ x :: rest) i = Ok x.
Proof.
  intros ->. unfold index. pose proof (len_nonneg pre).
  pose proof (len_nonneg rest).
  rewrite len_app, len_cons.
  rewrite (proj2 (Z.leb_le _ _)) by lia. rewrite (proj2 (Z.ltb_lt _ _)) by lia.
  simpl. unfold len. rewrite Nat2Z.id, lookup_app_r by lia.
  by rewrite Nat.sub_diag.
Qed.

Lemma index_at {E} (pre rest b : bytes) (x : byte) (i : Z) :
  b = pre ++ x :: rest -> i = len pre -> index (E := E) b i = Ok x.
Proof. intros ->. apply index_mid. Qed.

Lemma index_sub {E} (b : bytes) (i : Z) :
  0 <= i < len b -> exists x, index (E := E) b i = Ok x /\ sub b i 1 = [x].
Proof.
  intros [? Hi]. unfold index, sub.
  rewrite (proj2 (Z.leb_le _ _)), (proj2 (Z.ltb_lt _ _)) by lia. cbn [andb].
  destruct (lookup_lt_is_Some_2 b (Z.to_nat i)) as [x Hx].
  - unfold len in Hi. lia.
  - rewrite Hx. exists x. split; [done|].
    by rewrite (drop_S _ _ _ Hx).
Qed.

(** Writing a field into a zeroed buffer that already holds a prefix. *)
Lemma copy_to_step {E} (pre src rest : bytes) (off : Z) :
  off = len pre -> len src <= len rest ->
  copy_to (E := E) (pre ++ rest) off src
  = Ok (pre ++ src ++ drop (length src) rest).
Proof.
  intros -> Hle. unfold copy_to. rewrite len_app.
  pose proof (len_nonneg pre). pose proof (len_nonneg src).
  rewrite (proj2 (Z.leb_le _ _)), (proj2 (Z.leb_le _ _)) by lia. cbn [andb].
  rewrite Z.min_l by lia. rewrite take_len_app by lia.
  rewrite (take_ge src) by (unfold len; lia).
  replace (Z.to_nat (len pre + len src)) with (length pre + length src)%nat
    by (unfold len; lia).
  rewrite <- drop_drop, drop_app_length. done.
Qed.

Lemma put_uint_step {E} (n : nat) (pre rest : bytes) (off v : Z) :
  off = len pre -> Z.of_nat n <= len rest ->
  put_uint (E := E) n (pre ++ rest) off v
  = Ok (pre ++ be_put n v ++ drop n rest).
Proof.
  intros -> Hle. unfold put_uint. rewrite len_app.
  pose proof (len_nonneg pre).
  rewrite (proj2 (Z.leb_le _ _)), (proj2 (Z.leb_le _ _)) by lia. cbn [andb].
  rewrite copy_to_step; [|done|by rewrite len_be_put].
  do 3 f_equal. f_equal. pose proof (len_be_put n v). unfold len in *. lia.
Qed.

Lemma set_byte_step {E} (pre rest : bytes) (off : Z) (b : byte) :
  off = len pre -> 1 <= len rest ->
  set_byte (E := E) (pre ++ rest) off b = Ok (pre ++ [b] ++ drop 1 rest).
Proof.
  intros -> Hle. destruct rest as [|x rest]; [len_tac|].
  unfold set_byte. rewrite len_app, len_cons in *.
  pose proof (len_nonneg pre). pose proof (len_nonneg rest).
  rewrite (proj2 (Z.leb_le _ _)), (proj2 (Z.ltb_lt _ _)) by lia. cbn [andb].
  unfold len. rewrite Nat2Z.id.
  rewrite insert_app_r_alt by lia. rewrite Nat.sub_diag. done.
Qed.

(** A freshly allocated buffer, [make([]byte, k)], and the three kinds of write
    into one that already holds a prefix. *)
Definition zeros (k : Z) : bytes := replicate (Z.to_nat k) Byte.x00.

Lemma len_zeros (k : Z) : len (zeros k) = Z.max 0 k.
Proof. unfold zeros. rewrite len_replicate. lia. Qed.
#[export] Hint Rewrite len_zeros : golen.

Lemma zeros_done (k : Z) : k <= 0 -> zeros k = [].
Proof. intros. unfold zeros. by rewrite Z2Nat.nonpos. Qed.

Lemma drop_zeros (n : nat) (k : Z) : drop n (zeros k) = zeros (k - Z.of_nat n).
Proof. unfold zeros. rewrite drop_replicate. f_equal. lia. Qed.

Lemma copy_zeros {E} (pre src : bytes) (off k : Z) :
  off = len pre -> len src <= k ->
  copy_to (E := E) (pre ++ zeros k) off src
  = Ok ((pre ++ src) ++ zeros (k - len src)).
Proof.
  intros. rewrite copy_to_step by len_tac. rewrite drop_zeros.
  by rewrite <- app_assoc.
Qed.

Lemma put_uint_zeros {E} (n : nat) (pre : bytes) (off v k : Z) :
  off = len pre -> Z.of_nat n <= k ->
  put_uint (E := E) n (pre ++ zeros k) off v
  = Ok ((pre ++ be_put n v) ++ zeros (k - Z.of_nat n)).
Proof.
  intros. rewrite put_uint_step by len_tac. rewrite drop_zeros.
  by rewrite <- app_assoc.
Qed.

Lemma set_byte_zeros {E} (pre : bytes) (off k : Z) (b : byte) :
  off = len pre -> 1 <= k ->
  set_byte (E := E) (pre ++ zeros k) off b = Ok ((pre ++ [b]) ++ zeros (k - 1)).
Proof.
  intros. rewrite set_byte_step by len_tac. rewrite drop_zeros.
  by rewrite <- app_assoc.
Qed.

(** ** Big-endian integers *)

Lemma be_get_range (b : bytes) : 0 <= be_get b < 2 ^ (8 * len b).
Proof.
  induction b as [|x t IH]; [done|]. cbn [be_get].
  pose proof (b2z_range x). pose proof (len_nonneg t). rewrite len_cons.
  replace (8 * (1 + len t)) with (8 + 8 * len t) by lia.
  rewrite Z.pow_add_r by lia. change (2 ^ 8) with 256.
  pose proof (Z.pow_pos_nonneg 2 (8 * len t)). nia.
Qed.

Lemma be_get_put (n : nat) (v : Z) : be_get (be_put n v) = v mod 2 ^ (8 * Z.of_nat n).
Proof.
  induction n as [|n IH].
  - simpl. by rewrite Z.mod_1_r.
  - cbn [be_put be_get]. rewrite IH, len_be_put, b2z_z2b, Z.shiftr_div_pow2 by lia.
    replace (8 * Z.of_nat (S n)) with (8 * Z.of_nat n + 8) by lia.
    rewrite Z.pow_add_r by lia. change (2 ^ 8) with 256.
    pose proof (Z.pow_pos_nonneg 2 (8 * Z.of_nat n)).
    rewrite (Z.rem_mul_r v) by lia. lia.
Qed.

(** Encoding [n] bytes ignores everything above bit [8 * n]. *)
Lemma be_put_high (n : nat) (m h z : Z) :
  Z.of_nat n <= m -> be_put n (h * 2 ^ (8 * m) + z) = be_put n z.
Proof.
  induction n as [|n IHn]; intros Hn; [done|]. cbn [be_put].
  rewrite IHn by lia. f_equal.
  rewrite !Z.shiftr_div_pow2 by lia.
  replace (8 * m) with ((8 * (m - Z.of_nat n) - 8) + 8 + 8 * Z.of_nat n) by lia.
  rewrite !Z.pow_add_r by lia. rewrite !Z.mul_assoc, Z.div_add_l by lia.
  change (2 ^ 8) with 256.
  unfold z2b. rewrite Z.add_comm, Z.mod_add by lia. done.
Qed.

Lemma be_put_get (b : bytes) : be_put (length b) (be_get b) = b.
Proof.
  induction b as [|x t IH]; [done|]. cbn [be_get length be_put].
  pose proof (be_get_range t) as Hr. fold (len t). f_equal.
  - rewrite Z.shiftr_div_pow2 by (unfold len; lia).
    rewrite Z.div_add_l by lia. rewrite (Z.div_small (be_get t)) by lia.
    by rewrite Z.add_0_r, z2b_b2z.
  - rewrite be_put_high by (unfold len; lia). done.
Qed.

Lemma read_uint_app {E} (n : nat) (v : Z) (rest : bytes) :
  0 <= v < 2 ^ (8 * Z.of_nat n) ->
  read_uint (E := E) n (be_put n v ++ rest) = Ok v.
Proof.
  intros Hv. unfold read_uint. rewrite len_app, len_be_put.
  pose proof (len_nonneg rest).
  rewrite (proj2 (Z.ltb_ge _ _)) by lia.
  rewrite take_len_app by (by rewrite len_be_put).
  rewrite be_get_put, Z.mod_small by lia. done.
Qed.

Lemma read_uint_ok {E} (n : nat) (b : bytes) :
  Z.of_nat n <= len b ->
  exists v, read_uint (E := E) n b = Ok v /\ 0 <= v < 2 ^ (8 * Z.of_nat n).
Proof.
  intros. unfold read_uint. rewrite (proj2 (Z.ltb_ge _ _)) by lia.
  eexists; split; [done|]. pose proof (be_get_range (take n b)) as Hr.
  rewrite len_take, Z.min_l in Hr by lia. done.
Qed.

(** [binary.BigEndian.UintN(b[off:])] on a buffer whose shape is known. *)
Lemma uint_at {E A} (n : nat) (pre rest b : bytes) (off v : Z) (k : Z -> res E A) :
  b = pre ++ be_put n v ++ rest -> off = len pre ->
  0 <= v < 2 ^ (8 * Z.of_nat n) ->
  (let! tail := slice b off (len b) in let! x := read_uint n tail in k x) = k v.
Proof.
  intros -> -> Hv. rewrite slice_rest; [|done|by rewrite len_app].
  cbn [res_bind]. by rewrite read_uint_app.
Qed.

(** The same read on any buffer that is long enough. *)
Lemma uint_ok {E} (n : nat) (b : bytes) (off : Z) :
  0 <= off -> off + Z.of_nat n <= len b ->
  exists v, 0 <= v < 2 ^ (8 * Z.of_nat n) /\ be_put n v = sub b off (Z.of_nat n) /\
    forall A (k : Z -> res E A),
      (let! tail := slice b off (len b) in let! x := read_uint n tail in k x) = k v.
Proof.
  intros Ho Hl. set (d := sub b off (Z.of_nat n)).
  assert (Hd : len d = Z.of_nat n) by (apply len_sub; lia).
  exists (be_get d). split; [|split].
  - rewrite <- Hd. apply be_get_range.
  - rewrite <- (be_put_get d) at 2. f_equal. unfold len in Hd. lia.
  - intros A k. unfold slice.
    rewrite !(proj2 (Z.leb_le _ _)) by lia. cbn [andb res_bind].
    rewrite (take_ge (drop _ _)) by (unfold len in *; rewrite length_drop; lia).
    unfold read_uint. rewrite (proj2 (Z.ltb_ge _ _)) by len_tac.
    cbn [res_bind]. do 2 f_equal. unfold d, sub. by rewrite Nat2Z.id.
Qed.
