(* ===== verification/GoMem.v ===== *)
(** * Arrays, slices and [append]

    The other files translate a Go [[]byte] by the list of its bytes.  That is
    what a slice is as long as nobody writes to the array behind it.  Here the
    array is there: a [Heap] is the list of all the arrays ever allocated (an
    array is never reused while it is referenced, so none is ever removed), a
    [GoSlice] is a window of one of them with its length and capacity, and
    [append] writes in place if the capacity allows it.  [Memory] and [Pools]
    use it where the source shares arrays. *)

From S2P Require Import Prelude.

Record GoSlice := mkSlice { s_arr : nat; s_off : nat; s_len : nat; s_cap : nat }.

#[export] Instance GoSlice_eq_dec : EqDecision GoSlice.
Proof. solve_decision. Defined.

Definition nil_slice : GoSlice := mkSlice 0 0 0 0.

(** [s[i:j]] and [s[i:j:k]]. *)
Definition reslice (s : GoSlice) (i j : nat) : GoSlice :=
  mkSlice (s_arr s) (s_off s + i) (j - i) (s_cap s - i).
Definition reslice3 (s : GoSlice) (i j k : nat) : GoSlice :=
  mkSlice (s_arr s) (s_off s + i) (j - i) (k - i).

(** [l] with [d] written over its elements from position [i] on. *)
Definition overwrite {A} (i : nat) (d l : list A) : list A := take i l ++ d ++ drop (i + length d) l.

Abbreviation Heap A := (list (list A)).

Section Mem.
Context {A : Type}.

Definition array (h : Heap A) (a : nat) : list A := default [] (h !! a).

(** The elements of a slice. *)
Definition load (h : Heap A) (s : GoSlice) : list A := take (s_len s) (drop (s_off s) (array h (s_arr s))).

Definition store (h : Heap A) (a i : nat) (d : list A) : Heap A := <[a := overwrite i d (array h a)]> h.

(** A new array with the contents [c], as a slice of which [n] elements are in
    use: [make] and composite literals. *)
Definition alloc (h : Heap A) (c : list A) (n : nat) : Heap A * GoSlice :=
  (h ++ [c], mkSlice (length h) 0 n (length c)).

(** [append(s, d...)]: in place if there is room, otherwise into a new array.
    How much larger than necessary the new array is, is left to the runtime:
    [spare] is the rest of it. *)
Definition append (spare : list A) (h : Heap A) (s : GoSlice) (d : list A) : Heap A * GoSlice :=
  if (s_len s + length d <=? s_cap s)%nat
  then (store h (s_arr s) (s_off s + s_len s) d,
        mkSlice (s_arr s) (s_off s) (s_len s + length d) (s_cap s))
  else alloc h (load h s ++ d ++ spare) (s_len s + length d).

(** The window of a slice lies in its array; that of a slice without capacity
    (a nil slice) needs none. *)
Definition slice_wf (h : Heap A) (s : GoSlice) : Prop :=
  (s_len s <= s_cap s)%nat /\ (s_off s + s_cap s <= length (array h (s_arr s)))%nat.

(** The array is [d] and what [d] leaves of [l], cut at [n]. *)
Lemma overwrite_before i d (l : list A) off n :
  (i + length d <= length l)%nat -> (off + n <= i)%nat ->
  take n (drop off (overwrite i d l)) = take n (drop off l).
Proof.
  intros Hl Ho. unfold overwrite. rewrite drop_app_le by (rewrite length_take; lia).
  rewrite take_app_le by (rewrite length_drop, length_take; lia).
  rewrite <- (take_drop i l) at 2. rewrite drop_app_le by (rewrite length_take; lia).
  by rewrite take_app_le by (rewrite length_drop, length_take; lia).
Qed.

Lemma overwrite_at i d (l : list A) :
  (i + length d <= length l)%nat -> take (length d) (drop i (overwrite i d l)) = d.
Proof.
  intros Hl. unfold overwrite. rewrite drop_app_length' by (rewrite length_take; lia).
  by rewrite take_app_length.
Qed.

(** What is written directly behind a window extends it. *)
Lemma overwrite_extend d (l : list A) off n :
  (off + n + length d <= length l)%nat ->
  take (n + length d) (drop off (overwrite (off + n) d l)) = take n (drop off l) ++ d.
Proof.
  intros Hl. rewrite <- take_take_drop.
  rewrite overwrite_before by lia. f_equal. rewrite drop_drop. by apply overwrite_at.
Qed.

Lemma length_overwrite i d (l : list A) :
  (i + length d <= length l)%nat -> length (overwrite i d l) = length l.
Proof. intros. unfold overwrite. rewrite !length_app, length_take, length_drop. lia. Qed.

Lemma slice_wf_nil (h : Heap A) : slice_wf h nil_slice.
Proof. unfold slice_wf. cbn. lia. Qed.

Lemma length_load (h : Heap A) s : slice_wf h s -> length (load h s) = s_len s.
Proof. intros [? ?]. unfold load. rewrite length_take, length_drop. lia. Qed.

Lemma array_bound (h : Heap A) a : (0 < length (array h a))%nat -> (a < length h)%nat.
Proof.
  unfold array. destruct (h !! a) eqn:E; cbn; [|lia]. intros _. by apply lookup_lt_Some in E.
Qed.

Lemma array_alloc (h : Heap A) c a : (a < length h)%nat -> array (h ++ [c]) a = array h a.
Proof. intros. unfold array. by rewrite lookup_app_l. Qed.

Lemma array_alloc_new (h : Heap A) c : array (h ++ [c]) (length h) = c.
Proof. unfold array. by rewrite list_lookup_middle. Qed.

Lemma array_store (h : Heap A) a i d b :
  (a < length h)%nat -> array (store h a i d) b = if decide (a = b) then overwrite i d (array h a) else array h b.
Proof.
  intros Ha. unfold array at 1, store. destruct (decide (a = b)) as [<-|Hn].
  - by rewrite list_lookup_insert_eq.
  - by rewrite list_lookup_insert_ne.
Qed.

Lemma length_store (h : Heap A) a i d : length (store h a i d) = length h.
Proof. apply length_insert. Qed.

(** Sub-slices. *)
Lemma reslice_wf (h : Heap A) s i j :
  slice_wf h s -> (i <= j <= s_len s)%nat -> slice_wf h (reslice s i j).
Proof. unfold slice_wf, reslice. cbn. lia. Qed.

Lemma load_prefix (h : Heap A) s n : slice_wf h s -> (n <= s_len s)%nat -> load h (reslice s 0 n) = take n (load h s).
Proof.
  intros _ Hn. unfold load, reslice. cbn. rewrite Nat.add_0_r, Nat.sub_0_r, take_take. f_equal. lia.
Qed.

Lemma load_suffix (h : Heap A) s n : load h (reslice s n (s_len s)) = drop n (load h s).
Proof.
  unfold load, reslice. cbn. by rewrite skipn_firstn_comm, drop_drop.
Qed.

(** What another part of the program does to other arrays, or in front of or
    behind the window, does not matter. *)
Lemma load_same (h h' : Heap A) s :
  array h' (s_arr s) = array h (s_arr s) -> load h' s = load h s /\ (slice_wf h s -> slice_wf h' s).
Proof. intros E. unfold load, slice_wf. by rewrite E. Qed.

Lemma load_empty (h : Heap A) s : s_len s = 0%nat -> load h s = [].
Proof. intros E. unfold load. by rewrite E. Qed.

Lemma slice_bound (h : Heap A) s : slice_wf h s -> (0 < s_len s)%nat -> (s_arr s < length h)%nat.
Proof. intros [? ?] ?. apply array_bound. lia. Qed.

Lemma store_nil (h : Heap A) a i : store h a i [] = h.
Proof.
  unfold store, overwrite. cbn. rewrite Nat.add_0_r, take_drop. unfold array.
  destruct (h !! a) eqn:E; cbn; [by apply list_insert_id|].
  by rewrite list_insert_ge by by apply lookup_ge_None.
Qed.

Lemma load_store_before (h : Heap A) a i d s :
  slice_wf h s -> (i + length d <= length (array h a))%nat ->
  (0 < s_len s -> s_arr s = a -> s_off s + s_len s <= i)%nat ->
  load (store h a i d) s = load h s /\ slice_wf (store h a i d) s.
Proof.
  intros Hs Hd Hb. destruct d as [|x d]; [by rewrite store_nil|].
  assert (Ha : (a < length h)%nat) by (apply array_bound; cbn in Hd; lia).
  destruct (decide (a = s_arr s)) as [E|E].
  - split.
    + destruct (decide (s_len s = 0%nat)) as [Hz|Hz]; [by rewrite !load_empty|].
      unfold load. rewrite array_store by done. rewrite decide_True by done. subst a.
      apply overwrite_before; [done|]. apply Hb; [lia|done].
    + destruct Hs as [Hl Hc]. split; [done|]. rewrite array_store by done.
      rewrite decide_True by done. subst a. by rewrite length_overwrite.
  - destruct (load_same h (store h a i (x :: d)) s) as [-> Hw]; [|auto].
    rewrite array_store by done. by rewrite decide_False.
Qed.

Lemma load_alloc (h : Heap A) c s : slice_wf h s -> load (h ++ [c]) s = load h s /\ slice_wf (h ++ [c]) s.
Proof.
  intros Hs. destruct (decide (s_arr s < length h)%nat) as [Hb|Hb].
  - destruct (load_same h (h ++ [c]) s) as [-> Hw]; [by apply array_alloc|auto].
  - assert (Hz : array h (s_arr s) = []) by (unfold array; by rewrite lookup_ge_None_2 by lia).
    destruct Hs as [Hl Hc]. rewrite Hz in Hc. cbn in Hc. split.
    + by rewrite !load_empty by lia.
    + split; [done|]. lia.
Qed.

(** [append] gives a slice of the elements of [s] and [d].  Either it is a
    longer window on the same array, or its array is new. *)
Lemma append_spec (spare : list A) (h h' : Heap A) s s' d :
  slice_wf h s -> append spare h s d = (h', s') ->
  load h' s' = load h s ++ d /\ slice_wf h' s'
  /\ ((s_arr s' = s_arr s /\ s_off s' = s_off s /\ s_cap s' = s_cap s
       /\ h' = store h (s_arr s) (s_off s + s_len s) d
       /\ (s_off s + s_len s + length d <= length (array h (s_arr s)))%nat)
      \/ (s_arr s' = length h /\ exists c, h' = h ++ [c])).
Proof.
  intros Hs. pose proof Hs as [Hl Hc]. unfold append.
  destruct (Nat.leb_spec (s_len s + length d) (s_cap s)) as [Hr|Hr].
  - intros [= <- <-]. split; [|split].
    + destruct d as [|x d]; [rewrite store_nil, app_nil_r; unfold load; cbn; by rewrite Nat.add_0_r|].
      assert (s_arr s < length h)%nat by (apply array_bound; cbn in Hr; lia).
      unfold load. cbn [s_arr s_off s_len]. rewrite array_store by done. rewrite decide_True by done.
      apply overwrite_extend. lia.
    + destruct (load_store_before h (s_arr s) (s_off s + s_len s) d s) as [_ [_ Hw]]; [done|lia|lia|].
      split; cbn; lia.
    + left. repeat split. lia.
  - intros [= <- <-]. split; [|split].
    + unfold load at 1. cbn. rewrite array_alloc_new, app_assoc.
      apply take_app_length'. by rewrite length_app, length_load.
    + split; cbn; rewrite ?array_alloc_new, !length_app, ?length_load by done; lia.
    + right. eauto.
Qed.

(** A window that does not reach behind the start of [s] keeps its elements,
    and does not reach behind the start of the new slice either. *)
Definition before (p s : GoSlice) : Prop :=
  (0 < s_len p -> 0 < s_cap s -> s_arr p = s_arr s -> s_off p + s_len p <= s_off s)%nat.

Lemma append_frame (spare : list A) (h h' : Heap A) s s' d p :
  slice_wf h s -> append spare h s d = (h', s') -> slice_wf h p -> before p s ->
  load h' p = load h p /\ slice_wf h' p /\ before p s'.
Proof.
  intros Hs Happ Hp Hb. destruct (append_spec spare h h' s s' d Hs Happ) as (_ & _ & [H|H]).
  - destruct H as (Ea & Eo & Ec & -> & Hf). split; [|split].
    3:{ unfold before. by rewrite Ea, Eo, Ec. }
    all: destruct (decide (d = [])) as [->|Hd]; [by rewrite store_nil|].
    all: destruct (load_store_before h (s_arr s) (s_off s + s_len s) d p Hp) as [? ?]; [lia| |done].
    all: intros Hl E; enough (s_off p + s_len p <= s_off s)%nat by lia; apply Hb; [done| |done].
    all: revert Happ; unfold append; destruct (Nat.leb_spec (s_len s + length d) (s_cap s)) as [Hr|Hr];
      [destruct d; [done|cbn in Hr; lia]|intros [= E1 _]; apply (f_equal length) in E1].
    all: rewrite length_app, length_store in E1; cbn in E1; lia.
  - destruct H as (Ea & c & ->). destruct (load_alloc h c p Hp) as [? ?]. split; [done|]. split; [done|].
    intros Hl _ E. pose proof (slice_bound h p Hp Hl). lia.
Qed.

Lemma length_append (spare : list A) (h h' : Heap A) s s' d :
  append spare h s d = (h', s') -> (length h <= length h')%nat.
Proof. unfold append. case_bool; intros [= <- <-]; [by rewrite length_store|rewrite length_app; lia]. Qed.

(** Writing keeps the sizes of the arrays. *)
Lemma store_wf (h : Heap A) a i d s :
  (i + length d <= length (array h a))%nat -> slice_wf h s -> slice_wf (store h a i d) s.
Proof.
  intros Hd Hs. destruct d as [|x d]; [by rewrite store_nil|].
  assert (Ha : (a < length h)%nat) by (apply array_bound; cbn in Hd; lia).
  destruct Hs. split; [done|]. rewrite array_store by done. case_decide; [subst; by rewrite length_overwrite|done].
Qed.

End Mem.

Arguments load : simpl never.
