(* ===== verification/GoStd.v ===== *)
(** * The parts of Go's standard library the source uses on bytes

    [bytes.TrimSpace] and friends, [encoding/base64]'s [RawStdEncoding] and
    [encoding/hex]'s [DecodeString], as functions on byte lists.  They are not
    code of the repository; the translated code calls them. *)

From S2P Require Import Prelude.

(** ** Trimming *)

Definition ascii_space (c : byte) : bool :=
  ((9 <=? b2z c) && (b2z c <=? 13)) || (b2z c =? 32).

(** The UTF-8 encodings of the non-ASCII runes with [unicode.IsSpace]:
    U+0085, U+00A0, then U+1680, U+2000..U+200A, U+2028, U+2029, U+202F,
    U+205F and U+3000. *)
Definition rune2_space (a b : byte) : bool :=
  (b2z a =? 0xC2) && ((b2z b =? 0x85) || (b2z b =? 0xA0)).

Definition rune3_space (a b c : byte) : bool :=
  let x := b2z a in let y := b2z b in let z := b2z c in
  ((x =? 0xE1) && (y =? 0x9A) && (z =? 0x80))
  || ((x =? 0xE2) && (y =? 0x80)
      && (((0x80 <=? z) && (z <=? 0x8A)) || (z =? 0xA8) || (z =? 0xA9) || (z =? 0xAF)))
  || ((x =? 0xE2) && (y =? 0x81) && (z =? 0x9F))
  || ((x =? 0xE3) && (y =? 0x80) && (z =? 0x80)).

Fixpoint trim_runes (r2 : byte -> byte -> bool) (r3 : byte -> byte -> byte -> bool)
    (l : bytes) : bytes :=
  match l with
  | [] => []
  | a :: t =>
      if ascii_space a then trim_runes r2 r3 t else
      match t with
      | b :: t' =>
          if r2 a b then trim_runes r2 r3 t' else
          match t' with
          | c :: t'' => if r3 a b c then trim_runes r2 r3 t'' else l
          | [] => l
          end
      | [] => l
      end
  end.

Definition trim_left_space (l : bytes) : bytes := trim_runes rune2_space rune3_space l.
Definition trim_right_space (l : bytes) : bytes :=
  rev (trim_runes (fun a b => rune2_space b a) (fun a b c => rune3_space c b a) (rev l)).

(** [bytes.TrimSpace], [strings.TrimSpace]. *)
Definition TrimSpace (l : bytes) : bytes := trim_right_space (trim_left_space l).

Fixpoint drop_while (p : byte -> bool) (l : bytes) : bytes :=
  match l with
  | [] => []
  | a :: t => if p a then drop_while p t else l
  end.

(** [TrimRight(l, cutset)], [TrimLeft(l, cutset)] and [Trim(l, cutset)], for an
    ASCII cutset. *)
Definition in_cutset (cut : bytes) (c : byte) : bool := bool_decide (c ∈ cut).
Definition TrimLeft (l cut : bytes) : bytes := drop_while (in_cutset cut) l.
Definition TrimRight (l cut : bytes) : bytes := rev (drop_while (in_cutset cut) (rev l)).
Definition Trim (l cut : bytes) : bytes := TrimRight (TrimLeft l cut) cut.

Lemma trim_left_space_id (a : byte) (t : bytes) :
  b2z a < 128 -> ascii_space a = false -> trim_left_space (a :: t) = a :: t.
Proof.
  intros Ha Hs. unfold trim_left_space. cbn [trim_runes]. rewrite Hs.
  destruct t as [|b t]; [done|].
  unfold rune2_space. rewrite (proj2 (Z.eqb_neq (b2z a) _)) by lia. cbn [andb].
  destruct t as [|c t]; [done|].
  unfold rune3_space. by rewrite !(proj2 (Z.eqb_neq (b2z a) _)) by lia.
Qed.

Lemma trim_right_space_id (a : byte) (t : bytes) :
  b2z a < 128 -> ascii_space a = false -> trim_right_space (t ++ [a]) = t ++ [a].
Proof.
  intros Ha Hs. unfold trim_right_space. rewrite rev_app_distr. cbn [rev app].
  rewrite <- (rev_involutive (t ++ [a])), rev_app_distr. cbn [rev app]. f_equal.
  generalize (rev t). clear t. intros t.
  cbn [trim_runes]. rewrite Hs. destruct t as [|b t]; [done|].
  unfold rune2_space. rewrite (proj2 (Z.eqb_neq (b2z a) _)) by lia.
  rewrite (proj2 (Z.eqb_neq (b2z a) _)) by lia.
  rewrite andb_false_r. destruct t as [|c t]; [done|].
  unfold rune3_space.
  destruct (Z.eqb_spec (b2z c) 0xE1), (Z.eqb_spec (b2z c) 0xE2), (Z.eqb_spec (b2z c) 0xE3);
  rewrite ?(proj2 (Z.leb_gt _ (b2z a))) by lia;
  rewrite ?(proj2 (Z.eqb_neq (b2z a) _)) by lia;
  rewrite ?andb_false_r; cbn [orb andb]; rewrite ?andb_false_r; done.
Qed.

(** Text whose every byte is ASCII and not white space is left alone. *)
Definition graph_byte (c : byte) : Prop := b2z c < 128 /\ ascii_space c = false.

Lemma TrimSpace_graph (l : bytes) : Forall graph_byte l -> TrimSpace l = l.
Proof.
  intros Hl. unfold TrimSpace. destruct l as [|a t]; [done|].
  rewrite trim_left_space_id by (inversion Hl as [|? ? []]; done).
  destruct (exists_last (l := a :: t)) as (t' & b & E); [done|].
  rewrite E in *. apply Forall_app in Hl as [_ Hb].
  apply trim_right_space_id; by inversion Hb as [|? ? []].
Qed.

Lemma drop_while_id (p : byte -> bool) (l : bytes) :
  Forall (fun c => p c = false) l -> drop_while p l = l.
Proof. intros H. destruct H as [|a t Ha Ht]; [done|]. cbn. by rewrite Ha. Qed.

Lemma TrimRight_id (l cut : bytes) :
  Forall (fun c => in_cutset cut c = false) l -> TrimRight l cut = l.
Proof.
  intros H. unfold TrimRight. rewrite drop_while_id; [apply rev_involutive|].
  apply Forall_rev. done.
Qed.

(** Characters of the cutset appended on the right are removed. *)
Lemma TrimRight_replicate (l cut : bytes) (k : nat) (x : byte) :
  in_cutset cut x = true -> TrimRight (l ++ replicate k x) cut = TrimRight l cut.
Proof.
  intros Hx. unfold TrimRight. f_equal. rewrite rev_app_distr.
  assert (Hr : forall k, rev (replicate k x) = replicate k x).
  { intros j. induction j as [|j IH]; [done|]. cbn [replicate rev]. rewrite IH.
    symmetry. apply replicate_cons_app. }
  rewrite Hr. induction k as [|k IH]; [done|]. cbn. by rewrite Hx.
Qed.

(** ** base64.RawStdEncoding *)

Definition b64_alphabet : bytes :=
  str "ABCDEFGHIJKLMNOPQRSTUVWXYZabcdefghijklmnopqrstuvwxyz0123456789+/".

Definition b64_char (v : Z) : byte := default Byte.x00 (b64_alphabet !! Z.to_nat v).

Definition b64_val (c : byte) : option Z :=
  let z := b2z c in
  if (65 <=? z) && (z <=? 90) then Some (z - 65)
  else if (97 <=? z) && (z <=? 122) then Some (z - 71)
  else if (48 <=? z) && (z <=? 57) then Some (z + 4)
  else if z =? 43 then Some 62
  else if z =? 47 then Some 63
  else None.

(** [Encode]: three bytes to four characters, with no padding at the end. *)
Fixpoint b64_encode (src : bytes) : bytes :=
  match src with
  | a :: b :: c :: rest =>
      let v := b2z a * 65536 + b2z b * 256 + b2z c in
      b64_char (v / 262144) :: b64_char (v / 4096 mod 64)
      :: b64_char (v / 64 mod 64) :: b64_char (v mod 64) :: b64_encode rest
  | [a; b] =>
      let v := b2z a * 65536 + b2z b * 256 in
      [b64_char (v / 262144); b64_char (v / 4096 mod 64); b64_char (v / 64 mod 64)]
  | [a] =>
      let v := b2z a * 65536 in
      [b64_char (v / 262144); b64_char (v / 4096 mod 64)]
  | [] => []
  end.

(** [EncodedLen] of an unpadded encoding. *)
Definition b64_EncodedLen (n : Z) : Z := n / 3 * 4 + (n mod 3 * 8 + 5) / 6.

Fixpoint b64_quanta (l : list Z) : option bytes :=
  match l with
  | a :: b :: c :: d :: rest =>
      let v := a * 262144 + b * 4096 + c * 64 + d in
      out ← b64_quanta rest;
      Some (z2b (v / 65536) :: z2b (v / 256) :: z2b v :: out)
  | [a; b; c] =>
      let v := a * 262144 + b * 4096 + c * 64 in
      Some [z2b (v / 65536); z2b (v / 256)]
  | [a; b] => Some [z2b ((a * 262144 + b * 4096) / 65536)]
  | [_] => None
  | [] => Some []
  end.

(** [Decode]: carriage returns and line feeds are skipped, any other character
    outside the alphabet (the padding character included) is an error, and so
    is a lone last character.  Trailing bits are not checked (the encoding is
    not [Strict]). *)
Definition is_crlf (c : byte) : bool := (b2z c =? 10) || (b2z c =? 13).

Definition b64_decode (src : bytes) : option bytes :=
  vs ← mapM b64_val (List.filter (fun c => negb (is_crlf c)) src);
  b64_quanta vs.

Definition b64_table_ok : bool :=
  forallb (fun n => let v := Z.of_nat n in let c := b64_char v in
    bool_decide (b64_val c = Some v) && negb (is_crlf c)
    && negb (ascii_space c) && (b2z c <? 128) && negb (b2z c =? 61)) (seq 0 64).

Lemma b64_table : b64_table_ok = true.
Proof. vm_compute. reflexivity. Qed.

Lemma b64_char_spec (v : Z) : 0 <= v < 64 ->
  b64_val (b64_char v) = Some v /\ is_crlf (b64_char v) = false
  /\ graph_byte (b64_char v) /\ b2z (b64_char v) <> 61.
Proof.
  intros Hv. pose proof b64_table as H. unfold b64_table_ok in H.
  rewrite forallb_forall in H. specialize (H (Z.to_nat v)).
  rewrite Z2Nat.id in H by lia.
  assert (Hin : In (Z.to_nat v) (seq 0 64)) by (apply in_seq; lia).
  specialize (H Hin). b2p. unfold graph_byte.
  repeat split; try done. by eapply bool_decide_eq_true_1.
Qed.

(** The induction that follows the three-byte groups of [b64_encode]. *)
Lemma triples_ind (P : bytes -> Prop) :
  P [] -> (forall a, P [a]) -> (forall a b, P [a; b]) ->
  (forall a b c l, P l -> P (a :: b :: c :: l)) -> forall l, P l.
Proof.
  intros H0 H1 H2 H3. fix IH 1. intros [|a [|b [|c l]]];
    [apply H0|apply H1|apply H2|apply H3, IH].
Qed.

(** Every character of an encoding is in the alphabet: its sextets. *)
Fixpoint sextets (src : bytes) : list Z :=
  match src with
  | a :: b :: c :: rest =>
      let v := b2z a * 65536 + b2z b * 256 + b2z c in
      v / 262144 :: v / 4096 mod 64 :: v / 64 mod 64 :: v mod 64 :: sextets rest
  | [a; b] =>
      let v := b2z a * 65536 + b2z b * 256 in
      [v / 262144; v / 4096 mod 64; v / 64 mod 64]
  | [a] => let v := b2z a * 65536 in [v / 262144; v / 4096 mod 64]
  | [] => []
  end.

Ltac byte_ranges :=
  repeat match goal with
         | b : byte |- _ =>
             lazymatch goal with
             | _ : 0 <= b2z b < 256 |- _ => fail
             | _ => pose proof (b2z_range b)
             end
         end.

Ltac div_lia := byte_ranges; Z.to_euclidean_division_equations; lia.

Lemma b64_encode_sextets (src : bytes) : b64_encode src = map b64_char (sextets src).
Proof.
  induction src as [| | |a b c l IH] using triples_ind; try done.
  cbn [b64_encode sextets map]. by rewrite IH.
Qed.

Lemma sextets_range (src : bytes) : Forall (fun v => 0 <= v < 64) (sextets src).
Proof.
  induction src as [|a|a b|a b c l IH] using triples_ind; cbn [sextets];
    repeat constructor; try done; try div_lia.
Qed.

Lemma z2b_eq (z : Z) (b : byte) : z mod 256 = b2z b -> z2b z = b.
Proof. intros H. apply b2z_inj. by rewrite b2z_z2b. Qed.

Lemma b64_quanta_sextets (src : bytes) : b64_quanta (sextets src) = Some src.
Proof.
  induction src as [|a|a b|a b c l IH] using triples_ind; cbn [sextets].
  - done.
  - cbn [b64_quanta]. f_equal. f_equal. apply z2b_eq. div_lia.
  - cbn [b64_quanta]. f_equal. f_equal; [|f_equal]; apply z2b_eq; div_lia.
  - cbn [b64_quanta]. rewrite IH. cbn. do 2 f_equal; [|f_equal; [|f_equal]];
      apply z2b_eq; div_lia.
Qed.

Lemma mapM_b64_val (vs : list Z) :
  Forall (fun v => 0 <= v < 64) vs -> mapM b64_val (map b64_char vs) = Some vs.
Proof.
  induction 1 as [|v vs Hv _ IH]; [done|]. cbn [map mapM].
  destruct (b64_char_spec v Hv) as [Hval _]. rewrite Hval. cbn [mbind option_bind].
  by rewrite IH.
Qed.

Lemma b64_filter_id (vs : list Z) :
  Forall (fun v => 0 <= v < 64) vs ->
  List.filter (fun c => negb (is_crlf c)) (map b64_char vs) = map b64_char vs.
Proof.
  induction 1 as [|v vs Hv _ IH]; [done|]. cbn [map List.filter].
  destruct (b64_char_spec v Hv) as (_ & Hc & _). rewrite Hc. cbn [negb].
  by rewrite IH.
Qed.

Lemma b64_decode_encode (src : bytes) : b64_decode (b64_encode src) = Some src.
Proof.
  unfold b64_decode. rewrite b64_encode_sextets.
  rewrite b64_filter_id, mapM_b64_val by apply sextets_range.
  apply b64_quanta_sextets.
Qed.

Lemma b64_encode_graph (src : bytes) : Forall graph_byte (b64_encode src).
Proof.
  rewrite b64_encode_sextets. apply Forall_map.
  eapply Forall_impl; [apply sextets_range|]. intros v Hv. by apply b64_char_spec.
Qed.

Lemma b64_encode_nopad (src : bytes) :
  Forall (fun c => in_cutset (str "=") c = false) (b64_encode src).
Proof.
  rewrite b64_encode_sextets. apply Forall_map.
  eapply Forall_impl; [apply sextets_range|]. intros v Hv.
  destruct (b64_char_spec v Hv) as (_ & _ & _ & Hne). cbn. unfold in_cutset.
  apply bool_decide_eq_false_2. change (str "=") with [z2b 61].
  intros Heq%list_elem_of_singleton. apply Hne. by rewrite Heq.
Qed.

Lemma len_b64_encode (src : bytes) :
  len (b64_encode src) = b64_EncodedLen (len src).
Proof.
  unfold b64_EncodedLen.
  induction src as [|a|a b|a b c l IH] using triples_ind; try done.
  cbn [b64_encode]. rewrite !len_cons, IH. pose proof (len_nonneg l).
  generalize (len l) as n, (len_nonneg l). clear. intros n Hn.
  Z.to_euclidean_division_equations. lia.
Qed.

(** ** hex.DecodeString *)

Definition hex_val (c : byte) : option Z :=
  let z := b2z c in
  if (48 <=? z) && (z <=? 57) then Some (z - 48)
  else if (97 <=? z) && (z <=? 102) then Some (z - 87)
  else if (65 <=? z) && (z <=? 70) then Some (z - 55)
  else None.

(** An odd length or a character outside [0-9a-fA-F] is an error. *)
Fixpoint hex_decode (s : bytes) : option bytes :=
  match s with
  | [] => Some []
  | [_] => None
  | a :: b :: rest =>
      x ← hex_val a; y ← hex_val b; out ← hex_decode rest;
      Some (z2b (x * 16 + y) :: out)
  end.

(** ** Prefixes, substrings, splitting, case *)

(** [bytes.HasPrefix], [strings.HasPrefix]. *)
Fixpoint HasPrefix (l prefix : bytes) : bool :=
  match prefix, l with
  | [], _ => true
  | p :: ps, a :: t => bool_decide (p = a) && HasPrefix t ps
  | _ :: _, [] => false
  end.

(** [strings.Contains]. *)
Fixpoint Contains (l pat : bytes) : bool :=
  HasPrefix l pat || match l with [] => false | _ :: t => Contains t pat end.

(** [strings.Split(l, string(sep))] for a one-byte separator. *)
Fixpoint Split (l : bytes) (sep : byte) : list bytes :=
  match l with
  | [] => [[]]
  | a :: t =>
      if bool_decide (a = sep) then [] :: Split t sep
      else match Split t sep with
           | p :: ps => (a :: p) :: ps
           | [] => [[a]]
           end
  end.

(** [strings.ToLower] as far as ASCII text can see it: the two non-ASCII runes
    whose lower case is ASCII are U+212A (Kelvin sign, to k) and U+0130 (capital
    I with a dot, to i); the other non-ASCII runes stay non-ASCII, and are kept
    here as they are. *)
Definition lower_ascii (c : byte) : byte :=
  if (65 <=? b2z c) && (b2z c <=? 90) then z2b (b2z c + 32) else c.

Fixpoint ToLower (l : bytes) : bytes :=
  match l with
  | [] => []
  | a :: t =>
      match t with
      | b :: t' =>
          if (b2z a =? 0xC4) && (b2z b =? 0xB0) then z2b 105 :: ToLower t' else
          match t' with
          | c :: t'' =>
              if (b2z a =? 0xE2) && (b2z b =? 0x84) && (b2z c =? 0xAA)
              then z2b 107 :: ToLower t''
              else lower_ascii a :: ToLower t
          | [] => lower_ascii a :: ToLower t
          end
      | [] => [lower_ascii a]
      end
  end.

Lemma HasPrefix_spec (l p : bytes) : HasPrefix l p = true <-> exists rest, l = p ++ rest.
Proof.
  revert l. induction p as [|x p IH]; intros l; cbn [HasPrefix].
  { destruct l; (split; [by eexists|done]). }
  destruct l as [|a t]; [split; [done|by intros [? ?]]|].
  cbn [HasPrefix app]. rewrite andb_true_iff, bool_decide_eq_true, IH. split.
  - intros [-> [rest ->]]. by exists rest.
  - intros [rest [= -> ->]]. split; [done|by exists rest].
Qed.

Lemma Contains_spec (l p : bytes) : Contains l p = true <-> exists pre post, l = pre ++ p ++ post.
Proof.
  induction l as [|a t IH]; cbn [Contains]; rewrite orb_true_iff, HasPrefix_spec.
  - split.
    + intros [[rest H]|]; [by exists [], rest|done].
    + intros ([|? ?] & post & H); [left; by exists post|done].
  - rewrite IH. split.
    + intros [[rest ->]|(pre & post & ->)]; [by exists [], rest|by exists (a :: pre), post].
    + intros ([|x pre] & post & H); [left; by exists post|].
      injection H as -> ->. right. by exists pre, post.
Qed.

Lemma ToLower_ascii_head (a : byte) (t : bytes) :
  b2z a < 128 -> exists t', ToLower (a :: t) = lower_ascii a :: t'.
Proof.
  intros Ha. cbn [ToLower]. destruct t as [|b t]; [by eexists|].
  rewrite (proj2 (Z.eqb_neq (b2z a) 0xC4)) by lia. cbn [andb].
  destruct t as [|c t]; [by eexists|].
  rewrite (proj2 (Z.eqb_neq (b2z a) 0xE2)) by lia. by eexists.
Qed.
