(* ===== verification/GoText.v ===== *)
(** * Text of Go's standard library: trimming, decimal numbers, JSON values

    [strings.TrimSuffix] and the idempotence of [TrimSpace], [strconv.Itoa] and
    [strconv.Atoi] with their round trip, [strings.Join], and the tree of a
    decoded JSON text.  Parsing and printing JSON text itself is an argument
    of the definitions that need it. *)

From S2P Require Import Prelude GoStd.

(** ** Trimming *)

Lemma trim_runes_cons r2 r3 a t :
  trim_runes r2 r3 (a :: t) = if ascii_space a then trim_runes r2 r3 t else
    match t with
    | b :: t' =>
        if r2 a b then trim_runes r2 r3 t' else
        match t' with
        | c :: t'' => if r3 a b c then trim_runes r2 r3 t'' else a :: t
        | [] => a :: t
        end
    | [] => a :: t
    end.
Proof. done. Qed.

(** The three ways [trim_runes] goes on or stops. *)
Lemma trim_runes_cases r2 r3 (P : bytes -> bytes -> Prop) :
  (forall l, trim_runes r2 r3 l = l -> P l l) ->
  (forall p l, P l (trim_runes r2 r3 l) -> P (p ++ l) (trim_runes r2 r3 l)) ->
  forall l, P l (trim_runes r2 r3 l).
Proof.
  intros Hstop Hskip l. induction l as [l IH] using (induction_ltof1 _ (@length byte)). unfold ltof in IH.
  destruct l as [|a t]; [by apply Hstop|].
  pose proof (trim_runes_cons r2 r3 a t) as E.
  assert (Hid : trim_runes r2 r3 (a :: t) = a :: t -> P (a :: t) (trim_runes r2 r3 (a :: t))).
  { intros H. rewrite H. by apply Hstop. }
  rewrite E in *. destruct (ascii_space a); [by apply (Hskip [a]), IH; cbn; lia|].
  destruct t as [|b t]; [by apply Hid|].
  destruct (r2 a b); [by apply (Hskip [a; b]), IH; cbn; lia|].
  destruct t as [|c t]; [by apply Hid|].
  destruct (r3 a b c); [by apply (Hskip [a; b; c]), IH; cbn; lia|by apply Hid].
Qed.

Lemma trim_runes_idem r2 r3 l : trim_runes r2 r3 (trim_runes r2 r3 l) = trim_runes r2 r3 l.
Proof. by apply (trim_runes_cases r2 r3 (fun _ r => trim_runes r2 r3 r = r)). Qed.

Lemma trim_runes_suffix r2 r3 l : exists p, l = p ++ trim_runes r2 r3 l.
Proof.
  apply (trim_runes_cases r2 r3 (fun l r => exists p, l = p ++ r)); [by exists []|].
  intros p k [q Hq]. exists (p ++ q). by rewrite <- app_assoc, <- Hq.
Qed.

Lemma trim_runes_len r2 r3 l : (length (trim_runes r2 r3 l) <= length l)%nat.
Proof. destruct (trim_runes_suffix r2 r3 l) as [p Hp]. rewrite Hp at 2. rewrite length_app. lia. Qed.

Lemma trim_runes_prefix r2 r3 p q : trim_runes r2 r3 (p ++ q) = p ++ q -> trim_runes r2 r3 p = p.
Proof.
  assert (Hlong : forall x l, trim_runes r2 r3 l <> x ++ l \/ x = []).
  { intros [|y x] l; [by right|left]. intros He. pose proof (trim_runes_len r2 r3 l).
    rewrite He, length_app in *. cbn in *. lia. }
  destruct p as [|a [|b [|c t]]]; cbn [app]; [done|..]; intros H.
  all: rewrite trim_runes_cons in H |- *; destruct (ascii_space a);
    [match type of H with trim_runes _ _ ?l = _ => destruct (Hlong [a] l) as [Hn|Hn]; [by destruct (Hn H)|done] end|]; try done.
  all: destruct (r2 a b);
    [match type of H with trim_runes _ _ ?l = _ => destruct (Hlong [a; b] l) as [Hn|Hn]; [by destruct (Hn H)|done] end|]; try done.
  destruct (r3 a b c);
    [match type of H with trim_runes _ _ ?l = _ => destruct (Hlong [a; b; c] l) as [Hn|Hn]; [by destruct (Hn H)|done] end|done].
Qed.

Lemma TrimSpace_idem l : TrimSpace (TrimSpace l) = TrimSpace l.
Proof.
  unfold TrimSpace. set (l1 := trim_left_space l).
  assert (H1 : trim_left_space l1 = l1) by apply trim_runes_idem.
  destruct (trim_runes_suffix (fun a b => rune2_space b a) (fun a b c => rune3_space c b a) (rev l1)) as [p Hp].
  assert (Hl : l1 = trim_right_space l1 ++ rev p).
  { unfold trim_right_space. rewrite <- rev_app_distr, <- Hp. by rewrite rev_involutive. }
  assert (H2 : trim_left_space (trim_right_space l1) = trim_right_space l1).
  { rewrite Hl in H1 at 1. rewrite Hl in H1 at 2. by apply trim_runes_prefix in H1. }
  rewrite H2. unfold trim_right_space at 1 2. by rewrite rev_involutive, trim_runes_idem.
Qed.

(** [strings.TrimSuffix]. *)
Definition TrimSuffix (l suffix : bytes) : bytes :=
  let n := (length l - length suffix)%nat in
  if bool_decide (drop n l = suffix) then take n l else l.

(** [strconv.Itoa] of a non-negative number: as many divisions as it has
    digits, and one per bit is enough. *)
Fixpoint itoa_loop (fuel : nat) (n : Z) (acc : bytes) : bytes :=
  match fuel with
  | O => acc
  | S fuel =>
      let acc := z2b (48 + n mod 10) :: acc in
      if n <? 10 then acc else itoa_loop fuel (n / 10) acc
  end.

Definition Itoa (n : Z) : bytes := itoa_loop (S (Z.to_nat (Z.log2 n))) n [].

(** [strconv.Atoi] on 64-bit integers. *)
Fixpoint atoi_digits (l : bytes) (acc : Z) : option Z :=
  match l with
  | [] => Some acc
  | c :: l =>
      if (48 <=? b2z c) && (b2z c <=? 57) then atoi_digits l (acc * 10 + (b2z c - 48)) else None
  end.

Definition in_int64 (z : Z) : option Z :=
  if (- 2 ^ 63 <=? z) && (z <? 2 ^ 63) then Some z else None.

Definition Atoi (l : bytes) : option Z :=
  match l with
  | [] => None
  | c :: rest =>
      if b2z c =? 43 then
        match rest with [] => None | _ => v ← atoi_digits rest 0; in_int64 v end
      else if b2z c =? 45 then
        match rest with [] => None | _ => v ← atoi_digits rest 0; in_int64 (- v) end
      else v ← atoi_digits l 0; in_int64 v
  end.

Definition is_digit (c : byte) : Prop := 48 <= b2z c <= 57.

Lemma digit_range n : is_digit (z2b (48 + n mod 10)).
Proof.
  unfold is_digit. rewrite b2z_z2b. pose proof (Z.mod_pos_bound n 10).
  rewrite Z.mod_small by lia. lia.
Qed.

Lemma digit_value n : b2z (z2b (48 + n mod 10)) - 48 = n mod 10.
Proof. rewrite b2z_z2b. pose proof (Z.mod_pos_bound n 10). rewrite Z.mod_small by lia. lia. Qed.

Lemma itoa_digits fuel n acc : Forall is_digit acc -> Forall is_digit (itoa_loop fuel n acc).
Proof.
  revert n acc. induction fuel as [|fuel IH]; intros n acc H; [done|]. cbn.
  assert (Hc : Forall is_digit (z2b (48 + n mod 10) :: acc)) by (constructor; [apply digit_range|done]).
  case_bool; [done|]. by apply IH.
Qed.

Lemma itoa_nonempty fuel n acc : (fuel <> 0)%nat \/ acc <> [] -> itoa_loop fuel n acc <> [].
Proof.
  revert n acc. induction fuel as [|fuel IH]; intros n acc H; cbn; [by destruct H|].
  case_bool; [done|]. apply IH. by right.
Qed.

Lemma atoi_itoa fuel n acc : 0 <= n < 2 ^ Z.of_nat fuel ->
  atoi_digits (itoa_loop fuel n acc) 0 = atoi_digits acc n.
Proof.
  revert n acc. induction fuel as [|fuel IH]; intros n acc [H0 H].
  { cbn in *. by assert (n = 0) as -> by lia. }
  cbn [itoa_loop]. pose proof (digit_range n) as Hd. unfold is_digit in Hd.
  pose proof (Z.div_mod n 10 ltac:(done)).
  assert (Hstep : forall m, atoi_digits (z2b (48 + n mod 10) :: acc) m = atoi_digits acc (m * 10 + n mod 10)).
  { intros m. cbn [atoi_digits]. rewrite !(proj2 (Z.leb_le _ _)) by lia. cbn [andb]. by rewrite digit_value. }
  destruct (Z.ltb_spec n 10).
  - rewrite Hstep. f_equal. rewrite Z.mod_small by lia. lia.
  - rewrite IH, Hstep; [f_equal; lia|].
    rewrite Nat2Z.inj_succ, Z.pow_succ_r in H by lia. split; [apply Z.div_pos; lia|].
    apply Z.div_lt_upper_bound; lia.
Qed.

Lemma Itoa_digits n : Forall is_digit (Itoa n).
Proof. by apply itoa_digits. Qed.

Lemma Itoa_nonempty n : Itoa n <> [].
Proof. apply itoa_nonempty. by left. Qed.

Lemma Itoa_value n : 0 <= n -> atoi_digits (Itoa n) 0 = Some n.
Proof.
  intros Hn. unfold Itoa. rewrite atoi_itoa; [done|]. split; [lia|].
  destruct (Z.eq_dec n 0) as [->|]; [done|].
  pose proof (Z.log2_spec n ltac:(lia)). pose proof (Z.log2_nonneg n).
  rewrite Nat2Z.inj_succ, Z2Nat.id by lia. lia.
Qed.

Lemma Atoi_Itoa n : 0 <= n < 2 ^ 63 -> Atoi (Itoa n) = Some n.
Proof.
  intros Hn. pose proof (Itoa_digits n) as Hd. pose proof (Itoa_value n ltac:(lia)) as Hv.
  destruct (Itoa n) as [|c rest] eqn:He; [by apply Itoa_nonempty in He|].
  assert (Hc : is_digit c) by by inversion Hd. unfold is_digit in Hc.
  unfold Atoi. rewrite !(proj2 (Z.eqb_neq _ _)) by lia. rewrite Hv. cbn. unfold in_int64.
  rewrite (proj2 (Z.leb_le _ _)), (proj2 (Z.ltb_lt _ _)) by lia. done.
Qed.

Lemma Itoa_free n (x : byte) : ~ 48 <= b2z x <= 57 -> x ∉ Itoa n.
Proof.
  intros Hx Hin. pose proof (Itoa_digits n) as Hd. rewrite Forall_forall in Hd. by apply Hx, Hd.
Qed.

(** [strings.Join]. *)
Fixpoint Join (parts : list bytes) (sep : bytes) : bytes :=
  match parts with
  | [] => []
  | [p] => p
  | p :: rest => p ++ sep ++ Join rest sep
  end.

(** ** [fmt]

    [%<w>s] and [%-<w>s]: the width counts characters. *)
Definition runes (s : bytes) : Z := len (List.filter (fun c => negb ((0x80 <=? b2z c) && (b2z c <? 0xc0))) s).
Definition spaces (n : Z) : bytes := replicate (Z.to_nat n) (z2b 32).
Definition pad_left (w : Z) (s : bytes) : bytes := spaces (w - runes s) ++ s.
Definition pad_right (w : Z) (s : bytes) : bytes := s ++ spaces (w - runes s).

(** ** JSON *)

(** Decoded JSON, with the members of an object in the order of the text, and
    [json.Unmarshal] from it.  A [null] leaves the zero value. *)
Inductive json :=
| JNull
| JBool (b : bool)
| JNumber (text : bytes)
| JString (s : bytes)
| JArray (l : list json)
| JObject (members : list (bytes * json)).

Definition un_string (j : json) : option bytes :=
  match j with JString s => Some s | JNull => Some [] | _ => None end.

Definition un_array (j : json) : option (list json) :=
  match j with JArray l => Some l | JNull => Some [] | _ => None end.

(** [encoding/json] on text: [json_print] is what [json.Marshal] writes for a
    value whose JSON form is the tree, [json_parse] the tree of a text that
    [json.Unmarshal] accepts.  The law holds of trees whose strings are ASCII
    (a string that is not UTF-8 would come back changed). *)
Class JsonLib := {
  json_print : json -> bytes;
  json_parse : bytes -> option json;
}.

Fixpoint json_strings (j : json) : list bytes :=
  match j with
  | JNull | JBool _ | JNumber _ => []
  | JString s => [s]
  | JArray l => concat (map json_strings l)
  | JObject ms => concat (map (fun m => fst m :: json_strings (snd m)) ms)
  end.

Definition ascii (s : bytes) : Prop := Forall (fun c => b2z c < 128) s.

Class JsonLibOk (J : JsonLib) : Prop := {
  json_roundtrip : forall j, Forall ascii (json_strings j) -> json_parse (json_print j) = Some j;
  json_object_text : forall ms, exists mid, json_print (JObject ms) = z2b 123 :: mid ++ [z2b 125];
}.

(** The text of an object has no white space around it. *)
Lemma TrimSpace_object {J : JsonLib} {JO : JsonLibOk J} ms :
  TrimSpace (json_print (JObject ms)) = json_print (JObject ms).
Proof.
  destruct (json_object_text ms) as [mid ->]. unfold TrimSpace.
  rewrite trim_left_space_id by done. apply (trim_right_space_id (z2b 125) (z2b 123 :: mid)); done.
Qed.
