(* ===== verification/Frame.v ===== *)
(** * internal/frame/frame.go: the plaintext frame and its wire format

    [Frame] is the Go struct; [Marshal] and [Unmarshal] are translated with the
    buffer writes, slice bounds and early returns of the code, in the result
    type of the prelude (so a slice out of range would be a [Panic]).  The
    theorems say that the two are exact inverses on well-formed frames and that
    [Unmarshal] never panics, whatever bytes it is given. *)

From S2P Require Import Prelude.

(** The flag bits and the size limits. *)
Definition FlagSYN : Z := 1.
Definition FlagFIN : Z := 2.
Definition FlagACK : Z := 4.
Definition FlagRST : Z := 8.

Definition SessionIDLen : Z := 16.
Definition maxTargetLen : Z := 255.
Definition maxPayloadSize : Z := 10 * 1024 * 1024.

Record Frame := mkFrame {
  SessionID : bytes;
  Seq : Z;
  Flags : Z;
  Target : bytes;
  Payload : bytes;
}.

#[export] Instance Frame_eq_dec : EqDecision Frame.
Proof. solve_decision. Defined.

Definition HasFlag (f : Frame) (flag : Z) : bool :=
  negb (Z.land (Flags f) flag =? 0).

Inductive frame_err :=
| TargetTooLong (n : Z)
| PayloadTooLarge (n : Z)
| ShortHeader
| ShortTargetLen
| ShortPayload.

Definition Marshal (f : Frame) : res frame_err bytes :=
  if maxTargetLen <? len (Target f) then Err (TargetTooLong (len (Target f))) else
  if maxPayloadSize <? len (Payload f) then Err (PayloadTooLarge (len (Payload f))) else
  let size := SessionIDLen + 8 + 1 + 1 + len (Target f) + 4 + len (Payload f) in
  let out := zeros size in
  let off := 0 in
  let! out := copy_to out off (SessionID f) in
  let off := off + SessionIDLen in
  let! out := put_uint 8 out off (Seq f) in
  let off := off + 8 in
  let! out := set_byte out off (z2b (Flags f)) in
  let off := off + 1 in
  let! out := set_byte out off (z2b (len (Target f))) in
  let off := off + 1 in
  let! out := copy_to out off (Target f) in
  let off := off + len (Target f) in
  let! out := put_uint 4 out off (u32 (len (Payload f))) in
  let off := off + 4 in
  copy_to out off (Payload f).

Definition Unmarshal (data : bytes) : res frame_err (Frame * Z) :=
  if len data <? SessionIDLen + 8 + 1 + 1 + 4 then Err ShortHeader else
  let off := 0 in
  let! id := slice data off (off + SessionIDLen) in
  let off := off + SessionIDLen in
  let! tail := slice data off (len data) in
  let! seq := read_uint 8 tail in
  let off := off + 8 in
  let! flags := index data off in
  let off := off + 1 in
  let! tb := index data off in
  let tlen := b2z tb in
  let off := off + 1 in
  if len data <? off + tlen + 4 then Err ShortTargetLen else
  let! target := if 0 <? tlen then slice data off (off + tlen) else Ok [] in
  let off := off + tlen in
  let! tail := slice data off (len data) in
  let! plen := read_uint 4 tail in
  let off := off + 4 in
  if maxPayloadSize <? plen then Err (PayloadTooLarge plen) else
  if len data <? off + plen then Err ShortPayload else
  let! payload := if 0 <? plen then slice data off (off + plen) else Ok [] in
  let off := off + plen in
  Ok (mkFrame id seq (b2z flags) target payload, off).

(** ** Well-formedness

    [frame_wf] is what the Go types of the fields guarantee ([[16]byte],
    [uint64], [uint8]); [frame_fits] is what [Marshal] checks. *)

Definition frame_wf (f : Frame) : Prop :=
  len (SessionID f) = SessionIDLen /\ 0 <= Seq f < 2 ^ 64 /\ 0 <= Flags f < 256.

Definition frame_fits (f : Frame) : Prop :=
  len (Target f) <= maxTargetLen /\ len (Payload f) <= maxPayloadSize.

#[export] Instance frame_wf_dec f : Decision (frame_wf f).
Proof. unfold frame_wf. apply _. Defined.

#[export] Instance frame_fits_dec f : Decision (frame_fits f).
Proof. unfold frame_fits. apply _. Defined.

(** The layout the comment above [Marshal] documents. *)
Definition wire (f : Frame) : bytes :=
  SessionID f ++ be_put 8 (Seq f) ++ [z2b (Flags f)] ++ [z2b (len (Target f))]
  ++ Target f ++ be_put 4 (len (Payload f)) ++ Payload f.

Lemma len_wire (f : Frame) :
  len (wire f) = len (SessionID f) + 14 + len (Target f) + len (Payload f).
Proof. unfold wire. autorewrite with golen. lia. Qed.

#[export] Hint Rewrite len_wire : golen.

Lemma Marshal_wire (f : Frame) :
  frame_wf f -> frame_fits f -> Marshal f = Ok (wire f).
Proof.
  intros (Hid & Hseq & Hfl) [Ht Hp].
  assert (Hp' : len (Payload f) < 2 ^ 32) by (unfold maxPayloadSize in Hp; lia).
  unfold Marshal, SessionIDLen in *.
  rewrite !(proj2 (Z.ltb_ge _ _)) by lia. cbv zeta.
  pose proof (len_nonneg (Target f)). pose proof (len_nonneg (Payload f)).
  unfold u32. rewrite (Z.mod_small (len (Payload f))) by lia.
  rewrite <- (app_nil_l (zeros _)).
  rewrite copy_zeros by len_tac. cbn [res_bind].
  rewrite put_uint_zeros by len_tac. cbn [res_bind].
  rewrite set_byte_zeros by len_tac. cbn [res_bind].
  rewrite set_byte_zeros by len_tac. cbn [res_bind].
  rewrite copy_zeros by len_tac. cbn [res_bind].
  rewrite put_uint_zeros by len_tac. cbn [res_bind].
  rewrite copy_zeros by len_tac.
  rewrite zeros_done, app_nil_r by lia.
  unfold wire. by rewrite app_nil_l, <- !app_assoc.
Qed.

(** [Marshal] rejects exactly the frames that do not fit. *)
Lemma Marshal_err (f : Frame) :
  frame_wf f ->
  (exists e, Marshal f = Err e) <-> ~ frame_fits f.
Proof.
  intros Hwf. split.
  - intros [e He] Hf. by rewrite Marshal_wire in He.
  - intros Hf. unfold Marshal.
    destruct (Z.ltb_spec maxTargetLen (len (Target f))); [eauto|].
    destruct (Z.ltb_spec maxPayloadSize (len (Payload f))); [eauto|].
    exfalso. apply Hf. by split.
Qed.

Lemma Marshal_ok_inv (f : Frame) (b : bytes) :
  frame_wf f -> Marshal f = Ok b -> frame_fits f /\ b = wire f.
Proof.
  intros Hwf Hm. destruct (decide (frame_fits f)) as [Hf|Hf].
  - rewrite Marshal_wire in Hm by done. by injection Hm as <-.
  - apply Marshal_err in Hf as [e He]; [congruence|done].
Qed.

(** ** [Unmarshal] *)

Ltac decompose_buffer :=
  match goal with
  | E : ?b = _ |- ?b = _ => rewrite E; rewrite <- ?app_assoc; cbn [app]; reflexivity
  end.

Lemma Unmarshal_wire (f : Frame) (rest : bytes) :
  frame_wf f -> frame_fits f ->
  Unmarshal (wire f ++ rest) = Ok (f, len (wire f)).
Proof.
  intros (Hid & Hseq & Hfl) [Ht Hp].
  destruct f as [id seq fl tg pl]. cbn in Hid, Hseq, Hfl, Ht, Hp.
  unfold SessionIDLen, maxTargetLen, maxPayloadSize in *.
  pose proof (len_nonneg tg). pose proof (len_nonneg pl). pose proof (len_nonneg rest).
  assert (Hb : b2z (z2b (len tg)) = len tg) by (rewrite b2z_z2b, Z.mod_small; lia).
  assert (Hc : b2z (z2b fl) = fl) by (rewrite b2z_z2b, Z.mod_small; lia).
  remember (wire (mkFrame id seq fl tg pl) ++ rest) as b eqn:Eb.
  assert (Elen : len b = 30 + len tg + len pl + len rest).
  { rewrite Eb, len_app, len_wire. cbn. lia. }
  rewrite len_wire. unfold wire in Eb.
  cbn [SessionID Seq Flags Target Payload] in *.
  rewrite <- !app_assoc in Eb. cbn [app] in Eb.
  unfold Unmarshal, SessionIDLen. cbv zeta.
  rewrite (proj2 (Z.ltb_ge _ _)) by lia.
  erewrite (slice_at [] id); [|decompose_buffer|done|len_tac]. cbn [res_bind].
  erewrite (uint_at 8 id); [|decompose_buffer|len_tac|lia].
  erewrite (index_at (id ++ be_put 8 seq)); [|decompose_buffer|len_tac].
  cbn [res_bind].
  erewrite (index_at (id ++ be_put 8 seq ++ [z2b fl])); [|decompose_buffer|len_tac].
  cbn [res_bind]. rewrite Hb, Hc.
  rewrite (proj2 (Z.ltb_ge _ _)) by lia.
  set (h := id ++ be_put 8 seq ++ [z2b fl] ++ [z2b (len tg)]).
  assert (Hh : len h = 26) by (unfold h; len_tac).
  replace (if 0 <? len tg then _ else _) with (Ok (E := frame_err) tg).
  2:{ destruct (Z.ltb_spec 0 (len tg)) as [|Hz].
      - symmetry. eapply (slice_at h tg); [unfold h; decompose_buffer|len_tac|len_tac].
      - rewrite (proj1 (len_zero tg)); [done|lia]. }
  cbn [res_bind].
  erewrite (uint_at 4 (h ++ tg)); [|unfold h; decompose_buffer|len_tac|lia].
  rewrite !(proj2 (Z.ltb_ge _ _)) by (unfold maxPayloadSize; lia).
  replace (if 0 <? len pl then _ else _) with (Ok (E := frame_err) pl).
  2:{ destruct (Z.ltb_spec 0 (len pl)) as [|Hz].
      - symmetry. eapply (slice_at (h ++ tg ++ be_put 4 (len pl)) pl);
          [unfold h; decompose_buffer|len_tac|len_tac].
      - rewrite (proj1 (len_zero pl)); [done|lia]. }
  cbn [res_bind]. do 2 f_equal. lia.
Qed.

(** Every input is either rejected or is a frame's encoding followed by a rest;
    no slice expression of [Unmarshal] is ever out of range. *)
Lemma Unmarshal_cases (data : bytes) :
  (exists e, Unmarshal data = Err e) \/
  (exists f rest, Unmarshal data = Ok (f, len (wire f)) /\ frame_wf f /\ frame_fits f
     /\ data = wire f ++ rest).
Proof.
  unfold Unmarshal, SessionIDLen. cbv zeta.
  destruct (Z.ltb_spec (len data) (16 + 8 + 1 + 1 + 4)) as [|H0]; [eauto|].
  rewrite slice_sub by lia. cbn [res_bind].
  set (id := sub data 0 _).
  destruct (uint_ok (E := frame_err) 8 data (0 + 16)) as (seq & Hseq & Eseq & Hk);
    [lia|lia|]. rewrite Hk. clear Hk.
  destruct (index_sub (E := frame_err) data (0 + 16 + 8)) as (fl & -> & Efl); [lia|].
  cbn [res_bind].
  destruct (index_sub (E := frame_err) data (0 + 16 + 8 + 1)) as (tb & -> & Etb); [lia|].
  cbn [res_bind]. pose proof (b2z_range tb) as Htb. pose proof (b2z_range fl).
  destruct (Z.ltb_spec (len data) (0 + 16 + 8 + 1 + 1 + b2z tb + 4)) as [|H1]; [eauto|].
  set (tg := sub data 26 (b2z tb)).
  assert (Htg : len tg = b2z tb) by (apply len_sub; lia).
  replace (if 0 <? b2z tb then _ else _) with (Ok (E := frame_err) tg).
  2:{ destruct (Z.ltb_spec 0 (b2z tb)).
      - rewrite slice_sub by lia. do 2 f_equal. lia.
      - f_equal. apply len_zero. lia. }
  cbn [res_bind].
  destruct (uint_ok (E := frame_err) 4 data (0 + 16 + 8 + 1 + 1 + b2z tb))
    as (pl & Hpl & Epl & Hk); [lia|lia|]. rewrite Hk. clear Hk.
  destruct (Z.ltb_spec maxPayloadSize pl) as [|H2]; [eauto|].
  destruct (Z.ltb_spec (len data) (0 + 16 + 8 + 1 + 1 + b2z tb + 4 + pl)) as [|H3]; [eauto|].
  set (p := sub data (30 + b2z tb) pl).
  assert (Hp : len p = pl) by (apply len_sub; lia).
  replace (if 0 <? pl then _ else _) with (Ok (E := frame_err) p).
  2:{ destruct (Z.ltb_spec 0 pl).
      - rewrite slice_sub by lia. f_equal. unfold p. f_equal; lia.
      - f_equal. apply len_zero. lia. }
  cbn [res_bind]. right.
  exists (mkFrame id seq (b2z fl) tg p), (drop (Z.to_nat (30 + b2z tb + pl)) data).
  assert (Hid : len id = 16) by (apply len_sub; lia).
  split; [|split; [|split]].
  - rewrite len_wire. cbn [SessionID Target Payload]. do 2 f_equal. lia.
  - repeat split; cbn; unfold SessionIDLen; lia.
  - split; cbn; unfold maxTargetLen; lia.
  - unfold wire. cbn [SessionID Seq Flags Target Payload].
    rewrite Htg, Hp, !z2b_b2z, Eseq, Epl, <- Efl, <- Etb. unfold id, tg, p.
    rewrite <- !app_assoc. symmetry.
    rewrite <- (drop_sub data (30 + b2z tb)) by lia.
    replace (30 + b2z tb) with (26 + b2z tb + 4) by lia.
    rewrite <- (drop_sub data (26 + b2z tb)) by lia.
    rewrite <- (drop_sub data 26), <- (drop_sub data 25), <- (drop_sub data 24),
      <- (drop_sub data 16) by lia.
    rewrite <- (drop_sub data 0) by lia. done.
Qed.

(** ** Properties *)

(** [Marshal] on every branch: a target over 255 bytes and a payload over
    10 MiB are refused, in that order; every other frame is written without a
    panic as its documented layout, and nothing else. *)
Theorem Marshal_spec (f : Frame) : frame_wf f ->
  Marshal f =
    if maxTargetLen <? len (Target f) then Err (TargetTooLong (len (Target f)))
    else if maxPayloadSize <? len (Payload f) then Err (PayloadTooLarge (len (Payload f)))
    else Ok (SessionID f ++ be_put 8 (Seq f) ++ [z2b (Flags f)] ++ [z2b (len (Target f))]
             ++ Target f ++ be_put 4 (len (Payload f)) ++ Payload f).
Proof.
  intros Hwf.
  destruct (Z.ltb_spec maxTargetLen (len (Target f))) as [Ht|Ht].
  { unfold Marshal. by rewrite (proj2 (Z.ltb_lt _ _) Ht). }
  destruct (Z.ltb_spec maxPayloadSize (len (Payload f))) as [Hp|Hp].
  { unfold Marshal. by rewrite (proj2 (Z.ltb_ge _ _) Ht), (proj2 (Z.ltb_lt _ _) Hp). }
  by apply Marshal_wire.
Qed.

Definition sample_frame : Frame :=
  mkFrame (str "0123456789abcdef") 7 (FlagSYN + FlagFIN) (str "host:80") (str "hi").

Lemma sample_frame_wf : frame_wf sample_frame.
Proof. by vm_compute. Qed.

Lemma Marshal_spec_witness :
  frame_wf sample_frame /\
  Marshal sample_frame = Ok (SessionID sample_frame ++ be_put 8 7 ++ [z2b 3] ++ [z2b 7]
    ++ str "host:80" ++ be_put 4 2 ++ str "hi").
Proof.
  split; [apply sample_frame_wf|].
  rewrite (Marshal_spec sample_frame sample_frame_wf). reflexivity.
Defined.

(** C16: [Unmarshal] is exactly the inverse of [Marshal]: it returns a frame and
    a count precisely when the input starts with that frame's encoding, and the
    count is the encoding's length.  So a frame's encoding is unique, parsing
    it gives back the frame, and nothing that is not an encoding is accepted. *)
Theorem Unmarshal_exact (data : bytes) (f : Frame) (n : Z) :
  Unmarshal data = Ok (f, n) <->
  frame_wf f /\ exists b rest, Marshal f = Ok b /\ data = b ++ rest /\ n = len b.
Proof.
  split.
  - intros Hu. destruct (Unmarshal_cases data) as [[e He]|(g & rest & Hg & Hwf & Hfit & Hd)].
    + congruence.
    + rewrite Hg in Hu. injection Hu as -> <-. split; [done|].
      exists (wire f), rest. by rewrite Marshal_wire.
  - intros [Hwf (b & rest & Hm & -> & ->)].
    apply Marshal_ok_inv in Hm as [Hfit ->]; [|done]. by apply Unmarshal_wire.
Qed.

(** A truncated frame is always rejected with an error: no strict prefix of
    an encoding parses, and no input whatever makes [Unmarshal] panic. *)
Theorem Unmarshal_truncated (f : Frame) (b : bytes) (n : nat) :
  frame_wf f -> Marshal f = Ok b -> Z.of_nat n < len b ->
  (exists e, Unmarshal (take n b) = Err e) /\ (forall data, Unmarshal data <> Panic).
Proof.
  intros Hwf Hm Hn. apply Marshal_ok_inv in Hm as [Hfit ->]; [|done]. split.
  - destruct (Unmarshal_cases (take n (wire f))) as [|(g & rest & _ & Hg & Hgf & Hd)]; [done|].
    exfalso. pose proof (Unmarshal_wire f [] Hwf Hfit) as Hf. rewrite app_nil_r in Hf.
    rewrite <- (take_drop n (wire f)), Hd, <- app_assoc in Hf.
    rewrite Unmarshal_wire in Hf by done. injection Hf as -> _.
    apply (f_equal len) in Hd. len_tac.
  - intros data. destruct (Unmarshal_cases data) as [[e ->]|(g & rest & -> & _)]; done.
Qed.

Lemma Unmarshal_truncated_witness :
  exists b, Marshal sample_frame = Ok b /\ len b = 39 /\
    exists e, Unmarshal (take 38 b) = Err e.
Proof.
  eexists. split; [vm_compute; reflexivity|]. split; [reflexivity|].
  refine (proj1 (Unmarshal_truncated sample_frame _ 38 sample_frame_wf _ _));
    [vm_compute; reflexivity|reflexivity].
Defined.
