(* ===== verification/Crypto.v ===== *)
(** * internal/frame/crypto.go: the AES-GCM envelope and the batch format

    AES-GCM, Zstandard and DEFLATE are code outside the repository: the class
    [CryptoLib] is what the file calls of them, and [CryptoLibOk] the documented
    laws of theirs the theorems use.  [EncodeBatch] and [DecodeBatch] are
    translated with every guard and early return; [rand.Read] is the argument
    [rand] ([None] when it fails). *)

From S2P Require Import Prelude GoStd Frame.

(** ** The interface to the cryptographic and compression libraries *)

(** [cipher.AEAD], always called with nil additional data. *)
Record Aead := mkAead {
  NonceSize : Z;
  Overhead : Z;
  aead_Seal : bytes -> bytes -> bytes;
  aead_Open : bytes -> bytes -> option bytes;
}.

Class CryptoLib := {
  newGCM : bytes -> Aead;                        (* aes.NewCipher then cipher.NewGCM *)
  zstd_EncodeAll : bytes -> bytes;
  zstd_DecodeAll : bytes -> option bytes;
  flate_ReadAll : bytes -> option bytes;         (* io.Copy from flate.NewReader *)
}.

Class AeadLaws (a : Aead) : Prop := {
  nonce_size_nonneg : 0 <= NonceSize a;
  overhead_pos : 0 < Overhead a;
  seal_len : forall nonce pt, len nonce = NonceSize a ->
    len (aead_Seal a nonce pt) = len pt + Overhead a;
  open_seal : forall nonce pt, len nonce = NonceSize a ->
    aead_Open a nonce (aead_Seal a nonce pt) = Some pt;
  open_inv : forall nonce ct pt, len nonce = NonceSize a ->
    aead_Open a nonce ct = Some pt -> ct = aead_Seal a nonce pt;
}.

Class CryptoLibOk (L : CryptoLib) : Prop := {
  newGCM_laws : forall key, len key = 32 -> AeadLaws (newGCM key);
  newGCM_sizes : forall key, len key = 32 ->
    NonceSize (newGCM key) = 12 /\ Overhead (newGCM key) = 16;
  zstd_roundtrip : forall x, zstd_DecodeAll (zstd_EncodeAll x) = Some x;
}.

(** ** Crypto *)

Record Crypto := mkCrypto { aead : Aead }.

Inductive crypto_err :=
| InvalidHexKey
| KeyLength (n : Z)
| NonceRead
| EnvelopeTooShort
| OpenFailed.

Section CryptoOps.
Context {L : CryptoLib}.

Definition NewCryptoFromHexKey (hexKey : bytes) : res crypto_err Crypto :=
  match hex_decode hexKey with
  | None => Err InvalidHexKey
  | Some key =>
      if negb (len key =? 32) then Err (KeyLength (len key))
      else Ok (mkCrypto (newGCM key))
  end.

End CryptoOps.

Definition Seal (c : Crypto) (rand : option bytes) (plaintext : bytes)
    : res crypto_err bytes :=
  match rand with
  | None => Err NonceRead
  | Some nonce =>
      let ct := aead_Seal (aead c) nonce plaintext in
      Ok (nonce ++ ct)
  end.

Definition Open (c : Crypto) (envelope : bytes) : res crypto_err bytes :=
  let ns := NonceSize (aead c) in
  if len envelope <? ns + Overhead (aead c) then Err EnvelopeTooShort else
  let! nonce := slice envelope 0 ns in
  let! ct := slice envelope ns (len envelope) in
  match aead_Open (aead c) nonce ct with
  | None => Err OpenFailed
  | Some pt => Ok pt
  end.

(** ** Batches *)

Definition ClientIDLen : Z := 16.
Definition batchFlagRaw : byte := z2b 0.
Definition batchFlagFlate : byte := z2b 1.
Definition batchFlagZstd : byte := z2b 2.
Definition compressMinSize : Z := 512.

Inductive batch_err :=
| TooManyFrames (n : Z)
| MarshalFrame (e : frame_err)
| SealErr (e : crypto_err)
| Base64Decode
| OpenErr (e : crypto_err)
| EmptyPlaintext
| FlateDecompress
| ZstdDecompress
| UnknownFlags (b : byte)
| ShortBatchHeader
| ShortFrameLength
| ShortFrameBody
| UnmarshalFrame (i : Z) (e : frame_err).

(** The first loop: marshal all the frames, stopping at the first error. *)
Fixpoint marshal_all (frames : list Frame) : res batch_err (list bytes) :=
  match frames with
  | [] => Ok []
  | f :: rest =>
      let! raw := res_map_err MarshalFrame (Marshal f) in
      let! raws := marshal_all rest in
      Ok (raw :: raws)
  end.

(** One frame of the plaintext: the u32 length prefix and the frame's bytes. *)
Definition frame_block (raw : bytes) : bytes :=
  [z2b (Z.shiftr (len raw) 24); z2b (Z.shiftr (len raw) 16);
   z2b (Z.shiftr (len raw) 8); z2b (len raw)] ++ raw.

(** The second loop: [plain] after the flags placeholder, the client ID, the
    frame count and the blocks have been appended. *)
Definition batch_plain (clientID : bytes) (nframes : Z) (marshaled : list bytes) : bytes :=
  [z2b 0] ++ clientID ++ [z2b (Z.shiftr nframes 8); z2b nframes]
  ++ concat (map frame_block marshaled).

Section BatchOps.
Context {L : CryptoLib}.

(** Compression of the plaintext after the flags byte, kept only if smaller. *)
Definition seal_input (plain : bytes) : bytes :=
  if compressMinSize <=? len plain - 1 then
    let compressed := z2b 0 :: zstd_EncodeAll (drop 1 plain) in
    if len compressed - 1 <? len plain - 1
    then <[0%nat := batchFlagZstd]> compressed
    else <[0%nat := batchFlagRaw]> plain
  else <[0%nat := batchFlagRaw]> plain.

Definition EncodeBatch (c : Crypto) (rand : option bytes) (clientID : bytes)
    (frames : list Frame) : res batch_err bytes :=
  if 0xFFFF <? len frames then Err (TooManyFrames (len frames)) else
  let! marshaled := marshal_all frames in
  let plain := batch_plain clientID (len frames) marshaled in
  let! sealed := res_map_err SealErr (Seal c rand (seal_input plain)) in
  Ok (b64_encode sealed).

(** The loop of [DecodeBatch]: [n] frames remain, [i] were decoded. *)
Fixpoint decode_frames (plain : bytes) (n : nat) (i off : Z) : res batch_err (list Frame) :=
  match n with
  | O => Ok []
  | S n =>
      if len plain <? off + 4 then Err ShortFrameLength else
      let! tail := slice plain off (len plain) in
      let! flen := read_uint 4 tail in
      let off := off + 4 in
      if len plain <? off + flen then Err ShortFrameBody else
      let! body := slice plain off (off + flen) in
      let! r := res_map_err (UnmarshalFrame i) (Unmarshal body) in
      let! fs := decode_frames plain n (i + 1) (off + flen) in
      Ok (fst r :: fs)
  end.

(** The plaintext of a batch after its flags byte was interpreted. *)
Definition decode_plain (rawPlain : bytes) : res batch_err bytes :=
  match rawPlain with
  | [] => Err EmptyPlaintext
  | flag :: rest =>
      if bool_decide (flag = batchFlagRaw) then Ok rest
      else if bool_decide (flag = batchFlagFlate) then
        match flate_ReadAll rest with Some p => Ok p | None => Err FlateDecompress end
      else if bool_decide (flag = batchFlagZstd) then
        match zstd_DecodeAll rest with Some p => Ok p | None => Err ZstdDecompress end
      else Err (UnknownFlags flag)
  end.

Definition decode_body (plain : bytes) : res batch_err (bytes * list Frame) :=
  if len plain <? ClientIDLen + 2 then Err ShortBatchHeader else
  let! clientID := slice plain 0 ClientIDLen in
  let off := ClientIDLen in
  let! cb := slice plain off (off + 2) in
  let! count := read_uint 2 cb in
  let off := off + 2 in
  let! frames := decode_frames plain (Z.to_nat count) 0 off in
  Ok (clientID, frames).

Definition zeroID : bytes := zeros ClientIDLen.

Definition DecodeBatch (c : Crypto) (body : bytes) : res batch_err (bytes * list Frame) :=
  if len body =? 0 then Ok (zeroID, []) else
  let trimmed := TrimRight (TrimSpace body) (str "=") in
  match b64_decode trimmed with
  | None => Err Base64Decode
  | Some sealed =>
      let! rawPlain := res_map_err OpenErr (Open c sealed) in
      let! plain := decode_plain rawPlain in
      decode_body plain
  end.

End BatchOps.

(** ** Lemmas *)

Lemma marshal_all_ok (fs : list Frame) :
  Forall frame_wf fs -> Forall frame_fits fs -> marshal_all fs = Ok (map wire fs).
Proof.
  induction 1 as [|f fs Hf _ IH]; intros Hfit; [done|].
  apply Forall_cons in Hfit as [Hff Hfit]. cbn [marshal_all map].
  rewrite Marshal_wire by done. cbn [res_map_err res_bind]. by rewrite IH.
Qed.

(** Marshalling a batch is all or nothing. *)
Lemma marshal_all_err (fs : list Frame) :
  Forall frame_wf fs -> ~ Forall frame_fits fs ->
  exists e, marshal_all fs = Err (MarshalFrame e).
Proof.
  induction 1 as [|f fs Hf Hfs IH]; intros Hn; [by destruct Hn|].
  cbn [marshal_all]. destruct (decide (frame_fits f)) as [Hff|Hff].
  - rewrite Marshal_wire by done. cbn [res_map_err res_bind].
    destruct IH as [e He].
    + intros Hall. apply Hn. by constructor.
    + rewrite He. by exists e.
  - apply Marshal_err in Hff as [e He]; [|done]. rewrite He. by exists e.
Qed.

(** The plaintext of a batch in the form the decoder reads. *)
Definition batch_wire (clientID : bytes) (fs : list Frame) : bytes :=
  clientID ++ be_put 2 (len fs) ++ concat (map (fun f => be_put 4 (len (wire f)) ++ wire f) fs).

Lemma batch_plain_wire (clientID : bytes) (fs : list Frame) :
  batch_plain clientID (len fs) (map wire fs) = z2b 0 :: batch_wire clientID fs.
Proof.
  unfold batch_plain, batch_wire. cbn [app]. f_equal. f_equal.
  change (be_put 2 (len fs)) with
    [z2b (Z.shiftr (len fs) 8); z2b (Z.shiftr (len fs) 0)].
  rewrite Z.shiftr_0_r. cbn [app]. rewrite map_map.
  rewrite (map_ext (fun f => frame_block (wire f))
    (fun f => be_put 4 (len (wire f)) ++ wire f)); [done|].
  intros f. unfold frame_block.
  change (be_put 4 (len (wire f))) with
    [z2b (Z.shiftr (len (wire f)) 24); z2b (Z.shiftr (len (wire f)) 16);
     z2b (Z.shiftr (len (wire f)) 8); z2b (Z.shiftr (len (wire f)) 0)].
  by rewrite Z.shiftr_0_r.
Qed.

Lemma len_wire_bound (f : Frame) :
  frame_wf f -> frame_fits f -> 0 <= len (wire f) < 2 ^ 32.
Proof.
  intros (Hid & _ & _) [Ht Hp]. rewrite len_wire.
  unfold SessionIDLen, maxTargetLen, maxPayloadSize in *.
  pose proof (len_nonneg (Target f)). pose proof (len_nonneg (Payload f)). lia.
Qed.

Section BatchLemmas.
Context {L : CryptoLib}.

Lemma decode_frames_wire (fs : list Frame) (pre plain : bytes) (i off : Z) :
  Forall frame_wf fs -> Forall frame_fits fs ->
  plain = pre ++ concat (map (fun f => be_put 4 (len (wire f)) ++ wire f) fs) ->
  off = len pre ->
  decode_frames plain (length fs) i off = Ok fs.
Proof.
  intros Hwf. revert pre i off.
  induction Hwf as [|f fs Hf _ IH]; intros pre i off Hfit Hp ->; [done|].
  apply Forall_cons in Hfit as [Hff Hfit].
  pose proof (len_wire_bound f Hf Hff). cbn [map concat] in Hp.
  rewrite <- !app_assoc in Hp. pose proof (f_equal len Hp) as Hl.
  rewrite !len_app, len_be_put in Hl.
  match type of Hl with context [len (concat ?x)] => pose proof (len_nonneg (concat x)) end.
  cbn [length decode_frames]. rewrite (proj2 (Z.ltb_ge _ _)) by lia.
  erewrite (uint_at 4 pre); [|exact Hp|done|lia]. cbv zeta.
  rewrite (proj2 (Z.ltb_ge _ _)) by lia.
  rewrite (slice_at (pre ++ be_put 4 (len (wire f))) (wire f)
    (concat (map (fun f => be_put 4 (len (wire f)) ++ wire f) fs)));
    [|by rewrite Hp, <- !app_assoc|len_tac|len_tac].
  cbn [res_bind]. rewrite <- (app_nil_r (wire f)) at 1.
  rewrite Unmarshal_wire by done. cbn [res_map_err res_bind fst].
  rewrite (IH (pre ++ be_put 4 (len (wire f)) ++ wire f)); [done|done| |len_tac].
  by rewrite Hp, <- !app_assoc.
Qed.

Lemma decode_body_wire (clientID : bytes) (fs : list Frame) :
  len clientID = ClientIDLen -> len fs <= 0xFFFF ->
  Forall frame_wf fs -> Forall frame_fits fs ->
  decode_body (batch_wire clientID fs) = Ok (clientID, fs).
Proof.
  intros Hid Hn Hwf Hfit. unfold decode_body, ClientIDLen in *.
  remember (batch_wire clientID fs) as p eqn:Hp. unfold batch_wire in Hp.
  pose proof (f_equal len Hp) as Hl. rewrite !len_app, len_be_put in Hl.
  pose proof (len_nonneg fs).
  match type of Hl with context [len (concat ?x)] => pose proof (len_nonneg (concat x)) end.
  rewrite (proj2 (Z.ltb_ge _ _)) by lia.
  erewrite (slice_at [] clientID); [|exact Hp|done|len_tac]. cbn [res_bind].
  erewrite (slice_at clientID (be_put 2 (len fs)));
    [|exact Hp|lia|rewrite len_be_put; lia].
  cbn [res_bind]. rewrite <- (app_nil_r (be_put 2 (len fs))).
  rewrite read_uint_app by lia. cbn [res_bind].
  replace (Z.to_nat (len fs)) with (length fs) by (unfold len; lia).
  rewrite (decode_frames_wire fs (clientID ++ be_put 2 (len fs))); try done.
  - by rewrite Hp, <- app_assoc.
  - len_tac.
Qed.

Lemma decode_plain_seal_input {LO : CryptoLibOk L} (rest : bytes) :
  decode_plain (seal_input (z2b 0 :: rest)) = Ok rest.
Proof.
  unfold seal_input. cbn [drop].
  assert (Hraw : decode_plain (<[0%nat := batchFlagRaw]> (z2b 0 :: rest)) = Ok rest) by done.
  destruct (_ <=? _); [|done]. destruct (_ <? _); [|done].
  transitivity (match zstd_DecodeAll (zstd_EncodeAll rest) with
    | Some p => Ok p | None => Err ZstdDecompress end); [done|].
  by rewrite zstd_roundtrip.
Qed.

Lemma seal_input_cons (plain : bytes) :
  1 <= len plain -> exists b t, seal_input plain = b :: t /\ len (b :: t) <= len plain.
Proof.
  intros Hl. destruct plain as [|a t]; [done|].
  assert (Hraw : exists b t', <[0%nat := batchFlagRaw]> (a :: t) = b :: t'
    /\ len (b :: t') <= len (a :: t)).
  { do 2 eexists. split; [reflexivity|]. rewrite !len_cons. lia. }
  unfold seal_input. destruct (_ <=? _); [|done].
  destruct (Z.ltb_spec (len (z2b 0 :: zstd_EncodeAll (drop 1 (a :: t))) - 1) (len (a :: t) - 1));
    [|done].
  do 2 eexists. split; [reflexivity|]. rewrite !len_cons in *. lia.
Qed.

(** Sealing with a 12-byte nonce and opening again. *)
Lemma Open_Seal (c : Crypto) (nonce pt : bytes) {AL : AeadLaws (aead c)} :
  len nonce = NonceSize (aead c) ->
  exists env, Seal c (Some nonce) pt = Ok env /\ Open c env = Ok pt
    /\ len env = NonceSize (aead c) + len pt + Overhead (aead c).
Proof.
  intros Hn. unfold Seal. eexists; split; [done|].
  pose proof (seal_len nonce pt Hn) as Hs.
  pose proof nonce_size_nonneg. pose proof overhead_pos. pose proof (len_nonneg pt).
  assert (Hl : len (nonce ++ aead_Seal (aead c) nonce pt)
               = NonceSize (aead c) + len pt + Overhead (aead c))
    by (rewrite len_app; lia).
  split; [|done]. unfold Open. rewrite Hl, (proj2 (Z.ltb_ge _ _)) by lia.
  rewrite (slice_at [] nonce (aead_Seal (aead c) nonce pt)); [|done|done|len_tac].
  cbn [res_bind]. rewrite slice_rest; [|lia|lia]. cbn [res_bind].
  by rewrite open_seal.
Qed.

(** A sealed batch as [DecodeBatch] sees it before the envelope is opened. *)
Lemma trimmed_encode (sealed : bytes) :
  TrimRight (TrimSpace (b64_encode sealed)) (str "=") = b64_encode sealed.
Proof.
  rewrite TrimSpace_graph by apply b64_encode_graph.
  apply TrimRight_id, b64_encode_nopad.
Qed.

Lemma b64_encode_nonempty (sealed : bytes) :
  0 < len sealed -> 0 < len (b64_encode sealed).
Proof.
  intros. rewrite len_b64_encode. unfold b64_EncodedLen.
  Z.to_euclidean_division_equations. lia.
Qed.

(** What [DecodeBatch] makes of a sealed plaintext. *)
Lemma DecodeBatch_sealed {LO : CryptoLibOk L} (c : Crypto) {AL : AeadLaws (aead c)}
    (nonce rawPlain : bytes) :
  len nonce = NonceSize (aead c) ->
  DecodeBatch c (b64_encode (nonce ++ aead_Seal (aead c) nonce rawPlain))
  = (let! plain := decode_plain rawPlain in decode_body plain).
Proof.
  intros Hn. destruct (Open_Seal c nonce rawPlain Hn) as (env & Hs & Ho & Hlen).
  injection Hs as <-. pose proof nonce_size_nonneg. pose proof overhead_pos.
  pose proof (len_nonneg rawPlain).
  unfold DecodeBatch. rewrite (proj2 (Z.eqb_neq _ _)).
  2:{ apply not_eq_sym, Z.lt_neq, b64_encode_nonempty. lia. }
  by rewrite trimmed_encode, b64_decode_encode, Ho.
Qed.

Lemma EncodeBatch_ok (c : Crypto) (nonce clientID : bytes) (fs : list Frame) :
  len fs <= 0xFFFF -> Forall frame_wf fs -> Forall frame_fits fs ->
  EncodeBatch c (Some nonce) clientID fs
  = Ok (b64_encode (nonce ++ aead_Seal (aead c) nonce
          (seal_input (z2b 0 :: batch_wire clientID fs)))).
Proof.
  intros Hn Hwf Hfit. unfold EncodeBatch. rewrite (proj2 (Z.ltb_ge _ _)) by lia.
  rewrite marshal_all_ok by done. cbn [res_bind].
  by rewrite batch_plain_wire.
Qed.

Lemma EncodeBatch_inv (c : Crypto) (nonce clientID : bytes) (fs : list Frame) (body : bytes) :
  Forall frame_wf fs -> EncodeBatch c (Some nonce) clientID fs = Ok body ->
  len fs <= 0xFFFF /\ Forall frame_fits fs.
Proof.
  intros Hwf. unfold EncodeBatch. destruct (Z.ltb_spec 0xFFFF (len fs)) as [|Hlen]; [done|].
  destruct (decide (Forall frame_fits fs)) as [Hfit|Hfit]; [done|].
  apply marshal_all_err in Hfit as [e He]; [|done]. by rewrite He.
Qed.

(** Whatever was encoded decodes to itself. *)
Lemma DecodeBatch_encoded {LO : CryptoLibOk L} (c : Crypto) {AL : AeadLaws (aead c)}
    (nonce clientID : bytes) (fs : list Frame) (body : bytes) :
  len nonce = NonceSize (aead c) -> len clientID = ClientIDLen -> Forall frame_wf fs ->
  EncodeBatch c (Some nonce) clientID fs = Ok body ->
  0 < len body /\ DecodeBatch c body = Ok (clientID, fs).
Proof.
  intros Hn Hid Hwf He. destruct (EncodeBatch_inv c nonce clientID fs body Hwf He) as [Hlen Hfit].
  rewrite EncodeBatch_ok in He by done. injection He as <-. split.
  - apply b64_encode_nonempty. rewrite len_app, seal_len by done.
    pose proof overhead_pos. pose proof nonce_size_nonneg.
    pose proof (len_nonneg (seal_input (z2b 0 :: batch_wire clientID fs))). lia.
  - rewrite DecodeBatch_sealed by done.
    rewrite decode_plain_seal_input. cbn [res_bind]. by rewrite decode_body_wire.
Qed.

End BatchLemmas.

(** ** Safety of the decoder *)

Section DecodeSafety.
Context {L : CryptoLib}.

Lemma decode_frames_cases (plain : bytes) (n : nat) (i off : Z) :
  0 <= off ->
  (exists e, decode_frames plain n i off = Err e) \/
  (exists fs, decode_frames plain n i off = Ok fs /\ length fs = n
     /\ Forall frame_wf fs /\ Forall frame_fits fs).
Proof.
  revert i off. induction n as [|n IH]; intros i off Hoff.
  { right. exists []. by repeat split. }
  cbn [decode_frames].
  destruct (Z.ltb_spec (len plain) (off + 4)) as [|H1]; [eauto|].
  destruct (uint_ok (E := batch_err) 4 plain off) as (fl & Hfl & _ & Hk); [lia|lia|].
  rewrite Hk. clear Hk. cbv zeta.
  destruct (Z.ltb_spec (len plain) (off + 4 + fl)) as [|H2]; [eauto|].
  rewrite slice_sub by lia. cbn [res_bind].
  destruct (Unmarshal_cases (sub plain (off + 4) (off + 4 + fl - (off + 4))))
    as [[e ->]|(f & rest & -> & Hwf & Hfit & _)]; cbn [res_map_err res_bind fst]; [eauto|].
  destruct (IH (i + 1) (off + 4 + fl)) as [[e ->]|(fs & -> & Hl & Hws & Hfs)];
    [lia|cbn [res_bind]; eauto|]. cbn [res_bind]. right.
  exists (f :: fs). split; [done|]. split; [by cbn; rewrite Hl|]. by split; constructor.
Qed.

Lemma decode_body_cases (plain : bytes) :
  (exists e, decode_body plain = Err e) \/
  (exists id fs, decode_body plain = Ok (id, fs) /\ len id = ClientIDLen
     /\ len fs <= 0xFFFF /\ Forall frame_wf fs /\ Forall frame_fits fs).
Proof.
  unfold decode_body, ClientIDLen.
  destruct (Z.ltb_spec (len plain) (16 + 2)) as [|H1]; [eauto|].
  rewrite slice_sub by lia. cbn [res_bind]. rewrite slice_sub by lia. cbn [res_bind].
  destruct (read_uint_ok (E := batch_err) 2 (sub plain 16 (16 + 2 - 16))) as (cnt & -> & Hc).
  { rewrite len_sub; lia. }
  cbn [res_bind].
  destruct (decode_frames_cases plain (Z.to_nat cnt) 0 (16 + 2)) as
    [[e ->]|(fs & -> & Hl & Hwf & Hfit)]; [lia|cbn [res_bind]; eauto|].
  right. cbn [res_bind]. do 2 eexists. split; [done|].
  split; [rewrite len_sub; lia|]. split; [unfold len; lia|done].
Qed.

Lemma decode_plain_safe (rawPlain : bytes) : decode_plain rawPlain <> Panic.
Proof.
  unfold decode_plain. destruct rawPlain as [|b t]; [done|].
  repeat case_bool_decide; try done; by case_match.
Qed.

(** What an accepted envelope contains. *)
Lemma Open_cases (c : Crypto) (env : bytes) {AL : AeadLaws (aead c)} :
  (exists e, Open c env = Err e) \/
  (exists nonce pt, Open c env = Ok pt /\ len nonce = NonceSize (aead c)
     /\ env = nonce ++ aead_Seal (aead c) nonce pt).
Proof.
  unfold Open. pose proof nonce_size_nonneg. pose proof overhead_pos.
  destruct (Z.ltb_spec (len env) (NonceSize (aead c) + Overhead (aead c))) as [|Hl]; [eauto|].
  rewrite slice_sub by lia. cbn [res_bind]. rewrite slice_sub by lia. cbn [res_bind].
  rewrite Z.sub_0_r.
  set (nonce := sub env 0 (NonceSize (aead c))).
  assert (Hn : len nonce = NonceSize (aead c)) by (apply len_sub; lia).
  destruct (aead_Open (aead c) nonce _) as [pt|] eqn:Ho; [|eauto].
  right. exists nonce, pt. split; [done|]. split; [done|].
  apply open_inv in Ho; [|done]. rewrite <- Ho.
  unfold nonce. replace env with (drop (Z.to_nat 0) env) at 1 by done.
  rewrite (drop_sub env 0 (NonceSize (aead c))) by lia. rewrite Z.add_0_l. f_equal.
  unfold sub. rewrite take_ge; [done|]. rewrite length_drop. unfold len in *. lia.
Qed.

End DecodeSafety.

(** The AEAD of a key, and a batch under it. *)
Lemma aead_of_key {L : CryptoLib} {LO : CryptoLibOk L} hexKey c :
  NewCryptoFromHexKey hexKey = Ok c ->
  AeadLaws (aead c) /\ NonceSize (aead c) = 12 /\ Overhead (aead c) = 16.
Proof.
  unfold NewCryptoFromHexKey. destruct (hex_decode hexKey) as [key|]; [|done].
  destruct (Z.eqb_spec (len key) 32) as [Hkey|]; [|done]. intros [= <-].
  split; [by apply newGCM_laws|]. by apply newGCM_sizes.
Qed.

Lemma batch_encodes {L : CryptoLib} {LO : CryptoLibOk L} (c : Crypto) {AL : AeadLaws (aead c)}
    (nonce clientID : bytes) (fs : list Frame) :
  len nonce = NonceSize (aead c) -> len clientID = ClientIDLen ->
  len fs <= 0xFFFF -> Forall frame_wf fs -> Forall frame_fits fs ->
  exists body, EncodeBatch c (Some nonce) clientID fs = Ok body
    /\ DecodeBatch c body = Ok (clientID, fs)
    /\ len body <= b64_EncodedLen (NonceSize (aead c) + Overhead (aead c) + (1 + len (batch_wire clientID fs))).
Proof.
  intros Hn Hid Hlen Hwf Hfit. pose proof (EncodeBatch_ok c nonce clientID fs Hlen Hwf Hfit) as He.
  eexists; split; [exact He|]. split.
  - by apply (DecodeBatch_encoded c nonce clientID fs).
  - rewrite len_b64_encode, len_app, seal_len by done.
    destruct (seal_input_cons (z2b 0 :: batch_wire clientID fs)) as (b & t & -> & Hle).
    { rewrite len_cons. pose proof (len_nonneg (batch_wire clientID fs)). lia. }
    rewrite (len_cons (z2b 0)) in Hle. rewrite Hn. unfold b64_EncodedLen.
    pose proof (len_nonneg (b :: t)). pose proof nonce_size_nonneg. pose proof overhead_pos.
    Z.to_euclidean_division_equations. lia.
Qed.

(** ** Properties *)

(** C7: a batch that one peer encodes is what the other peer decodes: for every
    key both sides accept, every client ID and every list of at most 65535
    well-formed frames within the size limits, [EncodeBatch] succeeds,
    [DecodeBatch] returns the same client ID and the same frames, and the body
    is never longer than the base64 of the uncompressed batch. *)
Theorem batch_roundtrip {L : CryptoLib} {LO : CryptoLibOk L}
    (hexKey nonce clientID : bytes) (c : Crypto) (fs : list Frame) :
  NewCryptoFromHexKey hexKey = Ok c -> len nonce = 12 -> len clientID = ClientIDLen ->
  len fs <= 0xFFFF -> Forall frame_wf fs -> Forall frame_fits fs ->
  exists body, EncodeBatch c (Some nonce) clientID fs = Ok body
    /\ DecodeBatch c body = Ok (clientID, fs)
    /\ len body <= b64_EncodedLen (12 + 16 + (1 + len (batch_wire clientID fs))).
Proof.
  intros Hk Hn Hid Hlen Hwf Hfit. destruct (aead_of_key hexKey c Hk) as (AL & Hns & Hov).
  rewrite <- Hn, <- Hov. rewrite Hn, <- Hns. apply batch_encodes; congruence.
Qed.

(** [EncodeBatch] is all or nothing: it fails exactly when there are more
    than 65535 frames, when some frame is over the size limits, or when no
    nonce can be read.  One over-long target in a batch makes the frames of
    every other session in it fail too. *)
Theorem EncodeBatch_all_or_nothing {L : CryptoLib} (c : Crypto) (rand : option bytes)
    (clientID : bytes) (fs : list Frame) :
  Forall frame_wf fs ->
  (exists body, EncodeBatch c rand clientID fs = Ok body)
  <-> len fs <= 0xFFFF /\ Forall frame_fits fs /\ is_Some rand.
Proof.
  intros Hwf. split.
  - intros [body Hb]. unfold EncodeBatch in Hb.
    destruct (Z.ltb_spec 0xFFFF (len fs)) as [|Hlen]; [done|]. split; [done|].
    destruct (decide (Forall frame_fits fs)) as [Hfit|Hfit].
    + split; [done|]. rewrite marshal_all_ok in Hb by done. cbn [res_bind] in Hb.
      destruct rand as [nonce|]; [eauto|done].
    + apply marshal_all_err in Hfit as [e He]; [|done]. by rewrite He in Hb.
  - intros (Hlen & Hfit & [nonce ->]). rewrite EncodeBatch_ok by done. eauto.
Qed.

(** C32: the decoder is safe on bytes from the network: whatever the body,
    [DecodeBatch] does not panic, and what it accepts (unless the body is
    empty) is the sealing under this very key of a plaintext that decodes to
    the returned client ID and frames, all of them well formed and within the
    size limits. *)
Theorem DecodeBatch_safe {L : CryptoLib} (c : Crypto) {AL : AeadLaws (aead c)}
    (body : bytes) :
  DecodeBatch c body <> Panic /\
  forall id fs, body <> [] -> DecodeBatch c body = Ok (id, fs) ->
    Forall frame_wf fs /\ Forall frame_fits fs /\ len id = ClientIDLen /\
    exists nonce pt,
      b64_decode (TrimRight (TrimSpace body) (str "="))
      = Some (nonce ++ aead_Seal (aead c) nonce pt)
      /\ (let! plain := decode_plain pt in decode_body plain) = Ok (id, fs).
Proof.
  unfold DecodeBatch.
  destruct (Z.eqb_spec (len body) 0) as [Hz|Hz].
  { split; [done|]. intros id fs Hb _. by apply len_zero in Hz. }
  destruct (b64_decode _) as [sealed|]; [|done].
  destruct (Open_cases c sealed) as [[e ->]|(nonce & pt & Ho & Hn & ->)]; [done|].
  rewrite Ho. cbn [res_map_err res_bind].
  pose proof (decode_plain_safe pt).
  destruct (decode_plain pt) as [plain|e|] eqn:Hp; cbn [res_bind]; try done.
  destruct (decode_body_cases plain) as [[e He]|(id & fs & Hok & Hid & _ & Hwf & Hfit)].
  { rewrite He. split; [done|]. done. }
  rewrite Hok. split; [done|]. intros ? ? _ Hx. injection Hx as <- <-.
  do 3 (split; [done|]). exists nonce, pt. split; [done|].
  rewrite Hp. done.
Qed.

(** An upgraded peer still reads a legacy one: padding characters after the
    base64 text, as [StdEncoding] emits them, change nothing. *)
Theorem DecodeBatch_padding {L : CryptoLib} (c : Crypto) (sealed : bytes) (k : nat) :
  sealed <> [] ->
  DecodeBatch c (b64_encode sealed ++ replicate k (z2b 61))
  = DecodeBatch c (b64_encode sealed).
Proof.
  intros Hs%len_pos. pose proof (b64_encode_nonempty sealed Hs).
  unfold DecodeBatch. rewrite len_app, len_replicate.
  rewrite !(proj2 (Z.eqb_neq _ _)) by lia. rewrite trimmed_encode.
  rewrite TrimSpace_graph.
  2:{ apply Forall_app. split; [apply b64_encode_graph|].
      apply Forall_replicate. by split. }
  rewrite TrimRight_replicate by done.
  by rewrite TrimRight_id by apply b64_encode_nopad.
Qed.
