(* ===== verification/TestLib.v ===== *)
(** * A concrete instance of the library interface

    [CryptoLib] is instantiated by an executable stand-in that satisfies every
    law of [CryptoLibOk], so that the theorems which assume the laws can be
    applied to concrete inputs and evaluated.  It is no model of AES-GCM: the
    tag is the nonce padded to sixteen bytes and the text is not hidden.  The
    compressor shortens runs of zero bytes and nothing else. *)

From S2P Require Import Prelude GoStd Frame Crypto.

Definition test_tag (nonce : bytes) : bytes := nonce ++ zeros 4.

Definition test_Open (nonce ct : bytes) : option bytes :=
  let n := (length ct - length (test_tag nonce))%nat in
  if bool_decide (drop n ct = test_tag nonce) then Some (take n ct) else None.

Definition test_aead : Aead :=
  mkAead 12 16 (fun nonce pt => pt ++ test_tag nonce) test_Open.

(** Length in as many big-endian bytes as it needs. *)
Definition varlen (n : Z) : bytes := be_put (Z.to_nat (Z.log2 n / 8 + 1)) n.

Lemma be_get_varlen (n : Z) : 0 <= n -> be_get (varlen n) = n.
Proof.
  intros Hn. unfold varlen. rewrite be_get_put. apply Z.mod_small. split; [done|].
  destruct (Z.eq_dec n 0) as [->|]; [apply Z.pow_pos_nonneg; lia|].
  pose proof (Z.log2_spec n ltac:(lia)) as [_ Hl].
  eapply Z.lt_le_trans; [exact Hl|]. apply Z.pow_le_mono_r; [done|].
  pose proof (Z.log2_nonneg n). rewrite Z2Nat.id by (Z.to_euclidean_division_equations; lia).
  Z.to_euclidean_division_equations. lia.
Qed.

(** The zero bytes at the front of a list; the compressor applies it to the
    reversed input. *)
Fixpoint lead (b : byte) (l : bytes) : nat :=
  match l with
  | a :: t => if bool_decide (a = b) then S (lead b t) else O
  | [] => O
  end.

Lemma lead_split (b : byte) (l : bytes) : l = replicate (lead b l) b ++ drop (lead b l) l.
Proof.
  induction l as [|a t IH]; [done|]. cbn [lead]. case_bool_decide as Ha; [|done].
  subst. cbn [replicate drop app]. by f_equal.
Qed.

Lemma lead_replicate (a b : byte) (n : nat) (l : bytes) :
  a <> b -> lead b (replicate n b ++ a :: l) = n.
Proof.
  intros Hab. induction n as [|n IH]; cbn [replicate app lead].
  - by rewrite bool_decide_eq_false_2.
  - rewrite bool_decide_eq_true_2 by done. by rewrite IH.
Qed.

(** Output: the length of the run count in unary, the run count, the rest of
    the input without its run of trailing zero bytes. *)
Definition test_compress (x : bytes) : bytes :=
  let k := lead Byte.x00 (rev x) in
  let v := varlen (Z.of_nat k) in
  replicate (length v) Byte.x01 ++ Byte.x00 :: v ++ rev (drop k (rev x)).

Definition test_decompress (y : bytes) : option bytes :=
  let n := lead Byte.x01 y in
  let t := drop (S n) y in
  Some (drop n t ++ rev (zeros (be_get (take n t)))).

Lemma test_decompress_compress (x : bytes) :
  test_decompress (test_compress x) = Some x.
Proof.
  unfold test_decompress, test_compress. rewrite lead_replicate by done.
  set (k := lead Byte.x00 (rev x)). set (v := varlen (Z.of_nat k)).
  rewrite cons_middle, app_assoc, drop_app_length'
    by (rewrite length_app, length_replicate; cbn; lia).
  rewrite drop_app_length, take_app_length. unfold v.
  rewrite be_get_varlen by lia. unfold zeros. rewrite Nat2Z.id.
  rewrite <- rev_app_distr. unfold k. rewrite <- lead_split.
  by rewrite rev_involutive.
Qed.

#[export] Instance TestLib : CryptoLib := {|
  newGCM := fun _ => test_aead;
  zstd_EncodeAll := test_compress;
  zstd_DecodeAll := test_decompress;
  flate_ReadAll := fun x => Some x;
|}.

#[export] Instance test_aead_laws : AeadLaws test_aead.
Proof.
  constructor; cbn.
  - lia.
  - lia.
  - intros nonce pt Hn. unfold test_tag. len_tac.
  - intros nonce pt Hn. unfold test_Open. rewrite length_app.
    replace (length pt + length (test_tag nonce) - length (test_tag nonce))%nat
      with (length pt) by lia.
    rewrite drop_app_length, take_app_length. by rewrite bool_decide_eq_true_2.
  - intros nonce ct pt Hn. unfold test_Open. case_bool_decide as Hd; [|done].
    injection 1 as <-. match type of Hd with drop ?n _ = _ => rewrite <- (take_drop n ct) at 1 end.
    by rewrite Hd.
Qed.

#[export] Instance TestLibOk : CryptoLibOk TestLib.
Proof.
  constructor.
  - intros key _. apply test_aead_laws.
  - done.
  - apply test_decompress_compress.
Qed.

(** Sample inputs. *)
Definition test_key : bytes :=
  str "000102030405060708090a0b0c0d0e0f101112131415161718191A1B1C1D1E1F".
Definition test_crypto : Crypto := mkCrypto test_aead.
Definition test_nonce : bytes := str "nonce-000001".
Definition test_client : bytes := str "client-id-000001".
Definition test_frames : list Frame :=
  [mkFrame (str "session-id-00001") 0 FlagSYN (str "example.com:443") (str "hello");
   mkFrame (str "session-id-00002") (2 ^ 64 - 1) FlagFIN [] [];
   mkFrame (str "session-id-00001") 1 0 [] (zeros 600)].

Example test_crypto_key : NewCryptoFromHexKey test_key = Ok test_crypto.
Proof. vm_compute. reflexivity. Qed.

Lemma test_frames_wf : Forall frame_wf test_frames /\ Forall frame_fits test_frames.
Proof. split; repeat constructor; by vm_compute. Qed.

(** ** The batch properties at these inputs *)

Lemma batch_roundtrip_witness :
  exists body, EncodeBatch test_crypto (Some test_nonce) test_client test_frames = Ok body
    /\ DecodeBatch test_crypto body = Ok (test_client, test_frames).
Proof.
  destruct (batch_roundtrip test_key test_nonce test_client test_crypto test_frames
    test_crypto_key eq_refl eq_refl) as (body & He & Hd & _);
    [vm_compute; discriminate|apply test_frames_wf|apply test_frames_wf|].
  exists body. by split.
Defined.

Lemma EncodeBatch_all_or_nothing_witness :
  ~ (exists body, EncodeBatch test_crypto (Some test_nonce) test_client
       (mkFrame (str "session-id-00009") 0 FlagSYN (zeros 259) [] :: test_frames) = Ok body).
Proof.
  intros H. apply (EncodeBatch_all_or_nothing test_crypto (Some test_nonce) test_client) in H.
  - destruct H as (_ & Hfit & _). apply Forall_cons in Hfit as [[Ht _] _].
    apply Ht. vm_compute. reflexivity.
  - constructor; [by vm_compute|apply test_frames_wf].
Defined.

Lemma DecodeBatch_safe_witness : DecodeBatch test_crypto (str "!not base64!") <> Panic.
Proof. exact (proj1 (DecodeBatch_safe test_crypto (AL := test_aead_laws) _)). Defined.

Lemma DecodeBatch_padding_witness :
  DecodeBatch test_crypto (b64_encode (str "x") ++ str "==") = Err (OpenErr EnvelopeTooShort).
Proof.
  rewrite (DecodeBatch_padding test_crypto (str "x") 2) by discriminate.
  vm_compute. reflexivity.
Defined.

(** The batch of these frames goes through the compressor. *)
Example test_batch_compressed :
  head (seal_input (z2b 0 :: batch_wire test_client test_frames))
  = Some batchFlagZstd.
Proof. vm_compute. reflexivity. Qed.
