(* ===== verification/RelayBody.v ===== *)
(** * internal/carrier/client.go: telling a batch from an error page

    Apps Script answers some failures with an HTML or JSON page and status 200.
    [isLikelyNonBatchRelayPayload] is the client's test for such a page and
    [classifyRelayErrorBody] its reading of it; [shortScriptKey] shortens a
    script URL for the log.  The theorems say how the test treats real batches:
    the comment in the code says it never rejects one, which is true of every
    batch but those whose base64 text starts with [HTTP/]. *)

From S2P Require Import Prelude GoStd Frame Crypto TestLib.

Definition isLikelyNonBatchRelayPayload (body : bytes) : bool :=
  let t := TrimSpace body in
  match t with
  | [] => false
  | t0 :: _ =>
      let l := ToLower t in
      if HasPrefix l (str "<!doctype") || HasPrefix l (str "<html") then true else
      if bool_decide (t0 = z2b 123) || bool_decide (t0 = z2b 91) || HasPrefix t (str "HTTP/")
      then true else false
  end.

(** The explanations, in the order in which they are tried; each is a text that
    the client logs. *)
Inductive relay_reason :=
| RQuota | RAuth | RDeployment | RAdmin | RTransient | RUnknown.

Definition quotaPatterns : list bytes :=
  [str "service invoked too many times"; str "invoked too many times";
   str "bandwidth quota exceeded"; str "too much upload bandwidth"; str "too much traffic";
   str "urlfetch"; str "quota"; str "exceeded"; str "daily"; str "rate limit"].
Definition authPatterns : list bytes :=
  [str "authorization is required"; str "unauthorized"; str "not authorized";
   str "permission denied"; str "access denied"].
Definition deployPatterns : list bytes :=
  [str "error code not_found"; str "not_found"; str "deployment"; str "script id";
   str "scriptid"; str "no script"].
Definition adminPatterns : list bytes :=
  [str "not permitted by your admin"; str "contact your administrator";
   str "disabled. please contact"; str "domain policy has disabled";
   str "administrator to enable"].
Definition transientPatterns : list bytes :=
  [str "server not available"; str "server error occurred"; str "please try again";
   str "temporarily unavailable"].

Definition matches (lower : bytes) (patterns : list bytes) : bool :=
  existsb (Contains lower) patterns.

(** The reason, and whether the failure is hard. *)
Definition classifyRelayErrorBody (body : bytes) : relay_reason * bool :=
  let lower := ToLower (TrimSpace body) in
  if matches lower quotaPatterns then (RQuota, true) else
  if matches lower authPatterns then (RAuth, true) else
  if matches lower deployPatterns then (RDeployment, true) else
  if matches lower adminPatterns then (RAdmin, true) else
  if matches lower transientPatterns then (RTransient, false) else
  (RUnknown, false).

(** The loop of [shortScriptKey] over the path segments. *)
Fixpoint short_key_loop (parts : list bytes) : bytes :=
  match parts with
  | p :: ((id :: _) as rest) =>
      if bool_decide (p = str "s") then
        if 14 <? len id
        then take 6 id ++ str "..." ++ drop (length id - 6) id
        else id
      else short_key_loop rest
  | _ => str "(unknown)"
  end.

Definition shortScriptKey (scriptURL : bytes) : bytes :=
  short_key_loop (Split (Trim scriptURL (str "/")) (z2b 47)).

(** ** Lemmas *)

Lemma b64_head_ok (c : byte) : c ∈ b64_alphabet ->
  b2z c < 128 /\ lower_ascii c <> z2b 60 /\ c <> z2b 123 /\ c <> z2b 91.
Proof.
  assert (Hall : forallb (fun c => (b2z c <? 128) && negb (bool_decide (lower_ascii c = z2b 60))
    && negb (bool_decide (c = z2b 123)) && negb (bool_decide (c = z2b 91))) b64_alphabet = true)
    by (vm_compute; reflexivity).
  intros Hc%list_elem_of_In. rewrite forallb_forall in Hall. specialize (Hall c Hc).
  rewrite !andb_true_iff, !negb_true_iff, !bool_decide_eq_false, Z.ltb_lt in Hall. tauto.
Qed.

Lemma b64_char_in (v : Z) : 0 <= v < 64 -> b64_char v ∈ b64_alphabet.
Proof.
  intros Hv. unfold b64_char.
  destruct (b64_alphabet !! Z.to_nat v) as [c|] eqn:Hc; [by eapply list_elem_of_lookup_2|].
  apply lookup_ge_None in Hc. change (length b64_alphabet) with 64%nat in Hc. lia.
Qed.

Lemma b64_encode_head (src : bytes) (c : byte) (t : bytes) :
  b64_encode src = c :: t -> c ∈ b64_alphabet.
Proof.
  rewrite b64_encode_sextets. intros H. pose proof (sextets_range src) as Hr.
  destruct (sextets src) as [|v vs]; [done|]. injection H as <- _.
  apply b64_char_in. by inversion Hr.
Qed.

Lemma nonbatch_b64 (src : bytes) :
  isLikelyNonBatchRelayPayload (b64_encode src) = HasPrefix (b64_encode src) (str "HTTP/").
Proof.
  unfold isLikelyNonBatchRelayPayload. rewrite TrimSpace_graph by apply b64_encode_graph.
  destruct (b64_encode src) as [|c t] eqn:He; [done|].
  apply b64_encode_head in He. destruct (b64_head_ok c He) as (Hlt & Hl & Hb & Hs).
  destruct (ToLower_ascii_head c t Hlt) as [t' ->].
  assert (Hno : forall p, HasPrefix (lower_ascii c :: t') (z2b 60 :: p) = false).
  { intros p. cbn. by rewrite bool_decide_eq_false_2. }
  change (str "<!doctype") with (z2b 60 :: str "!doctype"). rewrite Hno.
  change (str "<html") with (z2b 60 :: str "html"). rewrite Hno.
  rewrite !bool_decide_eq_false_2 by done. cbn [orb]. by destruct (HasPrefix _ _).
Qed.

(** ** Properties *)

(** A well-formed batch is taken for an error page exactly when its base64
    text starts with the five characters [HTTP/] (all of them base64 digits):
    every other response of the server passes the test. *)
Theorem nonbatch_test_on_batches {L : CryptoLib} (c : Crypto) (rand : option bytes)
    (clientID : bytes) (fs : list Frame) (body : bytes) :
  EncodeBatch c rand clientID fs = Ok body ->
  isLikelyNonBatchRelayPayload body = HasPrefix body (str "HTTP/").
Proof.
  unfold EncodeBatch. case_bool; [done|]. destruct (marshal_all fs); cbn; [|done..].
  destruct (Seal _ _ _) as [sealed|e|]; cbn; [|done..]. intros [= <-]. apply nonbatch_b64.
Qed.

(** The nonce whose base64 text is [HTTP/], followed by zero bytes. *)
Definition http_nonce : bytes := default [] (b64_decode (str "HTTP/AAAAAAAAAAA")).

(** There is a nonce (one in 2^30 of those a server draws) for which every
    batch is rejected, whatever it holds: its text starts with [HTTP/], so the
    client drops it as an error page and the frames in it are lost. *)
Theorem HTTP_nonce_batch_rejected {L : CryptoLib} (c : Crypto) (clientID : bytes)
    (fs : list Frame) (body : bytes) :
  EncodeBatch c (Some http_nonce) clientID fs = Ok body ->
  isLikelyNonBatchRelayPayload body = true.
Proof.
  intros He. unfold EncodeBatch in He. case_bool; [done|].
  destruct (marshal_all fs) as [raws|e|]; cbn [res_bind] in He; [|done..].
  unfold Seal in He. cbn [res_map_err res_bind] in He.
  assert (Hb : body = b64_encode (http_nonce ++ aead_Seal (aead c) http_nonce
    (seal_input (batch_plain clientID (len fs) raws)))) by congruence.
  rewrite Hb. clear He Hb.
  rewrite nonbatch_b64. generalize (aead_Seal (aead c) http_nonce
    (seal_input (batch_plain clientID (len fs) raws))).
  intros ct. change http_nonce with
    (z2b 29 :: z2b 52 :: z2b 207 :: z2b 252 :: zeros 8). reflexivity.
Qed.

(** An explanation that the failure is hard is given only for a page that
    contains one of the quota, permission, deployment or policy phrases, and a
    page with none of the known phrases is soft and unexplained; so an unknown
    page never takes a deployment out for more than the ordinary back-off. *)
Theorem classify_hard (body : bytes) (reason : relay_reason) (hard : bool) :
  classifyRelayErrorBody body = (reason, hard) ->
  (hard = true <-> exists p, p ∈ quotaPatterns ++ authPatterns ++ deployPatterns ++ adminPatterns
     /\ Contains (ToLower (TrimSpace body)) p = true)
  /\ (reason = RUnknown -> hard = false /\ forall p,
        p ∈ quotaPatterns ++ authPatterns ++ deployPatterns ++ adminPatterns ++ transientPatterns ->
        Contains (ToLower (TrimSpace body)) p = false).
Proof.
  unfold classifyRelayErrorBody. generalize (ToLower (TrimSpace body)). intros l.
  assert (Hm : forall ps, matches l ps = true -> exists p, p ∈ ps /\ Contains l p = true).
  { intros ps. unfold matches. rewrite existsb_exists. by setoid_rewrite list_elem_of_In. }
  assert (Hn : forall ps, matches l ps = false -> forall p, p ∈ ps -> Contains l p = false).
  { intros ps Hf p Hp. destruct (Contains l p) eqn:Hc; [|done].
    unfold matches in Hf. rewrite <- Hf. symmetry. apply existsb_exists.
    exists p. by rewrite <- list_elem_of_In. }
  assert (Hin : forall (ps : list bytes) p, p ∈ ps -> (forall q, q ∈ ps -> Contains l q = false) -> Contains l p = true -> False).
  { intros ps p Hp Hf Hc. by rewrite Hf in Hc. }
  set (hardPatterns := quotaPatterns ++ authPatterns ++ deployPatterns ++ adminPatterns).
  assert (Hyes : forall ps r, matches l ps = true -> (forall p, p ∈ ps -> p ∈ hardPatterns) ->
    r <> RUnknown -> (r, true) = (reason, hard) ->
    (hard = true <-> exists p, p ∈ hardPatterns /\ Contains l p = true)
    /\ (reason = RUnknown -> hard = false /\ forall p, p ∈ quotaPatterns ++ authPatterns ++
          deployPatterns ++ adminPatterns ++ transientPatterns -> Contains l p = false)).
  { intros ps r Ht Hsub Hr [= <- <-]. split; [|done]. split; [intros _|done].
    destruct (Hm ps Ht) as (p & Hp & Hc). exists p. auto. }
  destruct (matches l quotaPatterns) eqn:Hq.
  { apply (Hyes _ RQuota Hq); [intros p ?; unfold hardPatterns; rewrite !elem_of_app; tauto|done]. }
  destruct (matches l authPatterns) eqn:Ha.
  { apply (Hyes _ RAuth Ha); [intros p ?; unfold hardPatterns; rewrite !elem_of_app; tauto|done]. }
  destruct (matches l deployPatterns) eqn:Hd.
  { apply (Hyes _ RDeployment Hd); [intros p ?; unfold hardPatterns; rewrite !elem_of_app; tauto|done]. }
  destruct (matches l adminPatterns) eqn:Had.
  { apply (Hyes _ RAdmin Had); [intros p ?; unfold hardPatterns; rewrite !elem_of_app; tauto|done]. }
  unfold hardPatterns. clear Hyes hardPatterns.
  assert (Hsoft : ~ exists p, p ∈ quotaPatterns ++ authPatterns ++ deployPatterns ++ adminPatterns
    /\ Contains l p = true).
  { intros (p & Hp & Hc). rewrite !elem_of_app in Hp.
    destruct Hp as [Hp|[Hp|[Hp|Hp]]]; (eapply (Hin _ p Hp); [apply Hn; eassumption|done]). }
  destruct (matches l transientPatterns) eqn:Ht; intros [= <- <-]; (split; [by split|]); [done|].
  intros _. split; [done|]. intros p Hp. rewrite !elem_of_app in Hp.
  destruct Hp as [Hp|[Hp|[Hp|[Hp|Hp]]]]; (eapply Hn; [|exact Hp]; assumption).
Qed.

(** ** Concrete inputs *)

Definition test_body : bytes :=
  match EncodeBatch test_crypto (Some test_nonce) test_client test_frames with Ok b => b | _ => [] end.

Lemma nonbatch_test_on_batches_witness :
  isLikelyNonBatchRelayPayload test_body = HasPrefix test_body (str "HTTP/")
  /\ HasPrefix test_body (str "HTTP/") = false.
Proof.
  split; [|vm_compute; reflexivity].
  apply (nonbatch_test_on_batches test_crypto (Some test_nonce) test_client test_frames test_body).
  vm_compute. reflexivity.
Defined.

Lemma HTTP_nonce_batch_rejected_witness :
  exists body, EncodeBatch test_crypto (Some http_nonce) test_client test_frames = Ok body
    /\ isLikelyNonBatchRelayPayload body = true.
Proof.
  eexists. split; [vm_compute; reflexivity|].
  apply (HTTP_nonce_batch_rejected test_crypto test_client test_frames). vm_compute. reflexivity.
Defined.

Lemma classify_hard_witness :
  (true = true <-> exists p, p ∈ quotaPatterns ++ authPatterns ++ deployPatterns ++ adminPatterns
     /\ Contains (ToLower (TrimSpace (str "<html>Bandwidth Quota Exceeded</html>"))) p = true).
Proof.
  refine (proj1 (classify_hard (str "<html>Bandwidth Quota Exceeded</html>") RQuota true _)).
  vm_compute. reflexivity.
Defined.
