(* ===== verification/Session.v ===== *)
(** * internal/session/session.go: one tunnelled TCP connection

    A [Session] is the Go struct, its fields grouped by direction: [tx] holds
    what [EnqueueTx], [RequestClose] and [drainTx] use, [rx] what [ProcessRx],
    [deliverRx] and [CloseRx] use.  Each function below is the body of the Go
    method between taking and releasing [s.mu]; the clock is an argument, the
    result of a method that can wake the carrier says whether it calls [OnTx].
    A channel is the list of the values it buffers and a flag for [close].
    The interleaving of these critical sections is in [RxLoop]. *)

From S2P Require Import Prelude Frame.

(** Instants and durations are nanoseconds; the zero [time.Time] is 0. *)
Definition Second : Z := 1000000000.
Definition Millisecond : Z := 1000000.
Definition Minute : Z := 60 * Second.
Definition Hour : Z := 60 * Minute.
Definition IsZero (t : Z) : bool := t =? 0.

Definition TxBufHighWater : Z := 8 * 1024 * 1024.
Definition sessionFinalTimeout : Z := 30 * Second.
Definition rxInboxCap : Z := 1024.
Definition RxChanCap : Z := 1024.

(** ** State *)

Record TxState := mkTx {
  txBuf : bytes;
  txSeq : Z;
  synNeeded : bool;
  closeReq : bool;
  finSent : bool;
  finSentAt : Z;
  firstQueuedAt : Z;
}.

Record RxState := mkRx {
  rxSeq : Z;
  rxQueue : gmap Z Frame;
  rxClosed : bool;
  RxChan : list bytes;
  RxChanClosed : bool;
  rxInbox : list Frame;
  rxDone : bool;
}.

Record Session := mkSession {
  ID : bytes;
  SessTarget : bytes;
  tx : TxState;
  rx : RxState;
}.

Definition with_tx (s : Session) (t : TxState) : Session :=
  mkSession (ID s) (SessTarget s) t (rx s).
Definition with_rx (s : Session) (r : RxState) : Session :=
  mkSession (ID s) (SessTarget s) (tx s) r.

Definition New_rx : RxState := mkRx 0 ∅ false [] false [] false.

Definition New (now : Z) (id target : bytes) (needsSYN : bool) : Session :=
  mkSession id target
    (mkTx [] 0 needsSYN false false 0 (if needsSYN then now else 0))
    New_rx.

(** ** Transmit side *)

(** [if s.firstQueuedAt.IsZero() { s.firstQueuedAt = time.Now() }] *)
Definition queued_at (now : Z) (t : TxState) : Z :=
  if IsZero (firstQueuedAt t) then now else firstQueuedAt t.

(** [None]: the caller waits on [txCond]. *)
Definition EnqueueTx (now : Z) (data : bytes) (s : Session) : option (Session * bool) :=
  let t := tx s in
  if (TxBufHighWater <? len (txBuf t)) && negb (closeReq t) then None else
  if closeReq t then Some (s, false) else
  Some (with_tx s (mkTx (txBuf t ++ data) (txSeq t) (synNeeded t) (closeReq t)
                        (finSent t) (finSentAt t) (queued_at now t)), true).

Definition EnqueueInitialData (now : Z) (data : bytes) (s : Session)
    : option (Session * bool) :=
  let t := tx s in
  if negb (synNeeded t) then EnqueueTx now data s else
  Some (with_tx s (mkTx (data ++ txBuf t) (txSeq t) (synNeeded t) (closeReq t)
                        (finSent t) (finSentAt t) (queued_at now t)), true).

Definition RequestClose (now : Z) (s : Session) : Session * bool :=
  let t := tx s in
  (with_tx s (mkTx (txBuf t) (txSeq t) (synNeeded t) true
                   (finSent t) (finSentAt t) (queued_at now t)), true).

Definition tx_pending (t : TxState) : bool :=
  synNeeded t || (0 <? len (txBuf t)) || (closeReq t && negb (finSent t)).

Definition HasPendingTx (s : Session) : bool := tx_pending (tx s).
Definition HasPendingSYN (s : Session) : bool := synNeeded (tx s).
Definition FirstQueuedAt (s : Session) : Z := firstQueuedAt (tx s).

Definition IsDone (now : Z) (s : Session) : bool :=
  if finSent (tx s) && rxClosed (rx s) then true
  else if finSent (tx s) && negb (IsZero (finSentAt (tx s)))
          && (sessionFinalTimeout <? now - finSentAt (tx s)) then true
  else false.

(** [canAppend] of [drainTx]; [maxFrames <= 0] means unlimited. *)
Definition canAppend (maxFrames : Z) (frames : list Frame) : bool :=
  (maxFrames <=? 0) || (len frames <? maxFrames).

(** Size of the next chunk. *)
Definition chunk (maxPayload : Z) (buf : bytes) : Z :=
  let n := len buf in if maxPayload <? n then maxPayload else n.

(** The loop [for len(s.txBuf) > 0 && canAppend()]; every round takes at least
    one byte, so the length of the buffer is enough fuel. *)
Fixpoint drain_chunks (fuel : nat) (id : bytes) (maxPayload maxFrames : Z)
    (buf : bytes) (seq : Z) (frames : list Frame) : bytes * Z * list Frame :=
  match fuel with
  | O => (buf, seq, frames)
  | S fuel =>
      if (0 <? len buf) && canAppend maxFrames frames then
        let n := Z.to_nat (chunk maxPayload buf) in
        drain_chunks fuel id maxPayload maxFrames (drop n buf) (u64 (seq + 1))
          (frames ++ [mkFrame id seq 0 [] (take n buf)])
      else (buf, seq, frames)
  end.

(** The SYN frame, with the first chunk of payload if there is one: the buffer,
    sequence number and [synNeeded] after it, and the frames so far. *)
Definition drain_syn (maxPayload maxFrames : Z) (s : Session)
    : bytes * Z * bool * list Frame :=
  let t := tx s in
  if synNeeded t && canAppend maxFrames [] then
    let n := if 0 <? len (txBuf t) then Z.to_nat (chunk maxPayload (txBuf t)) else O in
    (drop n (txBuf t), u64 (txSeq t + 1), false,
     [mkFrame (ID s) (txSeq t) FlagSYN (SessTarget s) (take n (txBuf t))])
  else (txBuf t, txSeq t, synNeeded t, []).

(** The trailing FIN frame: the sequence number, [finSent] and [finSentAt] after
    it, and all the frames. *)
Definition drain_fin (now maxFrames : Z) (id : bytes) (t : TxState) (seq : Z)
    (frames : list Frame) : Z * bool * Z * list Frame :=
  if closeReq t && negb (finSent t) && canAppend maxFrames frames then
    (u64 (seq + 1), true, now, frames ++ [mkFrame id seq FlagFIN [] []])
  else (seq, finSent t, finSentAt t, frames).

(** [if len(s.txBuf) > 0 && maxPayload <= 0 { maxPayload = len(s.txBuf) }] *)
Definition eff_payload (maxPayload : Z) (buf : bytes) : Z :=
  if 0 <? len buf then if maxPayload <=? 0 then len buf else maxPayload else maxPayload.

Definition drainTx (now maxPayload maxFrames : Z) (s : Session) : Session * list Frame :=
  let t := tx s in
  if negb (synNeeded t) && (len (txBuf t) =? 0) && negb (closeReq t && negb (finSent t))
  then (s, []) else
  let maxPayload := eff_payload maxPayload (txBuf t) in
  let '(buf, seq, syn, frames) := drain_syn maxPayload maxFrames s in
  let '(buf, seq, frames) :=
    drain_chunks (length buf) (ID s) maxPayload maxFrames buf seq frames in
  let '(seq, fin, finAt, frames) := drain_fin now maxFrames (ID s) t seq frames in
  let queued :=
    if negb syn && (len buf =? 0) && negb (closeReq t && negb fin)
    then 0 else firstQueuedAt t in
  (with_tx s (mkTx buf seq syn (closeReq t) fin finAt queued), frames).

Definition DrainTx (now maxPayload : Z) (s : Session) := drainTx now maxPayload 0 s.
Definition DrainTxLimited (now maxPayload maxFrames : Z) (s : Session) :=
  drainTx now maxPayload maxFrames s.

(** ** Receive side *)

(** [close(s.RxChan)] on a channel already closed panics; that cannot be seen
    from the fields alone, so it is a result here. *)
Definition close_RxChan (r : RxState) : res Empty_set RxState :=
  if RxChanClosed r then Panic
  else Ok (mkRx (rxSeq r) (rxQueue r) (rxClosed r) (RxChan r) true (rxInbox r) (rxDone r)).

Definition set_rxClosed (r : RxState) : RxState :=
  mkRx (rxSeq r) (rxQueue r) true (RxChan r) (RxChanClosed r) (rxInbox r) (rxDone r).

Definition CloseRx (r : RxState) : res Empty_set RxState :=
  if rxClosed r then Ok r else close_RxChan (set_rxClosed r).

(** [stopOnce.Do(func() { close(s.rxDone) })] *)
Definition Stop (r : RxState) : RxState :=
  mkRx (rxSeq r) (rxQueue r) (rxClosed r) (RxChan r) (RxChanClosed r) (rxInbox r) true.

(** What [deliverRx] does after it releases the mutex: return, or send the
    payloads and then close the channel if a FIN was processed. *)
Inductive deliver_out :=
| DReturn (done : bool)
| DSend (toSend : list bytes) (closeAfter : bool).

(** The inner loop; every round after the first removes a queued frame, so one
    more than the size of the queue is enough fuel. *)
Fixpoint reassemble (fuel : nat) (f : Frame) (r : RxState) (toSend : list bytes)
    : RxState * deliver_out :=
  match fuel with
  | O => (r, DSend toSend false)
  | S fuel =>
      let toSend := if 0 <? len (Payload f) then toSend ++ [Payload f] else toSend in
      let next := u64 (rxSeq r + 1) in
      if HasFlag f FlagFIN then
        (mkRx next (rxQueue r) true (RxChan r) (RxChanClosed r) (rxInbox r) (rxDone r),
         DSend toSend true)
      else
        match rxQueue r !! next with
        | None =>
            (mkRx next (rxQueue r) (rxClosed r) (RxChan r) (RxChanClosed r) (rxInbox r) (rxDone r),
             DSend toSend false)
        | Some g =>
            reassemble fuel g
              (mkRx next (delete next (rxQueue r)) (rxClosed r) (RxChan r)
                    (RxChanClosed r) (rxInbox r) (rxDone r)) toSend
        end
  end.

Definition deliver_locked (f : Frame) (r : RxState) : RxState * deliver_out :=
  if rxClosed r then (r, DReturn true) else
  if Seq f <? rxSeq r then (r, DReturn false) else
  if rxSeq r <? Seq f then
    (mkRx (rxSeq r) (<[Seq f := f]> (rxQueue r)) (rxClosed r) (RxChan r)
          (RxChanClosed r) (rxInbox r) (rxDone r), DReturn false)
  else reassemble (S (size (rxQueue r))) f r [].

(** [deliverRx] when the reader keeps up, so that every send finds room. *)
Definition send_all (ps : list bytes) (r : RxState) : RxState :=
  mkRx (rxSeq r) (rxQueue r) (rxClosed r) (RxChan r ++ ps) (RxChanClosed r)
       (rxInbox r) (rxDone r).

Definition deliverRx (f : Frame) (r : RxState) : res Empty_set (RxState * bool) :=
  let '(r, out) := deliver_locked f r in
  match out with
  | DReturn b => Ok (r, b)
  | DSend toSend closeAfter =>
      if negb (len toSend =? 0) && RxChanClosed r then Panic else
      let r := send_all toSend r in
      if closeAfter then let! r := close_RxChan r in Ok (Stop r, true)
      else Ok (r, false)
  end.

(** [ProcessRx]: a closed session drops the frame, a stopped one too; a full
    inbox makes the caller wait for at most 5 s ([rxInboxBlockTimeout]).
    [timeout] says that no room was made in that time, which kills the session;
    otherwise the frame enters the inbox, in arrival order.  ([RxLoop] has the
    same function as separate steps, with the goroutine that makes the room.) *)
Definition ProcessRx (timeout : bool) (f : Frame) (r : RxState) : RxState :=
  let enqueue := mkRx (rxSeq r) (rxQueue r) (rxClosed r) (RxChan r) (RxChanClosed r)
                      (rxInbox r ++ [f]) (rxDone r) in
  if rxClosed r then r else
  if len (rxInbox r) <? rxInboxCap then enqueue else
  if rxDone r then r else
  if timeout then Stop r else enqueue.

(** ** Lemmas on [drainTx] *)

(** Frames with consecutive sequence numbers from [seq], given their flags,
    target and payload. *)
Definition number (id : bytes) (seq : Z) (l : list (Z * bytes * bytes)) : list Frame :=
  imap (fun i c => mkFrame id (u64 (seq + Z.of_nat i)) (fst (fst c)) (snd (fst c)) (snd c)) l.

Lemma len_number id seq l : len (number id seq l) = len l.
Proof. unfold len, number. by rewrite length_imap. Qed.
#[export] Hint Rewrite len_number : golen.

Lemma number_app id seq l k :
  number id seq (l ++ k) = number id seq l ++ number id (seq + len l) k.
Proof.
  unfold number. rewrite imap_app. f_equal. apply imap_ext. intros i x _.
  cbn. do 2 f_equal. unfold len. lia.
Qed.

Lemma number_one id seq fl tg p :
  0 <= seq < 2 ^ 64 -> number id seq [(fl, tg, p)] = [mkFrame id seq fl tg p].
Proof.
  intros. change (number id seq [(fl, tg, p)])
    with [mkFrame id (u64 (seq + Z.of_nat 0)) fl tg p].
  by rewrite Z.add_0_r, u64_small.
Qed.

Lemma number_u64 id seq l : number id (u64 seq) l = number id seq l.
Proof. unfold number. apply imap_ext. intros i x _. by rewrite u64_add_l. Qed.

Lemma number_payloads id seq l : map Payload (number id seq l) = map snd l.
Proof.
  revert seq. induction l as [|c l IH]; intros seq; [done|].
  change (c :: l) with ([c] ++ l). rewrite number_app, !map_app, IH. done.
Qed.

Definition data_part (chunks : list bytes) : list (Z * bytes * bytes) :=
  map (fun p => (0, [], p)) chunks.

Definition syn_part (syn : bool) (target p0 : bytes) : list (Z * bytes * bytes) :=
  if syn then [(FlagSYN, target, p0)] else [].

Definition fin_part (fin : bool) : list (Z * bytes * bytes) :=
  if fin then [(FlagFIN, [], [])] else [].

Lemma len_data_part chunks : len (data_part chunks) = len chunks.
Proof. apply len_map. Qed.
#[export] Hint Rewrite len_data_part : golen.

(** A chunk takes at least one byte and at most [maxPayload]. *)
Lemma chunk_bounds (mp : Z) (buf : bytes) :
  0 < len buf -> 0 < mp -> 0 < chunk mp buf <= len buf /\ chunk mp buf <= mp.
Proof. intros. unfold chunk. destruct (Z.ltb_spec mp (len buf)); lia. Qed.

Definition full (maxFrames : Z) (n : Z) : Prop := 0 < maxFrames /\ maxFrames <= n.

Lemma canAppend_false mf frames : canAppend mf frames = false <-> full mf (len frames).
Proof.
  unfold canAppend, full. rewrite orb_false_iff, Z.leb_gt, Z.ltb_ge. lia.
Qed.

Lemma drain_chunks_spec (fuel : nat) id mp mf buf seq frames :
  (length buf <= fuel)%nat -> (buf = [] \/ 0 < mp) -> 0 <= seq < 2 ^ 64 ->
  exists chunks buf',
    drain_chunks fuel id mp mf buf seq frames
    = (buf', u64 (seq + len chunks), frames ++ number id seq (data_part chunks))
    /\ concat chunks ++ buf' = buf
    /\ Forall (fun p => 0 < len p <= mp) chunks
    /\ (buf' = [] \/ full mf (len frames + len chunks))
    /\ (0 < mf -> len frames <= mf -> len frames + len chunks <= mf).
Proof.
  revert buf seq frames.
  assert (Hnil : forall buf seq frames, 0 <= seq < 2 ^ 64 -> buf = [] \/ full mf (len frames) ->
    exists chunks buf',
    (buf, seq, frames) = (buf', u64 (seq + len chunks), frames ++ number id seq (data_part chunks))
    /\ concat chunks ++ buf' = buf
    /\ Forall (fun p => 0 < len p <= mp) chunks
    /\ (buf' = [] \/ full mf (len frames + len chunks))
    /\ (0 < mf -> len frames <= mf -> len frames + len chunks <= mf)).
  { intros buf seq frames Hs He. exists [], buf. rewrite len_nil, !Z.add_0_r, app_nil_r.
    rewrite u64_small by lia. by repeat split. }
  induction fuel as [|fuel IH]; intros buf seq frames Hf Hmp Hs.
  { apply Hnil; [done|]. left. destruct buf; [done|cbn in Hf; lia]. }
  cbn [drain_chunks].
  destruct (Z.ltb_spec 0 (len buf)) as [Hb|Hb]; cbn [andb].
  2:{ apply Hnil; [done|]. left. apply len_zero. pose proof (len_nonneg buf); lia. }
  destruct (canAppend mf frames) eqn:Hc.
  2:{ apply Hnil; [done|]. right. by apply canAppend_false. }
  destruct Hmp as [->|Hmp]; [done|].
  pose proof (chunk_bounds mp buf Hb Hmp) as [Hch Hchm].
  set (n := Z.to_nat (chunk mp buf)).
  assert (Hln : len (take n buf) = chunk mp buf) by (subst n; len_tac).
  destruct (IH (drop n buf) (u64 (seq + 1)) (frames ++ [mkFrame id seq 0 [] (take n buf)]))
    as (chunks & buf' & -> & Hcat & Hall & Hend & Hfull).
  { rewrite length_drop. unfold len in *. lia. }
  { by right. }
  { apply u64_range. }
  exists (take n buf :: chunks), buf'. rewrite !len_cons.
  rewrite len_app, len_cons, len_nil in Hend, Hfull. split; [|split; [|split; [|split]]].
  - rewrite u64_add_l, number_u64, <- app_assoc. f_equal; [f_equal|].
    + f_equal. lia.
    + f_equal. change (data_part (take n buf :: chunks))
        with ([(0, [], take n buf)] ++ data_part chunks).
      by rewrite number_app, number_one.
  - cbn. by rewrite <- app_assoc, Hcat, take_drop.
  - constructor; [lia|done].
  - destruct Hend as [|He]; [by left|right]. unfold full in *. lia.
  - intros H0 H1. assert (~ full mf (len frames)) by (rewrite <- canAppend_false; congruence).
    unfold full in *. lia.
Qed.

(** What one call of [drainTx] emits and leaves behind.  [p0] is the payload of
    the SYN frame, [chunks] those of the data frames, [fin] tells whether a FIN
    frame ends the output. *)
Record drained (now mp mf : Z) (s s' : Session) (out : list Frame)
    (p0 : bytes) (chunks : list bytes) (fin : bool) : Prop := {
  dr_out : out = number (ID s) (txSeq (tx s))
    (syn_part (synNeeded (tx s)) (SessTarget s) p0 ++ data_part chunks ++ fin_part fin);
  dr_bytes : p0 ++ concat chunks ++ txBuf (tx s') = txBuf (tx s);
  dr_p0 : synNeeded (tx s) = false -> p0 = [];
  dr_size : 0 < mp -> len p0 <= mp /\ Forall (fun p => len p <= mp) chunks;
  dr_nonempty : Forall (fun p => 0 < len p) chunks;
  dr_seq : txSeq (tx s') = u64 (txSeq (tx s) + len out);
  dr_syn : synNeeded (tx s') = false;
  dr_close : closeReq (tx s') = closeReq (tx s);
  dr_fin : finSent (tx s') = finSent (tx s) || fin;
  dr_fin_pre : fin = true -> closeReq (tx s) = true /\ finSent (tx s) = false;
  dr_fin_buf : fin = true -> txBuf (tx s') = [];
  dr_rest : tx_pending (tx s') = true -> full mf (len out);
  dr_cap : 0 < mf -> len out <= mf;
  dr_id : ID s' = ID s /\ SessTarget s' = SessTarget s /\ rx s' = rx s;
}.

(** The part of [drainTx] after the SYN frame. *)
Lemma drain_tail now mp mf id seq0 (t : TxState) syn_l p0 buf seq :
  seq = u64 (seq0 + len syn_l) ->
  (buf = [] \/ 0 < mp) -> (0 < mf -> len syn_l <= mf) ->
  p0 ++ buf = txBuf t ->
  let '(buf', seq', frames) :=
    drain_chunks (length buf) id mp mf buf seq (number id seq0 syn_l) in
  let '(seq', fin, finAt, frames) := drain_fin now mf id t seq' frames in
  exists chunks f,
    frames = number id seq0 (syn_l ++ data_part chunks ++ fin_part f)
    /\ p0 ++ concat chunks ++ buf' = txBuf t
    /\ Forall (fun p => 0 < len p <= mp) chunks
    /\ seq' = u64 (seq0 + len frames)
    /\ fin = finSent t || f
    /\ (f = true -> closeReq t = true /\ finSent t = false /\ buf' = [])
    /\ (0 < len buf' \/ closeReq t && negb fin = true -> full mf (len frames))
    /\ (0 < mf -> len frames <= mf).
Proof.
  intros Hseq Hmp Hcap Hbuf.
  destruct (drain_chunks_spec (length buf) id mp mf buf seq (number id seq0 syn_l))
    as (chunks & buf' & -> & Hcat & Hall & Hend & Hc); [lia|done|subst; apply u64_range|].
  rewrite len_number in *.
  assert (Hfr : number id seq0 syn_l ++ number id seq (data_part chunks)
                = number id seq0 (syn_l ++ data_part chunks)).
  { by rewrite Hseq, number_u64, number_app. }
  rewrite Hfr. unfold drain_fin.
  assert (Hs : u64 (seq + len chunks) = u64 (seq0 + (len syn_l + len chunks))).
  { rewrite Hseq, u64_add_l. f_equal. lia. }
  assert (Hlen : len (number id seq0 (syn_l ++ data_part chunks)) = len syn_l + len chunks)
    by (autorewrite with golen; lia).
  destruct (closeReq t && negb (finSent t)) eqn:Hcl; cbn [andb];
    [destruct (canAppend mf _) eqn:Hca|].
  - apply andb_true_iff in Hcl as [Hcl Hfs%negb_true_iff].
    assert (Hb : buf' = []).
    { destruct Hend as [|Hend]; [done|]. exfalso. rewrite <- Hlen in Hend.
      apply canAppend_false in Hend. congruence. }
    exists chunks, true. rewrite Hs. cbn [fin_part].
    rewrite app_assoc, (number_app id seq0 (syn_l ++ _)), <- Hlen, len_number.
    rewrite <- (number_u64 id (seq0 + len (syn_l ++ data_part chunks))).
    rewrite number_one by apply u64_range.
    split; [done|]. split; [by rewrite Hcat|]. split; [done|].
    rewrite len_app, u64_add_l. autorewrite with golen.
    split; [f_equal; lia|]. split; [by rewrite orb_true_r|].
    rewrite Hb. split; [done|]. split.
    + intros [H|H]; [done|]. by rewrite andb_false_r in H.
    + intros Hmf. assert (Hnf : ~ full mf (len syn_l + len chunks)).
      { rewrite <- Hlen, <- canAppend_false. congruence. }
      unfold full in Hnf. lia.
  - exists chunks, false. cbn [fin_part]. rewrite app_nil_r, orb_false_r, Hs, Hlen.
    apply canAppend_false in Hca. rewrite Hlen in Hca.
    split; [done|]. split; [by rewrite Hcat|]. do 5 (split; [done|]). lia.
  - exists chunks, false. cbn [fin_part]. rewrite app_nil_r, orb_false_r, Hs, Hlen.
    split; [done|]. split; [by rewrite Hcat|]. do 4 (split; [done|]). split; [|lia].
    intros [H|H]; [|congruence]. destruct Hend as [->|]; [done|done].
Qed.

Lemma eff_payload_pos mp buf : buf = [] \/ 0 < eff_payload mp buf.
Proof.
  unfold eff_payload. destruct (Z.ltb_spec 0 (len buf)) as [Hb|Hb].
  - right. destruct (Z.leb_spec mp 0); lia.
  - left. apply len_zero. pose proof (len_nonneg buf). lia.
Qed.

Lemma eff_payload_id mp buf : 0 < mp -> eff_payload mp buf = mp.
Proof.
  intros. unfold eff_payload. rewrite (proj2 (Z.leb_gt mp 0)) by lia.
  by destruct (_ <? _).
Qed.

Lemma drain_syn_spec mp mf (s : Session) :
  0 <= txSeq (tx s) < 2 ^ 64 -> (txBuf (tx s) = [] \/ 0 < mp) ->
  exists p0 buf1,
    let l := syn_part (synNeeded (tx s)) (SessTarget s) p0 in
    drain_syn mp mf s
    = (buf1, u64 (txSeq (tx s) + len l), false, number (ID s) (txSeq (tx s)) l)
    /\ p0 ++ buf1 = txBuf (tx s)
    /\ (synNeeded (tx s) = false -> p0 = [])
    /\ (0 < mp -> len p0 <= mp) /\ (buf1 = [] \/ 0 < mp)
    /\ (0 < mf -> len l <= mf).
Proof.
  intros Hs Hmp. unfold drain_syn. destruct (synNeeded (tx s)); cbn [andb].
  - assert (canAppend mf [] = true) as ->.
    { destruct (canAppend mf []) eqn:Hc; [done|].
      apply canAppend_false in Hc as [? Hc]. unfold len in Hc. cbn in Hc. lia. }
    set (n := if 0 <? _ then _ else _).
    exists (take n (txBuf (tx s))), (drop n (txBuf (tx s))). cbv zeta.
    cbn [syn_part]. rewrite len_cons, len_nil, (number_one (ID s)) by done.
    split; [done|]. split; [by rewrite take_drop|]. split; [done|].
    split; [|split; [|lia]].
    + intros Hp. subst n. destruct (Z.ltb_spec 0 (len (txBuf (tx s)))).
      * pose proof (chunk_bounds mp (txBuf (tx s))). len_tac.
      * rewrite take_0, len_nil. lia.
    + destruct Hmp as [->|]; [left; by destruct n|by right].
  - exists [], (txBuf (tx s)). cbv zeta. cbn [syn_part].
    rewrite !len_nil, Z.add_0_r, u64_small by done.
    do 3 (split; [done|]). split; [unfold len; cbn; lia|]. split; [done|lia].
Qed.

Lemma drainTx_spec (now mp mf : Z) (s : Session) :
  0 <= txSeq (tx s) < 2 ^ 64 ->
  exists s' out p0 chunks fin,
    drainTx now mp mf s = (s', out) /\ drained now mp mf s s' out p0 chunks fin.
Proof.
  intros Hseq. unfold drainTx.
  destruct (negb (synNeeded (tx s)) && _ && _) eqn:Hidle.
  { exists s, [], [], [], false. split; [done|].
    apply andb_true_iff in Hidle as [[Hsy%negb_true_iff Hb%Z.eqb_eq]%andb_true_iff Hf].
    apply len_zero in Hb. apply negb_true_iff in Hf.
    constructor; rewrite ?Hsy, ?Hb, ?orb_false_r, ?len_nil; try done.
    - split; [unfold len; cbn; lia|constructor].
    - by rewrite Z.add_0_r, u64_small.
    - unfold tx_pending. by rewrite Hsy, Hb, Hf.
    - unfold len. cbn. lia. }
  set (mp' := eff_payload mp (txBuf (tx s))).
  pose proof (eff_payload_pos mp (txBuf (tx s))) as Hmp.
  destruct (drain_syn_spec mp' mf s Hseq Hmp)
    as (p0 & buf1 & -> & Hb1 & Hp0 & Hl0 & Hmp1 & Hcap).
  set (l := syn_part _ _ p0) in *.
  pose proof (drain_tail now mp' mf (ID s) (txSeq (tx s)) (tx s) l p0 buf1 _
    eq_refl Hmp1 Hcap Hb1) as Ht.
  destruct (drain_chunks _ _ _ _ _ _ _) as [[buf2 seq2] fr2].
  destruct (drain_fin _ _ _ _ _ _) as [[[seq3 fin3] at3] fr3].
  destruct Ht as (chunks & f & Hfr & Hcat & Hall & Hs3 & Hfin & Hf & Hrest & Hc).
  do 5 eexists. split; [reflexivity|]. eapply (Build_drained _ _ _ _ _ _ p0 chunks f);
    cbn [with_tx tx txBuf txSeq synNeeded closeReq finSent ID SessTarget rx]; try done.
  - intros Hp. unfold mp' in *. rewrite eff_payload_id in * by done.
    split; [auto|]. eapply Forall_impl; [exact Hall|]. cbn. lia.
  - eapply Forall_impl; [exact Hall|]. cbn. lia.
  - intros Hft. by destruct (Hf Hft) as (? & ? & _).
  - intros Hft. by destruct (Hf Hft) as (_ & _ & ?).
  - unfold tx_pending. cbn. intros [Hp%Z.ltb_lt|Hp]%orb_true_iff; auto.
Qed.
