(* ===== verification/Stream.v ===== *)
(** * The byte stream of a session, from one end to the other

    The transmit side of [Session] turns the bytes it accepts into numbered
    frames; the receive side puts frames that arrive in any order, any number
    of times, back together.  [tx_reach] is the set of states and outputs a
    session can reach through its methods, [feed] the receive side run over a
    list of arriving frames.  The theorems are the contract of the package: the
    receiver's output is a prefix of the accepted bytes, and all of them once
    every frame has arrived at least once. *)

From S2P Require Import Prelude Frame Session.

(** ** Transmit side *)

Section TxStream.
Context (id target : bytes) (needsSYN : bool).

(** The stream of a session, [acc] so far, after [EnqueueInitialData data]: behind
    what was written before, except that while the SYN is still to be drained the
    code puts [data] in front of it; nothing is added after a close. *)
Definition accepted (s : Session) (data acc : bytes) : bytes :=
  if synNeeded (tx s) then data ++ acc else if closeReq (tx s) then acc else acc ++ data.

(** [tx_reach s fs acc]: a run of the session's methods from [New] has emitted
    the frames [fs], accepted the stream [acc] and is in state [s]. *)
Inductive tx_reach : Session -> list Frame -> bytes -> Prop :=
| tx_new now : tx_reach (New now id target needsSYN) [] []
| tx_enqueue s fs acc now data s' kick :
    tx_reach s fs acc -> EnqueueTx now data s = Some (s', kick) ->
    tx_reach s' fs (if closeReq (tx s) then acc else acc ++ data)
| tx_initial s fs acc now data s' kick :
    tx_reach s fs acc -> EnqueueInitialData now data s = Some (s', kick) ->
    tx_reach s' fs (accepted s data acc)
| tx_close s fs acc now :
    tx_reach s fs acc -> tx_reach (fst (RequestClose now s)) fs acc
| tx_drain s fs acc now mp mf s' out :
    tx_reach s fs acc -> drainTx now mp mf s = (s', out) -> tx_reach s' (fs ++ out) acc
| tx_rx s fs acc r : tx_reach s fs acc -> tx_reach (with_rx s r) fs acc.

(** The shape of everything emitted so far. *)
Record tx_stream (s : Session) (fs : list Frame) (acc : bytes) : Prop := {
  ts_frames : exists p0 chunks,
    fs = number id 0 (syn_part (needsSYN && negb (synNeeded (tx s))) target p0
                      ++ data_part chunks ++ fin_part (finSent (tx s)))
    /\ p0 ++ concat chunks ++ txBuf (tx s) = acc
    /\ Forall (fun p => 0 < len p) chunks
    /\ (synNeeded (tx s) = true \/ needsSYN = false -> p0 = [])
    /\ (synNeeded (tx s) = true -> chunks = []);
  ts_syn : synNeeded (tx s) = true -> needsSYN = true /\ finSent (tx s) = false;
  ts_fin : finSent (tx s) = true -> closeReq (tx s) = true /\ txBuf (tx s) = [];
  ts_seq : txSeq (tx s) = u64 (len fs);
  ts_id : ID s = id /\ SessTarget s = target;
}.

Lemma tx_open_not_fin s fs acc :
  tx_stream s fs acc -> closeReq (tx s) = false -> finSent (tx s) = false.
Proof.
  intros H Hc. destruct (finSent (tx s)) eqn:Hf; [|done].
  destruct (ts_fin _ _ _ H Hf). congruence.
Qed.

Lemma concat_nonempty_nil (chunks : list bytes) :
  Forall (fun p => 0 < len p) chunks -> concat chunks = [] -> chunks = [].
Proof.
  intros Hall Hc. destruct Hall as [|p ps Hp _]; [done|].
  cbn in Hc. apply app_eq_nil in Hc as [-> _]. done.
Qed.

(** Appending to the buffer. *)
Lemma tx_stream_append s fs acc data buf at_ :
  tx_stream s fs acc -> finSent (tx s) = false -> buf = txBuf (tx s) ++ data ->
  tx_stream (with_tx s (mkTx buf (txSeq (tx s)) (synNeeded (tx s))
    (closeReq (tx s)) (finSent (tx s)) (finSentAt (tx s)) at_)) fs (acc ++ data).
Proof.
  intros [(p0 & ch & Hfs & Hacc & Hne & Hp0 & Hch) Hsyn Hfin Hseq Hid] Hf ->.
  constructor; cbn; try done; [|by rewrite Hf].
  exists p0, ch. split; [done|]. split; [|done].
  by rewrite <- Hacc, <- !app_assoc.
Qed.

(** Putting data in front of it: nothing has been emitted yet. *)
Lemma tx_stream_prepend s fs acc data at_ :
  tx_stream s fs acc -> synNeeded (tx s) = true ->
  tx_stream (with_tx s (mkTx (data ++ txBuf (tx s)) (txSeq (tx s)) (synNeeded (tx s))
    (closeReq (tx s)) (finSent (tx s)) (finSentAt (tx s)) at_)) fs (data ++ acc).
Proof.
  intros [(p0 & ch & Hfs & Hacc & Hne & Hp0 & Hch) Hsyn Hfin Hseq Hid] Hs.
  destruct (Hsyn Hs) as [_ Hf]. constructor; cbn; try done; [|by rewrite Hf].
  exists p0, ch. rewrite (Hp0 (or_introl Hs)), (Hch Hs) in *. cbn in *. by rewrite Hacc.
Qed.

Lemma tx_stream_drain s fs acc now mp mf s' out :
  tx_stream s fs acc -> drainTx now mp mf s = (s', out) -> tx_stream s' (fs ++ out) acc.
Proof.
  intros [(p0 & ch & Hfs & Hacc & Hne & Hp0 & Hch) Hsyn Hfin Hseq [Hid Htg]] Hd.
  destruct (drainTx_spec now mp mf s) as (s1 & out1 & q0 & dh & f & Hd1 & Hdr).
  { rewrite Hseq. apply u64_range. }
  rewrite Hd in Hd1. injection Hd1 as <- <-.
  destruct Hdr as [dr_out0 dr_bytes0 dr_p00 _ dr_nonempty0 dr_seq0 dr_syn0 dr_close0
    dr_fin0 dr_fin_pre0 dr_fin_buf0 _ _ dr_id0].
  destruct dr_id0 as (Hi & Ht & _). rewrite Hid, Htg, Hseq, number_u64 in dr_out0.
  constructor.
  2,3: rewrite ?dr_syn0, ?dr_fin0, ?dr_close0; try done.
  2:{ intros [Hfs'|Hf]%orb_true_iff.
      - destruct (Hfin Hfs') as [? Hb]. split; [done|]. rewrite Hb in dr_bytes0.
        apply app_eq_nil in dr_bytes0 as [_ Hx]. by apply app_eq_nil in Hx as [_ ?].
      - destruct (dr_fin_pre0 Hf). auto. }
  2:{ rewrite dr_seq0, Hseq, u64_add_l, len_app. done. }
  2:{ by rewrite Hi, Ht. }
  rewrite dr_syn0, dr_fin0. cbn [negb]. rewrite andb_true_r.
  destruct (finSent (tx s)) eqn:Hfs'; cbn [orb].
  - (* nothing is emitted after the FIN *)
    destruct (Hfin eq_refl) as [Hcl Hb]. rewrite Hb in *.
    assert (Hns : synNeeded (tx s) = false) by (destruct (synNeeded (tx s)); [by destruct (Hsyn eq_refl)|done]).
    apply app_eq_nil in dr_bytes0 as [-> [Hdc Hb']%app_eq_nil].
    apply concat_nonempty_nil in Hdc; [|done]. subst dh.
    assert (f = false) as -> by (destruct f; [by destruct (dr_fin_pre0 eq_refl)|done]).
    rewrite Hns in *. cbn in dr_out0. subst out. rewrite app_nil_r.
    exists p0, ch. rewrite Hb'. rewrite andb_true_r in Hfs.
    do 3 (split; [done|]). split; [|done]. intros [|]; [done|auto].
  - cbn [fin_part] in Hfs. rewrite app_nil_r in Hfs.
    destruct (synNeeded (tx s)) eqn:Hsy.
    + destruct (Hsyn eq_refl) as [Hn _]. rewrite Hn in *. cbn in Hfs.
      rewrite (Hch eq_refl), (Hp0 (or_introl eq_refl)) in *. cbn in Hfs. subst fs.
      cbn in Hacc. exists q0, dh. rewrite dr_out0. cbn [app len length].
      split; [done|]. split; [by rewrite dr_bytes0|]. split; [done|].
      split; [by intros [|]|done].
    + assert (q0 = []) as -> by auto. cbn [syn_part app] in *. rewrite andb_true_r in Hfs.
      exists p0, (ch ++ dh). rewrite concat_app.
      split; [|split; [by rewrite <- app_assoc, dr_bytes0|split; [by apply Forall_app|split; [|done]]]].
      2:{ intros [|]; [done|auto]. }
      rewrite dr_out0, Hfs, len_number. unfold data_part. rewrite map_app.
      fold (data_part ch) (data_part dh). rewrite <- (number_app id 0). by rewrite <- !app_assoc.
Qed.

Lemma tx_reach_stream s fs acc : tx_reach s fs acc -> tx_stream s fs acc.
Proof.
  induction 1 as [now|s fs acc now data s' kick _ IH He|s fs acc now data s' kick _ IH He
    |s fs acc now _ IH|s fs acc now mp mf s' out _ IH Hd|s fs acc r _ IH].
  - constructor; cbn; try done. exists [], []. by rewrite andb_negb_r.
  - unfold EnqueueTx in He. destruct (_ && _); [done|].
    destruct (closeReq (tx s)) eqn:Hc; injection He as <- _; [done|].
    rewrite <- Hc. apply tx_stream_append; [done| |done].
    by apply (tx_open_not_fin _ _ _ IH).
  - unfold EnqueueInitialData in He. unfold accepted. destruct (synNeeded (tx s)) eqn:Hsy; cbn [negb] in *.
    + injection He as <- _. rewrite <- Hsy. by apply tx_stream_prepend.
    + unfold EnqueueTx in He. destruct (_ && _); [done|].
      destruct (closeReq (tx s)) eqn:Hc; injection He as <- _; [done|].
      rewrite <- Hc. apply tx_stream_append; [done| |done].
      by apply (tx_open_not_fin _ _ _ IH).
  - destruct IH as [Hf Hs Hfi Hq Hi]. constructor; cbn; try done.
    intros Hx. by destruct (Hfi Hx).
  - by eapply tx_stream_drain.
  - destruct IH. by constructor.
Qed.

End TxStream.

(** ** Receive side *)

(** [rxLoop] over the frames it takes from [rxInbox], while the reader keeps up:
    it stops at the first frame for which [deliverRx] returns true. *)
Fixpoint feed (arr : list Frame) (r : RxState) : res Empty_set RxState :=
  match arr with
  | [] => Ok r
  | f :: arr => let! p := deliverRx f r in
                if snd p then Ok (fst p) else feed arr (fst p)
  end.

Definition payloads (fs : list Frame) : list bytes :=
  filter (fun p => p <> []) (map Payload fs).

Definition has_fin (fs : list Frame) : bool :=
  match last fs with Some f => HasFlag f FlagFIN | None => false end.

(** What a sender emits: frames numbered from 0, the FIN flag only on the last. *)
Record sent_wf (fs : list Frame) : Prop := {
  sw_seq : forall i f, fs !! i = Some f -> Seq f = Z.of_nat i;
  sw_fin : forall i f, fs !! i = Some f -> HasFlag f FlagFIN = true -> S i = length fs;
  sw_len : len fs < 2 ^ 64;
}.

(** The reassembly state as a function of the set of frames that arrived: [k] is
    the least sequence number still missing, everything beyond it is queued. *)
Record rx_core (fs arr : list Frame) (k : nat) (r : RxState) : Prop := {
  rc_seq : rxSeq r = Z.of_nat k;
  rc_le : (k <= length fs)%nat;
  rc_arrived : forall i f, (i < k)%nat -> fs !! i = Some f -> f ∈ arr;
  rc_missing : forall f, fs !! k = Some f -> f ∉ arr;
  rc_queue : forall z f, rxQueue r !! z = Some f <-> f ∈ arr /\ Seq f = z /\ Z.of_nat k < z;
}.

Definition rx_end (fs : list Frame) (k : nat) : bool :=
  bool_decide (k = length fs) && has_fin fs.

(** The whole state of a receiver whose reader keeps up. *)
Record rx_spec (fs arr : list Frame) (k : nat) (r : RxState) : Prop := {
  rs_core : rx_core fs arr k r;
  rs_chan : RxChan r = payloads (take k fs);
  rs_closed : rxClosed r = rx_end fs k;
  rs_chclosed : RxChanClosed r = rxClosed r;
  rs_done : rxDone r = rxClosed r;
  rs_inbox : rxInbox r = [];
}.

Lemma payloads_app l k : payloads (l ++ k) = payloads l ++ payloads k.
Proof. unfold payloads. by rewrite map_app, filter_app. Qed.

Lemma payloads_one f :
  payloads [f] = if 0 <? len (Payload f) then [Payload f] else [].
Proof.
  unfold payloads. cbn [map]. rewrite filter_cons, filter_nil.
  destruct (Z.ltb_spec 0 (len (Payload f))) as [H|H].
  - rewrite decide_True; [done|]. by apply len_pos.
  - rewrite decide_False; [done|]. intros ?%len_pos. lia.
Qed.

Lemma concat_payloads fs : concat (payloads fs) = concat (map Payload fs).
Proof.
  unfold payloads. induction (map Payload fs) as [|p ps IH]; [done|].
  rewrite filter_cons. destruct (decide _) as [|Hn]; cbn; rewrite IH; [done|].
  destruct p; [done|]. by destruct Hn.
Qed.

Section RxStream.
Context (fs : list Frame) (Hwf : sent_wf fs).

Lemma sent_seq_lookup f : f ∈ fs -> exists i, fs !! i = Some f /\ Seq f = Z.of_nat i.
Proof.
  intros [i Hi]%list_elem_of_lookup. exists i. split; [done|]. by apply (sw_seq fs Hwf).
Qed.

Lemma sent_lookup_seq f i : f ∈ fs -> Seq f = Z.of_nat i -> fs !! i = Some f.
Proof. intros (j & Hj & Hs)%sent_seq_lookup Hi. by assert (j = i) as -> by lia. Qed.

Lemma sent_fin k f : fs !! k = Some f -> HasFlag f FlagFIN = true ->
  S k = length fs /\ has_fin fs = true.
Proof.
  intros Hk Hf. pose proof (sw_fin fs Hwf k f Hk Hf) as Hl. split; [done|].
  unfold has_fin. rewrite last_lookup, <- Hl. cbn. by rewrite Hk.
Qed.

Lemma sent_not_fin k f : fs !! k = Some f -> HasFlag f FlagFIN = false ->
  rx_end fs (S k) = false.
Proof.
  intros Hk Hf. unfold rx_end. destruct (bool_decide_reflect (S k = length fs)) as [He|]; [|done].
  unfold has_fin. rewrite last_lookup, <- He. cbn. by rewrite Hk, Hf.
Qed.

Lemma payloads_take_S k f : fs !! k = Some f ->
  payloads (take (S k) fs)
  = payloads (take k fs) ++ (if 0 <? len (Payload f) then [Payload f] else []).
Proof. intros Hk. by rewrite (take_S_r _ _ _ Hk), payloads_app, payloads_one. Qed.

Lemma rx_core_next k f r :
  fs !! k = Some f -> rxSeq r = Z.of_nat k -> u64 (rxSeq r + 1) = Z.of_nat (S k).
Proof.
  intros Hk Hs. apply lookup_lt_Some in Hk. rewrite Hs, u64_small; [lia|].
  pose proof (sw_len fs Hwf). unfold len in *. lia.
Qed.

(** The loop of [deliverRx], started at the missing frame [f]. *)
Lemma reassemble_spec (arr : list Frame) (fuel : nat) f r k toSend base :
  (forall g, g ∈ arr -> g ∈ fs) ->
  (size (rxQueue r) < fuel)%nat ->
  fs !! k = Some f -> f ∈ arr -> rxSeq r = Z.of_nat k ->
  (forall i g, (i < k)%nat -> fs !! i = Some g -> g ∈ arr) ->
  (forall z g, rxQueue r !! z = Some g <-> g ∈ arr /\ Seq g = z /\ Z.of_nat k < z) ->
  base ++ toSend = payloads (take k fs) ->
  rxClosed r = false ->
  exists k' r' toSend' ca,
    reassemble fuel f r toSend = (r', DSend toSend' ca) /\ ca = rxClosed r'
    /\ rx_core fs arr k' r'
    /\ base ++ toSend' = payloads (take k' fs)
    /\ rxClosed r' = rx_end fs k'
    /\ RxChan r' = RxChan r /\ RxChanClosed r' = RxChanClosed r
    /\ rxInbox r' = rxInbox r /\ rxDone r' = rxDone r.
Proof.
  intros Hin. revert f r k toSend.
  induction fuel as [|fuel IH]; intros f r k toSend Hsz Hk Hf Hs Harr Hq Hbase Hcl; [lia|].
  pose proof (lookup_lt_Some _ _ _ Hk) as Hlt.
  pose proof (rx_core_next k f r Hk Hs) as Hnext.
  assert (Harr' : forall i g, (i < S k)%nat -> fs !! i = Some g -> g ∈ arr).
  { intros i g Hi Hg. destruct (decide (i = k)) as [->|]; [congruence|].
    apply (Harr i); [lia|done]. }
  assert (Hbase' : base ++ (if 0 <? len (Payload f) then toSend ++ [Payload f] else toSend)
                   = payloads (take (S k) fs)).
  { rewrite (payloads_take_S k f Hk), <- Hbase, <- app_assoc. f_equal.
    destruct (0 <? _); [done|by rewrite app_nil_r]. }
  cbn [reassemble]. rewrite Hnext. set (ts := if 0 <? _ then _ else _) in *.
  destruct (HasFlag f FlagFIN) eqn:Hfin; [|destruct (rxQueue r !! Z.of_nat (S k)) as [g|] eqn:Hg].
  - destruct (sent_fin k f Hk Hfin) as [Hl Hhf].
    exists (S k). do 3 eexists. split; [reflexivity|]. cbn.
    split; [done|split; [|split; [done|split; [|done]]]].
    2:{ unfold rx_end. by rewrite bool_decide_eq_true_2, Hhf by done. }
    constructor; cbn; [done|lia|done|intros g Hg%lookup_lt_Some; lia|].
    intros z g. rewrite Hq. split; [|intuition lia].
    intros (Hg & Hz & Hzk). destruct (sent_seq_lookup g (Hin g Hg)) as (i & Hi & Hsi).
    apply lookup_lt_Some in Hi. lia.
  - apply Hq in Hg as Hg'. destruct Hg' as (Hga & Hgs & _).
    pose proof (fun r' => IH g r' (S k) ts) as HI. set (r1 := mkRx _ _ _ _ _ _ _).
    specialize (HI r1). cbn in HI. apply HI; clear HI; try done.
    + rewrite map_size_delete_Some by (by exists g).
      assert (size (rxQueue r) <> 0%nat); [|lia].
      intros He%map_size_empty_inv. rewrite He in Hg. done.
    + apply sent_lookup_seq; auto.
    + intros z h. rewrite lookup_delete_Some, Hq. intuition lia.
  - exists (S k). do 3 eexists. split; [reflexivity|]. cbn. rewrite Hcl.
    split; [done|split; [|split; [done|split; [|done]]]].
    2:{ by rewrite (sent_not_fin k f Hk Hfin). }
    constructor; cbn; [done|lia|done| |].
    + intros g Hgk Hga. assert (HS : rxQueue r !! Z.of_nat (S k) = Some g); [|congruence].
      apply Hq. split; [done|]. split; [by apply (sw_seq fs Hwf)|lia].
    + intros z g. rewrite Hq. split; [|intuition lia].
      intros (Hga & Hz & Hzk). split; [done|]. split; [done|].
      destruct (decide (z = Z.of_nat (S k))) as [->|]; [|lia].
      assert (HS : rxQueue r !! Z.of_nat (S k) = Some g) by (by apply Hq); congruence.
Qed.

(** The critical section of [deliverRx] on an open session. *)
Lemma deliver_locked_spec (arr : list Frame) k r f base :
  (forall g, g ∈ f :: arr -> g ∈ fs) -> rx_core fs arr k r -> rxClosed r = false ->
  base = payloads (take k fs) ->
  exists k' r', rx_core fs (f :: arr) k' r'
    /\ RxChan r' = RxChan r /\ RxChanClosed r' = RxChanClosed r
    /\ rxInbox r' = rxInbox r /\ rxDone r' = rxDone r
    /\ ((deliver_locked f r = (r', DReturn false) /\ k' = k /\ rxClosed r' = false)
        \/ exists ts, deliver_locked f r = (r', DSend ts (rxClosed r'))
             /\ base ++ ts = payloads (take k' fs) /\ rxClosed r' = rx_end fs k').
Proof.
  intros Hin [Hs Hle Harr Hmiss Hq] Hc Hbase.
  destruct (sent_seq_lookup f) as (i & Hi & Hfs); [apply Hin; left|].
  pose proof (lookup_lt_Some _ _ _ Hi) as Hil.
  unfold deliver_locked. rewrite Hc.
  destruct (Z.ltb_spec (Seq f) (rxSeq r)) as [Hlt|Hge].
  { exists k, r. assert (Hfa : f ∈ arr) by (apply (Harr i); [lia|done]).
    split; [|do 4 (split; [done|]); by left]. constructor; try done.
    - intros j g ? ?. right. by eapply Harr.
    - intros g Hg [->|Hga]%elem_of_cons; by apply (Hmiss _ Hg).
    - intros z g. rewrite Hq, elem_of_cons. split; [intuition|].
      intros ([->|] & ? & ?); [lia|done]. }
  destruct (Z.ltb_spec (rxSeq r) (Seq f)) as [Hgt|Hle'].
  { set (r1 := mkRx _ _ _ _ _ _ _). exists k, r1. split; [|do 4 (split; [done|]); by left].
    constructor; cbn; try done.
    - intros j g ? ?. right. by eapply Harr.
    - intros g Hg [->|Hga]%elem_of_cons; [|by apply (Hmiss _ Hg)].
      apply (sw_seq fs Hwf) in Hg. lia.
    - intros z g. rewrite lookup_insert_Some, Hq, elem_of_cons. split.
      + intros [[<- <-]|(? & ? & ? & ?)]; [|intuition]. split; [by left|]. lia.
      + intros ([->|Hg] & <- & Hz); [by left|].
        destruct (decide (Seq f = Seq g)) as [He|]; [|right; intuition].
        left. split; [done|]. rewrite Hfs in He. symmetry in He.
        apply sent_lookup_seq in He; [congruence|]. apply Hin. by right. }
  assert (i = k) as -> by lia.
  destruct (reassemble_spec (f :: arr) (S (size (rxQueue r))) f r k [] base)
    as (k' & r' & ts & ca & -> & -> & Hcore & Hts & Hcl' & Hch' & Hcc' & Hib' & Hd'); try done.
  { lia. } { by left. }
  { intros j g ? ?. right. by eapply Harr. }
  { intros z g. rewrite Hq, elem_of_cons. split; [intuition|].
    intros ([->|] & ? & ?); [lia|done]. }
  { by rewrite app_nil_r. }
  exists k', r'. do 5 (split; [done|]). right. by exists ts.
Qed.

Lemma rx_core_ext arr arr' k r :
  (forall f, f ∈ arr <-> f ∈ arr') -> rx_core fs arr k r -> rx_core fs arr' k r.
Proof.
  intros Hset [Hs Hle Harr Hmiss Hq]. constructor; try done.
  - intros i f ? ?. apply Hset. by eapply Harr.
  - intros f Hf. rewrite <- Hset. by apply Hmiss.
  - intros z f. by rewrite Hq, Hset.
Qed.

Lemma ok_step arr k r b : b = rxClosed r -> rx_spec fs arr k r ->
  exists k' r', Ok (E := Empty_set) (r, b) = Ok (r', rxClosed r') /\ rx_spec fs arr k' r'.
Proof. intros -> ?. by exists k, r. Qed.

(** Once the last frame is in, later arrivals change nothing. *)
Lemma rx_core_closed arr arr' k r :
  (forall g, g ∈ arr' -> g ∈ fs) -> (forall g, g ∈ arr -> g ∈ arr') ->
  rx_end fs k = true -> rx_core fs arr k r -> rx_core fs arr' k r.
Proof.
  intros Hin Hsub [Hkl%bool_decide_eq_true _]%andb_true_iff [Hs Hle Harr Hmiss Hq].
  constructor; try done.
  - intros j g ? ?. apply Hsub. by eapply Harr.
  - intros g Hg%lookup_lt_Some. lia.
  - intros z g. rewrite Hq. split; [intros (? & ? & ?); split; [by apply Hsub|done]|].
    intros (Hg & ? & ?). destruct (sent_seq_lookup g (Hin g Hg)) as (j & Hj%lookup_lt_Some & ?). lia.
Qed.

(** One call of [deliverRx]. *)
Lemma deliverRx_spec (arr : list Frame) k r f :
  (forall g, g ∈ f :: arr -> g ∈ fs) -> rx_spec fs arr k r ->
  exists k' r', deliverRx f r = Ok (r', rxClosed r') /\ rx_spec fs (f :: arr) k' r'.
Proof.
  intros Hin [Hcore Hch Hcl Hcc Hd Hib]. destruct (rxClosed r) eqn:Hc.
  { unfold deliverRx, deliver_locked. rewrite Hc. apply (ok_step _ k); [done|].
    constructor; rewrite ?Hc; try done.
    eapply rx_core_closed; [done| |done|done]. intros g. by right. }
  unfold deliverRx.
  destruct (deliver_locked_spec arr k r f (RxChan r) Hin Hcore Hc Hch)
    as (k' & r' & Hcore' & Hch' & Hcc' & Hib' & Hd' & [(-> & -> & Hc')|(ts & -> & Hts & Hc')]).
  { apply (ok_step _ k); [done|]. constructor; try done; congruence. }
  rewrite Hcc', Hcc, andb_false_r. destruct (rxClosed r') eqn:Hc2.
  - unfold close_RxChan. cbn [send_all RxChanClosed]. rewrite Hcc', Hcc. cbn [res_bind].
    apply (ok_step _ k'); [done|]. destruct Hcore'. constructor; cbn; try done; congruence.
  - apply (ok_step _ k'); [cbn; congruence|]. destruct Hcore'.
    constructor; cbn; try done; congruence.
Qed.

Lemma feed_spec (arr pre : list Frame) k r :
  (forall g, g ∈ pre ++ arr -> g ∈ fs) -> rx_spec fs pre k r ->
  exists k' r', feed arr r = Ok r' /\ rx_spec fs (pre ++ arr) k' r'.
Proof.
  revert pre k r. induction arr as [|f arr IH]; intros pre k r Hin Hr.
  { exists k, r. by rewrite app_nil_r. }
  destruct (deliverRx_spec pre k r f) as (k1 & r1 & Hd & Hr1); [|done|].
  { intros g Hg. apply Hin. set_solver. }
  cbn [feed]. rewrite Hd. cbn [res_bind fst snd].
  assert (Hr1' : rx_spec fs (pre ++ [f]) k1 r1).
  { destruct Hr1 as [Hcore]. constructor; try done. eapply rx_core_ext; [|done].
    intros g. set_solver. }
  replace (pre ++ f :: arr) with ((pre ++ [f]) ++ arr) in * by (by rewrite <- app_assoc).
  destruct (rxClosed r1) eqn:Hc.
  - exists k1, r1. split; [done|]. destruct Hr1' as [Hcore]. constructor; try done.
    eapply rx_core_closed; [done| |congruence|done]. set_solver.
  - by apply IH with k1.
Qed.

Lemma New_rx_core : rx_core fs [] 0 New_rx.
Proof.
  constructor; cbn; try done; try lia.
  - intros f _. apply not_elem_of_nil.
  - intros z f. rewrite lookup_empty, elem_of_nil. by split; [|intros []].
Qed.

Lemma New_rx_spec : rx_spec fs [] 0 New_rx.
Proof.
  constructor; cbn; try done; [apply New_rx_core|]. unfold rx_end.
  destruct fs; [done|]. by rewrite bool_decide_eq_false_2.
Qed.

Lemma rx_spec_unique arr arr' k k' r r' :
  (forall f, f ∈ fs -> f ∈ arr <-> f ∈ arr') ->
  (forall g, g ∈ arr -> g ∈ fs) -> (forall g, g ∈ arr' -> g ∈ fs) ->
  rx_spec fs arr k r -> rx_spec fs arr' k' r' -> r = r' /\ k = k'.
Proof.
  intros Hset Hin Hin' H H'.
  assert (Hkk : forall a b ka kb ra rb, (forall f, f ∈ fs -> f ∈ a -> f ∈ b) ->
    rx_core fs a ka ra -> rx_core fs b kb rb -> (ka <= kb)%nat).
  { intros a b ka kb ra rb Hs Ha Hb. destruct (decide (ka <= kb)%nat) as [|Hn]; [done|].
    destruct (lookup_lt_is_Some_2 fs kb) as [g Hg].
    { pose proof (rc_le _ _ _ _ Ha). lia. }
    destruct (rc_missing _ _ _ _ Hb g Hg). apply Hs; [by eapply list_elem_of_lookup_2|].
    eapply (rc_arrived _ _ _ _ Ha); [|done]. lia. }
  destruct H as [Hc], H' as [Hc']. assert (k = k') as ->.
  { apply Nat.le_antisymm; [eapply (Hkk arr arr')|eapply (Hkk arr' arr)]; try done;
      intros f Hf; by apply Hset. }
  split; [|done]. destruct Hc, Hc', r, r'; cbn in *. subst. f_equal.
  apply map_eq. intros z. apply option_eq. intros f. rewrite rc_queue0, rc_queue1.
  split; intros (Hf & ? & ?); (split; [apply Hset; auto|done]).
Qed.

Lemma feed_New (arr : list Frame) : (forall g, g ∈ arr -> g ∈ fs) ->
  exists k r, feed arr New_rx = Ok r /\ rx_spec fs arr k r.
Proof. intros Hin. apply (feed_spec arr [] 0 New_rx Hin). apply New_rx_spec. Qed.

End RxStream.

(** ** The two ends together *)

Lemma concat_data_part chunks : concat (map snd (data_part chunks)) = concat chunks.
Proof. unfold data_part. by rewrite map_map, map_id. Qed.

Lemma concat_fin_part fin : concat (map snd (fin_part fin)) = [].
Proof. by destruct fin. Qed.

Lemma number_lookup id seq l i f :
  number id seq l !! i = Some f ->
  exists c, l !! i = Some c /\
    f = mkFrame id (u64 (seq + Z.of_nat i)) (fst (fst c)) (snd (fst c)) (snd c).
Proof.
  unfold number. rewrite list_lookup_imap.
  destruct (l !! i) as [c|]; [|done]. intros [= <-]. eauto.
Qed.

Lemma syn_part_flags syn tg p c : c ∈ syn_part syn tg p -> fst (fst c) = FlagSYN.
Proof. unfold syn_part. destruct syn; [|by intros ?%elem_of_nil]. by intros ->%list_elem_of_singleton. Qed.

Lemma data_part_flags chunks c : c ∈ data_part chunks -> fst (fst c) = 0.
Proof. unfold data_part. by intros (p & -> & _)%list_elem_of_fmap. Qed.

Lemma fin_lookup syn tg p0 chunks fin i c :
  (syn_part syn tg p0 ++ data_part chunks ++ fin_part fin) !! i = Some c ->
  negb (Z.land (fst (fst c)) FlagFIN =? 0) = true ->
  fin = true /\ S i = length (syn_part syn tg p0 ++ data_part chunks ++ fin_part fin).
Proof.
  intros Hi Hf. rewrite app_assoc, length_app. apply lookup_app_Some in Hi as [Hi|[Hl Hi]].
  { apply syn_part_flags in Hi || (apply list_elem_of_lookup_2 in Hi).
    apply syn_part_flags in Hi. by rewrite Hi in Hf. }
  apply lookup_app_Some in Hi as [Hi|[Hl2 Hi]].
  { apply list_elem_of_lookup_2, data_part_flags in Hi. by rewrite Hi in Hf. }
  destruct fin; [|done]. split; [done|]. cbn in *. rewrite length_app.
  destruct (i - _ - _)%nat as [|k] eqn:He in Hi; [lia|done].
Qed.

Lemma tx_stream_sent_wf id target syn s fs acc :
  tx_stream id target syn s fs acc -> len fs < 2 ^ 64 -> sent_wf fs.
Proof.
  intros H Hlen. destruct (ts_frames _ _ _ _ _ _ H) as (p0 & ch & -> & _).
  constructor; [| |done]; intros i f Hi.
  - apply lookup_lt_Some in Hi as Hlt.
    apply number_lookup in Hi as (c & _ & ->). cbn. apply u64_small. unfold len in Hlen. lia.
  - apply number_lookup in Hi as (c & Hc & ->). intros Hf.
    apply fin_lookup in Hc as [_ Hc]; [|done]. unfold number. by rewrite length_imap.
Qed.

Lemma tx_stream_fin id target syn s fs acc :
  tx_stream id target syn s fs acc -> has_fin fs = finSent (tx s).
Proof.
  intros H. destruct (ts_frames _ _ _ _ _ _ H) as (p0 & ch & -> & _).
  unfold has_fin. destruct (finSent (tx s)).
  - rewrite app_assoc, number_app, last_app. cbn [fin_part].
    change (number id ?n [(FlagFIN, [], [])]) with [mkFrame id (u64 (n + Z.of_nat 0)) FlagFIN [] []].
    done.
  - cbn [fin_part]. rewrite app_nil_r. rewrite last_lookup.
    destruct (_ !! _) as [f|] eqn:Hi; [|done].
    apply number_lookup in Hi as (c & Hc & ->). unfold HasFlag. cbn [Flags].
    apply lookup_app_Some in Hc as [Hc|[_ Hc]]; apply list_elem_of_lookup_2 in Hc.
    + apply syn_part_flags in Hc. by rewrite Hc.
    + apply data_part_flags in Hc. by rewrite Hc.
Qed.

Lemma tx_stream_bytes id target syn s fs acc :
  tx_stream id target syn s fs acc -> concat (map Payload fs) ++ txBuf (tx s) = acc.
Proof.
  intros H. destruct (ts_frames _ _ _ _ _ _ H) as (p0 & ch & -> & <- & _ & Hp0 & _).
  rewrite number_payloads, !map_app, !concat_app.
  rewrite concat_data_part, concat_fin_part, app_nil_r, <- app_assoc. f_equal.
  destruct (syn && negb (synNeeded (tx s))) eqn:Hs; cbn; [by rewrite app_nil_r|].
  symmetry. apply Hp0. destruct syn; [left|by right]. cbn in Hs. by apply negb_false_iff in Hs.
Qed.

(** C4: end-to-end delivery.  Whatever the interleaving of writes, closes and
    drains at the sender, and in whatever order and however often its frames
    arrive (some possibly never), the receiver, fed the frames one at a time, does
    not panic and puts on [RxChan] a prefix of the stream [acc] that the sender
    accepted, without an empty chunk; it closes [RxChan] only when the sender asked
    for the close and all of [acc] was delivered; and once every frame has arrived
    it holds everything that left the sender's buffer, closed exactly when the FIN
    was sent.  [acc] is what was written, in the order of the calls and up to the
    close, except that [EnqueueInitialData] puts its data in front of [acc] as long
    as the SYN has not been drained ([accepted]): two [VirtualConn.Write]s before
    that are delivered in the opposite order, and this is what they give. *)
Theorem stream_delivery id target syn (s : Session) (fs arr : list Frame) (acc : bytes) :
  tx_reach id target syn s fs acc -> len fs < 2 ^ 64 -> (forall f, f ∈ arr -> f ∈ fs) ->
  exists r rest, feed arr New_rx = Ok r /\ acc = concat (RxChan r) ++ rest
    /\ (forall p, p ∈ RxChan r -> p <> [])
    /\ (RxChanClosed r = true -> closeReq (tx s) = true /\ rest = [])
    /\ ((forall f, f ∈ fs -> f ∈ arr) ->
        rest = txBuf (tx s) /\ RxChanClosed r = finSent (tx s)).
Proof.
  intros Ht%tx_reach_stream Hlen Hin.
  pose proof (tx_stream_sent_wf _ _ _ _ _ _ Ht Hlen) as Hwf.
  pose proof (tx_stream_bytes _ _ _ _ _ _ Ht) as Hb.
  pose proof (tx_stream_fin _ _ _ _ _ _ Ht) as Hfin.
  destruct (feed_New fs Hwf arr Hin) as (k & r & Hf & Hr).
  exists r, (concat (map Payload (drop k fs)) ++ txBuf (tx s)).
  assert (Hend : k = length fs -> drop k fs = []) by (intros ->; apply drop_all).
  split; [done|]. split; [|split; [|split]].
  - rewrite (rs_chan _ _ _ _ Hr), concat_payloads, app_assoc, <- concat_app, <- map_app.
    by rewrite take_drop.
  - intros p. rewrite (rs_chan _ _ _ _ Hr). unfold payloads.
    by intros [? _]%list_elem_of_filter.
  - rewrite (rs_chclosed _ _ _ _ Hr), (rs_closed _ _ _ _ Hr). unfold rx_end. rewrite Hfin.
    intros [Hk%bool_decide_eq_true Hfs]%andb_true_iff.
    destruct (ts_fin _ _ _ _ _ _ Ht Hfs) as [Hc ->]. by rewrite Hend.
  - intros Hall. assert (Hk : k = length fs).
    { pose proof (rs_core _ _ _ _ Hr) as Hc. pose proof (rc_le _ _ _ _ Hc). destruct (decide (k = length fs)) as [|Hn]; [done|].
      destruct (lookup_lt_is_Some_2 fs k) as [g Hg]; [lia|].
      destruct (rc_missing _ _ _ _ Hc g Hg). eapply Hall, list_elem_of_lookup_2, Hg. }
    rewrite Hend by done. split; [done|].
    rewrite (rs_chclosed _ _ _ _ Hr), (rs_closed _ _ _ _ Hr). unfold rx_end.
    by rewrite Hfin, bool_decide_eq_true_2.
Qed.

(** Reassembly depends only on which frames have arrived: reordering and
    duplicating them changes nothing of the receiver's state (what was
    delivered, what is queued, whether the stream is closed). *)
Theorem reassembly_order_independent (fs arr arr' : list Frame) :
  sent_wf fs -> (forall f, f ∈ arr -> f ∈ fs) -> (forall f, f ∈ arr <-> f ∈ arr') ->
  feed arr New_rx = feed arr' New_rx.
Proof.
  intros Hwf Hin Hset.
  assert (Hin' : forall f, f ∈ arr' -> f ∈ fs) by (intros f; rewrite <- Hset; auto).
  destruct (feed_New fs Hwf arr Hin) as (k & r & -> & Hr).
  destruct (feed_New fs Hwf arr' Hin') as (k' & r' & -> & Hr').
  by destruct (rx_spec_unique fs arr arr' k k' r r') as [-> _]; auto.
Qed.

(** ** Consequences of [drained] *)

Section Drained.
Context (now mp mf : Z) (s s' : Session) (out : list Frame)
  (p0 : bytes) (ch : list bytes) (fin : bool)
  (H : drained now mp mf s s' out p0 ch fin).

Lemma drained_lookup i f : out !! i = Some f -> exists c,
  (syn_part (synNeeded (tx s)) (SessTarget s) p0 ++ data_part ch ++ fin_part fin) !! i = Some c /\
  f = mkFrame (ID s) (u64 (txSeq (tx s) + Z.of_nat i)) (fst (fst c)) (snd (fst c)) (snd c).
Proof. rewrite (dr_out _ _ _ _ _ _ _ _ _ H). apply number_lookup. Qed.

Lemma drained_nil : out = [] -> tx_pending (tx s) = false.
Proof.
  intros Ho. pose proof (dr_out _ _ _ _ _ _ _ _ _ H) as Hout. rewrite Ho in Hout.
  apply (f_equal len) in Hout. autorewrite with golen in Hout.
  destruct (tx_pending (tx s)) eqn:Hp; [|done]. exfalso.
  pose proof (len_nonneg ch). unfold len at 1 in Hout. cbn in Hout.
  destruct (synNeeded (tx s)) eqn:Hsy; [unfold syn_part, len in Hout; cbn in Hout; lia|].
  destruct fin eqn:Hfi; [unfold fin_part, len in Hout; cbn in Hout; lia|].
  assert (ch = []) as Hch by (apply len_zero; unfold fin_part, syn_part, len in *; cbn in *; lia).
  pose proof (dr_bytes _ _ _ _ _ _ _ _ _ H) as Hb.
  rewrite (dr_p0 _ _ _ _ _ _ _ _ _ H Hsy), Hch in Hb. cbn in Hb.
  assert (Hp' : tx_pending (tx s') = true).
  { unfold tx_pending in *. by rewrite (dr_syn _ _ _ _ _ _ _ _ _ H),
      (dr_close _ _ _ _ _ _ _ _ _ H), (dr_fin _ _ _ _ _ _ _ _ _ H), Hb, orb_false_r, <- Hsy. }
  apply (dr_rest _ _ _ _ _ _ _ _ _ H) in Hp'. unfold full, len in Hp'. rewrite Ho in Hp'.
  cbn in Hp'. lia.
Qed.

Lemma drained_payload_bytes : concat (map Payload out) ++ txBuf (tx s') = txBuf (tx s).
Proof.
  rewrite (dr_out _ _ _ _ _ _ _ _ _ H), number_payloads, !map_app, !concat_app.
  rewrite concat_data_part, concat_fin_part, app_nil_r, <- app_assoc.
  rewrite <- (dr_bytes _ _ _ _ _ _ _ _ _ H). f_equal.
  destruct (synNeeded (tx s)) eqn:Hsy; cbn; [by rewrite app_nil_r|].
  by rewrite (dr_p0 _ _ _ _ _ _ _ _ _ H Hsy).
Qed.

Lemma drained_payload_size f : 0 < mp -> f ∈ out -> len (Payload f) <= mp.
Proof.
  intros Hmp [i Hi]%list_elem_of_lookup. destruct (drained_lookup i f Hi) as (c & Hc & ->). cbn.
  destruct (dr_size _ _ _ _ _ _ _ _ _ H Hmp) as [Hl0 Hall]. apply list_elem_of_lookup_2 in Hc.
  rewrite !elem_of_app in Hc. destruct Hc as [Hc|[Hc|Hc]].
  - unfold syn_part in Hc. destruct (synNeeded _); [|by apply elem_of_nil in Hc].
    by apply list_elem_of_singleton in Hc as ->.
  - apply list_elem_of_fmap in Hc as (p & -> & Hp). cbn. by rewrite Forall_forall in Hall; apply Hall.
  - unfold fin_part in Hc. destruct fin; [|by apply elem_of_nil in Hc].
    apply list_elem_of_singleton in Hc as ->. unfold len. cbn. lia.
Qed.

Lemma drained_fin_last i f : out !! i = Some f -> HasFlag f FlagFIN = true ->
  S i = length out /\ closeReq (tx s) = true /\ txBuf (tx s') = [] /\ finSent (tx s') = true.
Proof.
  intros Hi Hf. destruct (drained_lookup i f Hi) as (c & Hc & ->).
  apply fin_lookup in Hc as [Hfin Hl]; [|done].
  destruct (dr_fin_pre _ _ _ _ _ _ _ _ _ H Hfin).
  rewrite (dr_fin _ _ _ _ _ _ _ _ _ H), Hfin, orb_true_r.
  split; [|pose proof (dr_fin_buf _ _ _ _ _ _ _ _ _ H Hfin); auto].
  rewrite (dr_out _ _ _ _ _ _ _ _ _ H). unfold number. by rewrite length_imap.
Qed.

End Drained.

Lemma drainTx_idle now mp mf (s : Session) :
  tx_pending (tx s) = false -> drainTx now mp mf s = (s, []).
Proof.
  unfold tx_pending, drainTx. intros [[-> Hp]%orb_false_iff ->]%orb_false_iff.
  assert ((len (txBuf (tx s)) =? 0) = true) as ->; [|done].
  apply Z.eqb_eq. apply Z.ltb_ge in Hp. pose proof (len_nonneg (txBuf (tx s))). lia.
Qed.

(** C22: one drain.  It emits something exactly when something is pending, with
    consecutive sequence numbers, at most [maxFrames] frames of at most
    [maxPayload] bytes each when these are positive; the bytes it emits are
    the front of the buffer, in order; a FIN comes last, and only once
    everything else has left; and what is pending afterwards waits only
    because the frame cap was reached. *)
Theorem drainTx_contract (now mp mf : Z) (s s' : Session) (out : list Frame) :
  0 <= txSeq (tx s) < 2 ^ 64 -> drainTx now mp mf s = (s', out) ->
  (out <> [] <-> HasPendingTx s = true)
  /\ (forall i f, out !! i = Some f -> SessionID f = ID s /\ Seq f = u64 (txSeq (tx s) + Z.of_nat i))
  /\ txSeq (tx s') = u64 (txSeq (tx s) + len out)
  /\ (0 < mf -> len out <= mf)
  /\ (0 < mp -> forall f, f ∈ out -> len (Payload f) <= mp)
  /\ concat (map Payload out) ++ txBuf (tx s') = txBuf (tx s)
  /\ (forall i f, out !! i = Some f -> HasFlag f FlagFIN = true ->
        S i = length out /\ closeReq (tx s) = true /\ txBuf (tx s') = [] /\ finSent (tx s') = true)
  /\ (HasPendingTx s' = true -> 0 < mf /\ len out = mf).
Proof.
  intros Hseq Hd.
  destruct (drainTx_spec now mp mf s Hseq) as (s1 & out1 & p0 & ch & f0 & Hd1 & H).
  rewrite Hd in Hd1. injection Hd1 as <- <-. 
  split; [|split; [|split; [|split; [|split; [|split; [|split]]]]]].
  - split.
    + intros Hne. unfold HasPendingTx. destruct (tx_pending (tx s)) eqn:Hp; [done|].
      rewrite drainTx_idle in Hd by done. congruence.
    + intros Hp Ho. apply (drained_nil _ _ _ _ _ _ _ _ _ H) in Ho. unfold HasPendingTx in Hp. congruence.
  - intros i f Hi. by destruct (drained_lookup _ _ _ _ _ _ _ _ _ H i f Hi) as (c & _ & ->).
  - apply (dr_seq _ _ _ _ _ _ _ _ _ H).
  - apply (dr_cap _ _ _ _ _ _ _ _ _ H).
  - intros Hmp f. by eapply drained_payload_size.
  - by eapply drained_payload_bytes.
  - by eapply drained_fin_last.
  - intros Hp. apply (dr_rest _ _ _ _ _ _ _ _ _ H) in Hp as [Hmf Hle].
    pose proof (dr_cap _ _ _ _ _ _ _ _ _ H Hmf). lia.
Qed.

(** Back-pressure.  [EnqueueTx] makes the writer wait exactly when more than
    8 MiB are buffered and no close was requested; otherwise the data is
    appended (so the buffer never exceeds the mark by more than one write) and
    the carrier is woken, or dropped without a wake-up after a close.  A
    waiting writer is released by the next uncapped drain and by
    [RequestClose]. *)
Theorem EnqueueTx_backpressure (now mp : Z) (data : bytes) (s : Session) :
  0 <= txSeq (tx s) < 2 ^ 64 ->
  (EnqueueTx now data s = None <->
     TxBufHighWater < len (txBuf (tx s)) /\ closeReq (tx s) = false)
  /\ (forall s' kick, EnqueueTx now data s = Some (s', kick) ->
        kick = negb (closeReq (tx s))
        /\ txBuf (tx s') = (if closeReq (tx s) then txBuf (tx s) else txBuf (tx s) ++ data)
        /\ (closeReq (tx s) = false ->
            len (txBuf (tx s')) <= TxBufHighWater + len data /\ HasPendingTx s' = HasPendingTx s || (0 <? len data)))
  /\ EnqueueTx now data (fst (DrainTx now mp s)) <> None
  /\ EnqueueTx now data (fst (RequestClose now s)) = Some (fst (RequestClose now s), false).
Proof.
  intros Hseq. split; [|split; [|split]].
  - unfold EnqueueTx. destruct (Z.ltb_spec TxBufHighWater (len (txBuf (tx s)))), (closeReq (tx s));
      cbn; split; try done; try lia; by intros [].
  - unfold EnqueueTx. intros s' kick He. destruct (closeReq (tx s)) eqn:Hc; cbn [negb] in He.
    + rewrite andb_false_r in He. by injection He as <- <-.
    + rewrite andb_true_r in He. destruct (Z.ltb_spec TxBufHighWater (len (txBuf (tx s)))); [done|].
      injection He as <- <-. cbn. split; [done|]. split; [done|]. intros _. split; [len_tac|].
      unfold HasPendingTx, tx_pending. cbn. rewrite Hc. cbn. rewrite !orb_false_r, <- orb_assoc.
      f_equal. rewrite len_app. pose proof (len_nonneg data). pose proof (len_nonneg (txBuf (tx s))).
      destruct (Z.ltb_spec 0 (len (txBuf (tx s)))), (Z.ltb_spec 0 (len data)); cbn;
        rewrite ?Z.ltb_lt, ?Z.ltb_ge; lia.
  - unfold DrainTx.
    destruct (drainTx_spec now mp 0 s Hseq) as (s' & out & p0 & ch & fin & -> & H). cbn [fst].
    assert (Hb : txBuf (tx s') = []).
    { destruct (tx_pending (tx s')) eqn:Hp.
      - apply (dr_rest _ _ _ _ _ _ _ _ _ H) in Hp as [? _]. lia.
      - unfold tx_pending in Hp. apply orb_false_iff in Hp as [[_ Hp]%orb_false_iff _].
        apply len_zero. apply Z.ltb_ge in Hp. pose proof (len_nonneg (txBuf (tx s'))). lia. }
    unfold EnqueueTx. rewrite Hb. change (TxBufHighWater <? len []) with false. cbn.
    by destruct (closeReq (tx s')).
  - unfold EnqueueTx. cbn. by rewrite andb_false_r.
Qed.

(** Two calls of [EnqueueInitialData] before the SYN is drained swap their
    data: the second is put in front of the first, so the connection's byte
    stream starts with the second write.  ([VirtualConn.Write] makes such calls;
    a session whose first write is followed by an early second one sends them
    in the wrong order.) *)
Theorem EnqueueInitialData_reorders (now1 now2 now3 mp : Z) (id target a b : bytes) :
  exists s1 s2, EnqueueInitialData now1 a (New now1 id target true) = Some (s1, true)
    /\ EnqueueInitialData now2 b s1 = Some (s2, true)
    /\ concat (map Payload (snd (DrainTx now3 mp s2))) = b ++ a.
Proof.
  do 2 eexists. split; [reflexivity|]. split; [reflexivity|].
  set (s2 := with_tx _ _). unfold DrainTx.
  destruct (drainTx_spec now3 mp 0 s2) as (s' & out & p0 & ch & fin & -> & H); [cbn; lia|].
  cbn [snd]. pose proof (drained_payload_bytes _ _ _ _ _ _ _ _ _ H) as Hb.
  assert (Hn : txBuf (tx s') = []).
  { destruct (len (txBuf (tx s')) =? 0) eqn:He; [by apply len_zero, Z.eqb_eq|].
    destruct (dr_rest _ _ _ _ _ _ _ _ _ H) as [? _]; [|lia].
    unfold tx_pending. apply Z.eqb_neq in He. pose proof (len_nonneg (txBuf (tx s'))).
    rewrite (proj2 (Z.ltb_lt _ _)) by lia. by rewrite orb_true_r. }
  rewrite Hn, app_nil_r in Hb. rewrite Hb. cbn. by rewrite app_nil_r.
Qed.

(** ** A concrete run *)

Definition demo_id : bytes := str "session-00000001".
Definition demo_target : bytes := str "example.com:443".

Definition demo_s0 : Session := New 1 demo_id demo_target true.
Definition demo_s1 : Session := fst (default (demo_s0, false) (EnqueueTx 2 (str "ab") demo_s0)).
Definition demo_s2 : Session := fst (default (demo_s1, false) (EnqueueTx 3 (str "c") demo_s1)).
Definition demo_s3 : Session := fst (RequestClose 4 demo_s2).
Definition demo_s4 : Session := fst (drainTx 5 2 0 demo_s3).
Definition demo_fs : list Frame := snd (drainTx 5 2 0 demo_s3).

Lemma demo_reach : tx_reach demo_id demo_target true demo_s4 demo_fs (str "abc").
Proof.
  apply (tx_drain _ _ _ demo_s3 [] (str "abc") 5 2 0 demo_s4 demo_fs); [|vm_compute; reflexivity].
  apply tx_close.
  apply (tx_enqueue _ _ _ demo_s1 [] (str "ab") 3 (str "c") demo_s2 true); [|reflexivity].
  apply (tx_enqueue _ _ _ demo_s0 [] [] 2 (str "ab") demo_s1 true); [|reflexivity]. apply tx_new.
Qed.

Lemma demo_in f : f ∈ rev demo_fs ++ demo_fs -> f ∈ demo_fs.
Proof. intros [H|H]%elem_of_app; [|done]. by apply list_elem_of_In, in_rev, list_elem_of_In in H. Qed.

Lemma stream_delivery_witness :
  length demo_fs = 3%nat /\
  exists r rest, feed (rev demo_fs ++ demo_fs) New_rx = Ok r /\ str "abc" = concat (RxChan r) ++ rest
    /\ (forall p, p ∈ RxChan r -> p <> [])
    /\ (RxChanClosed r = true -> closeReq (tx demo_s4) = true /\ rest = [])
    /\ ((forall f, f ∈ demo_fs -> f ∈ rev demo_fs ++ demo_fs) ->
        rest = txBuf (tx demo_s4) /\ RxChanClosed r = finSent (tx demo_s4)).
Proof.
  split; [reflexivity|].
  apply (stream_delivery _ _ _ demo_s4 demo_fs _ (str "abc") demo_reach); [reflexivity|apply demo_in].
Defined.

Lemma demo_sent_wf : sent_wf demo_fs.
Proof. eapply tx_stream_sent_wf; [apply tx_reach_stream, demo_reach|reflexivity]. Qed.

Lemma reassembly_order_independent_witness :
  feed (rev demo_fs ++ demo_fs) New_rx = feed (demo_fs ++ rev demo_fs) New_rx
  /\ exists r, feed (rev demo_fs ++ demo_fs) New_rx = Ok r /\ RxChan r = [str "ab"; str "c"].
Proof.
  split.
  - apply (reassembly_order_independent demo_fs); [apply demo_sent_wf|apply demo_in|].
    intros f. rewrite !elem_of_app. intuition.
  - eexists. split; [vm_compute; reflexivity|reflexivity].
Defined.

Lemma drainTx_contract_witness :
  (demo_fs <> [] <-> HasPendingTx demo_s3 = true) /\ HasPendingTx demo_s4 = false.
Proof.
  split; [|reflexivity].
  apply (drainTx_contract 5 2 0 demo_s3 demo_s4 demo_fs); [vm_compute; split; [discriminate|reflexivity]|reflexivity].
Defined.

Lemma EnqueueTx_backpressure_witness :
  EnqueueTx 9 (str "x") (fst (DrainTx 9 0 demo_s2)) <> None.
Proof.
  apply (EnqueueTx_backpressure 9 0 (str "x") demo_s2). vm_compute. split; [discriminate|reflexivity].
Defined.
