(* ===== verification/RxLoop.v ===== *)
(** * internal/session/session.go: the receive goroutine and its interleavings

    [Session.deliver_locked] and [Session.CloseRx] are the critical sections of
    the receive side; this file puts them together with the goroutine [rxLoop],
    the callers of [ProcessRx] and [Stop], the reader of [RxChan] and, where
    [crx] allows it, callers of [CloseRx], as a step relation.  Each step is
    what one goroutine does without giving up the mutex, or one channel
    operation.  The theorems: without [CloseRx] no interleaving panics or
    reorders anything, the goroutine always ends with [RxChan] closed, and, if
    nobody stops it, closes it only at the end of the stream; with [CloseRx]
    there is an interleaving that sends on a closed channel. *)

From S2P Require Import Prelude Frame Session Stream.

(** Where the goroutine [rxLoop] is. *)
Inductive lstate :=
| LIdle                                          (* in the select of [rxLoop] *)
| LGot (f : Frame)                               (* about to run [deliverRx] *)
| LSending (toSend : list bytes) (closeAfter : bool)  (* mutex released *)
| LExit                                          (* about to run the deferred function *)
| LDone
| LPanic.

Record RxSys := mkSys {
  sr : RxState;
  loop : lstate;
  callers : list Frame;  (* callers of [ProcessRx] past the [rxClosed] test *)
  consumed : list bytes; (* what the reader took from [RxChan] *)
}.

Definition set_sr (r : RxState) (s : RxSys) : RxSys :=
  mkSys r (loop s) (callers s) (consumed s).
Definition set_loop (r : RxState) (l : lstate) (s : RxSys) : RxSys :=
  mkSys r l (callers s) (consumed s).

Definition set_inbox (q : list Frame) (r : RxState) : RxState :=
  mkRx (rxSeq r) (rxQueue r) (rxClosed r) (RxChan r) (RxChanClosed r) q (rxDone r).
Definition set_chan (c : list bytes) (r : RxState) : RxState :=
  mkRx (rxSeq r) (rxQueue r) (rxClosed r) c (RxChanClosed r) (rxInbox r) (rxDone r).

(** [close(s.RxChan)] by the goroutine, which then goes on at [l]. *)
Definition loop_close (r : RxState) (l : lstate) (s : RxSys) : RxSys :=
  match close_RxChan r with
  | Ok r' => set_loop r' l s
  | _ => set_loop r LPanic s
  end.

(** The function [rxLoop] defers. *)
Definition loop_defer (s : RxSys) : RxSys :=
  if rxClosed (sr s) then set_loop (sr s) LDone s
  else loop_close (set_rxClosed (sr s)) LDone s.

(** [deliverRx] up to the point where it releases the mutex. *)
Definition loop_deliver (f : Frame) (s : RxSys) : RxSys :=
  match deliver_locked f (sr s) with
  | (r, DReturn done) => set_loop r (if done then LExit else LIdle) s
  | (r, DSend toSend closeAfter) => set_loop r (LSending toSend closeAfter) s
  end.

(** [deliverRx] after the last send. *)
Definition loop_sent (closeAfter : bool) (s : RxSys) : RxSys :=
  if closeAfter then
    match close_RxChan (sr s) with
    | Ok r => set_loop (Stop r) LExit s
    | _ => set_loop (sr s) LPanic s
    end
  else set_loop (sr s) LIdle s.

(** The steps of the goroutine [rxLoop]. *)
Inductive loop_step : RxSys -> RxSys -> Prop :=
| l_take s f q :
    loop s = LIdle -> rxInbox (sr s) = f :: q ->
    loop_step s (set_loop (set_inbox q (sr s)) (LGot f) s)
| l_stopped s :
    loop s = LIdle -> rxDone (sr s) = true -> loop_step s (set_loop (sr s) LExit s)
| l_deliver s f :
    loop s = LGot f -> loop_step s (loop_deliver f s)
| l_send s p ps ca :
    loop s = LSending (p :: ps) ca -> RxChanClosed (sr s) = false ->
    len (RxChan (sr s)) < RxChanCap ->
    loop_step s (set_loop (set_chan (RxChan (sr s) ++ [p]) (sr s)) (LSending ps ca) s)
| l_send_closed s p ps ca :
    loop s = LSending (p :: ps) ca -> RxChanClosed (sr s) = true ->
    loop_step s (set_loop (sr s) LPanic s)
| l_send_stopped s p ps ca :
    loop s = LSending (p :: ps) ca -> rxDone (sr s) = true ->
    loop_step s (if ca : bool then loop_close (sr s) LExit s else set_loop (sr s) LExit s)
| l_sent s ca :
    loop s = LSending [] ca -> loop_step s (loop_sent ca s)
| l_defer s :
    loop s = LExit -> loop_step s (loop_defer s).

(** The other goroutines; [crx] says whether some of them call [CloseRx]. *)
Inductive env_step (crx : bool) : RxSys -> RxSys -> Prop :=
| e_process s f :
    rxClosed (sr s) = false ->
    env_step crx s (mkSys (sr s) (loop s) (f :: callers s) (consumed s))
| e_enqueue s l1 f l2 :
    callers s = l1 ++ f :: l2 -> len (rxInbox (sr s)) < rxInboxCap ->
    env_step crx s (mkSys (set_inbox (rxInbox (sr s) ++ [f]) (sr s)) (loop s) (l1 ++ l2) (consumed s))
| e_dropped s l1 f l2 :
    callers s = l1 ++ f :: l2 -> rxDone (sr s) = true ->
    env_step crx s (mkSys (sr s) (loop s) (l1 ++ l2) (consumed s))
| e_timeout s l1 f l2 :
    callers s = l1 ++ f :: l2 -> rxInboxCap <= len (rxInbox (sr s)) ->
    env_step crx s (mkSys (Stop (sr s)) (loop s) (l1 ++ l2) (consumed s))
| e_stop s : env_step crx s (set_sr (Stop (sr s)) s)
| e_read s p ps :
    RxChan (sr s) = p :: ps ->
    env_step crx s (mkSys (set_chan ps (sr s)) (loop s) (callers s) (consumed s ++ [p]))
| e_closerx s r :
    crx = true -> CloseRx (sr s) = Ok r -> env_step crx s (set_sr r s).

Definition rx_step (crx : bool) (s s' : RxSys) : Prop := loop_step s s' \/ env_step crx s s'.

Definition sys_init : RxSys := mkSys New_rx LIdle [] [].

Definition rx_steps (crx : bool) : relation RxSys := rtc (rx_step crx).

(** ** The invariant without [CloseRx] *)

Section NoCloseRx.
Context (fs : list Frame) (Hwf : sent_wf fs).

(** Only frames the peer sent are offered to the session. *)
Definition callers_ok (s : RxSys) : Prop :=
  forall f, f ∈ callers s \/ f ∈ rxInbox (sr s) \/ loop s = LGot f -> f ∈ fs.

(** What left the reassembly so far. *)
Definition flowed (s : RxSys) : list bytes := consumed s ++ RxChan (sr s).

Inductive loop_inv (s : RxSys) : Prop :=
| li_open arr k :
    (loop s = LIdle \/ exists f, loop s = LGot f) ->
    rxClosed (sr s) = false -> RxChanClosed (sr s) = false ->
    rx_core fs arr k (sr s) -> (forall f, f ∈ arr -> f ∈ fs) ->
    flowed s = payloads (take k fs) -> rx_end fs k = false -> loop_inv s
| li_sending arr k ts ca :
    loop s = LSending ts ca ->
    rxClosed (sr s) = ca -> RxChanClosed (sr s) = false ->
    rx_core fs arr k (sr s) -> (forall f, f ∈ arr -> f ∈ fs) ->
    flowed s ++ ts = payloads (take k fs) -> ca = rx_end fs k -> loop_inv s
| li_ended :
    (loop s = LExit \/ loop s = LDone) -> RxChanClosed (sr s) = rxClosed (sr s) ->
    (loop s = LDone -> rxClosed (sr s) = true) ->
    flowed s `prefix_of` payloads fs -> rxDone (sr s) = true -> loop_inv s.

Lemma payloads_take_prefix k : payloads (take k fs) `prefix_of` payloads fs.
Proof.
  exists (payloads (drop k fs)). by rewrite <- payloads_app, take_drop.
Qed.

Lemma rx_core_same arr k r r' :
  rxSeq r' = rxSeq r -> rxQueue r' = rxQueue r -> rx_core fs arr k r -> rx_core fs arr k r'.
Proof. intros Hs Hq []. constructor; by rewrite ?Hs, ?Hq. Qed.

Lemma loop_inv_init : loop_inv sys_init.
Proof.
  apply (li_open _ [] 0); cbn; try done; [by left|apply New_rx_core| |].
  - intros f Hf. by apply elem_of_nil in Hf.
  - clear Hwf. by destruct fs.
Qed.

(** A state that differs only in what the reassembly does not look at. *)
Lemma loop_inv_same s s' :
  loop s' = loop s -> rxSeq (sr s') = rxSeq (sr s) -> rxQueue (sr s') = rxQueue (sr s) ->
  rxClosed (sr s') = rxClosed (sr s) -> RxChanClosed (sr s') = RxChanClosed (sr s) ->
  flowed s' = flowed s -> (rxDone (sr s) = true -> rxDone (sr s') = true) -> loop_inv s -> loop_inv s'.
Proof.
  intros Hl Hs Hq Hc Hcc Hf Hd [arr k Hlo|arr k ts ca Hlo|Hlo].
  - apply (li_open _ arr k); rewrite ?Hl, ?Hc, ?Hcc, ?Hf; try done. by apply (rx_core_same _ _ (sr s)).
  - apply (li_sending _ arr k ts ca); rewrite ?Hl, ?Hc, ?Hcc, ?Hf; try done. by apply (rx_core_same _ _ (sr s)).
  - apply li_ended; rewrite ?Hl, ?Hc, ?Hcc, ?Hf; auto.
Qed.

(** The goroutine leaves the loop: what it did not send is lost. *)
Lemma loop_inv_exit s r :
  loop_inv s ->
  RxChanClosed r = rxClosed r -> RxChan r = RxChan (sr s) -> rxDone r = true ->
  loop_inv (set_loop r LExit s).
Proof.
  intros H Hc Hch Hd. apply li_ended; cbn; [by left|done|done| |done].
  unfold flowed. cbn. rewrite Hch. fold (flowed s).
  destruct H as [arr k _ _ _ _ _ Hf _|arr k ts ca _ _ _ _ _ Hf|_ _ _ Hf]; [| |done].
  - rewrite Hf. apply payloads_take_prefix.
  - apply (prefix_app_l _ _ ts). rewrite Hf. apply payloads_take_prefix.
Qed.

Lemma loop_deliver_inv s f :
  loop s = LGot f -> f ∈ fs -> loop_inv s -> loop_inv (loop_deliver f s).
Proof.
  intros Hl Hf [arr k _ Hc Hcc Hcore Hin Hfl Hend|arr k ts ca Hl'|[Hl'|Hl']]; [|congruence..].
  destruct (deliver_locked_spec fs Hwf arr k (sr s) f (flowed s))
    as (k' & r' & Hcore' & Hch' & Hcc' & Hib' & Hd' & Hout); try done.
  { intros g [->|Hg]%elem_of_cons; auto. }
  assert (Hin' : forall g, g ∈ f :: arr -> g ∈ fs).
  { intros g [->|Hg]%elem_of_cons; auto. }
  unfold loop_deliver. destruct Hout as [(-> & -> & Hc')|(ts & -> & Hts & Hc')].
  - apply (li_open _ (f :: arr) k); cbn; try done; [by left|congruence|].
    unfold flowed in *. cbn. by rewrite Hch'.
  - apply (li_sending _ (f :: arr) k' ts (rxClosed r')); cbn; try done; [congruence|].
    unfold flowed in *. cbn. by rewrite Hch'.
Qed.

Lemma loop_step_inv s s' :
  callers_ok s -> loop_inv s -> loop_step s s' -> loop_inv s'.
Proof.
  intros Hok Hi Hst. destruct Hst as [s f q Hl Hq|s Hl Hd|s f Hl|s p ps ca Hl Hcc Hlen
    |s p ps ca Hl Hcc|s p ps ca Hl Hd|s ca Hl|s Hl].
  - destruct Hi as [arr k _ Hc Hcc Hcore Hin Hfl Hend|arr k ts ca Hl'|[Hl'|Hl']]; [|congruence..].
    apply (li_open _ arr k); cbn; try done; [by right; exists f|]. by apply (rx_core_same _ _ (sr s)).
  - apply loop_inv_exit; try done.
    destruct Hi as [arr k _ Hc Hcc|arr k ts ca Hl'|[Hl'|Hl']]; congruence.
  - apply loop_deliver_inv; [done| |done]. apply Hok. by right; right.
  - destruct Hi as [arr k [Hl'|[g Hl']]|arr k ts ca' Hl' Hc Hcc' Hcore Hin Hfl|[Hl'|Hl']]; [congruence..| |congruence|congruence].
    rewrite Hl in Hl'. injection Hl' as <- <-.
    apply (li_sending _ arr k ps ca); cbn; try done; [by apply (rx_core_same _ _ (sr s))|].
    unfold flowed in *. cbn. by rewrite <- Hfl, <- !app_assoc.
  - destruct Hi as [arr k [Hl'|[g Hl']]|arr k ts ca' Hl' Hc Hcc'|[Hl'|Hl']]; congruence.
  - destruct Hi as [arr k [Hl'|[g Hl']]|arr k ts ca' Hl' Hc Hcc' Hcore Hin Hfl|[Hl'|Hl']]; [congruence..| |congruence|congruence].
    rewrite Hl in Hl'. injection Hl' as <- <-.
    assert (loop_inv s) by (by apply (li_sending s arr k (p :: ps) ca)).
    destruct ca; [|apply loop_inv_exit; congruence].
    unfold loop_close, close_RxChan. rewrite Hcc'. by apply loop_inv_exit.
  - destruct Hi as [arr k [Hl'|[g Hl']]|arr k ts ca' Hl' Hc Hcc' Hcore Hin Hfl|[Hl'|Hl']]; [congruence..| |congruence|congruence].
    rewrite Hl in Hl'. injection Hl' as <- <-. rewrite app_nil_r in Hfl.
    unfold loop_sent, close_RxChan. rewrite Hcc'. destruct ca.
    + apply li_ended; cbn; [by left|done|done| |done]. unfold flowed in *. cbn. rewrite Hfl.
      apply payloads_take_prefix.
    + apply (li_open _ arr k); cbn; try done. by left.
  - destruct Hi as [arr k [Hl'|[g Hl']]|arr k ts ca' Hl'|_ Hc Hd Hfl]; [congruence..|].
    unfold loop_defer, loop_close, close_RxChan. cbn. destruct (rxClosed (sr s)) eqn:Hcl.
    + apply li_ended; cbn; [by right|congruence|done..].
    + rewrite Hc. apply li_ended; cbn; [by right|done..].
Qed.

Lemma env_step_inv s s' : loop_inv s -> env_step false s s' -> loop_inv s'.
Proof.
  intros Hi Hst. destruct Hst as [s f Hc|s l1 f l2 Hca Hl|s l1 f l2 Hca Hd|s l1 f l2 Hca Hl|s|s p ps Hch|s r Hf _];
    [| | | | | |done]; (eapply loop_inv_same; [..|exact Hi]; try done).
  unfold flowed. cbn. by rewrite <- app_assoc, Hch.
Qed.

(** The steps in which only frames of [fs] are offered. *)
Definition fed_step (s s' : RxSys) : Prop := rx_step false s s' /\ callers_ok s'.
Definition fed_steps : relation RxSys := rtc fed_step.

Lemma fed_inv s s' : fed_steps s s' -> callers_ok s -> loop_inv s -> callers_ok s' /\ loop_inv s'.
Proof.
  induction 1 as [s|s s1 s' [Hst Hok'] _ IH]; intros Hok Hi; [done|]. apply IH; [done|].
  destruct Hst as [Hst|Hst]; [by eapply loop_step_inv|by eapply env_step_inv].
Qed.

Lemma callers_ok_init : callers_ok sys_init.
Proof. intros f [Hf|[Hf|Hf]]; cbn in Hf; [by apply elem_of_nil in Hf..|done]. Qed.

Lemma fed_reach_inv s : fed_steps sys_init s -> loop_inv s.
Proof. intros H. apply (fed_inv _ _ H); [apply callers_ok_init|apply loop_inv_init]. Qed.

(** What the invariant says of the outside. *)
Lemma loop_inv_safe s : loop_inv s ->
  loop s <> LPanic
  /\ consumed s ++ RxChan (sr s) `prefix_of` payloads fs
  /\ (loop s = LDone -> RxChanClosed (sr s) = true).
Proof.
  intros [arr k Hl Hc Hcc Hcore Hin Hf _|arr k ts ca Hl Hc Hcc Hcore Hin Hf|Hl Hc Hd Hf].
  - split; [destruct Hl as [->|[f ->]]; done|]. split; [|by destruct Hl as [->|[f ->]]].
    fold (flowed s). rewrite Hf. apply payloads_take_prefix.
  - rewrite Hl. split; [done|]. split; [|done].
    fold (flowed s). apply (prefix_app_l _ _ ts). rewrite Hf. apply payloads_take_prefix.
  - split; [destruct Hl as [->| ->]; done|]. split; [done|]. intros HL. rewrite Hc. auto.
Qed.

(** ** End of file *)

(** Steps in which nobody stops the session. *)
Definition calm_step (s s' : RxSys) : Prop :=
  (loop_step s s' \/ (env_step false s s' /\ rxDone (sr s') = rxDone (sr s))) /\ callers_ok s'.
Definition calm_steps : relation RxSys := rtc calm_step.

(** Unless it was stopped, the goroutine leaves its loop only after a FIN with
    everything before it delivered. *)
Definition eof_inv (s : RxSys) : Prop :=
  match loop s with
  | LIdle | LGot _ => rxDone (sr s) = false
  | LSending ts ca => rxDone (sr s) = false
      /\ (ca = true -> flowed s ++ ts = payloads fs /\ has_fin fs = true)
  | LExit | LDone => flowed s = payloads fs /\ has_fin fs = true /\ RxChanClosed (sr s) = true
  | LPanic => False
  end.

Lemma eof_inv_same s s' :
  loop s' = loop s -> rxDone (sr s') = rxDone (sr s) -> RxChanClosed (sr s') = RxChanClosed (sr s) ->
  flowed s' = flowed s -> eof_inv s -> eof_inv s'.
Proof. intros Hl Hd Hcc Hf. unfold eof_inv. by rewrite Hl, Hd, Hcc, Hf. Qed.

Lemma eof_env s s' : eof_inv s -> env_step false s s' -> rxDone (sr s') = rxDone (sr s) -> eof_inv s'.
Proof.
  intros Hi Hst Hd. destruct Hst as [s f Hc|s l1 f l2 Hca Hl|s l1 f l2 Hca Hdn|s l1 f l2 Hca Hl|s|s p ps Hch|s r Hf _];
    [| | | | | |done]; (eapply eof_inv_same; [..|exact Hi]; try done).
  unfold flowed. cbn. by rewrite <- app_assoc, Hch.
Qed.

Lemma eof_deliver s f :
  loop s = LGot f -> f ∈ fs -> loop_inv s -> rxDone (sr s) = false -> eof_inv (loop_deliver f s).
Proof.
  intros Hl Hf [arr k _ Hc Hcc Hcore Hin Hfl _|arr k ts ca Hl'|[Hl'|Hl']] Hd; [|congruence..].
  destruct (deliver_locked_spec fs Hwf arr k (sr s) f (flowed s))
    as (k' & r' & Hcore' & Hch' & Hcc' & Hib' & Hd' & Hout); try done.
  { intros g [->|Hg]%elem_of_cons; auto. }
  unfold loop_deliver. destruct Hout as [(-> & _)|(ts & -> & Hts & Hend)]; cbn; [congruence|].
  split; [congruence|]. intros Hca. rewrite Hend in Hca.
  apply andb_true_iff in Hca as [->%bool_decide_eq_true Hfin]. split; [|done].
  unfold flowed in *. cbn. rewrite Hch', Hts. by rewrite take_ge.
Qed.

Lemma eof_loop s s' : callers_ok s -> loop_inv s -> eof_inv s -> loop_step s s' -> eof_inv s'.
Proof.
  intros Hok Hi He Hst. destruct Hst as [s f q Hl Hq|s Hl Hd|s f Hl|s p ps ca Hl Hcc Hlen
    |s p ps ca Hl Hcc|s p ps ca Hl Hd|s ca Hl|s Hl]; unfold eof_inv in He; rewrite Hl in He.
  - exact He.
  - congruence.
  - apply eof_deliver; [done| |done|done]. apply Hok. by right; right.
  - destruct He as [Hd He]. split; [exact Hd|]. intros Hca. destruct (He Hca) as [E ?]. split; [|done].
    unfold flowed in *. cbn. by rewrite <- E, <- !app_assoc.
  - destruct Hi as [arr k [Hl'|[g Hl']]|arr k ts ca' Hl' Hc Hcc'|[Hl'|Hl']]; congruence.
  - destruct He as [Hd' _]. congruence.
  - destruct Hi as [arr k [Hl'|[g Hl']]|arr k ts ca' Hl' Hc Hcc'|[Hl'|Hl']]; [congruence..| |congruence|congruence].
    unfold loop_sent, close_RxChan. rewrite Hcc'. destruct He as [Hd He]. destruct ca; [|exact Hd].
    destruct (He eq_refl) as [E Hfin]. rewrite app_nil_r in E. by split; [|split].
  - destruct He as (E & Hfin & Hcc). destruct Hi as [arr k [Hl'|[g Hl']]|arr k ts ca Hl'|_ Hc _ _]; [congruence..|].
    unfold loop_defer. rewrite <- Hc, Hcc. by split; [|split].
Qed.

Lemma calm_inv s s' : calm_steps s s' -> callers_ok s -> loop_inv s -> eof_inv s ->
  loop_inv s' /\ eof_inv s'.
Proof.
  induction 1 as [s|s s1 s' [Hst Hok'] _ IH]; intros Hok Hi He; [done|].
  assert (loop_inv s1) by (destruct Hst as [Hst|[Hst _]]; [by eapply loop_step_inv|by eapply env_step_inv]).
  apply IH; [done|done|]. destruct Hst as [Hst|[Hst Hd]]; [by eapply eof_loop|by eapply eof_env].
Qed.

(** A closed channel. *)
Lemma eof_closed s : loop_inv s -> eof_inv s -> RxChanClosed (sr s) = true ->
  flowed s = payloads fs /\ has_fin fs = true.
Proof.
  intros [arr k Hl Hc Hcc|arr k ts ca Hl Hc Hcc|Hl Hc Hd Hf] He Hcl; [congruence..|].
  unfold eof_inv in He. by destruct Hl as [Hl|Hl]; rewrite Hl in He; destruct He as (? & ? & _).
Qed.

End NoCloseRx.

(** ** Progress *)

(** What the goroutine still has to do, as a number of steps: a frame in the
    inbox costs at most four (taken, delivered, one payload more to send, back to
    the select), a frame in the queue at most one (its payload is sent). *)
Definition loop_work (l : lstate) : nat :=
  match l with
  | LIdle => 2 | LGot _ => 5 | LSending ts _ => length ts + 3 | LExit => 1 | LDone | LPanic => 0
  end%nat.

Definition work (s : RxSys) : nat :=
  (4 * length (rxInbox (sr s)) + size (rxQueue (sr s)) + loop_work (loop s))%nat.

Lemma reassemble_work fuel f r ts :
  rxInbox (fst (reassemble fuel f r ts)) = rxInbox r
  /\ exists ts' ca, snd (reassemble fuel f r ts) = DSend ts' ca
     /\ (length ts' + size (rxQueue (fst (reassemble fuel f r ts))) <= length ts + 1 + size (rxQueue r))%nat.
Proof.
  revert f r ts. induction fuel as [|fuel IH]; intros f r ts; cbn [reassemble].
  { split; [done|]. do 2 eexists. split; [reflexivity|]. cbn. lia. }
  set (ts1 := if 0 <? len (Payload f) then _ else _).
  assert (Hts : (length ts1 <= length ts + 1)%nat).
  { unfold ts1. case_bool; rewrite ?length_app; cbn; lia. }
  clearbody ts1. case_bool.
  { split; [done|]. do 2 eexists. split; [reflexivity|]. cbn. lia. }
  destruct (rxQueue r !! u64 (rxSeq r + 1)) as [g|] eqn:Hg.
  - set (r1 := mkRx _ _ _ _ _ _ _).
    assert (Hsz : size (rxQueue r) = S (size (rxQueue r1))).
    { unfold r1. cbn. rewrite map_size_delete, Hg. assert (size (rxQueue r) <> 0%nat); [|lia].
      intros Hz%map_size_empty_inv. by rewrite Hz in Hg. }
    destruct (IH g r1 ts1) as (-> & ts' & ca & E & Hle). split; [done|].
    exists ts', ca. split; [done|]. lia.
  - split; [done|]. do 2 eexists. split; [reflexivity|]. cbn. lia.
Qed.

(** Every step of the goroutine does some of it, and no other step adds to it
    but a frame that enters the inbox. *)
Lemma loop_step_work s s' : loop_step s s' -> (work s' < work s)%nat.
Proof.
  intros Hst. unfold work.
  destruct Hst as [s f q Hl Hq|s Hl Hd|s f Hl|s p ps ca Hl Hcc Hlen|s p ps ca Hl Hcc|s p ps ca Hl Hd|s ca Hl|s Hl];
    rewrite Hl; cbn [loop_work].
  - cbn. rewrite Hq. cbn. lia.
  - cbn. lia.
  - unfold loop_deliver, deliver_locked.
    destruct (rxClosed (sr s)); [cbn; lia|]. case_bool; [cbn; lia|]. case_bool.
    { cbn. rewrite map_size_insert. destruct (rxQueue (sr s) !! Seq f); unfold id; cbn; lia. }
    destruct (reassemble_work (S (size (rxQueue (sr s)))) f (sr s) []) as (Hi & ts & ca & E & Hle).
    destruct (reassemble _ _ _ _) as [r out]. cbn in Hi, E, Hle. subst out. cbn. rewrite Hi. lia.
  - cbn. lia.
  - cbn. lia.
  - unfold loop_close, close_RxChan. destruct ca, (RxChanClosed (sr s)); cbn; lia.
  - unfold loop_sent, close_RxChan. destruct ca, (RxChanClosed (sr s)); cbn; lia.
  - unfold loop_defer, loop_close, close_RxChan. cbn.
    destruct (rxClosed (sr s)), (RxChanClosed (sr s)); cbn; lia.
Qed.

Definition enqueued (s s' : RxSys) : nat := (length (rxInbox (sr s')) - length (rxInbox (sr s)))%nat.

Lemma env_step_work s s' : env_step false s s' ->
  (work s' <= work s + 4 * enqueued s s')%nat /\ (rxDone (sr s) = true -> rxDone (sr s') = true).
Proof.
  unfold work, enqueued. destruct 1; cbn; rewrite ?length_app; cbn; try discriminate; split; (lia || done).
Qed.

Lemma loop_step_done s s' : loop_step s s' -> rxDone (sr s) = true -> rxDone (sr s') = true.
Proof.
  intros Hst Hd. destruct Hst as [s f q Hl Hq|s Hl ?|s f Hl|s p ps ca Hl Hcc Hlen|s p ps ca Hl Hcc|s p ps ca Hl ?|s ca Hl|s Hl];
    try done.
  - assert (Hr : forall fuel f r ts, rxDone (fst (reassemble fuel f r ts)) = rxDone r).
    { induction fuel as [|fuel IH]; intros g r ts; [done|]. cbn [reassemble]. case_bool; [done|].
      destruct (rxQueue r !! _); [|done]. by rewrite IH. }
    unfold loop_deliver, deliver_locked. repeat case_bool; try done.
    match goal with |- context [reassemble ?a ?b ?c ?d] =>
      pose proof (Hr a b c d) as E; destruct (reassemble a b c d) as [r []] end; cbn in *; congruence.
  - unfold loop_close, close_RxChan. destruct ca, (RxChanClosed (sr s)); done.
  - unfold loop_sent, close_RxChan. destruct ca, (RxChanClosed (sr s)); done.
  - unfold loop_defer, loop_close, close_RxChan. cbn. destruct (rxClosed (sr s)), (RxChanClosed (sr s)); done.
Qed.

(** Runs with their numbers: [n] steps of the goroutine, [m] frames that entered
    the inbox. *)
Inductive counted (fs : list Frame) : nat -> nat -> RxSys -> RxSys -> Prop :=
| cn_nil s : counted fs 0 0 s s
| cn_loop n m s s1 s2 :
    loop_step s s1 -> callers_ok fs s1 -> counted fs n m s1 s2 -> counted fs (S n) m s s2
| cn_env n m s s1 s2 :
    env_step false s s1 -> callers_ok fs s1 -> counted fs n m s1 s2 ->
    counted fs n (enqueued s s1 + m) s s2.

Lemma counted_work fs n m s s' : counted fs n m s s' ->
  (n + work s' <= work s + 4 * m)%nat /\ (rxDone (sr s) = true -> rxDone (sr s') = true)
  /\ fed_steps fs s s'.
Proof.
  induction 1 as [s|n m s s1 s2 Hst Hok _ (IH & IHd & IHf)|n m s s1 s2 Hst Hok _ (IH & IHd & IHf)].
  - split; [lia|]. by split; [|apply rtc_refl].
  - pose proof (loop_step_work _ _ Hst). split; [lia|].
    split; [intros; by apply IHd, (loop_step_done s)|]. eapply rtc_l; [|done]. split; [by left|done].
  - destruct (env_step_work _ _ Hst) as [Hw Hd]. split; [lia|]. split; [auto|].
    eapply rtc_l; [|done]. split; [by right|done].
Qed.

(** A stopped goroutine is never blocked: not by an empty inbox, and not by a
    full [RxChan] whose reader takes nothing. *)
Lemma stopped_moves fs s : loop_inv fs s -> rxDone (sr s) = true -> loop s <> LDone -> exists s', loop_step s s'.
Proof.
  intros Hi Hd Hnd. destruct (loop s) as [|f|[|p ps] ca| | |] eqn:Hl.
  - eexists. by apply l_stopped.
  - eexists. by apply (l_deliver s f).
  - eexists. by apply (l_sent s ca).
  - eexists. by apply (l_send_stopped s p ps ca).
  - eexists. by apply l_defer.
  - done.
  - by destruct (loop_inv_safe fs s Hi).
Qed.

(** ** What has arrived gets through *)

Section Given.
Context (fs : list Frame) (Hwf : sent_wf fs).

(** Runs in which nobody stops the session: [n] steps of the goroutine so far,
    and [arr] the frames that entered its inbox. *)
Inductive given : nat -> list Frame -> RxSys -> Prop :=
| gv_init : given 0 [] sys_init
| gv_loop n arr s s' : given n arr s -> loop_step s s' -> given (S n) arr s'
| gv_arrive n arr s l1 f l2 :
    given n arr s -> callers s = l1 ++ f :: l2 -> len (rxInbox (sr s)) < rxInboxCap -> f ∈ fs ->
    given n (f :: arr) (mkSys (set_inbox (rxInbox (sr s) ++ [f]) (sr s)) (loop s) (l1 ++ l2) (consumed s))
| gv_env n arr s s' :
    given n arr s -> env_step false s s' -> rxInbox (sr s') = rxInbox (sr s) ->
    rxDone (sr s') = rxDone (sr s) -> given n arr s'.

Definition unsent (l : lstate) : list bytes := match l with LSending ts _ => ts | _ => [] end.

(** [k] frames were reassembled; those that arrived and are not among the frames
    [seen] by [deliverRx] are on their way to it. *)
Record given_inv (n : nat) (arr : list Frame) (s : RxSys) : Prop := mkGiven {
  gi_seen : exists seen k, rx_core fs seen k (sr s)
    /\ (forall f, f ∈ seen -> f ∈ arr)
    /\ (forall f, f ∈ arr -> f ∈ seen \/ f ∈ rxInbox (sr s) \/ loop s = LGot f \/ rx_end fs k = true)
    /\ flowed s ++ unsent (loop s) = payloads (take k fs) /\ rxClosed (sr s) = rx_end fs k;
  gi_arr : forall f, f ∈ rxInbox (sr s) \/ loop s = LGot f -> f ∈ arr;
  gi_fs : forall f, f ∈ arr -> f ∈ fs;
  gi_loop : match loop s with
    | LIdle | LGot _ => rxClosed (sr s) = false /\ RxChanClosed (sr s) = false /\ rxDone (sr s) = false
    | LSending _ ca => rxClosed (sr s) = ca /\ RxChanClosed (sr s) = false /\ rxDone (sr s) = false
    | LExit | LDone => rxClosed (sr s) = true /\ RxChanClosed (sr s) = true
    | LPanic => False
    end;
  gi_work : (n + work s <= 2 + 4 * length arr)%nat;
}.

Lemma given_init : given_inv 0 [] sys_init.
Proof.
  constructor; [|by intros f [Hf%elem_of_nil|]|by intros f ?%elem_of_nil|done|done].
  exists [], 0%nat. split; [apply New_rx_core|]. split; [by intros f ?%elem_of_nil|].
  split; [by intros f ?%elem_of_nil|]. split; [done|]. cbn. unfold rx_end. destruct fs; [done|].
  by rewrite bool_decide_eq_false_2.
Qed.

(** A step of the goroutine that keeps [rxSeq] and the queue. *)
Lemma given_same n arr s s' :
  given_inv n arr s -> (S n + work s' <= 2 + 4 * length arr)%nat ->
  rxSeq (sr s') = rxSeq (sr s) -> rxQueue (sr s') = rxQueue (sr s) -> rxClosed (sr s') = rxClosed (sr s) ->
  flowed s' ++ unsent (loop s') = flowed s ++ unsent (loop s) ->
  (forall f, f ∈ rxInbox (sr s) \/ loop s = LGot f <-> f ∈ rxInbox (sr s') \/ loop s' = LGot f) ->
  match loop s' with
  | LIdle | LGot _ => rxClosed (sr s') = false /\ RxChanClosed (sr s') = false /\ rxDone (sr s') = false
  | LSending _ ca => rxClosed (sr s') = ca /\ RxChanClosed (sr s') = false /\ rxDone (sr s') = false
  | LExit | LDone => rxClosed (sr s') = true /\ RxChanClosed (sr s') = true
  | LPanic => False
  end -> given_inv (S n) arr s'.
Proof.
  intros [(seen & k & Hcore & Hsub & Hall & Hf & Hc) Ha Hi _ _] Hw Es Eq Ec Ef Ein Hl. constructor; try done.
  - exists seen, k. split; [by apply (rx_core_same fs _ _ (sr s))|]. split; [done|]. split.
    + intros f Hfa. specialize (Ein f). destruct (Hall f Hfa) as [|[|[|]]]; tauto.
    + by rewrite Ef, Ec.
  - intros f Hf'. by apply Ha, Ein.
Qed.

Lemma given_deliver n arr s f :
  given_inv n arr s -> loop s = LGot f -> given_inv (S n) arr (loop_deliver f s).
Proof.
  intros [(seen & k & Hcore & Hsub & Hall & Hf & Hc) Ha Hi Hl Hw] Hg.
  pose proof (loop_step_work _ _ (l_deliver s f Hg)) as Hlt.
  rewrite Hg in Hl, Hf. destruct Hl as (Hcl & Hcc & Hd). cbn [unsent] in Hf. rewrite app_nil_r in Hf.
  assert (Hw' : (S n + work (loop_deliver f s) <= 2 + 4 * length arr)%nat) by lia. clear Hw Hlt.
  assert (Hfa : f ∈ arr) by (apply Ha; by right).
  assert (Hsub' : forall g, g ∈ f :: seen -> g ∈ arr) by (intros g [->|?]%elem_of_cons; auto).
  assert (Hall' : forall (e : bool) g, g ∈ arr -> g ∈ f :: seen \/ g ∈ rxInbox (sr s) \/ e = true).
  { intros e g Hga. rewrite elem_of_cons. destruct (Hall g Hga) as [|[|[E|E]]]; [auto..|left; left; congruence|congruence]. }
  destruct (deliver_locked_spec fs Hwf seen k (sr s) f (flowed s))
    as (k' & r' & Hcore' & Hch' & Hcc' & Hib' & Hd' & Hout); [auto|done..|].
  unfold loop_deliver in *. destruct Hout as [(E & -> & Hc')|(ts & E & Hts & Hc')]; rewrite E in *.
  - constructor; cbn; try done; [|rewrite Hib'; intros g [Hgi|[=]]; apply Ha; by left|by rewrite Hcc', Hd'].
    exists (f :: seen), k. split; [done|]. split; [done|].
    split; [intros g Hga; rewrite Hib'; destruct (Hall' false g Hga) as [|[|[=]]]; auto|].
    split; [unfold flowed in *; cbn; by rewrite Hch', app_nil_r|congruence].
  - constructor; cbn; try done; [|rewrite Hib'; intros g [Hgi|[=]]; apply Ha; by left|by rewrite Hcc', Hd'].
    exists (f :: seen), k'. split; [done|]. split; [done|].
    split; [intros g Hga; rewrite Hib'; destruct (Hall' (rx_end fs k') g Hga) as [|[|]]; auto|].
    split; [unfold flowed in *; cbn; by rewrite Hch'|done].
Qed.

Lemma given_loop n arr s s' : given_inv n arr s -> loop_step s s' -> given_inv (S n) arr s'.
Proof.
  intros H Hst. pose proof (gi_work _ _ _ H) as Hw. pose proof (loop_step_work _ _ Hst) as Hlt.
  assert (Hw' : (S n + work s' <= 2 + 4 * length arr)%nat) by lia. clear Hw Hlt.
  pose proof (gi_loop _ _ _ H) as Hl0.
  destruct Hst as [s f q Hl Hq|s Hl Hd|s f Hl|s p ps ca Hl Hcc Hlen|s p ps ca Hl Hcc|s p ps ca Hl Hd|s ca Hl|s Hl];
    rewrite Hl in Hl0.
  - apply (given_same n arr s); cbn; rewrite ?Hl; try done. intros g. rewrite Hq, elem_of_cons. split.
    + intros [[->|]|[=]]; auto.
    + intros [|[= ->]]; auto.
  - destruct Hl0 as (_ & _ & ?). congruence.
  - by apply given_deliver.
  - apply (given_same n arr s); cbn; rewrite ?Hl; try done.
    + unfold flowed. cbn. by rewrite <- !app_assoc.
    + intros g. by split; intros [|[=]]; left.
  - destruct Hl0 as (_ & ? & _). congruence.
  - destruct Hl0 as (_ & _ & ?). congruence.
  - destruct Hl0 as (Hca & Hcc & Hd). unfold loop_sent, close_RxChan in *. rewrite Hcc in *.
    apply (given_same n arr s); destruct ca; cbn; rewrite ?Hl; try done;
      (intros g; by split; intros [|[=]]; left).
  - destruct Hl0 as (Hc & Hcc). unfold loop_defer in *. rewrite Hc in *.
    apply (given_same n arr s); cbn; rewrite ?Hl; try done. intros g. by split; intros [|[=]]; left.
Qed.

Lemma given_env n arr s s' :
  given_inv n arr s -> env_step false s s' -> rxInbox (sr s') = rxInbox (sr s) ->
  rxDone (sr s') = rxDone (sr s) -> given_inv n arr s'.
Proof.
  intros H Hst Hib Hd.
  assert (E : rxSeq (sr s') = rxSeq (sr s) /\ rxQueue (sr s') = rxQueue (sr s) /\ rxClosed (sr s') = rxClosed (sr s)
    /\ RxChanClosed (sr s') = RxChanClosed (sr s) /\ loop s' = loop s /\ flowed s' = flowed s).
  { destruct Hst; try done. repeat split. unfold flowed. cbn. rewrite <- app_assoc. cbn. congruence. }
  destruct E as (Es & Eq & Ec & Ecc & El & Ef). destruct H as [(seen & k & Hcore & Hsub & Hall & Hf & Hc) Ha Hi Hl Hw].
  constructor; rewrite ?Hib, ?El, ?Ec, ?Ecc, ?Hd; try done.
  - exists seen, k. split; [by apply (rx_core_same fs _ _ (sr s))|]. by rewrite Ef.
  - unfold work. rewrite Hib, Eq, El. exact Hw.
Qed.

Lemma given_arrive n arr s l f :
  given_inv n arr s -> f ∈ fs ->
  given_inv n (f :: arr) (mkSys (set_inbox (rxInbox (sr s) ++ [f]) (sr s)) (loop s) l (consumed s)).
Proof.
  intros [(seen & k & Hcore & Hsub & Hall & Hf & Hc) Ha Hi Hl Hw] Hff. constructor; cbn; try done.
  - exists seen, k. split; [by apply (rx_core_same fs _ _ (sr s))|]. split; [intros g Hg; right; auto|]. split; [|done].
    intros g [->|Hg]%elem_of_cons; [right; left; set_solver|].
    destruct (Hall g Hg) as [|[|[|]]]; [auto|right; left; set_solver|auto..].
  - intros g [[Hg| ->%list_elem_of_singleton]%elem_of_app|Hg]; [right; auto|left|right; auto].
  - intros g [->|Hg]%elem_of_cons; auto.
  - unfold work in *. cbn. rewrite length_app. cbn. lia.
Qed.

Lemma given_reach n arr s : given n arr s -> given_inv n arr s.
Proof.
  induction 1 as [|n arr s s' _ IH Hst|n arr s l1 f l2 _ IH Hc Hlen Hf|n arr s s' _ IH Hst Hib Hd].
  - apply given_init.
  - by eapply given_loop.
  - by apply given_arrive.
  - by eapply given_env.
Qed.

End Given.

(** ** The sequential [deliverRx] is a run of the goroutine *)

Lemma read_all crx s : exists s', rx_steps crx s s' /\ loop s' = loop s
  /\ sr s' = set_chan [] (sr s) /\ flowed s' = flowed s.
Proof.
  remember (RxChan (sr s)) as c eqn:Hc. revert s Hc.
  induction c as [|p c IH]; intros s Hc.
  - exists s. split; [done|]. split; [done|]. split; [|done].
    destruct s as [[] ? ? ?]; cbn in *. by subst.
  - destruct (IH (mkSys (set_chan c (sr s)) (loop s) (callers s) (consumed s ++ [p])))
      as (s' & Hs & Hl & Hr & Hf); [done|].
    exists s'. split; [eapply rtc_l; [right; by apply e_read|done]|].
    split; [done|]. split; [by rewrite Hr|]. rewrite Hf. unfold flowed. cbn.
    by rewrite <- Hc, <- app_assoc.
Qed.

Lemma send_loop crx ca ps s :
  loop s = LSending ps ca -> RxChanClosed (sr s) = false ->
  exists s' c, rx_steps crx s s' /\ loop s' = LSending [] ca
    /\ sr s' = set_chan c (sr s) /\ flowed s' = flowed s ++ ps.
Proof.
  revert s. induction ps as [|p ps IH]; intros s Hl Hcc.
  { exists s, (RxChan (sr s)). rewrite app_nil_r. split; [done|]. split; [done|].
    split; [|done]. by destruct (sr s). }
  destruct (read_all crx s) as (s1 & Hs1 & Hl1 & Hr1 & Hf1).
  rewrite Hl in Hl1.
  destruct (IH (set_loop (set_chan (RxChan (sr s1) ++ [p]) (sr s1)) (LSending ps ca) s1))
    as (s2 & c & Hs2 & Hl2 & Hr2 & Hf2); [done|by rewrite Hr1|].
  exists s2, c. split; [|split; [done|split]].
  - etransitivity; [exact Hs1|]. eapply rtc_l; [|exact Hs2].
    left. eapply l_send; [done|by rewrite Hr1|by rewrite Hr1].
  - rewrite Hr2, Hr1. done.
  - rewrite Hf2. change (p :: ps) with ([p] ++ ps). rewrite app_assoc, <- Hf1.
    unfold flowed. cbn. by rewrite <- !app_assoc.
Qed.

(** C6: the concurrent receive side never goes wrong on its own: in every
    interleaving of the callers of [ProcessRx] (offering frames of one sender,
    in any order and number), of [Stop], of the time-out that kills an
    overrun session, of the goroutine and of the reader, nothing panics (no
    double close, no send on a closed channel), and what the reader got and
    what waits for it is a prefix of the payloads the peer sent, in order; and
    when the goroutine has ended, [RxChan] is closed, so its reader ends too. *)
Theorem rxloop_safe (fs : list Frame) (s : RxSys) :
  sent_wf fs -> fed_steps fs sys_init s ->
  loop s <> LPanic
  /\ consumed s ++ RxChan (sr s) `prefix_of` payloads fs
  /\ (loop s = LDone -> RxChanClosed (sr s) = true).
Proof.
  intros Hwf Hs. by apply (loop_inv_safe fs), fed_reach_inv.
Qed.

(** Someone closes [rxDone]: a call of [Stop], or a caller of [ProcessRx] whose
    time is up with the inbox full. *)
Definition kills (s s' : RxSys) : Prop :=
  s' = set_sr (Stop (sr s)) s
  \/ (rxInboxCap <= len (rxInbox (sr s)) /\ exists l1 f l2, callers s = l1 ++ f :: l2
      /\ s' = mkSys (Stop (sr s)) (loop s) (l1 ++ l2) (consumed s)).

Lemma calm_or_killed fs s : fed_steps fs sys_init s ->
  calm_steps fs sys_init s
  \/ exists s1 s2, fed_steps fs sys_init s1 /\ rxDone (sr s1) = false /\ kills s1 s2 /\ fed_steps fs s2 s.
Proof.
  revert s. apply rtc_ind_r; [by left|]. intros s s' Hs [Hst Hok] IH.
  destruct IH as [Hc|(s1 & s2 & H1 & Hd & Hk & H2)].
  2:{ right. exists s1, s2. split; [done|]. split; [done|]. split; [done|]. by eapply rtc_r. }
  destruct Hst as [Hst|Hst]; [left; eapply rtc_r; [exact Hc|split; [by left|done]]|].
  destruct (decide (rxDone (sr s') = rxDone (sr s))) as [E|E].
  { left. eapply rtc_r; [exact Hc|]. split; [by right|done]. }
  assert (Hd : rxDone (sr s) = false) by (destruct Hst, (rxDone (sr s)) eqn:?; try done; cbn in *; congruence).
  right. exists s, s'. split; [done|]. split; [done|]. split; [|by apply rtc_refl].
  destruct Hst as [s f Hc'|s l1 f l2 Hca Hl|s l1 f l2 Hca Hdn|s l1 f l2 Hca Hl|s|s p ps Hch|s r Hf _]; try done.
  - right. eauto 6.
  - by left.
Qed.


(** C31: [Stop] always works.  From every reachable state in which [rxDone] is
    closed, in every run (of the goroutine, the callers of [ProcessRx], other
    calls of [Stop] and the reader): until it has ended the goroutine can always
    take a step by itself, so neither an empty inbox nor a full [RxChan] that
    nobody reads blocks it; it takes at most [work s] steps, and four more for
    each frame that enters its inbox meanwhile; once it has taken that many it has
    ended; and when it has ended, [RxChan] is closed. *)
Theorem rxloop_stop_terminates (fs : list Frame) (s : RxSys) :
  sent_wf fs -> fed_steps fs sys_init s -> rxDone (sr s) = true ->
  forall n m s', counted fs n m s s' ->
    (n <= work s + 4 * m)%nat
    /\ (loop s' <> LDone -> (n < work s + 4 * m)%nat /\ exists s'', loop_step s' s'')
    /\ (loop s' = LDone -> RxChanClosed (sr s') = true).
Proof.
  intros Hwf Hs Hd n m s' Hc. destruct (counted_work _ _ _ _ _ Hc) as (Hw & Hd' & Hf).
  assert (Hi : loop_inv fs s') by (apply (fed_reach_inv fs Hwf); by etransitivity).
  split; [lia|]. split; [|by apply (loop_inv_safe fs)].
  intros Hnd. destruct (stopped_moves fs s' Hi (Hd' Hd) Hnd) as [s'' Hst]. split; [|by exists s''].
  pose proof (loop_step_work _ _ Hst). lia.
Qed.

(** C2: what has arrived gets through.  In every run in which nobody stops the
    session, with frames entering the inbox in any order and number, repeated or
    missing: the goroutine takes at most four steps for each frame that entered
    (and two more), so it always comes to rest; and whenever it is at rest and the
    reader has emptied [RxChan], the reader has the payloads of exactly the frames
    up to the first that never arrived, in order, and [RxChan] is closed if and
    only if these end with the FIN.  No frame is left behind in the queue or the
    inbox, and none is given up. *)
Theorem rxloop_delivers (fs arr : list Frame) n (s : RxSys) :
  sent_wf fs -> given fs n arr s ->
  (n <= 2 + 4 * length arr)%nat
  /\ ((forall s', ~ loop_step s s') -> RxChan (sr s) = [] ->
      exists k, consumed s = payloads (take k fs) /\ RxChanClosed (sr s) = rx_end fs k
        /\ (forall i f, (i < k)%nat -> fs !! i = Some f -> f ∈ arr)
        /\ (forall f, fs !! k = Some f -> f ∉ arr)).
Proof.
  intros Hwf [(seen & k & Hcore & Hsub & Hall & Hf & Hc) Ha Hi Hl Hw]%given_reach; [|done].
  split; [lia|]. intros Hrest Hch. exists k.
  assert (Hend : unsent (loop s) = [] /\ RxChanClosed (sr s) = rxClosed (sr s)
    /\ (rx_end fs k = true \/ rxInbox (sr s) = [] /\ forall f, loop s <> LGot f)).
  { destruct (loop s) as [|f|[|p ps] ca| | |] eqn:El; try done.
    - split; [done|]. destruct Hl as (Hcl & Hcc & _). split; [congruence|]. right. split; [|done].
      destruct (rxInbox (sr s)) as [|f q] eqn:Hq; [done|]. by destruct (Hrest _ (l_take s f q El Hq)).
    - by destruct (Hrest _ (l_deliver s f El)).
    - by destruct (Hrest _ (l_sent s ca El)).
    - destruct Hl as (_ & Hcc & _). destruct (Hrest _ (l_send s p ps ca El Hcc ltac:(by rewrite Hch))).
    - by destruct (Hrest _ (l_defer s El)).
    - destruct Hl as [Hcl Hcc]. split; [done|]. split; [congruence|]. left. congruence. }
  destruct Hend as (Hu & Hcc & Hor). unfold flowed in Hf. rewrite Hu, Hch, !app_nil_r in Hf.
  split; [done|]. split; [congruence|]. split.
  - intros i f Hik Hif. apply Hsub. by eapply (rc_arrived _ _ _ _ Hcore).
  - intros f Hk Hfa. destruct Hor as [[Hke _]%andb_true_iff|[Hib Hng]].
    + apply bool_decide_eq_true in Hke. apply lookup_lt_Some in Hk. lia.
    + destruct (rx_end fs k) eqn:He.
      { apply andb_true_iff in He as [Hke%bool_decide_eq_true _]. apply lookup_lt_Some in Hk. lia. }
      destruct (Hall f Hfa) as [Hs|[Hs|[Hs|Hs]]].
      * by apply (rc_missing _ _ _ _ Hcore f Hk).
      * rewrite Hib in Hs. by apply elem_of_nil in Hs.
      * by destruct (Hng f).
      * done.
Qed.

(** The sequential reading of [deliverRx] used by the stream theorems is a
    real execution: when it returns, the goroutine, started on the same frame
    with a reader that keeps up, reaches the same state (the channel's content
    being split between the channel and the reader) and returns to its select,
    or leaves the loop exactly when [deliverRx] returned true. *)
Theorem deliverRx_simulated (s : RxSys) (f : Frame) (r' : RxState) (b : bool) :
  loop s = LGot f -> deliverRx f (sr s) = Ok (r', b) ->
  exists s' c, rx_steps false s s' /\ loop s' = (if b then LExit else LIdle)
    /\ sr s' = set_chan c r' /\ flowed s' = consumed s ++ RxChan r'.
Proof.
  intros Hl Hd. unfold deliverRx in Hd.
  assert (Hst : rx_step false s (loop_deliver f s)) by (left; by apply l_deliver).
  unfold loop_deliver in Hst.
  destruct (deliver_locked f (sr s)) as [r [done_|ts ca]] eqn:Hdl.
  { injection Hd as -> ->. do 2 eexists. split; [by apply rtc_once|]. split; [by destruct b|].
    split; [|done]. instantiate (1 := RxChan r'). by destruct r'. }
  destruct (negb (len ts =? 0) && RxChanClosed r) eqn:Hp; [done|].
  set (s1 := set_loop r (LSending ts ca) s) in *.
  assert (Hsend : exists s2 c, rx_steps false s1 s2 /\ loop s2 = LSending [] ca
    /\ sr s2 = set_chan c r /\ flowed s2 = flowed s1 ++ ts).
  { destruct (RxChanClosed r) eqn:Hrc; [|by apply (send_loop false ca ts s1)].
    rewrite andb_true_r in Hp. apply negb_false_iff, Z.eqb_eq, len_zero in Hp. subst ts.
    exists s1, (RxChan r). rewrite app_nil_r. repeat split; try done. by destruct r. }
  destruct Hsend as (s2 & c & Hs2 & Hl2 & Hr2 & Hf2).
  assert (Hst3 : rx_step false s2 (loop_sent ca s2)) by (left; by apply l_sent).
  exists (loop_sent ca s2), c.
  assert (Hrun : rx_steps false s (loop_sent ca s2)).
  { eapply rtc_l; [exact Hst|]. eapply rtc_r; [exact Hs2|exact Hst3]. }
  split; [done|]. unfold loop_sent, close_RxChan in *. rewrite Hr2 in *. cbn in *.
  destruct ca; [destruct (RxChanClosed r) eqn:Hrc; [done|]|]; injection Hd as <- <-;
    (split; [done|]; split; [done|]; unfold flowed in *; cbn in *;
     rewrite ?Hr2 in Hf2; cbn in Hf2; by rewrite Hf2, <- app_assoc).
Qed.

(** [CloseRx] breaks this.  Whenever the goroutine is sending (it released
    the mutex and has a payload left) and no FIN was processed, a concurrent
    [CloseRx] succeeds and the goroutine's next send hits the closed channel: a
    run-time panic.  Such a state is reachable with one ordinary data frame. *)
Theorem CloseRx_panics_sender :
  (forall s p ps ca, loop s = LSending (p :: ps) ca ->
     rxClosed (sr s) = false -> RxChanClosed (sr s) = false ->
     exists s', rx_steps true s s' /\ loop s' = LPanic)
  /\ (exists s, rx_steps false sys_init s /\ loop s = LSending [str "data"] false
        /\ rxClosed (sr s) = false /\ RxChanClosed (sr s) = false).
Proof.
  split.
  - intros s p ps ca Hl Hc Hcc.
    assert (Hcl : exists r, CloseRx (sr s) = Ok r /\ RxChanClosed r = true).
    { unfold CloseRx, close_RxChan. rewrite Hc. cbn. rewrite Hcc. eauto. }
    destruct Hcl as (r & Hcl & Hrc).
    eexists. split.
    + eapply rtc_l; [right; by apply e_closerx|]. apply rtc_once. left.
      eapply l_send_closed; [exact Hl|exact Hrc].
    + done.
  - set (f := mkFrame (zeros 16) 0 0 [] (str "data")).
    eexists. split; [|split; [|split]].
    + eapply rtc_l; [right; by apply (e_process _ _ f)|].
      eapply rtc_l; [right; by apply (e_enqueue _ _ [] f [])|].
      eapply rtc_l; [left; by apply (l_take _ f [])|].
      apply rtc_once. left. by apply (l_deliver _ f).
    + done.
    + done.
    + done.
Qed.

(** ** A concrete run *)

Definition demo_f0 : Frame := default (mkFrame [] 0 0 [] []) (demo_fs !! 0%nat).

Definition demo_sys (i : nat) : RxSys :=
  let s1 := mkSys New_rx LIdle [demo_f0] [] in
  let s2 := mkSys (set_inbox [demo_f0] New_rx) LIdle [] [] in
  let s3 := set_loop (set_inbox [] New_rx) (LGot demo_f0) s2 in
  let s4 := loop_deliver demo_f0 s3 in
  let s5 := set_loop (set_chan [str "ab"] (sr s4)) (LSending [] false) s4 in
  match i with
  | 0 => sys_init | 1 => s1 | 2 => s2 | 3 => s3 | 4 => s4 | 5 => s5
  | _ => loop_sent false s5
  end%nat.

Lemma demo_f0_in : demo_f0 ∈ demo_fs.
Proof. apply list_elem_of_lookup. by exists 0%nat. Qed.

Lemma demo_sys_ok i : callers_ok demo_fs (demo_sys i).
Proof.
  intros f Hf.
  do 6 (destruct i as [|i]; [destruct Hf as [Hf|[Hf|Hf]]; cbn in Hf;
    first [by apply elem_of_nil in Hf | discriminate
      | apply list_elem_of_singleton in Hf as ->; apply demo_f0_in
      | injection Hf as <-; apply demo_f0_in]|]).
  destruct Hf as [Hf|[Hf|Hf]]; cbn in Hf; first [by apply elem_of_nil in Hf | discriminate].
Qed.

Lemma demo_sys_steps i : (i < 6)%nat -> rx_step false (demo_sys i) (demo_sys (S i)).
Proof.
  intros Hi. destruct i as [|[|[|[|[|[|i]]]]]]; [..|lia].
  - right. exact (e_process _ (demo_sys 0) demo_f0 eq_refl).
  - right. exact (e_enqueue _ (demo_sys 1) [] demo_f0 [] eq_refl eq_refl).
  - left. exact (l_take (demo_sys 2) demo_f0 [] eq_refl eq_refl).
  - left. exact (l_deliver (demo_sys 3) demo_f0 eq_refl).
  - left. exact (l_send (demo_sys 4) (str "ab") [] false eq_refl eq_refl eq_refl).
  - left. exact (l_sent (demo_sys 5) false eq_refl).
Qed.

Lemma demo_fed i : (i <= 6)%nat -> fed_steps demo_fs sys_init (demo_sys i).
Proof.
  induction i as [|i IH]; intros Hi; [done|]. eapply rtc_r; [apply IH; lia|].
  split; [apply demo_sys_steps; lia|apply demo_sys_ok].
Qed.

Lemma rxloop_safe_witness :
  consumed (demo_sys 6) ++ RxChan (sr (demo_sys 6)) = [str "ab"]
  /\ consumed (demo_sys 6) ++ RxChan (sr (demo_sys 6)) `prefix_of` payloads demo_fs.
Proof.
  split; [reflexivity|].
  apply (rxloop_safe demo_fs (demo_sys 6) demo_sent_wf). apply demo_fed. lia.
Defined.

(** The session is stopped while the goroutine is sending. *)
Definition demo_stopped : RxSys := set_sr (Stop (sr (demo_sys 4))) (demo_sys 4).

Lemma demo_stopped_fed : fed_steps demo_fs sys_init demo_stopped.
Proof.
  eapply rtc_r; [apply (demo_fed 4); lia|]. split; [right; apply e_stop|]. exact (demo_sys_ok 4).
Qed.

Lemma rxloop_stop_terminates_witness :
  work demo_stopped = 4%nat
  /\ (0 < work demo_stopped + 4 * 0)%nat /\ exists s', loop_step demo_stopped s'.
Proof.
  split; [reflexivity|].
  apply (rxloop_stop_terminates demo_fs demo_stopped demo_sent_wf demo_stopped_fed eq_refl 0 0 demo_stopped
    (cn_nil demo_fs demo_stopped)). discriminate.
Defined.

Lemma deliverRx_simulated_witness :
  exists s' c, rx_steps false (demo_sys 3) s' /\ loop s' = LIdle
    /\ sr s' = set_chan c (sr (demo_sys 6)) /\ flowed s' = [str "ab"].
Proof.
  exact (deliverRx_simulated (demo_sys 3) demo_f0 (sr (demo_sys 6)) false eq_refl eq_refl).
Defined.

(** A stream of one frame that carries data and the FIN. *)
Definition eof_frame : Frame := mkFrame (zeros 16) 0 FlagFIN [] (str "bye").

Definition eof_sys (i : nat) : RxSys :=
  let s3 := mkSys New_rx (LGot eof_frame) [] [] in
  let s4 := loop_deliver eof_frame s3 in
  let s5 := set_loop (set_chan [str "bye"] (sr s4)) (LSending [] true) s4 in
  match i with
  | 0 => sys_init | 1 => mkSys New_rx LIdle [eof_frame] []
  | 2 => mkSys (set_inbox [eof_frame] New_rx) LIdle [] [] | 3 => s3 | 4 => s4 | 5 => s5
  | _ => loop_sent true s5
  end%nat.

Lemma eof_sys_ok i : callers_ok [eof_frame] (eof_sys i).
Proof.
  intros f Hf.
  do 6 (destruct i as [|i]; [destruct Hf as [Hf|[Hf|Hf]]; cbn in Hf;
    first [by apply elem_of_nil in Hf | discriminate | done | injection Hf as <-; left]|]).
  destruct Hf as [Hf|[Hf|Hf]]; cbn in Hf; first [by apply elem_of_nil in Hf | discriminate].
Qed.

Lemma eof_fed i : (i <= 6)%nat -> fed_steps [eof_frame] sys_init (eof_sys i).
Proof.
  induction i as [|i IH]; intros Hi; [done|]. eapply rtc_r; [apply IH; lia|].
  split; [|apply eof_sys_ok]. destruct i as [|[|[|[|[|[|i]]]]]]; [..|lia].
  - right. exact (e_process _ (eof_sys 0) eof_frame eq_refl).
  - right. exact (e_enqueue _ (eof_sys 1) [] eof_frame [] eq_refl eq_refl).
  - left. exact (l_take (eof_sys 2) eof_frame [] eq_refl eq_refl).
  - left. exact (l_deliver (eof_sys 3) eof_frame eq_refl).
  - left. exact (l_send (eof_sys 4) (str "bye") [] true eq_refl eq_refl eq_refl).
  - left. exact (l_sent (eof_sys 5) true eq_refl).
Qed.

Lemma eof_sent_wf : sent_wf [eof_frame].
Proof. constructor; [intros [|i] f Hf; [by injection Hf as <-|discriminate Hf]..|reflexivity]. Qed.


(** The goroutine has ended, and the reader has read. *)
Definition eof_rest : RxSys :=
  let s := loop_defer (eof_sys 6) in mkSys (set_chan [] (sr s)) (loop s) (callers s) [str "bye"].

Lemma eof_given : given [eof_frame] 5 [eof_frame] eof_rest.
Proof.
  apply (gv_env _ 5 _ (loop_defer (eof_sys 6))); [|exact (e_read _ (loop_defer (eof_sys 6)) (str "bye") [] eq_refl)|done..].
  apply (gv_loop _ 4 _ (eof_sys 6)); [|exact (l_defer (eof_sys 6) eq_refl)].
  apply (gv_loop _ 3 _ (eof_sys 5)); [|exact (l_sent (eof_sys 5) true eq_refl)].
  apply (gv_loop _ 2 _ (eof_sys 4)); [|exact (l_send (eof_sys 4) (str "bye") [] true eq_refl eq_refl eq_refl)].
  apply (gv_loop _ 1 _ (eof_sys 3)); [|exact (l_deliver (eof_sys 3) eof_frame eq_refl)].
  apply (gv_loop _ 0 _ (eof_sys 2)); [|exact (l_take (eof_sys 2) eof_frame [] eq_refl eq_refl)].
  apply (gv_arrive _ 0 [] (eof_sys 1) [] eof_frame []); [|done|done|left].
  apply (gv_env _ 0 [] sys_init); [apply gv_init|exact (e_process _ (eof_sys 0) eof_frame eq_refl)|done..].
Qed.

Lemma eof_at_rest s : ~ loop_step eof_rest s.
Proof. inversion 1; discriminate. Qed.

Lemma rxloop_delivers_witness :
  consumed eof_rest = [str "bye"] /\ (5 <= 2 + 4 * 1)%nat
  /\ exists k, consumed eof_rest = payloads (take k [eof_frame])
       /\ RxChanClosed (sr eof_rest) = rx_end [eof_frame] k
       /\ (forall i f, (i < k)%nat -> [eof_frame] !! i = Some f -> f ∈ [eof_frame])
       /\ (forall f, [eof_frame] !! k = Some f -> f ∉ [eof_frame]).
Proof.
  destruct (rxloop_delivers [eof_frame] [eof_frame] 5 eof_rest eof_sent_wf eof_given) as [H1 H2].
  split; [reflexivity|]. split; [exact H1|]. exact (H2 eof_at_rest eq_refl).
Defined.
