(* ===== verification/SessionTypes.v ===== *)
(** * Well-typed sessions

    What the types of the fields of a [Session] leave unsaid: identifiers have
    sixteen bytes, sequence numbers are 64-bit, the reassembly queue is keyed by
    the sequence numbers still to come, nothing empty is handed to the reader,
    the FIN is the end of the transmit side, and the channel is closed exactly
    when the receive side is.  [run_op] is one method call of any kind;
    the theorem is type safety: sessions stay well typed, no call panics, and
    everything emitted is a frame that [Marshal] encodes. *)

From S2P Require Import Prelude Frame Session Stream RxLoop.

Record rx_typed (r : RxState) : Prop := {
  ty_rxSeq : 0 <= rxSeq r < 2 ^ 64;
  ty_queue : forall z f, rxQueue r !! z = Some f ->
    frame_wf f /\ Seq f = z /\ (rxClosed r = false -> rxSeq r < z);
  ty_inbox : Forall frame_wf (rxInbox r);
  ty_chan : Forall (fun p => p <> []) (RxChan r);
  ty_closed : RxChanClosed r = rxClosed r;
}.

Record session_typed (s : Session) : Prop := {
  ty_id : len (ID s) = SessionIDLen;
  ty_txSeq : 0 <= txSeq (tx s) < 2 ^ 64;
  ty_fin : finSent (tx s) = true -> closeReq (tx s) = true /\ txBuf (tx s) = [] /\ synNeeded (tx s) = false;
  ty_rx : rx_typed (rx s);
}.

(** The methods, and what the receive goroutine and the reader do. *)
Inductive op :=
| OEnqueue (now : Z) (data : bytes)
| OInitial (now : Z) (data : bytes)
| ORequestClose (now : Z)
| ODrain (now maxPayload maxFrames : Z)
| OProcess (timeout : bool) (f : Frame)
| OLoop
| ORead
| OCloseRx
| OStop.

(** A caller that waits changes nothing. *)
Definition run_op (o : op) (s : Session) : res Empty_set (Session * list Frame) :=
  match o with
  | OEnqueue now data => Ok (from_option fst s (EnqueueTx now data s), [])
  | OInitial now data => Ok (from_option fst s (EnqueueInitialData now data s), [])
  | ORequestClose now => Ok (fst (RequestClose now s), [])
  | ODrain now mp mf => Ok (drainTx now mp mf s)
  | OProcess t f => Ok (with_rx s (ProcessRx t f (rx s)), [])
  | OLoop =>
      match rxInbox (rx s) with
      | [] => Ok (s, [])
      | f :: q => let! p := deliverRx f (set_inbox q (rx s)) in Ok (with_rx s (fst p), [])
      end
  | ORead =>
      match RxChan (rx s) with
      | [] => Ok (s, [])
      | _ :: ps => Ok (with_rx s (set_chan ps (rx s)), [])
      end
  | OCloseRx => let! r := CloseRx (rx s) in Ok (with_rx s r, [])
  | OStop => Ok (with_rx s (Stop (rx s)), [])
  end.

Fixpoint run_ops (ops : list op) (s : Session) : res Empty_set (Session * list Frame) :=
  match ops with
  | [] => Ok (s, [])
  | o :: ops =>
      let! p := run_op o s in
      let! q := run_ops ops (fst p) in
      Ok (fst q, snd p ++ snd q)
  end.

(** The arguments have their types: frames come from [Unmarshal], and drains
    ask for payloads that [Marshal] accepts. *)
Definition op_typed (o : op) : Prop :=
  match o with
  | OProcess _ f => frame_wf f
  | ODrain _ mp _ => 0 < mp <= maxPayloadSize
  | _ => True
  end.

(** ** Receiving *)

Lemma New_rx_typed : rx_typed New_rx.
Proof. constructor; cbn; try done. Qed.

(** Reassembly of typed frames: the state stays typed up to the channel's
    [close], which is still to come. *)
Lemma reassemble_typed fuel f r ts r' ts' ca :
  frame_wf f -> Forall (fun p => p <> []) ts -> rxClosed r = false -> rx_typed r ->
  reassemble fuel f r ts = (r', DSend ts' ca) ->
  Forall (fun p => p <> []) ts' /\ rxClosed r' = ca /\ RxChanClosed r' = RxChanClosed r
  /\ RxChan r' = RxChan r /\ rxInbox r' = rxInbox r
  /\ 0 <= rxSeq r' < 2 ^ 64
  /\ (forall z g, rxQueue r' !! z = Some g -> frame_wf g /\ Seq g = z /\ (ca = false -> rxSeq r' < z)).
Proof.
  revert f r ts. induction fuel as [|fuel IH]; intros f r ts Hf Hts Hcl Hr He; cbn [reassemble] in He.
  { injection He as <- <- <-. destruct Hr. do 5 (split; [done|]). split; [done|].
    intros z g Hg. destruct (ty_queue0 z g Hg) as (? & ? & Hz). auto. }
  assert (Hts1 : Forall (fun p => p <> []) (if 0 <? len (Payload f) then ts ++ [Payload f] else ts)).
  { destruct (Z.ltb_spec 0 (len (Payload f))) as [Hp|_]; [|done]. apply Forall_app. split; [done|].
    constructor; [by apply len_pos|constructor]. }
  set (ts1 := if 0 <? _ then _ else _) in *.
  destruct Hr as [Hseq Hq Hib Hch Hcc]. pose proof (u64_range (rxSeq r + 1)) as Hn.
  destruct (HasFlag f FlagFIN).
  { injection He as <- <- <-. cbn. do 6 (split; [done|]). intros z g Hg. by destruct (Hq z g Hg) as (? & ? & _). }
  destruct (rxQueue r !! u64 (rxSeq r + 1)) as [g|] eqn:Hg.
  - apply IH in He; [exact He|by apply (Hq _ _ Hg)|done|done|]. constructor; cbn; try done.
    intros z h [Hne Hh]%lookup_delete_Some. destruct (Hq z h Hh) as (? & Hs & Hz). split; [done|]. split; [done|].
    intros _. specialize (Hz Hcl). subst z. destruct H as (_ & Hr & _). unfold u64 in *.
    Z.to_euclidean_division_equations. lia.
  - injection He as <- <- <-. cbn. do 6 (split; [done|]). intros z h Hh.
    destruct (Hq z h Hh) as (Hw & Hs & Hz). split; [done|]. split; [done|]. intros _. specialize (Hz Hcl).
    assert (z <> u64 (rxSeq r + 1)) by congruence. subst z. destruct Hw as (_ & Hr & _). unfold u64 in *.
    Z.to_euclidean_division_equations. lia.
Qed.

Lemma reassemble_sends fuel f r ts : exists r' ts' ca, reassemble fuel f r ts = (r', DSend ts' ca).
Proof.
  revert f r ts. induction fuel as [|fuel IH]; intros f r ts; cbn [reassemble]; [by do 3 eexists|].
  destruct (HasFlag f FlagFIN); [by do 3 eexists|].
  destruct (rxQueue r !! u64 (rxSeq r + 1)); [apply IH|by do 3 eexists].
Qed.

Lemma deliverRx_typed f r :
  frame_wf f -> rx_typed r -> exists r' b, deliverRx f r = Ok (r', b) /\ rx_typed r'.
Proof.
  intros Hf Hr. unfold deliverRx, deliver_locked. destruct (rxClosed r) eqn:Hcl; [by exists r, true|].
  pose proof Hr as [Hseq Hq Hib Hch Hcc].
  destruct (Z.ltb_spec (Seq f) (rxSeq r)); [by exists r, false|].
  destruct (Z.ltb_spec (rxSeq r) (Seq f)).
  { do 2 eexists. split; [reflexivity|]. constructor; cbn; try done; [|congruence]. intros z g.
    intros [[<- <-]|[_ Hg]]%lookup_insert_Some; [done|]. destruct (Hq z g Hg) as (? & ? & ?). auto. }
  destruct (reassemble_sends (S (size (rxQueue r))) f r []) as (r1 & ts & ca & He). rewrite He.
  destruct (reassemble_typed (S (size (rxQueue r))) f r [] r1 ts ca) as (Hts & Hca & Hcc1 & Hch1 & Hib1 & Hs1 & Hq1); [done..|].
  rewrite Hcc1, Hcc, Hcl, andb_false_r. destruct ca.
  - unfold close_RxChan. cbn. rewrite Hcc1, Hcc, Hcl. do 2 eexists. split; [reflexivity|].
    constructor; cbn; rewrite ?Hch1, ?Hib1; try done; [|by apply Forall_app].
    intros z g Hg. destruct (Hq1 z g Hg) as (? & ? & _). by rewrite Hca.
  - do 2 eexists. split; [reflexivity|]. constructor; cbn; rewrite ?Hch1, ?Hib1; try done.
    + intros z g Hg. destruct (Hq1 z g Hg) as (? & ? & ?). auto.
    + by apply Forall_app.
    + congruence.
Qed.

Lemma CloseRx_typed r : rx_typed r -> exists r', CloseRx r = Ok r' /\ rx_typed r'.
Proof.
  intros [Hseq Hq Hib Hch Hcc]. unfold CloseRx, close_RxChan. destruct (rxClosed r) eqn:Hcl.
  - exists r. split; [done|]. constructor; rewrite ?Hcl; done.
  - cbn. rewrite Hcc. eexists. split; [reflexivity|]. constructor; cbn; try done.
    intros z f Hf. by destruct (Hq z f Hf) as (? & ? & _).
Qed.

Lemma ProcessRx_typed t f r : frame_wf f -> rx_typed r -> rx_typed (ProcessRx t f r).
Proof.
  intros Hf Hr. unfold ProcessRx.
  assert (Hib : Forall frame_wf (rxInbox r ++ [f])).
  { apply Forall_app. split; [apply Hr|]. by constructor. }
  set (enqueue := mkRx _ _ _ _ _ _ _). set (stopped := Stop r).
  assert (rx_typed enqueue) by (destruct Hr; by constructor).
  assert (rx_typed stopped) by (destruct Hr; by constructor).
  clearbody enqueue stopped. by repeat case_bool.
Qed.

(** ** Sending *)

(** A frame that [Marshal] encodes, unless the target is too long. *)
Definition emitted_ok (id target : bytes) (f : Frame) : Prop :=
  frame_wf f /\ SessionID f = id /\ (len target <= maxTargetLen -> exists b, Marshal f = Ok b).

Lemma drainTx_typed now mp mf s s' out :
  0 < mp <= maxPayloadSize -> session_typed s -> drainTx now mp mf s = (s', out) ->
  session_typed s' /\ Forall (emitted_ok (ID s) (SessTarget s)) out.
Proof.
  intros Hmp [Hid Hseq Hfin Hrx] Hd.
  destruct (drainTx_spec now mp mf s Hseq) as (s1 & out1 & p0 & chunks & fin & Hd1 & H).
  rewrite Hd in Hd1. injection Hd1 as <- <-. destruct (dr_id _ _ _ _ _ _ _ _ _ H) as (Hi & _ & Hr).
  destruct (dr_size _ _ _ _ _ _ _ _ _ H) as [Hp0 Hch]; [lia|]. split.
  - constructor; rewrite ?Hi, ?Hr; try done.
    + rewrite (dr_seq _ _ _ _ _ _ _ _ _ H). apply u64_range.
    + rewrite (dr_fin _ _ _ _ _ _ _ _ _ H), (dr_close _ _ _ _ _ _ _ _ _ H), (dr_syn _ _ _ _ _ _ _ _ _ H).
      intros [Hf|Hf]%orb_true_iff.
      * destruct (Hfin Hf) as (Hc & Hb & _). pose proof (dr_bytes _ _ _ _ _ _ _ _ _ H) as E.
        rewrite Hb in E. apply app_eq_nil in E as [_ [_ E]%app_eq_nil]. done.
      * destruct (dr_fin_pre _ _ _ _ _ _ _ _ _ H Hf) as [Hc _]. by rewrite (dr_fin_buf _ _ _ _ _ _ _ _ _ H Hf).
  - rewrite (dr_out _ _ _ _ _ _ _ _ _ H). apply Forall_forall. intros f [i Hi']%list_elem_of_lookup.
    apply number_lookup in Hi' as (c & Hc & ->). apply list_elem_of_lookup_2 in Hc.
    assert (Hcs : 0 <= fst (fst c) < 256 /\ len (snd c) <= maxPayloadSize
      /\ (snd (fst c) = SessTarget s \/ snd (fst c) = [])).
    { rewrite !elem_of_app in Hc. destruct Hc as [Hc|[Hc|Hc]].
      - destruct (synNeeded (tx s)); cbn in Hc; [|by apply elem_of_nil in Hc].
        apply list_elem_of_singleton in Hc as ->. cbn. split; [done|]. split; [lia|by left].
      - unfold data_part in Hc. apply list_elem_of_fmap in Hc as (p & -> & Hp). rewrite Forall_forall in Hch.
        specialize (Hch p Hp). cbn. split; [done|]. split; [lia|by right].
      - destruct fin; cbn in Hc; [|by apply elem_of_nil in Hc]. apply list_elem_of_singleton in Hc as ->.
        cbn. split; [done|]. split; [done|by right]. }
    destruct Hcs as (Hfl & Hpl & Htg). split; [|split; [done|]].
    + split; [done|]. split; [apply u64_range|done].
    + intros Ht. eexists. apply Marshal_wire; [split; [done|]; split; [apply u64_range|done]|].
      split; cbn; [|done]. destruct Htg as [->| ->]; [done|]. unfold maxTargetLen. rewrite len_nil. lia.
Qed.

(** ** One call, and any sequence of them *)

Lemma run_op_typed o s : op_typed o -> session_typed s ->
  exists s' out, run_op o s = Ok (s', out) /\ session_typed s'
    /\ ID s' = ID s /\ SessTarget s' = SessTarget s /\ Forall (emitted_ok (ID s) (SessTarget s)) out.
Proof.
  intros Ho Hs. pose proof Hs as [Hid Hseq Hfin Hrx].
  assert (Hw : forall r, rx_typed r -> session_typed (with_rx s r)) by (by constructor).
  destruct o as [now data|now data|now|now mp mf|t f| | | |]; cbn [run_op].
  - do 2 eexists. split; [reflexivity|]. unfold EnqueueTx.
    destruct (closeReq (tx s)) eqn:Hc; rewrite ?andb_false_r, ?andb_true_r.
    { done. }
    case_bool; [done|]. cbn. split; [|done]. constructor; cbn; try done. intros Hf. by destruct (Hfin Hf); congruence.
  - do 2 eexists. split; [reflexivity|]. unfold EnqueueInitialData, EnqueueTx.
    destruct (synNeeded (tx s)) eqn:Hsy; cbn [negb].
    { cbn. split; [|done]. constructor; cbn; try done. intros Hf. destruct (Hfin Hf) as (_ & _ & ?). congruence. }
    destruct (closeReq (tx s)) eqn:Hc; rewrite ?andb_false_r, ?andb_true_r; [done|].
    case_bool; [done|]. cbn. split; [|done]. constructor; cbn; try done. intros Hf. by destruct (Hfin Hf); congruence.
  - do 2 eexists. split; [reflexivity|]. cbn. split; [|done]. constructor; cbn; try done.
    intros Hf. by destruct (Hfin Hf) as (_ & ? & ?).
  - destruct (drainTx now mp mf s) as [s' out] eqn:Hd. exists s', out. split; [done|].
    destruct (drainTx_typed _ _ _ _ _ _ Ho Hs Hd) as [Hst Hem]. split; [done|].
    destruct (drainTx_spec now mp mf s Hseq) as (s1 & out1 & p0 & chunks & fin & Hd1 & H).
    rewrite Hd in Hd1. injection Hd1 as <- <-. by destruct (dr_id _ _ _ _ _ _ _ _ _ H) as (? & ? & _).
  - do 2 eexists. split; [reflexivity|]. split; [|done]. by apply Hw, ProcessRx_typed.
  - destruct (rxInbox (rx s)) as [|f q] eqn:Hib; [by do 2 eexists|].
    assert (Hrq : frame_wf f /\ rx_typed (set_inbox q (rx s))).
    { destruct Hrx. rewrite Hib in ty_inbox0. apply Forall_cons in ty_inbox0 as [? ?]. by split; [|constructor]. }
    destruct (deliverRx_typed f (set_inbox q (rx s))) as (r' & b & -> & Hr'); [apply Hrq..|].
    do 2 eexists. split; [reflexivity|]. split; [by apply Hw|done].
  - destruct (RxChan (rx s)) as [|p ps] eqn:Hch; [by do 2 eexists|]. do 2 eexists. split; [reflexivity|].
    split; [|done]. apply Hw. destruct Hrx. rewrite Hch in ty_chan0. apply Forall_cons in ty_chan0 as [_ ?].
    by constructor.
  - destruct (CloseRx_typed (rx s) Hrx) as (r' & -> & Hr'). do 2 eexists. split; [reflexivity|].
    split; [by apply Hw|done].
  - do 2 eexists. split; [reflexivity|]. split; [|done]. apply Hw. destruct Hrx. by constructor.
Qed.

Lemma run_ops_typed ops s : Forall op_typed ops -> session_typed s ->
  exists s' out, run_ops ops s = Ok (s', out) /\ session_typed s' /\ Forall (emitted_ok (ID s) (SessTarget s)) out.
Proof.
  intros Hops. revert s. induction Hops as [|o ops Ho _ IH]; intros s Hs; [by exists s, []|]. cbn [run_ops].
  destruct (run_op_typed o s Ho Hs) as (s1 & out1 & -> & Hs1 & Hi & Ht & Ho1). cbn [res_bind fst snd].
  destruct (IH s1 Hs1) as (s2 & out2 & -> & Hs2 & Ho2). rewrite Hi, Ht in Ho2.
  do 2 eexists. split; [reflexivity|]. split; [done|]. by apply Forall_app.
Qed.

(** C11: type safety of sessions whose methods run one at a time.  From a new
    session with a sixteen-byte identifier, any sequence of complete method calls
    with frames that come from the wire (in any order, repeated, contradictory)
    runs without a panic; the session stays well typed (64-bit sequence numbers, a
    queue keyed by what is still to come, no empty payload for the reader, nothing
    left to send after the FIN, the channel closed exactly when the receive side
    is); and every frame it emitted carries its identifier and, if the target has
    at most 255 bytes, is encoded by [Marshal].  With a longer target [Marshal]
    refuses the SYN ([Poll.long_target_drops_batch]); and a [CloseRx] that runs
    while the receive goroutine is between two sends can panic
    ([RxLoop.CloseRx_panics_sender]); neither is claimed here. *)
Theorem session_type_safety now id target syn ops :
  len id = SessionIDLen -> Forall op_typed ops ->
  exists s out, run_ops ops (New now id target syn) = Ok (s, out)
    /\ session_typed s /\ Forall (emitted_ok id target) out.
Proof.
  intros Hid Hops. apply (run_ops_typed ops (New now id target syn) Hops).
  constructor; cbn; [done..|exact New_rx_typed].
Qed.

(** A session that sends, receives out of order and closes. *)
Definition typed_ops : list op :=
  [OInitial 5 (str "hello"); ODrain 6 4 8; OProcess false (mkFrame (str "session-00000001") 1 FlagFIN [] []);
   OProcess false (mkFrame (str "session-00000001") 0 0 [] (str "reply")); OLoop; OLoop; ORead; ORequestClose 7;
   ODrain 8 4 8; OCloseRx; OStop].

Lemma session_type_safety_witness :
  exists s out, run_ops typed_ops (New 5 (str "session-00000001") (str "host:1") true) = Ok (s, out)
    /\ session_typed s /\ Forall (emitted_ok (str "session-00000001") (str "host:1")) out.
Proof.
  apply (session_type_safety 5 (str "session-00000001") (str "host:1") true typed_ops eq_refl).
  repeat constructor; vm_compute; congruence.
Defined.

Example typed_ops_frames :
  match run_ops typed_ops (New 5 (str "session-00000001") (str "host:1") true) with
  | Ok (s, out) => map (fun f => (Flags f, Payload f)) out | _ => []
  end = [(FlagSYN, str "hell"); (0, str "o"); (FlagFIN, [])].
Proof. vm_compute. reflexivity. Qed.
