(* ===== verification/Memory.v ===== *)
(** * The transmit side of a session, with the arrays its slices share

    [Session] has values where session.go has slices: a frame's payload is a
    window of the array behind [txBuf] ([drainTx] copies nothing), [EnqueueTx]
    appends in place if that array has room, and [EnqueueInitialData] appends to
    the slice of its caller, whose array is the buffer from then on.  Here the
    methods work on a [Heap], next to a process that writes to the arrays it has.

    [memory_refines] shows when that is the same as the values: a server may
    refill the buffer it has passed to [EnqueueTx] (its read pump does), a
    client must leave the buffers alone that it has passed to [Write] before the
    SYN was drained.  [Write_retains] shows what happens if it does not.  The
    [OnTx] callbacks, which touch no buffer, are left to [Carrier] and [Exit]. *)

From S2P Require Import Prelude GoMem Frame Session Stream RxLoop SessionTypes.

(** The fields of the transmit side. *)
Record MemSession := mkMem {
  mID : bytes;
  mTarget : bytes;
  mtxBuf : GoSlice;
  mtxSeq : Z;
  msynNeeded : bool;
  mcloseReq : bool;
  mfinSent : bool;
  mfinSentAt : Z;
  mfirstQueuedAt : Z;
}.

Record MemFrame := mkMemFrame {
  mfID : bytes;
  mfSeq : Z;
  mfFlags : Z;
  mfTarget : bytes;
  mfPayload : GoSlice;
}.

Definition mNew (now : Z) (id target : bytes) (needsSYN : bool) : MemSession :=
  mkMem id target nil_slice 0 needsSYN false false 0 (if needsSYN then now else 0).

(** ** The methods *)

Definition mqueued_at (now : Z) (m : MemSession) : Z :=
  if IsZero (mfirstQueuedAt m) then now else mfirstQueuedAt m.

Definition with_mtxBuf (now : Z) (b : GoSlice) (m : MemSession) : MemSession :=
  mkMem (mID m) (mTarget m) b (mtxSeq m) (msynNeeded m) (mcloseReq m) (mfinSent m) (mfinSentAt m)
        (mqueued_at now m).

(** [None]: the caller waits on [txCond]. *)
Definition mEnqueueTx (now : Z) (spare : bytes) (h : Heap byte) (data : GoSlice) (m : MemSession)
    : option (Heap byte * MemSession) :=
  if (TxBufHighWater <? Z.of_nat (s_len (mtxBuf m))) && negb (mcloseReq m) then None else
  if mcloseReq m then Some (h, m) else
  let '(h, b) := append spare h (mtxBuf m) (load h data) in
  Some (h, with_mtxBuf now b m).

(** [s.txBuf = append(data, s.txBuf...)] *)
Definition mEnqueueInitialData (now : Z) (spare : bytes) (h : Heap byte) (data : GoSlice) (m : MemSession)
    : option (Heap byte * MemSession) :=
  if negb (msynNeeded m) then mEnqueueTx now spare h data m else
  let '(h, b) := append spare h data (load h (mtxBuf m)) in
  Some (h, with_mtxBuf now b m).

(** [VirtualConn.Write] *)
Definition mWrite (now : Z) (spare : bytes) (h : Heap byte) (b : GoSlice) (m : MemSession)
    : option (Heap byte * MemSession) :=
  if (0 <? s_len b)%nat then mEnqueueInitialData now spare h b m else Some (h, m).

Definition mRequestClose (now : Z) (m : MemSession) : MemSession :=
  mkMem (mID m) (mTarget m) (mtxBuf m) (mtxSeq m) (msynNeeded m) true (mfinSent m) (mfinSentAt m)
        (mqueued_at now m).

Definition mcanAppend (maxFrames : Z) (frames : list MemFrame) : bool :=
  (maxFrames <=? 0) || (len frames <? maxFrames).

Definition mchunk (maxPayload : Z) (buf : GoSlice) : nat :=
  let n := Z.of_nat (s_len buf) in Z.to_nat (if maxPayload <? n then maxPayload else n).

Fixpoint mdrain_chunks (fuel : nat) (id : bytes) (maxPayload maxFrames : Z)
    (buf : GoSlice) (seq : Z) (frames : list MemFrame) : GoSlice * Z * list MemFrame :=
  match fuel with
  | O => (buf, seq, frames)
  | S fuel =>
      if (0 <? s_len buf)%nat && mcanAppend maxFrames frames then
        let n := mchunk maxPayload buf in
        mdrain_chunks fuel id maxPayload maxFrames (reslice buf n (s_len buf)) (u64 (seq + 1))
          (frames ++ [mkMemFrame id seq 0 [] (reslice buf 0 n)])
      else (buf, seq, frames)
  end.

Definition mdrain_syn (maxPayload maxFrames : Z) (m : MemSession)
    : GoSlice * Z * bool * list MemFrame :=
  if msynNeeded m && mcanAppend maxFrames [] then
    let '(payload, buf) :=
      if (0 <? s_len (mtxBuf m))%nat then
        let n := mchunk maxPayload (mtxBuf m) in
        (reslice (mtxBuf m) 0 n, reslice (mtxBuf m) n (s_len (mtxBuf m)))
      else (nil_slice, mtxBuf m) in
    (buf, u64 (mtxSeq m + 1), false, [mkMemFrame (mID m) (mtxSeq m) FlagSYN (mTarget m) payload])
  else (mtxBuf m, mtxSeq m, msynNeeded m, []).

Definition mdrain_fin (now maxFrames : Z) (m : MemSession) (seq : Z) (frames : list MemFrame)
    : Z * bool * Z * list MemFrame :=
  if mcloseReq m && negb (mfinSent m) && mcanAppend maxFrames frames then
    (u64 (seq + 1), true, now, frames ++ [mkMemFrame (mID m) seq FlagFIN [] nil_slice])
  else (seq, mfinSent m, mfinSentAt m, frames).

Definition meff_payload (maxPayload : Z) (buf : GoSlice) : Z :=
  if (0 <? s_len buf)%nat then if maxPayload <=? 0 then Z.of_nat (s_len buf) else maxPayload
  else maxPayload.

(** The array is only read by others: [drainTx] does not change the heap. *)
Definition mdrainTx (now maxPayload maxFrames : Z) (m : MemSession) : MemSession * list MemFrame :=
  if negb (msynNeeded m) && (s_len (mtxBuf m) =? 0)%nat && negb (mcloseReq m && negb (mfinSent m))
  then (m, []) else
  let maxPayload := meff_payload maxPayload (mtxBuf m) in
  let '(buf, seq, syn, frames) := mdrain_syn maxPayload maxFrames m in
  let '(buf, seq, frames) := mdrain_chunks (s_len buf) (mID m) maxPayload maxFrames buf seq frames in
  let buf := if (s_len buf =? 0)%nat then nil_slice else buf in
  let '(seq, fin, finAt, frames) := mdrain_fin now maxFrames m seq frames in
  let queued :=
    if negb syn && (s_len buf =? 0)%nat && negb (mcloseReq m && negb fin) then 0 else mfirstQueuedAt m in
  (mkMem (mID m) (mTarget m) buf seq syn (mcloseReq m) fin finAt queued, frames).

(** ** A process with one session

    [env] are the arrays that the rest of the process may write to: buffers of
    its own, and those of other sessions.  [sent] are the frames drained so far,
    which some [EncodeBatch] reads at any later time. *)

Record World := mkWorld { heap : Heap byte; env : gset nat; ses : MemSession; sent : list MemFrame }.

Inductive mop :=
| MMake (c : bytes)                                      (* the process makes an array *)
| MFill (a i : nat) (d : bytes)                          (* and writes to one of its arrays *)
| MEnqueue (now : Z) (spare : bytes) (data : GoSlice)    (* session.EnqueueTx *)
| MWrite (now : Z) (spare : bytes) (b : GoSlice)         (* VirtualConn.Write *)
| MClose (now : Z)
| MDrain (now maxPayload maxFrames : Z).

#[export] Instance slice_wf_dec (h : Heap byte) s : Decision (slice_wf h s).
Proof. unfold slice_wf. apply _. Defined.

(** The process can pass a slice of an array it has. *)
Definition may_pass (w : World) (s : GoSlice) : bool :=
  bool_decide (s_arr s ∈ env w /\ slice_wf (heap w) s).

(** After a [Write] before the SYN was drained, does the process still write to
    the buffer it has passed ([keep]) or not? *)
Definition env_after (keep : bool) (w : World) (b : GoSlice) : gset nat :=
  if negb keep && msynNeeded (ses w) && (0 <? s_len b)%nat then env w ∖ {[s_arr b]} else env w.

(** One step of the process; [None] if the operation is not possible.  The
    second component is the same method call on values (none if the call does
    not concern the session). *)
Definition step (keep : bool) (o : mop) (w : World) : option (World * list op) :=
  match o with
  | MMake c => Some (mkWorld (heap w ++ [c]) ({[length (heap w)]} ∪ env w) (ses w) (sent w), [])
  | MFill a i d =>
      if bool_decide (a ∈ env w) && (i + length d <=? length (array (heap w) a))%nat
      then Some (mkWorld (store (heap w) a i d) (env w) (ses w) (sent w), []) else None
  | MEnqueue now spare data =>
      if may_pass w data then
        let o := OEnqueue now (load (heap w) data) in
        match mEnqueueTx now spare (heap w) data (ses w) with
        | None => Some (w, [o])
        | Some (h, m) => Some (mkWorld h (env w) m (sent w), [o])
        end
      else None
  | MWrite now spare b =>
      if may_pass w b then
        let o := if (0 <? s_len b)%nat then [OInitial now (load (heap w) b)] else [] in
        match mWrite now spare (heap w) b (ses w) with
        | None => Some (w, o)
        | Some (h, m) => Some (mkWorld h (env_after keep w b) m (sent w), o)
        end
      else None
  | MClose now => Some (mkWorld (heap w) (env w) (mRequestClose now (ses w)) (sent w), [ORequestClose now])
  | MDrain now mp mf =>
      let '(m, frames) := mdrainTx now mp mf (ses w) in
      Some (mkWorld (heap w) (env w) m (sent w ++ frames), [ODrain now mp mf])
  end.

Fixpoint run (keep : bool) (ops : list mop) (w : World) : option (World * list op) :=
  match ops with
  | [] => Some (w, [])
  | o :: ops =>
      match step keep o w with
      | None => None
      | Some (w, tr) =>
          match run keep ops w with
          | None => None
          | Some (w, tr') => Some (w, tr ++ tr')
          end
      end
  end.

Definition start (now : Z) (id target : bytes) (needsSYN : bool) : World :=
  mkWorld [] ∅ (mNew now id target needsSYN) [].

(** ** The values in a heap *)

Definition frame_of (h : Heap byte) (f : MemFrame) : Frame :=
  mkFrame (mfID f) (mfSeq f) (mfFlags f) (mfTarget f) (load h (mfPayload f)).

Definition session_of (h : Heap byte) (m : MemSession) : Session :=
  mkSession (mID m) (mTarget m)
    (mkTx (load h (mtxBuf m)) (mtxSeq m) (msynNeeded m) (mcloseReq m) (mfinSent m) (mfinSentAt m)
          (mfirstQueuedAt m)) New_rx.

(** ** Draining *)

(** What [buf[n:]] leaves of a window. *)
Definition advanced (b b' : GoSlice) : Prop :=
  s_arr b' = s_arr b /\ (s_off b <= s_off b')%nat
  /\ (s_off b' + s_len b' = s_off b + s_len b)%nat /\ (s_off b' + s_cap b' = s_off b + s_cap b)%nat.

(** A payload that was cut off in front of [b], from position [lo] on. *)
Definition cut_off (h : Heap byte) (lo : nat) (b : GoSlice) (f : MemFrame) : Prop :=
  slice_wf h (mfPayload f)
  /\ ((0 < s_len (mfPayload f))%nat ->
      s_arr (mfPayload f) = s_arr b
      /\ (lo <= s_off (mfPayload f))%nat /\ (s_off (mfPayload f) + s_len (mfPayload f) <= s_off b)%nat).

Lemma advanced_refl b : advanced b b.
Proof. unfold advanced. lia. Qed.

Lemma advanced_cut h lo b b' f : advanced b b' -> cut_off h lo b f -> cut_off h lo b' f.
Proof. unfold advanced, cut_off. intros (E & ? & _) [? Hp]. split; [done|]. rewrite E. intros Hl. specialize (Hp Hl). lia. Qed.

Lemma advanced_wf (h : Heap byte) b b' : advanced b b' -> slice_wf h b -> slice_wf h b'.
Proof. unfold advanced, slice_wf. intros (-> & ?). lia. Qed.

Lemma len_load (h : Heap byte) b : slice_wf h b -> len (load h b) = Z.of_nat (s_len b).
Proof. intros. unfold len. by rewrite length_load. Qed.

Lemma mchunk_chunk (h : Heap byte) mp b :
  slice_wf h b -> (0 < s_len b)%nat -> 0 < mp ->
  Z.to_nat (chunk mp (load h b)) = mchunk mp b /\ (0 < mchunk mp b <= s_len b)%nat.
Proof. intros. unfold chunk, mchunk. rewrite len_load by done. destruct (Z.ltb_spec mp (Z.of_nat (s_len b))); lia. Qed.

(** Cutting a chunk off. *)
Lemma cut_spec (h : Heap byte) b n id seq fl tg :
  slice_wf h b -> (n <= s_len b)%nat ->
  let b' := reslice b n (s_len b) in
  let f := mkMemFrame id seq fl tg (reslice b 0 n) in
  load h b' = drop n (load h b) /\ frame_of h f = mkFrame id seq fl tg (take n (load h b))
  /\ advanced b b' /\ cut_off h (s_off b) b' f.
Proof.
  intros Hw Hn b' f. split; [apply load_suffix|]. split; [unfold frame_of, f; cbn [mfID mfSeq mfFlags mfTarget mfPayload]; by rewrite load_prefix|].
  split; [|split].
  - unfold advanced, b', reslice. destruct Hw. cbn. lia.
  - apply reslice_wf; [done|lia].
  - unfold b', f, reslice. cbn. lia.
Qed.

Lemma mcanAppend_map h mf frames : canAppend mf (map (frame_of h) frames) = mcanAppend mf frames.
Proof. unfold canAppend, mcanAppend. by rewrite len_map. Qed.

Lemma mdrain_chunks_sim (h : Heap byte) lo fuel id mp mf b seq frames b' seq' frames' :
  slice_wf h b -> (lo <= s_off b)%nat -> (s_len b = 0%nat \/ 0 < mp) ->
  mdrain_chunks fuel id mp mf b seq frames = (b', seq', frames') ->
  drain_chunks fuel id mp mf (load h b) seq (map (frame_of h) frames) = (load h b', seq', map (frame_of h) frames')
  /\ advanced b b' /\ exists new, frames' = frames ++ new /\ Forall (cut_off h lo b') new.
Proof.
  revert b seq frames. induction fuel as [|fuel IH]; intros b seq frames Hw Hlo Hmp; cbn [mdrain_chunks drain_chunks].
  { intros [= <- <- <-]. split; [done|]. split; [apply advanced_refl|]. exists []. by rewrite app_nil_r. }
  assert (Hg : (0 <? len (load h b)) = (0 <? s_len b)%nat).
  { rewrite len_load by done. apply eq_true_iff_eq. rewrite Z.ltb_lt, Nat.ltb_lt. lia. }
  rewrite Hg, mcanAppend_map. destruct (Nat.ltb_spec 0 (s_len b)) as [Hl|Hl]; cbn [andb].
  2:{ intros [= <- <- <-]. split; [done|]. split; [apply advanced_refl|]. exists []. by rewrite app_nil_r. }
  destruct (mcanAppend mf frames).
  2:{ intros [= <- <- <-]. split; [done|]. split; [apply advanced_refl|]. exists []. by rewrite app_nil_r. }
  destruct Hmp as [?|Hmp]; [lia|]. destruct (mchunk_chunk h mp b Hw Hl Hmp) as [-> Hn].
  destruct (cut_spec h b (mchunk mp b) id seq 0 [] Hw) as (Hd & Hf & Ha & Hc); [lia|].
  intros Hr. apply IH in Hr as (Hr & Ha' & new & -> & Hnew).
  - rewrite map_app in Hr. cbn [map] in Hr. rewrite Hf, Hd in Hr. split; [done|]. split.
    + revert Ha Ha'. unfold advanced. intros (-> & ? & ? & ?) (-> & ? & ? & ?). lia.
    + exists (mkMemFrame id seq 0 [] (reslice b 0 (mchunk mp b)) :: new).
      rewrite <- app_assoc. split; [done|]. constructor; [|done]. eapply advanced_cut; [exact Ha'|].
      destruct Hc as [? Hc]. split; [done|]. intros Hp. specialize (Hc Hp). lia.
  - by apply (advanced_wf h b).
  - destruct Ha. lia.
  - by right.
Qed.

Lemma mdrain_syn_sim (h : Heap byte) mp mf m b seq syn frames :
  slice_wf h (mtxBuf m) -> (s_len (mtxBuf m) = 0%nat \/ 0 < mp) ->
  mdrain_syn mp mf m = (b, seq, syn, frames) ->
  drain_syn mp mf (session_of h m) = (load h b, seq, syn, map (frame_of h) frames)
  /\ advanced (mtxBuf m) b /\ Forall (cut_off h (s_off (mtxBuf m)) b) frames.
Proof.
  intros Hw Hmp. unfold mdrain_syn, drain_syn. cbn [session_of tx synNeeded txBuf txSeq ID SessTarget].
  change (canAppend mf []) with (mcanAppend mf []).
  destruct (msynNeeded m && mcanAppend mf []).
  2:{ intros [= <- <- <- <-]. split; [done|]. split; [apply advanced_refl|done]. }
  rewrite len_load by done. destruct (Nat.ltb_spec 0 (s_len (mtxBuf m))) as [Hl|Hl].
  - destruct Hmp as [?|Hmp]; [lia|]. rewrite (proj2 (Z.ltb_lt _ _)) by lia.
    destruct (mchunk_chunk h mp (mtxBuf m) Hw Hl Hmp) as [-> Hn].
    destruct (cut_spec h (mtxBuf m) (mchunk mp (mtxBuf m)) (mID m) (mtxSeq m) FlagSYN (mTarget m) Hw)
      as (Hd & Hf & Ha & Hc); [lia|].
    intros [= <- <- <- <-]. cbn [map]. rewrite Hd, Hf. split; [done|]. split; [done|]. by constructor.
  - rewrite (proj2 (Z.ltb_ge _ _)) by lia. intros [= <- <- <- <-]. cbn [map].
    split; [|split; [apply advanced_refl|]].
    + unfold frame_of. cbn. by rewrite (load_empty h (mtxBuf m)) by lia.
    + constructor; [|done]. split; [apply slice_wf_nil|cbn; lia].
Qed.

Lemma meff_payload_eff (h : Heap byte) mp b :
  slice_wf h b -> eff_payload mp (load h b) = meff_payload mp b /\ (s_len b = 0%nat \/ 0 < meff_payload mp b).
Proof.
  intros Hw. unfold eff_payload, meff_payload. rewrite len_load by done.
  destruct (Nat.ltb_spec 0 (s_len b)); destruct (Z.ltb_spec 0 (Z.of_nat (s_len b))); try lia.
  destruct (Z.leb_spec mp 0); lia.
Qed.

Lemma s_len_zero (h : Heap byte) b : slice_wf h b -> (len (load h b) =? 0) = (s_len b =? 0)%nat.
Proof. intros. rewrite len_load by done. apply eq_true_iff_eq. rewrite Z.eqb_eq, Nat.eqb_eq. lia. Qed.

(** Draining slices is draining their values; the new frames are cut off in
    front of the rest of the buffer. *)
Lemma mdrainTx_sim (h : Heap byte) now mp mf m m' frames :
  slice_wf h (mtxBuf m) -> mdrainTx now mp mf m = (m', frames) ->
  drainTx now mp mf (session_of h m) = (session_of h m', map (frame_of h) frames)
  /\ exists b, advanced (mtxBuf m) b /\ Forall (cut_off h (s_off (mtxBuf m)) b) frames
               /\ (mtxBuf m' = b \/ mtxBuf m' = nil_slice).
Proof.
  intros Hw. unfold mdrainTx, drainTx. cbn [session_of tx synNeeded txBuf closeReq finSent finSentAt firstQueuedAt ID].
  rewrite s_len_zero by done.
  case_bool. { intros [= <- <-]. split; [done|]. exists (mtxBuf m). split; [apply advanced_refl|]. auto. }
  destruct (meff_payload_eff h mp (mtxBuf m) Hw) as [-> Hmp].
  destruct (mdrain_syn _ mf m) as [[[b seq] syn] fs] eqn:Hs.
  destruct (mdrain_syn_sim h _ mf m b seq syn fs Hw Hmp Hs) as (-> & Ha & Hc).
  pose proof (advanced_wf h _ _ Ha Hw) as Hwb.
  rewrite (length_load h b Hwb).
  destruct (mdrain_chunks _ _ _ mf b seq fs) as [[b1 seq1] fs1] eqn:Hd.
  apply (mdrain_chunks_sim h (s_off (mtxBuf m))) in Hd as (-> & Ha1 & new & -> & Hnew); [|done|by destruct Ha as (_ & ? & _)|].
  2:{ destruct Hmp as [Hz|]; [left|by right]. revert Ha. unfold advanced. lia. }
  pose proof (advanced_wf h _ _ Ha1 Hwb) as Hwb1.
  assert (Hn : (s_len (if (s_len b1 =? 0)%nat then nil_slice else b1) =? 0)%nat = (s_len b1 =? 0)%nat)
    by (destruct (s_len b1 =? 0)%nat eqn:E; [done|exact E]).
  rewrite Hn, <- (s_len_zero h b1) by done.
  assert (Hl : load h (if len (load h b1) =? 0 then nil_slice else b1) = load h b1).
  { destruct (Z.eqb_spec (len (load h b1)) 0) as [E|]; [|done]. apply len_zero in E. by rewrite E. }
  unfold drain_fin, mdrain_fin. cbn [session_of tx closeReq finSent finSentAt].
  rewrite mcanAppend_map.
  assert (Hcut : Forall (cut_off h (s_off (mtxBuf m)) b1) (fs ++ new)).
  { apply Forall_app. split; [|done]. eapply Forall_impl; [exact Hc|]. intros f. by apply advanced_cut. }
  assert (Hadv : advanced (mtxBuf m) b1).
  { revert Ha Ha1. unfold advanced. intros (-> & ? & ? & ?) (-> & ? & ? & ?). lia. }
  destruct (mcloseReq m && negb (mfinSent m) && _); intros [= <- <-]; unfold with_tx, session_of; cbn; rewrite Hl.
  - split; [by rewrite (map_app _ (fs ++ new))|]. exists b1. split; [done|]. split; [|case_bool; auto].
    apply Forall_app. split; [done|]. constructor; [|done]. split; [apply slice_wf_nil|cbn; lia].
  - split; [done|]. exists b1. split; [done|]. split; [done|]. case_bool; auto.
Qed.

(** ** The refinement *)

(** The arrays of the session are not the process's, and frames lie in front of
    the buffer. *)
Definition kept (e : gset nat) (b : GoSlice) (h : Heap byte) (f : MemFrame) : Prop :=
  slice_wf h (mfPayload f) /\ before (mfPayload f) b
  /\ ((0 < s_len (mfPayload f))%nat -> s_arr (mfPayload f) ∉ e).

Record mem_inv (w : World) : Prop := {
  mi_buf : slice_wf (heap w) (mtxBuf (ses w));
  mi_own : (0 < s_cap (mtxBuf (ses w)))%nat -> s_arr (mtxBuf (ses w)) ∉ env w;
  mi_env : forall a, a ∈ env w -> (a < length (heap w))%nat;
  mi_sent : Forall (kept (env w) (mtxBuf (ses w)) (heap w)) (sent w);
}.

(** What the caller of [append] has to say about its other slices: they are
    intact, and lie before the result. *)
Lemma append_sent spare h h' b s s' d (e e' : gset nat) fs :
  slice_wf h s -> append spare h s d = (h', s') -> Forall (kept e b h) fs ->
  (forall f, kept e b h f -> before (mfPayload f) s) -> e' ⊆ e ->
  Forall (kept e' s' h') fs /\ map (frame_of h') fs = map (frame_of h) fs.
Proof.
  intros Hs Happ Hfs Hb He. induction Hfs as [|f fs Hf _ [IH1 IH2]]; [done|].
  pose proof Hf as (Hp & _ & Hn).
  destruct (append_frame spare h h' s s' d (mfPayload f) Hs Happ Hp (Hb f Hf)) as (E & Hw & Hb').
  split; [constructor; [|done]|cbn; f_equal; [|done]; unfold frame_of; by rewrite E].
  split; [done|]. split; [done|]. set_solver.
Qed.

(** A step, and the same call on the values. *)
Definition simulates (w w' : World) (tr : list op) : Prop :=
  mem_inv w' /\ exists fs,
    run_ops tr (session_of (heap w) (ses w)) = Ok (session_of (heap w') (ses w'), fs)
    /\ map (frame_of (heap w')) (sent w') = map (frame_of (heap w)) (sent w) ++ fs.

Lemma enqueue_sim w now spare data (h : Heap byte) m :
  mem_inv w -> mEnqueueTx now spare (heap w) data (ses w) = Some (h, m) ->
  mem_inv (mkWorld h (env w) m (sent w))
  /\ EnqueueTx now (load (heap w) data) (session_of (heap w) (ses w)) = Some (session_of h m, negb (mcloseReq (ses w)))
  /\ map (frame_of h) (sent w) = map (frame_of (heap w)) (sent w)
  /\ msynNeeded m = msynNeeded (ses w).
Proof.
  intros [Hb Ho He Hs]. unfold mEnqueueTx, EnqueueTx. cbn [session_of tx txBuf closeReq].
  rewrite len_load by done. case_bool; [done|]. destruct (mcloseReq (ses w)) eqn:Hc.
  { intros [= <- <-]. split; [by constructor|]. unfold session_of. by rewrite Hc. }
  destruct (append spare _ _ _) as [h' b] eqn:Happ. intros [= <- <-].
  destruct (append_sent spare _ h' _ _ b _ (env w) (env w) (sent w) Hb Happ Hs) as [Hs' Hm]; [|done|].
  { by intros f (_ & ? & _). }
  destruct (append_spec spare _ h' _ b _ Hb Happ) as (El & Hw & Hpos).
  split; [|split; [|done]].
  - constructor; cbn; [done| | |done].
    + destruct Hpos as [(-> & _ & -> & _)|(-> & _)]; [done|]. intros _ Hin. apply He in Hin. lia.
    + intros a Ha. apply He in Ha. apply length_append in Happ. lia.
  - unfold with_tx, session_of, with_mtxBuf, queued_at, mqueued_at. cbn. by rewrite El, Hc.
Qed.

Lemma initial_sim (w : World) now spare b (h : Heap byte) m :
  mem_inv w -> s_arr b ∈ env w -> slice_wf (heap w) b -> (0 < s_len b)%nat -> msynNeeded (ses w) = true ->
  mEnqueueInitialData now spare (heap w) b (ses w) = Some (h, m) ->
  mem_inv (mkWorld h (env w ∖ {[s_arr b]}) m (sent w))
  /\ EnqueueInitialData now (load (heap w) b) (session_of (heap w) (ses w)) = Some (session_of h m, true)
  /\ map (frame_of h) (sent w) = map (frame_of (heap w)) (sent w)
  /\ msynNeeded m = msynNeeded (ses w).
Proof.
  intros [Hb Ho He Hs] Hin Hw Hl Hsyn. unfold mEnqueueInitialData, EnqueueInitialData.
  cbn [session_of tx synNeeded txBuf]. rewrite Hsyn. cbn [negb].
  destruct (append spare _ _ _) as [h' b'] eqn:Happ. intros [= <- <-].
  destruct (append_sent spare _ h' _ _ b' _ (env w) (env w ∖ {[s_arr b]}) (sent w) Hw Happ Hs) as [Hs' Hm]; [|set_solver|].
  { intros f (_ & _ & Hn) Hp _ E. destruct (Hn Hp). by rewrite E. }
  destruct (append_spec spare _ h' _ b' _ Hw Happ) as (El & Hw' & Hpos).
  split; [|split; [|done]].
  - constructor; cbn; [done| | |done].
    + intros _. destruct Hpos as [(-> & _)|(-> & _)]; [set_solver|]. intros Hx.
      apply elem_of_difference in Hx as [Hx _]. apply He in Hx. lia.
    + intros a [Ha _]%elem_of_difference. apply He in Ha. apply length_append in Happ. lia.
  - unfold with_tx, session_of, with_mtxBuf, queued_at, mqueued_at. cbn. by rewrite El, Hsyn.
Qed.

(** Writes of the process to its own arrays, and new arrays. *)
Lemma other_sim (w : World) (h : Heap byte) (e : gset nat) :
  mem_inv w -> (length (heap w) <= length h)%nat ->
  (forall s, slice_wf (heap w) s -> ((0 < s_len s)%nat -> s_arr s ∉ env w) -> load h s = load (heap w) s /\ slice_wf h s) ->
  (forall s, slice_wf (heap w) s -> (0 < s_cap s)%nat -> s_arr s ∉ env w -> slice_wf h s /\ s_arr s ∉ e) ->
  (forall a, a ∈ e -> (a < length h)%nat) ->
  simulates w (mkWorld h e (ses w) (sent w)) [].
Proof.
  intros [Hb Ho He Hs] Hlen Hload Hcap Hnew.
  assert (Hbuf : load h (mtxBuf (ses w)) = load (heap w) (mtxBuf (ses w)) /\ slice_wf h (mtxBuf (ses w))).
  { apply Hload; [done|]. intros Hl. apply Ho. destruct Hb. lia. }
  assert (Hf : forall f, kept (env w) (mtxBuf (ses w)) (heap w) f ->
    kept e (mtxBuf (ses w)) h f /\ frame_of h f = frame_of (heap w) f).
  { intros f (Hp & Hbf & Hn). destruct (Hload _ Hp Hn) as [E Hw]. split; [|unfold frame_of; by rewrite E].
    split; [done|]. split; [done|]. intros Hl. apply Hcap; [done| |auto]. destruct Hp. lia. }
  split.
  - constructor; cbn; [apply Hbuf| |done|].
    + intros Hc. apply Hcap; auto.
    + eapply Forall_impl; [exact Hs|]. intros f Hk. by apply Hf.
  - exists []. cbn. rewrite app_nil_r. split.
    + unfold session_of. by rewrite (proj1 Hbuf).
    + clear - Hs Hf. induction Hs as [|f fs Hk _ IH]; [done|]. cbn. by rewrite IH, (proj2 (Hf f Hk)).
Qed.

Lemma run_op_one o s s' fs : run_op o s = Ok (s', fs) -> run_ops [o] s = Ok (s', fs).
Proof. cbn. intros ->. cbn. by rewrite app_nil_r. Qed.

Lemma drainTx_no_syn now mp mf s :
  synNeeded (tx s) = false -> synNeeded (tx (fst (drainTx now mp mf s))) = false.
Proof.
  intros Hs. unfold drainTx, drain_syn. rewrite Hs. cbn [negb andb]. case_bool; [done|].
  destruct (drain_chunks _ _ _ _ _ _ _) as [[? ?] ?]. by destruct (drain_fin _ _ _ _ _ _) as [[[? ?] ?] ?].
Qed.

Lemma step_sim (keep : bool) (o : mop) (w w' : World) (tr : list op) :
  mem_inv w -> keep = false \/ msynNeeded (ses w) = false -> step keep o w = Some (w', tr) ->
  simulates w w' tr /\ (msynNeeded (ses w) = false -> msynNeeded (ses w') = false).
Proof.
  intros Hi Hk. pose proof Hi as [Hb Ho He Hs].
  assert (Hstay : forall o, run_op o (session_of (heap w) (ses w)) = Ok (session_of (heap w) (ses w), []) ->
    simulates w w [o]).
  { intros o' Hr. split; [done|]. exists []. by rewrite app_nil_r, (run_op_one o' _ _ _ Hr). }
  destruct o as [c|a i d|now spare data|now spare b|now|now mp mf]; cbn [step].
  - intros [= <- <-]. split; [|done]. apply other_sim; [done| | | |].
    + rewrite length_app. lia.
    + intros s Hw _. by apply load_alloc.
    + intros s Hw Hc Hn. split; [by apply load_alloc|]. apply not_elem_of_union. split; [|done].
      intros E%elem_of_singleton. destruct Hw. pose proof (array_bound (heap w) (s_arr s)). lia.
    + intros a [->%elem_of_singleton|Ha]%elem_of_union; rewrite length_app; cbn; [lia|]. apply He in Ha. lia.
  - case_bool; [|done]. apply andb_true_iff in Heqb as [Ha%bool_decide_eq_true Hd%Nat.leb_le].
    assert (Hl : forall s, slice_wf (heap w) s -> ((0 < s_len s)%nat -> s_arr s ∉ env w) ->
      load (store (heap w) a i d) s = load (heap w) s /\ slice_wf (store (heap w) a i d) s).
    { intros s Hw Hn. apply load_store_before; [done|done|]. intros Hp E. subst a. by destruct (Hn Hp). }
    intros [= <- <-]. split; [|done]. apply other_sim; [done| |done| |].
    + by rewrite length_store.
    + intros s Hw _ Hn. split; [by apply Hl|done].
    + intros x Hx. rewrite length_store. by apply He.
  - destruct (may_pass w data) eqn:Hmp; [|done]. apply bool_decide_eq_true in Hmp as [Hin Hw].
    destruct (mEnqueueTx _ _ _ _ _) as [[h m]|] eqn:Hm; intros [= <- <-].
    + destruct (enqueue_sim w now spare data h m Hi Hm) as (Hi' & Hr & Hf & Hsy). split; [|by rewrite <- Hsy].
      split; [done|]. exists []. cbn [heap ses sent]. rewrite app_nil_r, Hf. split; [|done]. apply run_op_one. cbn. by rewrite Hr.
    + split; [|done]. apply Hstay. cbn. unfold EnqueueTx. cbn [session_of tx txBuf closeReq].
      rewrite len_load by done. revert Hm. unfold mEnqueueTx. case_bool; [done|].
      case_bool; [done|]. by destruct (append _ _ _ _).
  - destruct (may_pass w b) eqn:Hmp; [|done]. apply bool_decide_eq_true in Hmp as [Hin Hw].
    unfold mWrite, env_after. destruct (Nat.ltb_spec 0 (s_len b)) as [Hl|Hl].
    2:{ intros [= <- <-]. rewrite andb_false_r. split; [|done]. split; [by constructor|]. exists []. by rewrite app_nil_r. }
    rewrite andb_true_r. destruct (msynNeeded (ses w)) eqn:Hsyn.
    + destruct Hk as [->|]; [|done]. cbn [negb andb].
      destruct (mEnqueueInitialData _ _ _ _ _) as [[h m]|] eqn:Hm.
      2:{ revert Hm. unfold mEnqueueInitialData. rewrite Hsyn. cbn. by destruct (append _ _ _ _). }
      intros [= <- <-]. split; [|done].
      destruct (initial_sim w now spare b h m Hi Hin Hw Hl Hsyn Hm) as (Hi' & Hr & Hf & Hsy).
      split; [done|]. exists []. cbn [heap ses sent]. rewrite app_nil_r, Hf. split; [|done]. apply run_op_one. cbn. by rewrite Hr.
    + rewrite andb_false_r. unfold mEnqueueInitialData. rewrite Hsyn. cbn [negb].
      assert (Hop : forall h, EnqueueInitialData now (load h b) (session_of (heap w) (ses w))
        = EnqueueTx now (load h b) (session_of (heap w) (ses w))).
      { intros h. unfold EnqueueInitialData. cbn [session_of tx synNeeded]. by rewrite Hsyn. }
      destruct (mEnqueueTx _ _ _ _ _) as [[h m]|] eqn:Hm; intros [= <- <-].
      * destruct (enqueue_sim w now spare b h m Hi Hm) as (Hi' & Hr & Hf & Hsy). split; [|cbn; congruence].
        split; [done|]. exists []. cbn [heap ses sent]. rewrite app_nil_r, Hf. split; [|done]. apply run_op_one. cbn [run_op].
        by rewrite Hop, Hr.
      * split; [|done]. apply Hstay. cbn [run_op]. rewrite Hop. unfold EnqueueTx. cbn [session_of tx txBuf closeReq].
        rewrite len_load by done. revert Hm. unfold mEnqueueTx. case_bool; [done|].
        case_bool; [done|]. by destruct (append _ _ _ _).
  - intros [= <- <-]. split; [|done]. split; [by constructor|]. exists []. rewrite app_nil_r. split; [|done].
    apply run_op_one. done.
  - destruct (mdrainTx now mp mf (ses w)) as [m fs] eqn:Hd. intros [= <- <-].
    destruct (mdrainTx_sim (heap w) now mp mf (ses w) m fs Hb Hd) as (Hr & b & Ha & Hc & Hm).
    split; [split; [|exists (map (frame_of (heap w)) fs)]|].
    + constructor; cbn; [| |done|].
      * destruct Hm as [->| ->]; [by apply (advanced_wf _ (mtxBuf (ses w)))|apply slice_wf_nil].
      * destruct Hm as [->| ->]; [|cbn; lia]. intros Hcap. destruct Ha as (-> & ? & ? & ?). apply Ho. lia.
      * apply Forall_app. split.
        -- eapply Forall_impl; [exact Hs|]. intros f (Hp & Hbf & Hn). split; [done|]. split; [|done].
           destruct Hm as [->| ->]; [|intros _ ?; cbn in *; lia]. destruct Ha as (Ea & ? & ? & ?).
           intros Hl Hcap E. rewrite Ea in E. specialize (Hbf Hl ltac:(lia) E). lia.
        -- eapply Forall_impl; [exact Hc|]. intros f [Hp Hcut]. split; [done|]. split.
           ++ destruct Hm as [->| ->]; [|intros _ ?; cbn in *; lia]. intros Hl _ _. by apply Hcut.
           ++ intros Hl. destruct (Hcut Hl) as [-> _]. destruct Ha as (-> & ? & ? & ?). apply Ho.
              destruct (Hcut Hl). destruct Hb. lia.
    + cbn [heap sent ses]. split; [|by rewrite map_app]. apply run_op_one. cbn [run_op]. by rewrite Hr.
    + cbn [ses]. intros Hsyn. apply (f_equal (fun p => synNeeded (tx (fst p)))) in Hr. cbn in Hr.
      rewrite <- Hr. by apply drainTx_no_syn.
Qed.

Lemma run_ops_app ops ops' s :
  run_ops (ops ++ ops') s = let! p := run_ops ops s in let! q := run_ops ops' (fst p) in Ok (fst q, snd p ++ snd q).
Proof.
  revert s. induction ops as [|o ops IH]; intros s; cbn.
  - destruct (run_ops ops' s) as [[? ?]| |]; done.
  - destruct (run_op o s) as [[s1 fs1]| |]; [|done|done]. cbn. rewrite IH.
    destruct (run_ops ops s1) as [[s2 fs2]| |]; [|done|done]. cbn.
    destruct (run_ops ops' s2) as [[s3 fs3]| |]; [|done|done]. cbn. by rewrite app_assoc.
Qed.

Lemma run_sim (keep : bool) (ops : list mop) (w w' : World) (tr : list op) :
  mem_inv w -> keep = false \/ msynNeeded (ses w) = false -> run keep ops w = Some (w', tr) ->
  simulates w w' tr /\ exists more, sent w' = sent w ++ more.
Proof.
  revert w tr. induction ops as [|o ops IH]; intros w tr Hi Hk; cbn [run].
  { intros [= <- <-]. split; [|exists []; by rewrite app_nil_r]. split; [done|]. exists []. by rewrite app_nil_r. }
  destruct (step keep o w) as [[w1 tr1]|] eqn:Hs; [|done].
  destruct (run keep ops w1) as [[w2 tr2]|] eqn:Hr; [|done]. intros [= <- <-].
  destruct (step_sim keep o w w1 tr1 Hi Hk Hs) as [(Hi1 & fs1 & R1 & M1) Hsy].
  destruct (IH w1 tr2 Hi1) as [(Hi2 & fs2 & R2 & M2) [more2 E2]]; [tauto|done|].
  split; [split; [done|]|].
  - exists (fs1 ++ fs2). rewrite run_ops_app, R1. cbn [res_bind fst snd]. rewrite R2. cbn [res_bind fst snd].
    split; [done|]. by rewrite M2, M1, app_assoc.
  - enough (exists more, sent w1 = sent w ++ more) as [more1 E1].
    { exists (more1 ++ more2). by rewrite E2, E1, app_assoc. }
    clear -Hs. destruct o; cbn [step] in Hs; repeat case_bool; try done;
      repeat match type of Hs with context [match ?x with _ => _ end] => destruct x as [[? ?]|] end;
      simplify_eq; cbn; try (exists []; by rewrite app_nil_r).
    destruct (mdrainTx _ _ _ _) as [m fs]. simplify_eq. by exists fs.
Qed.

Lemma run_no_syn (keep : bool) (ops : list mop) (w w' : World) (tr : list op) :
  mem_inv w -> msynNeeded (ses w) = false -> run keep ops w = Some (w', tr) -> msynNeeded (ses w') = false.
Proof.
  revert w tr. induction ops as [|o ops IH]; intros w tr Hi Hsy; cbn [run]; [by intros [= <- <-]|].
  destruct (step keep o w) as [[w1 tr1]|] eqn:Hs; [|done].
  destruct (step_sim keep o w w1 tr1 Hi (or_intror Hsy) Hs) as [(Hi1 & _) Hsy1].
  destruct (run keep ops w1) as [[w2 tr2]|] eqn:Hr1; [|done]. intros [= <- <-]. by eapply IH; eauto.
Qed.

Lemma start_inv now id target syn : mem_inv (start now id target syn).
Proof.
  constructor; cbn; [apply slice_wf_nil|lia| |done]. intros a Ha. by apply elem_of_empty in Ha.
Qed.

(** C5: sharing arrays is the same as having values.  Let a process use a
    session in any way: make buffers, fill and refill those it has, pass windows
    of them to [EnqueueTx] and to [VirtualConn.Write], close, and drain with any
    limits, whatever capacity [append] gives to new arrays.  If it does not
    write any more to a buffer that it has passed to [Write] before the SYN was
    drained ([keep] is false), or if the session is one of a server (which has
    no SYN to send, so that the read pump may refill its pooled buffer), then
    buffer, flags, sequence numbers and all the frames drained are those of the
    same calls on values; and the bytes of a drained frame do not change any
    more, so that it does not matter when they are sealed. *)
Theorem memory_refines (keep syn : bool) (now : Z) (id target : bytes) (ops : list mop) (w : World) (tr : list op) :
  keep = false \/ syn = false -> run keep ops (start now id target syn) = Some (w, tr) ->
  run_ops tr (Session.New now id target syn)
  = Ok (session_of (heap w) (ses w), map (frame_of (heap w)) (sent w))
  /\ forall ops' w' tr', run keep ops' w = Some (w', tr') ->
     map (frame_of (heap w')) (sent w) = map (frame_of (heap w)) (sent w).
Proof.
  intros Hk Hr. pose proof (start_inv now id target syn) as Hi.
  destruct (run_sim keep ops (start now id target syn) w tr Hi Hk Hr) as [(Hi' & fs & R & M) _].
  cbn in M. rewrite M. split; [done|]. rewrite <- M. intros ops' w' tr' Hr'.
  assert (Hk' : keep = false \/ msynNeeded (ses w) = false).
  { destruct Hk as [?|Hs]; [by left|right]. by apply (run_no_syn keep ops (start now id target syn) w tr). }
  destruct (run_sim keep ops' w w' tr' Hi' Hk' Hr') as [(_ & fs' & _ & M') [more E]].
  rewrite E, map_app in M'. apply app_inj_1 in M' as [M' _]; [done|]. by rewrite !length_map.
Qed.

(** The read pump of a server: one buffer for all its reads. *)
Definition demo_pump : list mop :=
  [MMake (str "........"); MFill 0 0 (str "HTTP/1.1"); MEnqueue 1 (str "???") (mkSlice 0 0 8 8);
   MFill 0 0 (str " 200 OK"); MEnqueue 2 [] (mkSlice 0 0 7 8); MDrain 3 10 1;
   MFill 0 0 (str "!!!!!!!!"); MEnqueue 4 [] (mkSlice 0 0 2 8); MDrain 5 10 0].

Lemma memory_refines_witness :
  exists w tr, run true demo_pump (start 0 (str "session-00000001") (str "h:1") false) = Some (w, tr)
  /\ run_ops tr (Session.New 0 (str "session-00000001") (str "h:1") false)
     = Ok (session_of (heap w) (ses w), map (frame_of (heap w)) (sent w))
  /\ concat (map Payload (map (frame_of (heap w)) (sent w))) = str "HTTP/1.1 200 OK!!".
Proof.
  destruct (run true demo_pump (start 0 (str "session-00000001") (str "h:1") false)) as [[w tr]|] eqn:E;
    [|vm_compute in E; discriminate].
  exists w, tr. split; [done|]. split.
  - apply (memory_refines true false 0 (str "session-00000001") (str "h:1") demo_pump w tr);
      [by right|exact E].
  - vm_compute in E. injection E as <- <-. vm_compute. reflexivity.
Defined.

(** ** A writer that reuses its buffer

    [io.Writer] says that an implementation must not retain the slice it is
    given; [io.Copy] and its relatives read the next piece into the same buffer
    as soon as [Write] returns. *)

(** The buffer of the writer, the array 0, filled with [a] and written. *)
Definition first_write (a : bytes) : list mop := [MMake a; MWrite 1 [] (mkSlice 0 0 (length a) (length a))].

(** The next piece is read into it. *)
Definition refill (b : bytes) : list mop := [MFill 0 0 b].

Lemma overwrite_all {A} (a b : list A) : length b = length a -> overwrite 0 b a = b.
Proof. intros E. unfold overwrite. cbn. by rewrite E, drop_all, app_nil_r. Qed.

(** After the first [Write] the session's buffer is the writer's. *)
Definition written (now : Z) (id target a : bytes) : World :=
  mkWorld [a] {[0%nat]} (mkMem id target (mkSlice 0 0 (length a) (length a)) 0 true false false 0 (if IsZero now then 1 else now)) [].

Lemma run_first_write now id target a :
  a <> [] -> run true (first_write a) (start now id target true) = Some (written now id target a, [OInitial 1 a]).
Proof.
  intros Ha. assert (Hl : (0 < length a)%nat) by (destruct a; [done|cbn; lia]).
  cbn [run step first_write start heap env ses sent app length].
  unfold may_pass. cbn [heap env s_arr].
  rewrite bool_decide_eq_true_2.
  2:{ split; [set_solver|]. unfold slice_wf. cbn. lia. }
  unfold mWrite. cbn [s_len]. rewrite (proj2 (Nat.ltb_lt _ _)) by done.
  unfold mEnqueueInitialData. cbn [ses mNew msynNeeded negb mtxBuf].
  unfold append, load. cbn [s_len s_cap s_arr s_off array nil_slice take length].
  rewrite !take_0. cbn [length]. rewrite !Nat.add_0_r, Nat.leb_refl, store_nil.
  unfold env_after, written, with_mtxBuf, mqueued_at, load. cbn. rewrite firstn_all, union_empty_r_L.
  done.
Qed.

Lemma run_refill a b k fs :
  length b = length a ->
  run true (refill b) (mkWorld [a] {[0%nat]} k fs) = Some (mkWorld [b] {[0%nat]} k fs, []).
Proof.
  intros E. unfold refill. cbn [run step heap env ses sent]. rewrite bool_decide_eq_true_2 by set_solver.
  change (array [a] 0) with a. rewrite E. cbn [Nat.add]. rewrite Nat.leb_refl. cbn [andb app].
  unfold store. change (array [a] 0) with a. by rewrite overwrite_all.
Qed.

(** Draining a SYN with the whole buffer for its payload. *)
Lemma run_drain_syn keep id target s (h : Heap byte) e q now mp :
  (0 < s_len s)%nat -> Z.of_nat (s_len s) <= mp ->
  run keep [MDrain now mp 0] (mkWorld h e (mkMem id target s 0 true false false 0 q) [])
  = Some (mkWorld h e (mkMem id target nil_slice 1 false false false 0 0)
            [mkMemFrame id 0 FlagSYN target s], [ODrain now mp 0]).
Proof.
  intros Hl Hmp. cbn [run step ses heap env sent]. unfold mdrainTx, meff_payload. cbn [msynNeeded mtxBuf negb andb].
  rewrite (proj2 (Nat.ltb_lt _ _)) by done. rewrite (proj2 (Z.leb_gt _ _)) by lia.
  unfold mdrain_syn. cbn [msynNeeded mtxBuf mID mtxSeq mTarget]. rewrite (proj2 (Nat.ltb_lt _ _)) by done.
  assert (Hc : mchunk mp s = s_len s) by (unfold mchunk; case_bool; lia).
  rewrite Hc. destruct s as [a o n c]. unfold reslice. cbn [s_arr s_off s_len s_cap] in *.
  rewrite Nat.sub_diag, !Nat.sub_0_r, Nat.add_0_r. reflexivity.
Qed.

Lemma run_app keep ops ops' w :
  run keep (ops ++ ops') w =
  match run keep ops w with
  | Some (w1, tr1) =>
      match run keep ops' w1 with Some (w2, tr2) => Some (w2, tr1 ++ tr2) | None => None end
  | None => None
  end.
Proof.
  revert w. induction ops as [|o ops IH]; intros w; cbn [app run].
  { by destruct (run keep ops' w) as [[? ?]|]. }
  destruct (step keep o w) as [[w1 tr1]|]; [|done]. rewrite IH.
  destruct (run keep ops w1) as [[w2 tr2]|]; [|done].
  destruct (run keep ops' w2) as [[w3 tr3]|]; [|done]. by rewrite app_assoc.
Qed.

(** The second [Write] of a buffer that the session has already: [append] reads
    what the writer has put there. *)
Lemma run_second_write id target b q :
  b <> [] ->
  let s := mkSlice 0 0 (length b) (length b) in
  exists q', run true [MWrite 1 [] s] (mkWorld [b] {[0%nat]} (mkMem id target s 0 true false false 0 q) [])
  = Some (mkWorld [b; b ++ b] {[0%nat]}
      (mkMem id target (mkSlice 1 0 (length (b ++ b)) (length (b ++ b))) 0 true false false 0 q') [], [OInitial 1 b]).
Proof.
  intros Hb s. assert (Hl : (0 < length b)%nat) by (destruct b; [done|cbn; lia]). eexists.
  assert (Hload : load [b] s = b) by (unfold load, s; cbn; by rewrite firstn_all).
  cbn [run step]. unfold may_pass. cbn [heap env s s_arr]. rewrite bool_decide_eq_true_2.
  2:{ split; [set_solver|]. unfold slice_wf. cbn. lia. }
  change (s_len s) with (length b). unfold mWrite. change (s_len s) with (length b).
  rewrite (proj2 (Nat.ltb_lt _ _)) by done. unfold mEnqueueInitialData. cbn [ses msynNeeded negb mtxBuf heap].
  rewrite Hload. unfold append. cbn [s s_len s_cap]. rewrite (proj2 (Nat.leb_gt _ _)) by lia.
  rewrite Hload, app_nil_r. unfold alloc, env_after, with_mtxBuf. cbn. by rewrite length_app.
Qed.

(** C10: an early [Write] keeps its caller's buffer.  Let a client write [a]
    before the SYN of its session was drained, and read the next piece [b], of
    the same length, into the same buffer, as [io.Copy] does.  Whether the SYN
    was drained in the meantime or not (as long as it was not sealed), its
    payload is then [b]: the bytes of [a] are gone.  If [b] is written as well
    before the SYN is drained, the payload is [b] twice.  Values would give [a]
    in the SYN. *)
Theorem Write_retains (now now2 mp : Z) (id target a b : bytes) :
  a <> [] -> length b = length a -> 2 * Z.of_nat (length a) <= mp ->
  let payload ops :=
    match run true ops (start now id target true) with
    | Some (w, _) => Some (map (fun f => (Flags f, Payload f)) (map (frame_of (heap w)) (sent w)))
    | None => None
    end in
  payload (first_write a ++ refill b ++ [MDrain now2 mp 0]) = Some [(FlagSYN, b)]
  /\ payload (first_write a ++ [MDrain now2 mp 0] ++ refill b) = Some [(FlagSYN, b)]
  /\ payload (first_write a ++ refill b ++ [MWrite 1 [] (mkSlice 0 0 (length b) (length b)); MDrain now2 mp 0])
     = Some [(FlagSYN, b ++ b)]
  /\ match run_ops [OInitial 1 a; ODrain now2 mp 0] (Session.New now id target true) with
     | Ok (_, fs) => map (fun f => (Flags f, Payload f)) fs = [(FlagSYN, a)]
     | _ => False
     end.
Proof.
  intros Ha Hb Hmp payload. assert (Hl : (0 < length a)%nat) by (destruct a; [done|cbn; lia]).
  assert (Hbn : b <> []) by (destruct b; [cbn in Hb; lia|done]).
  assert (Hld : forall c (h : Heap byte), array h 0 = c -> length c = length a ->
    load h (mkSlice 0 0 (length a) (length a)) = c).
  { intros c h E Hc. unfold load. cbn. rewrite E, <- Hc, drop_0. apply firstn_all. }
  subst payload. cbv beta. rewrite !run_app, run_first_write by done. unfold written.
  split; [|split; [|split]].
  - rewrite run_app, run_refill by done. rewrite run_drain_syn by (cbn; lia).
    cbn [map sent heap]. unfold frame_of. cbn [Flags Payload mfFlags mfPayload]. by rewrite (Hld b).
  - rewrite run_app, run_drain_syn by (cbn; lia). rewrite run_refill by done.
    cbn [map sent heap]. unfold frame_of. cbn [Flags Payload mfFlags mfPayload]. by rewrite (Hld b).
  - rewrite run_app, run_refill by done. rewrite <- Hb.
    change [?x; ?y] with ([x] ++ [y]). rewrite run_app.
    destruct (run_second_write id target b (if IsZero now then 1 else now) Hbn) as [q' ->].
    rewrite run_drain_syn by (cbn; rewrite length_app; lia).
    cbn [map sent heap]. unfold frame_of, load. cbn. by rewrite firstn_all.
  - cbn [run_ops run_op]. unfold EnqueueInitialData. cbn [New tx synNeeded negb from_option fst txBuf res_bind].
    rewrite app_nil_r. unfold drainTx, eff_payload, drain_syn. cbn [with_tx tx ID SessTarget synNeeded txBuf negb andb].
    assert (Hla : 0 < len a) by (unfold len; lia). rewrite (proj2 (Z.ltb_lt _ _) Hla).
    rewrite (proj2 (Z.leb_gt mp 0)) by lia. change (canAppend 0 []) with true. cbn [andb].
    assert (Hc : Z.to_nat (chunk mp a) = length a) by (unfold chunk, len; case_bool; lia).
    rewrite Hc, drop_all, firstn_all. reflexivity.
Qed.

Lemma Write_retains_witness :
  match run true (first_write (str "GET /a") ++ refill (str "Host: ") ++ [MDrain 2 256 0])
          (start 0 (str "session-00000001") (str "h:1") true) with
  | Some (w, _) => map (fun f => (Flags f, Payload f)) (map (frame_of (heap w)) (sent w)) = [(FlagSYN, str "Host: ")]
  | None => False
  end.
Proof.
  destruct (Write_retains 0 2 256 (str "session-00000001") (str "h:1") (str "GET /a") (str "Host: "))
    as [H _]; [discriminate|reflexivity|vm_compute; discriminate|].
  destruct (run true _ _) as [[w tr]|]; [by injection H|discriminate].
Defined.
