(* ===== verification/Pools.v ===== *)
(** * EncodeBatch with its buffer pools

    [EncodeBatch] builds the plaintext of a batch in a buffer from a pool that
    all goroutines share, and keeps the marshalled frames in a slice from
    another one.  [Crypto] has the function on values; here it runs on a [Heap]
    in steps, so that any number of calls can be interleaved with each other,
    with whatever else changes memory, and with the garbage collector, which may
    empty a pool at any time.  [pooled_encode] shows that every call returns
    what the function on values returns. *)

From S2P Require Import Prelude GoMem GoStd Frame Crypto TestLib Session Memory.

(** ** sync.Pool

    The pools hold pointers to slice headers; a header is put back with length
    0.  [Get] takes any of them, or makes a new slice with the given contents
    and length 0. *)

Section Pool.
Context {A : Type}.

Definition pool_Get (ch : option nat) (fresh : list A) (h : Heap A) (pool : list GoSlice)
    : Heap A * list GoSlice * GoSlice :=
  match ch with
  | Some k =>
      match pool !! k with
      | Some s => (h, delete k pool, s)
      | None => let '(h, s) := alloc h fresh 0 in (h, pool, s)
      end
  | None => let '(h, s) := alloc h fresh 0 in (h, pool, s)
  end.

(** [*p = s[:0]; pool.Put(p)] *)
Definition pool_Put (s : GoSlice) (pool : list GoSlice) : list GoSlice := reslice s 0 0 :: pool.

End Pool.

(** ** The steps of [EncodeBatch]

    [ms] is [marshaled], [plain] the plaintext buffer. *)

Inductive enc_pc :=
| PStart
| PMarshal (ms : GoSlice) (todo : list MemFrame) (size : Z)    (* for _, f := range frames *)
| PGetPlain (ms : GoSlice) (size : Z)
| PHeader (ms plain : GoSlice)
| PBlock (ms plain : GoSlice) (i : nat)                       (* for _, raw := range marshaled *)
| PSeal (ms plain : GoSlice)
| PPutPlain (ms plain : GoSlice) (r : res batch_err bytes)    (* the deferred calls *)
| PPutMs (ms : GoSlice) (r : res batch_err bytes)
| PDone (r : res batch_err bytes).

(** A call.  [e_vals] are the values of its frames when it was made. *)
Record Enc := mkEnc {
  e_crypto : Crypto;
  e_rand : option bytes;
  e_clientID : bytes;
  e_frames : list MemFrame;
  e_vals : list Frame;
  e_pc : enc_pc;
}.

Definition with_pc (e : Enc) (pc : enc_pc) : Enc :=
  mkEnc (e_crypto e) (e_rand e) (e_clientID e) (e_frames e) (e_vals e) pc.

(** What the calls share: the byte arrays, the arrays of slices and the pools. *)
Record Shared := mkShared {
  bheap : Heap byte;
  sheap : Heap GoSlice;
  plainPool : list GoSlice;
  msPool : list GoSlice;
}.

Section Enc.
Context {L : CryptoLib}.

Definition plain_new : bytes := repeat (z2b 0) (Z.to_nat (64 * 1024)).
Definition ms_new : list GoSlice := repeat nil_slice 32.

(** The compression of the plaintext, in the array of [plain] or behind its
    first byte in a new one, and the slice to be sealed. *)
Definition mseal_input (spare : bytes) (h : Heap byte) (plain : GoSlice) : Heap byte * GoSlice :=
  if compressMinSize <=? Z.of_nat (s_len plain) - 1 then
    let '(h, compressed) :=
      append spare h (reslice3 plain 0 1 1) (zstd_EncodeAll (load h (reslice plain 1 (s_len plain)))) in
    if Z.of_nat (s_len compressed) - 1 <? Z.of_nat (s_len plain) - 1
    then (store h (s_arr compressed) (s_off compressed) [batchFlagZstd], compressed)
    else (store h (s_arr plain) (s_off plain) [batchFlagRaw], plain)
  else (store h (s_arr plain) (s_off plain) [batchFlagRaw], plain).

(** One step of a call.  [ch] is the choice of [Get], [spare] that of [append]. *)
Definition enc_step (ch : option nat) (spare : bytes) (w : Shared) (e : Enc) : Shared * Enc :=
  match e_pc e with
  | PStart =>
      if 0xFFFF <? len (e_frames e) then (w, with_pc e (PDone (Err (TooManyFrames (len (e_frames e)))))) else
      let '(sh, pool, ms) := pool_Get ch ms_new (sheap w) (msPool w) in
      (mkShared (bheap w) sh (plainPool w) pool,
       with_pc e (PMarshal (reslice ms 0 0) (e_frames e) (1 + ClientIDLen + 2)))
  | PMarshal ms (f :: todo) size =>
      match Marshal (frame_of (bheap w) f) with
      | Ok raw =>
          let '(h, r) := alloc (bheap w) raw (length raw) in
          let '(sh, ms) := append [] (sheap w) ms [r] in
          (mkShared h sh (plainPool w) (msPool w), with_pc e (PMarshal ms todo (size + 4 + len raw)))
      | Err er => (w, with_pc e (PPutMs ms (Err (MarshalFrame er))))
      | Panic => (w, with_pc e (PPutMs ms Panic))
      end
  | PMarshal ms [] size => (w, with_pc e (PGetPlain ms size))
  | PGetPlain ms size =>
      let '(h, pool, plain) := pool_Get ch plain_new (bheap w) (plainPool w) in
      let '(h, plain) :=
        if Z.of_nat (s_cap plain) <? size then alloc h (repeat (z2b 0) (Z.to_nat size)) 0 else (h, reslice plain 0 0) in
      (mkShared h (sheap w) pool (msPool w), with_pc e (PHeader ms plain))
  | PHeader ms plain =>
      let n := len (e_frames e) in
      let '(h, plain) := append spare (bheap w) plain ([z2b 0] ++ e_clientID e ++ [z2b (Z.shiftr n 8); z2b n]) in
      (mkShared h (sheap w) (plainPool w) (msPool w), with_pc e (PBlock ms plain 0))
  | PBlock ms plain i =>
      match load (sheap w) ms !! i with
      | Some raw =>
          let '(h, plain) := append spare (bheap w) plain (frame_block (load (bheap w) raw)) in
          (mkShared h (sheap w) (plainPool w) (msPool w), with_pc e (PBlock ms plain (S i)))
      | None => (w, with_pc e (PSeal ms plain))
      end
  | PSeal ms plain =>
      let '(h, input) := mseal_input spare (bheap w) plain in
      (mkShared h (sheap w) (plainPool w) (msPool w),
       with_pc e (PPutPlain ms plain
         (let! sealed := res_map_err SealErr (Seal (e_crypto e) (e_rand e) (load h input)) in Ok (b64_encode sealed))))
  | PPutPlain ms plain r =>
      (mkShared (bheap w) (sheap w) (pool_Put plain (plainPool w)) (msPool w), with_pc e (PPutMs ms r))
  | PPutMs ms r =>
      (mkShared (bheap w) (store (sheap w) (s_arr ms) (s_off ms) (repeat nil_slice (s_len ms)))
                (plainPool w) (pool_Put ms (msPool w)), with_pc e (PDone r))
  | PDone _ => (w, e)
  end.

(** ** The process *)

(** The slices a call will still read. *)
Definition reads (sh : Heap GoSlice) (e : Enc) : list GoSlice :=
  match e_pc e with
  | PStart => map mfPayload (e_frames e)
  | PMarshal ms todo _ => map mfPayload todo ++ load sh ms
  | PGetPlain ms _ | PHeader ms _ | PBlock ms _ _ | PSeal ms _ => load sh ms
  | _ => []
  end.

(** The slices it writes to. *)
Definition plain_of (e : Enc) : option GoSlice :=
  match e_pc e with
  | PHeader _ plain | PBlock _ plain _ | PSeal _ plain | PPutPlain _ plain _ => Some plain
  | _ => None
  end.

Definition ms_of (e : Enc) : option GoSlice :=
  match e_pc e with
  | PMarshal ms _ _ | PGetPlain ms _ | PHeader ms _ | PBlock ms _ _ | PSeal ms _
  | PPutPlain ms _ _ | PPutMs ms _ => Some ms
  | _ => None
  end.

Definition holds_plain (e : Enc) : option nat := option_map s_arr (plain_of e).
Definition holds_ms (e : Enc) : option nat := option_map s_arr (ms_of e).

(** An array that belongs to the pool or to a call that took it from there. *)
Definition pooled (pool : list GoSlice) (held : list (option nat)) (a : nat) : Prop :=
  a ∈ map s_arr pool \/ Some a ∈ held.

Record Proc := mkProc { shared : Shared; encs : list Enc }.

Definition bytes_pooled (p : Proc) (a : nat) : Prop :=
  pooled (plainPool (shared p)) (map holds_plain (encs p)) a.

Inductive pstep : Proc -> Proc -> Prop :=
| ps_enc p k e ch spare w' e' :
    encs p !! k = Some e -> enc_step ch spare (shared p) e = (w', e') ->
    pstep p (mkProc w' (<[k := e']> (encs p)))
| ps_call p e :                  (* a call of EncodeBatch, with frames outside the pool *)
    e_pc e = PStart -> e_vals e = map (frame_of (bheap (shared p))) (e_frames e) ->
    Forall (fun f => slice_wf (bheap (shared p)) (mfPayload f) /\
      ((0 < s_len (mfPayload f))%nat -> ~ bytes_pooled p (s_arr (mfPayload f)))) (e_frames e) ->
    pstep p (mkProc (shared p) (encs p ++ [e]))
| ps_other p h :                 (* the rest of the process, which leaves frames in use alone *)
    (length (bheap (shared p)) <= length h)%nat ->
    (forall a, bytes_pooled p a -> array h a = array (bheap (shared p)) a) ->
    (forall e s, e ∈ encs p -> s ∈ reads (sheap (shared p)) e ->
       load h s = load (bheap (shared p)) s /\ slice_wf h s) ->
    pstep p (mkProc (mkShared h (sheap (shared p)) (plainPool (shared p)) (msPool (shared p))) (encs p))
| ps_gc p k k' :                 (* the garbage collector *)
    pstep p (mkProc (mkShared (bheap (shared p)) (sheap (shared p))
                      (delete k (plainPool (shared p))) (delete k' (msPool (shared p)))) (encs p)).

Definition proc_start : Proc := mkProc (mkShared [] [] [] []) [].

End Enc.

(** ** Invariants of a pool *)

Section PoolInv.
Context {A : Type}.

(** The arrays of the pool, and those that were taken from it, belong to one
    place each. *)
Record pool_inv (h : Heap A) (pool : list GoSlice) (held : list (option nat)) : Prop := {
  pl_nodup : NoDup (map s_arr pool);
  pl_wf : forall s, s ∈ pool -> slice_wf h s /\ s_len s = 0%nat /\ (s_arr s < length h)%nat;
  pl_held : forall k a, held !! k = Some (Some a) -> (a < length h)%nat /\ a ∉ map s_arr pool;
  pl_inj : forall k j a, held !! k = Some (Some a) -> held !! j = Some (Some a) -> k = j;
}.

(** The heap changed in the array [o] and by new arrays only. *)
Definition keeps (o : option nat) (h h' : Heap A) : Prop :=
  (length h <= length h')%nat /\
  forall s, slice_wf h s -> ((0 < s_len s)%nat -> o <> Some (s_arr s)) -> load h' s = load h s /\ slice_wf h' s.

Lemma keeps_refl o h : keeps o h h.
Proof. split; [done|]. auto. Qed.

Lemma keeps_alloc o h c : keeps o h (h ++ [c]).
Proof. split; [rewrite length_app; lia|]. intros s Hw _. by apply load_alloc. Qed.

Lemma keeps_append spare h h' s s' d :
  slice_wf h s -> append spare h s d = (h', s') -> keeps (Some (s_arr s)) h h'.
Proof.
  intros Hs Happ. split; [by eapply length_append|]. intros p Hp Hn.
  destruct (append_frame spare h h' s s' d p Hs Happ Hp) as (? & ? & _); [|done].
  intros Hl _ E. destruct (Hn Hl). by rewrite E.
Qed.

Lemma keeps_store h a i d :
  (i + length d <= length (array h a))%nat -> keeps (Some a) h (store h a i d).
Proof.
  intros Hd. split; [by rewrite length_store|]. intros s Hs Hn. apply load_store_before; [done|done|].
  intros Hl E. destruct (Hn Hl). by rewrite E.
Qed.

Lemma pool_inv_keeps o h h' pool held : keeps o h h' -> pool_inv h pool held -> pool_inv h' pool held.
Proof.
  intros [Hl Hk] [H1 H2 H3 H4]. constructor; [done| | |done].
  - intros s Hs. destruct (H2 s Hs) as (Hw & Hz & Hb). destruct (Hk s Hw) as [_ Hw']; [lia|]. split; [done|]. lia.
  - intros k a Ha. destruct (H3 k a Ha). split; [lia|done].
Qed.

(** A call takes an array that is new or nobody's. *)
Lemma pool_inv_take h pool held k a :
  pool_inv h pool held -> (a < length h)%nat -> a ∉ map s_arr pool -> (forall j, held !! j = Some (Some a) -> j = k) ->
  (k < length held)%nat -> pool_inv h pool (<[k := Some a]> held).
Proof.
  intros [H1 H2 H3 H4] Ha Hp Hj Hk. constructor; [done|done| |].
  - intros j b [[-> E]|[_ Hb]]%list_lookup_insert_Some; [by destruct E as [[= <-] _]|by apply (H3 j)].
  - intros i j b [[-> E]|[Hi Hb]]%list_lookup_insert_Some [[-> E']|[Hi' Hb']]%list_lookup_insert_Some; try done.
    + destruct E as [[= <-] _]. symmetry. by apply Hj.
    + destruct E' as [[= <-] _]. by apply Hj.
    + by apply (H4 i j b).
Qed.

Lemma pool_inv_drop h pool held k : pool_inv h pool held -> pool_inv h pool (<[k := None]> held).
Proof.
  intros [H1 H2 H3 H4]. constructor; [done|done| |].
  - intros j b [[_ [? _]]|[_ Hb]]%list_lookup_insert_Some; [done|by apply (H3 j)].
  - intros i j b [[_ [? _]]|[_ Hb]]%list_lookup_insert_Some; [done|].
    intros [[_ [? _]]|[_ Hb']]%list_lookup_insert_Some; [done|]. by apply (H4 i j b).
Qed.

Lemma pool_inv_delete h pool held k : pool_inv h pool held -> pool_inv h (delete k pool) held.
Proof.
  intros [H1 H2 H3 H4]. assert (Hs : delete k pool `sublist_of` pool) by apply sublist_delete.
  assert (Hm : map s_arr (delete k pool) `sublist_of` map s_arr pool).
  { clear. revert k. induction pool as [|s pool IH]; intros [|k]; cbn; [done..| |by constructor]. by constructor. }
  constructor; [by eapply sublist_NoDup| | |done].
  - intros s Hin. apply H2. by eapply elem_of_sublist.
  - intros j a Ha. destruct (H3 j a Ha) as [? Hn]. split; [done|]. intros Hin. apply Hn. by eapply elem_of_sublist.
Qed.

End PoolInv.

Section PoolOps.
Context {A : Type}.

(** An operation makes only new arrays part of the pool. *)
Definition grows (h : Heap A) (pool pool' : list GoSlice) (held held' : list (option nat)) : Prop :=
  forall a, pooled pool' held' a -> pooled pool held a \/ (length h <= a)%nat.

Lemma grows_insert (h : Heap A) pool held k o :
  (forall a, o = Some a -> pooled pool held a \/ (length h <= a)%nat) -> grows h pool pool held (<[k := o]> held).
Proof.
  intros Ho a [Ha|Ha]; [left; by left|]. apply list_elem_of_lookup in Ha as [j Hj].
  apply list_lookup_insert_Some in Hj as [[_ [E _]]|[_ Hj]]; [by apply Ho|].
  left; right. by eapply list_elem_of_lookup_2.
Qed.

Lemma grows_same (h : Heap A) pool held k o : held !! k = Some o -> grows h pool pool held (<[k := o]> held).
Proof. intros Hk. rewrite list_insert_id by done. intros a. by left. Qed.

Lemma held_pooled pool held k a : held !! k = Some (Some a) -> pooled pool held a.
Proof. intros. right. by eapply list_elem_of_lookup_2. Qed.

Lemma pool_inv_alloc (h : Heap A) pool held k c :
  pool_inv h pool held -> (k < length held)%nat ->
  pool_inv (h ++ [c]) pool (<[k := Some (length h)]> held)
  /\ grows h pool pool held (<[k := Some (length h)]> held).
Proof.
  intros Hi Hk. pose proof Hi as [H1 H2 H3 H4]. split.
  - apply pool_inv_take; [by eapply pool_inv_keeps; [apply (keeps_alloc None)|]|rewrite length_app; cbn; lia| | |done].
    + intros (s & E & Hs)%list_elem_of_fmap. destruct (H2 s Hs) as (_ & _ & Hb). lia.
    + intros j Hj. destruct (H3 j _ Hj). lia.
  - apply grows_insert. intros a [= <-]. by right.
Qed.

Lemma pool_inv_append spare (h h' : Heap A) pool held k s s' d :
  pool_inv h pool held -> held !! k = Some (Some (s_arr s)) -> slice_wf h s -> append spare h s d = (h', s') ->
  pool_inv h' pool (<[k := Some (s_arr s')]> held) /\ grows h pool pool held (<[k := Some (s_arr s')]> held).
Proof.
  intros Hi Hk Hs Happ. pose proof (lookup_lt_Some _ _ _ Hk).
  destruct (append_spec spare h h' s s' d Hs Happ) as (_ & _ & [(E & _)|(E & c & ->)]); rewrite E.
  - split; [|by apply grows_same]. rewrite list_insert_id by done.
    by eapply pool_inv_keeps; [eapply keeps_append|].
  - by apply pool_inv_alloc.
Qed.

Lemma pool_inv_put (h : Heap A) pool held k s :
  pool_inv h pool held -> held !! k = Some (Some (s_arr s)) -> slice_wf h s ->
  pool_inv h (pool_Put s pool) (<[k := None]> held) /\ grows h pool (pool_Put s pool) held (<[k := None]> held).
Proof.
  intros Hi Hk Hs. pose proof Hi as [H1 H2 H3 H4]. destruct (H3 k _ Hk) as [Hb Hn]. split.
  - constructor; cbn.
    + by constructor.
    + intros x [->|Hx]%elem_of_cons; [|by apply H2]. split; [by apply reslice_wf; [|lia]|]. cbn. done.
    + intros j a [[_ [? _]]|[Hj Ha]]%list_lookup_insert_Some; [done|]. destruct (H3 j a Ha) as [? Hp].
      split; [done|]. intros [->|?]%elem_of_cons; [|done]. apply Hj. by apply (H4 k j (s_arr s)).
    + apply (pool_inv_drop h pool held k Hi).
  - intros a [[->|Ha]%elem_of_cons|Ha].
    + left. by eapply held_pooled.
    + left. by left.
    + apply (grows_insert h pool held k None); [done|by right].
Qed.

Lemma pool_inv_get (h h' : Heap A) ch fresh pool pool' held k s :
  pool_inv h pool held -> (k < length held)%nat -> pool_Get ch fresh h pool = (h', pool', s) ->
  pool_inv h' pool' (<[k := Some (s_arr s)]> held) /\ grows h pool pool' held (<[k := Some (s_arr s)]> held)
  /\ slice_wf h' s /\ s_len s = 0%nat /\ (h' = h \/ h' = h ++ [fresh]).
Proof.
  intros Hi Hk Hg. pose proof Hi as [H1 H2 H3 H4].
  assert (Hnew : (h ++ [fresh], pool, mkSlice (length h) 0 0 (length fresh)) = (h', pool', s) ->
    pool_inv h' pool' (<[k := Some (s_arr s)]> held) /\ grows h pool pool' held (<[k := Some (s_arr s)]> held)
    /\ slice_wf h' s /\ s_len s = 0%nat /\ (h' = h \/ h' = h ++ [fresh])).
  { intros [= <- <- <-]. destruct (pool_inv_alloc h pool held k fresh Hi Hk) as [? ?].
    do 2 (split; [done|]). split; [|auto]. split; cbn; [lia|]. by rewrite array_alloc_new. }
  unfold pool_Get, alloc in Hg. destruct ch as [j|]; [|by apply Hnew].
  destruct (pool !! j) as [x|] eqn:Hj; [|by apply Hnew]. injection Hg as <- <- <-.
  assert (Hx : x ∈ pool) by by eapply list_elem_of_lookup_2.
  destruct (H2 x Hx) as (Hw & Hz & Hb). split; [|split; [|by auto]].
  - apply pool_inv_take; [by apply pool_inv_delete|done| | |done].
    + apply delete_Permutation in Hj. rewrite Hj in H1. cbn in H1. by apply NoDup_cons in H1 as [? _].
    + intros i Hh. destruct (H3 i _ Hh) as [_ []]. by apply list_elem_of_fmap_2.
  - intros a Ha. left. destruct Ha as [(y & -> & Hy)%list_elem_of_fmap|Ha].
    + left. apply list_elem_of_fmap_2. by eapply elem_of_sublist; [|apply sublist_delete].
    + apply list_elem_of_lookup in Ha as [i Hh]. apply list_lookup_insert_Some in Hh as [[_ [[= E] _]]|[_ Hh]].
      * left. rewrite <- E. by apply list_elem_of_fmap_2.
      * by eapply held_pooled.
Qed.

End PoolOps.

(** ** What a call has done so far *)

Section EncInv.
Context {L : CryptoLib}.

Definition enc_spec (e : Enc) : res batch_err bytes :=
  EncodeBatch (e_crypto e) (e_rand e) (e_clientID e) (e_vals e).

(** [ms] holds the marshalled frames [vals]. *)
Definition marshalled (w : Shared) (ms : GoSlice) (vals : list Frame) : Prop :=
  slice_wf (sheap w) ms /\ marshal_all vals = Ok (map (load (bheap w)) (load (sheap w) ms)).

(** The plaintext after [i] frames. *)
Definition plain_upto (e : Enc) (raws : list bytes) (i : nat) : bytes :=
  batch_plain (e_clientID e) (len (e_vals e)) (take i raws).

Definition enc_ok (w : Shared) (e : Enc) : Prop :=
  match e_pc e with
  | PStart => e_vals e = map (frame_of (bheap w)) (e_frames e)
  | PMarshal ms todo _ => len (e_vals e) <= 0xFFFF /\
      exists vd, e_vals e = vd ++ map (frame_of (bheap w)) todo /\ marshalled w ms vd
  | PGetPlain ms _ => len (e_vals e) <= 0xFFFF /\ marshalled w ms (e_vals e)
  | PHeader ms plain => len (e_vals e) <= 0xFFFF /\ marshalled w ms (e_vals e)
      /\ slice_wf (bheap w) plain /\ s_len plain = 0%nat
  | PBlock ms plain i => len (e_vals e) <= 0xFFFF /\ marshalled w ms (e_vals e)
      /\ slice_wf (bheap w) plain
      /\ load (bheap w) plain = plain_upto e (map (load (bheap w)) (load (sheap w) ms)) i
  | PSeal ms plain => len (e_vals e) <= 0xFFFF /\ marshalled w ms (e_vals e)
      /\ slice_wf (bheap w) plain
      /\ load (bheap w) plain = batch_plain (e_clientID e) (len (e_vals e)) (map (load (bheap w)) (load (sheap w) ms))
  | PPutPlain ms plain r => slice_wf (sheap w) ms /\ slice_wf (bheap w) plain /\ r = enc_spec e
  | PPutMs ms r => slice_wf (sheap w) ms /\ r = enc_spec e
  | PDone r => r = enc_spec e
  end.

(** It does not change when the slices of the call keep their elements. *)
Lemma enc_ok_keeps (w w' : Shared) (e : Enc) :
  (forall s, s ∈ reads (sheap w) e -> load (bheap w') s = load (bheap w) s) ->
  (forall s, plain_of e = Some s -> slice_wf (bheap w) s ->
     load (bheap w') s = load (bheap w) s /\ slice_wf (bheap w') s) ->
  (forall s, ms_of e = Some s -> slice_wf (sheap w) s ->
     load (sheap w') s = load (sheap w) s /\ slice_wf (sheap w') s) ->
  enc_ok w e -> enc_ok w' e /\ reads (sheap w') e = reads (sheap w) e.
Proof.
  intros Hr Hp Hm. unfold enc_ok, reads, marshalled in *.
  assert (Hf : forall fs : list MemFrame, (forall f, f ∈ fs -> load (bheap w') (mfPayload f) = load (bheap w) (mfPayload f)) ->
    map (frame_of (bheap w')) fs = map (frame_of (bheap w)) fs).
  { intros fs Hfs. apply map_ext_in. intros f Hin%list_elem_of_In. unfold frame_of. by rewrite Hfs. }
  assert (Hl : forall ss : list GoSlice, (forall s, s ∈ ss -> load (bheap w') s = load (bheap w) s) ->
    map (load (bheap w')) ss = map (load (bheap w)) ss).
  { intros ss Hss. apply map_ext_in. intros s Hin%list_elem_of_In. by apply Hss. }
  unfold plain_of, ms_of in *. destruct (e_pc e) as [|ms todo|ms|ms plain|ms plain i|ms plain|ms plain r|ms r|r].
  - intros E. rewrite Hf; [done|]. intros f Hin. apply Hr. by apply list_elem_of_fmap_2.
  - intros (Hn & vd & E & Hw & Hma). destruct (Hm ms eq_refl Hw) as [-> Hw']. split; [|done]. split; [done|].
    exists vd. rewrite Hf, Hl; [done| |].
    + intros s Hs. apply Hr. apply elem_of_app. by right.
    + intros f Hin. apply Hr. apply elem_of_app. left. by apply list_elem_of_fmap_2.
  - intros (Hn & Hw & Hma). destruct (Hm ms eq_refl Hw) as [-> Hw']. by rewrite Hl.
  - intros (Hn & [Hw Hma] & Hpw & Hz). destruct (Hm ms eq_refl Hw) as [-> Hw'].
    destruct (Hp plain eq_refl Hpw) as [_ ?]. by rewrite Hl.
  - intros (Hn & [Hw Hma] & Hpw & Hld). destruct (Hm ms eq_refl Hw) as [-> Hw'].
    destruct (Hp plain eq_refl Hpw) as [-> ?]. by rewrite Hl.
  - intros (Hn & [Hw Hma] & Hpw & Hld). destruct (Hm ms eq_refl Hw) as [-> Hw'].
    destruct (Hp plain eq_refl Hpw) as [-> ?]. by rewrite Hl.
  - intros (Hw & Hpw & E). destruct (Hm ms eq_refl Hw), (Hp plain eq_refl Hpw). done.
  - intros (Hw & E). by destruct (Hm ms eq_refl Hw).
  - done.
Qed.

(** ** One step *)

(** Call number [k] goes from [e] to [e']: the pools stay in order, and the heap
    changes in its arrays only. *)
Record enc_moves (w w' : Shared) (bh sh : list (option nat)) (k : nat) (e e' : Enc) : Prop := {
  em_b : pool_inv (bheap w') (plainPool w') (<[k := holds_plain e']> bh);
  em_gb : grows (bheap w) (plainPool w) (plainPool w') bh (<[k := holds_plain e']> bh);
  em_kb : keeps (holds_plain e) (bheap w) (bheap w');
  em_s : pool_inv (sheap w') (msPool w') (<[k := holds_ms e']> sh);
  em_ks : keeps (holds_ms e) (sheap w) (sheap w');
  em_r : forall s, s ∈ reads (sheap w') e' -> s ∈ reads (sheap w) e
    \/ (slice_wf (bheap w') s /\ ~ pooled (plainPool w') (<[k := holds_plain e']> bh) (s_arr s));
  em_ok : enc_ok w' e' /\ len (e_frames e') = len (e_vals e');
}.

(** The state before a step. *)
Record enc_pre (w : Shared) (bh sh : list (option nat)) (k : nat) (e : Enc) : Prop := {
  ep_b : pool_inv (bheap w) (plainPool w) bh;
  ep_s : pool_inv (sheap w) (msPool w) sh;
  ep_hb : bh !! k = Some (holds_plain e);
  ep_hs : sh !! k = Some (holds_ms e);
  ep_r : forall s, s ∈ reads (sheap w) e ->
    slice_wf (bheap w) s /\ ((0 < s_len s)%nat -> ~ pooled (plainPool w) bh (s_arr s));
  ep_ok : enc_ok w e;
  ep_len : len (e_frames e) = len (e_vals e);
}.

(** A read slice is not changed by a change of the held buffer. *)
Lemma read_keeps w bh sh k e (h : Heap byte) s :
  enc_pre w bh sh k e -> s ∈ reads (sheap w) e -> keeps (holds_plain e) (bheap w) h ->
  load h s = load (bheap w) s /\ slice_wf h s.
Proof.
  intros Hp Hs [_ Hk]. destruct (ep_r _ _ _ _ _ Hp s Hs) as [Hw Hn]. apply Hk; [done|].
  intros Hl E. destruct (Hn Hl). eapply (held_pooled _ _ k). by rewrite (ep_hb _ _ _ _ _ Hp), E.
Qed.

Lemma reads_keep w bh sh k e (h : Heap byte) ss :
  enc_pre w bh sh k e -> (forall s, s ∈ ss -> s ∈ reads (sheap w) e) -> keeps (holds_plain e) (bheap w) h ->
  map (load h) ss = map (load (bheap w)) ss.
Proof.
  intros Hp Hs Hk. apply map_ext_in. intros s Hin%list_elem_of_In.
  by destruct (read_keeps w bh sh k e h s Hp (Hs s Hin) Hk) as [-> _].
Qed.

(** A step that changes only the program counter, or only the bytes. *)
Lemma moves_same w bh sh k e e' :
  enc_pre w bh sh k e -> holds_plain e' = holds_plain e -> holds_ms e' = holds_ms e ->
  (forall s, s ∈ reads (sheap w) e' -> s ∈ reads (sheap w) e) ->
  enc_ok w e' -> len (e_frames e') = len (e_vals e') -> enc_moves w w bh sh k e e'.
Proof.
  intros [Hb Hs Hhb Hhs Hr Hok Hlen] Eb Es Hre Hok' Hl. rewrite <- Eb in Hhb. rewrite <- Es in Hhs.
  constructor; rewrite ?(list_insert_id bh), ?(list_insert_id sh) by done;
    auto using keeps_refl. intros a. by left.
Qed.

Lemma marshal_all_app vd vs raws :
  marshal_all vd = Ok raws -> marshal_all (vd ++ vs) = let! rest := marshal_all vs in Ok (raws ++ rest).
Proof.
  revert raws. induction vd as [|v vd IH]; intros raws; cbn [marshal_all app].
  { intros [= <-]. by destruct (marshal_all vs). }
  destruct (Marshal v) as [raw| |]; cbn; [|done|done].
  destruct (marshal_all vd) as [rs| |]; cbn; [|done|done]. intros [= <-].
  rewrite (IH rs eq_refl). by destruct (marshal_all vs).
Qed.

End EncInv.

Section EncSteps.
Context {L : CryptoLib}.

Lemma step_start ch spare w w' bh sh k e e' :
  enc_pre w bh sh k e -> e_pc e = PStart -> enc_step ch spare w e = (w', e') -> enc_moves w w' bh sh k e e'.
Proof.
  intros Hp Hpc. pose proof Hp as [Hb Hs Hhb Hhs Hr Hok Hlen]. unfold enc_step. rewrite Hpc.
  unfold enc_ok in Hok. rewrite Hpc in Hok. unfold holds_plain, plain_of in Hhb. unfold holds_ms, ms_of in Hhs.
  rewrite Hpc in Hhb, Hhs. cbn in Hhb, Hhs.
  destruct (Z.ltb_spec 0xFFFF (len (e_frames e))) as [Hn|Hn].
  { intros [= <- <-]. apply moves_same; cbn; try done; unfold holds_plain, plain_of, holds_ms, ms_of; rewrite ?Hpc; try done.
    - intros s Hx. by apply elem_of_nil in Hx.
    - unfold enc_ok. cbn. unfold enc_spec, EncodeBatch. cbn. by rewrite <- Hlen, (proj2 (Z.ltb_lt _ _)) by done. }
  destruct (pool_Get ch ms_new (sheap w) (msPool w)) as [[sh' pool] ms] eqn:Hg. intros [= <- <-].
  destruct (pool_inv_get _ _ _ _ _ _ _ k _ Hs (lookup_lt_Some _ _ _ Hhs) Hg) as (Hi & _ & Hw & Hz & Hext).
  constructor; cbn.
  - unfold holds_plain, plain_of. cbn. by rewrite list_insert_id.
  - by apply grows_same.
  - apply keeps_refl.
  - done.
  - destruct Hext as [->| ->]; [apply keeps_refl|apply keeps_alloc].
  - intros s Hx. left. unfold reads in *. rewrite Hpc. cbn in Hx. by rewrite load_empty, app_nil_r in Hx.
  - split; [|done]. unfold enc_ok. cbn. split; [lia|]. exists []. split; [done|]. split; [by apply reslice_wf; [|lia]|].
    cbn. by rewrite load_empty.
Qed.

Lemma step_marshal ch spare w w' bh sh k e e' ms todo size :
  enc_pre w bh sh k e -> e_pc e = PMarshal ms todo size -> enc_step ch spare w e = (w', e') ->
  enc_moves w w' bh sh k e e'.
Proof.
  intros Hp Hpc. pose proof Hp as [Hb Hs Hhb Hhs Hr Hok Hlen]. unfold enc_step. rewrite Hpc.
  unfold enc_ok in Hok. rewrite Hpc in Hok. destruct Hok as (Hn & vd & Ev & Hw & Hma).
  assert (Hh : holds_plain e = None /\ holds_ms e = Some (s_arr ms))
    by (unfold holds_plain, plain_of, holds_ms, ms_of; by rewrite Hpc). destruct Hh as [Eb Es].
  assert (Hre : reads (sheap w) e = map mfPayload todo ++ load (sheap w) ms) by (unfold reads; by rewrite Hpc).
  destruct todo as [|f todo].
  { intros [= <- <-]. rewrite app_nil_r in Ev. subst vd.
    apply moves_same; [done|by rewrite Eb|by rewrite Es|by rewrite Hre|done|done]. }
  assert (Hbad : forall r, Marshal (frame_of (bheap w) f) = r -> is_ok r = false ->
    enc_ok w (with_pc e (PPutMs ms (let! _ := res_map_err MarshalFrame r in Panic)))).
  { intros r Hr' Hbad. unfold enc_ok. cbn. split; [done|]. unfold enc_spec, EncodeBatch. cbn.
    rewrite (proj2 (Z.ltb_ge _ _)) by lia. rewrite Ev. cbn [map].
    rewrite (marshal_all_app vd _ _ Hma). cbn [marshal_all]. rewrite Hr'. by destruct r. }
  destruct (Marshal (frame_of (bheap w) f)) as [raw|er|] eqn:Hraw.
  2,3: intros [= <- <-]; apply moves_same; [done|by rewrite Eb|by rewrite Es|cbn; intros s Hx; by apply elem_of_nil in Hx
    |by specialize (Hbad _ eq_refl eq_refl)|done].
  cbn [alloc]. destruct (append [] (sheap w) ms [mkSlice (length (bheap w)) 0 (length raw) (length raw)]) as [sh' ms'] eqn:Happ.
  intros [= <- <-]. rewrite Es in Hhs. destruct (pool_inv_append [] _ sh' _ _ k ms ms' _ Hs Hhs Hw Happ) as [Hi _].
  destruct (append_spec [] _ sh' ms ms' _ Hw Happ) as (El & Hw' & _).
  pose proof (keeps_alloc (holds_plain e) (bheap w) raw) as Hk.
  assert (Hrk : forall ss : list GoSlice, (forall s, s ∈ ss -> s ∈ reads (sheap w) e) ->
    map (load (bheap w ++ [raw])) ss = map (load (bheap w)) ss) by (intros; by eapply reads_keep).
  constructor; cbn.
  - unfold holds_plain, plain_of. cbn. rewrite Eb in Hhb. rewrite list_insert_id by done.
    by eapply pool_inv_keeps; [apply (keeps_alloc None)|].
  - rewrite Eb in Hhb. by apply grows_same.
  - done.
  - done.
  - rewrite Es. by eapply keeps_append.
  - intros s Hx. rewrite Hre. unfold reads in Hx. cbn in Hx. rewrite El, !elem_of_app in Hx.
    destruct Hx as [Hx|[Hx|Hx%list_elem_of_singleton]]; [left; set_solver|left; set_solver|right]. subst s. split.
    + split; cbn; [lia|]. by rewrite array_alloc_new.
    + cbn. rewrite Eb in Hhb. unfold holds_plain, plain_of. cbn. rewrite list_insert_id by done.
      intros [(x & E & Hx)%list_elem_of_fmap|[j Hj]%list_elem_of_lookup].
      * destruct (pl_wf _ _ _ Hb x Hx) as (_ & _ & ?). lia.
      * destruct (pl_held _ _ _ Hb j _ Hj). lia.
  - split; [|done]. unfold enc_ok. cbn. split; [done|]. exists (vd ++ [frame_of (bheap w) f]). split.
    + rewrite Ev, <- app_assoc. cbn [map app]. do 2 f_equal. apply map_ext_in. intros g Hg%list_elem_of_In.
      unfold frame_of. f_equal. symmetry. apply (read_keeps w bh sh k e _ _ Hp); [|done]. rewrite Hre.
      apply elem_of_app. left. cbn. right. by apply list_elem_of_fmap_2.
    + split; [done|]. cbn. rewrite El, map_app, Hrk by (intros s ?; rewrite Hre; set_solver).
      rewrite (marshal_all_app vd _ _ Hma). cbn [marshal_all]. rewrite Hraw. cbn. do 2 f_equal.
      unfold load. cbn. by rewrite array_alloc_new, drop_0, firstn_all.
Qed.

(** The next bytes of the plaintext. *)
Lemma moves_append spare w (h' : Heap byte) bh sh k e e' plain plain' d :
  enc_pre w bh sh k e -> holds_plain e = Some (s_arr plain) -> slice_wf (bheap w) plain ->
  append spare (bheap w) plain d = (h', plain') ->
  let w' := mkShared h' (sheap w) (plainPool w) (msPool w) in
  holds_plain e' = Some (s_arr plain') -> holds_ms e' = holds_ms e ->
  (forall s, s ∈ reads (sheap w) e' -> s ∈ reads (sheap w) e) ->
  enc_ok w' e' -> len (e_frames e') = len (e_vals e') -> enc_moves w w' bh sh k e e'.
Proof.
  intros [Hb Hs Hhb Hhs Hr Hok Hlen] Eb Hw Happ w' Eb' Es Hre Hok' Hl. rewrite Eb in Hhb.
  destruct (pool_inv_append spare _ h' _ _ k plain plain' d Hb Hhb Hw Happ) as [Hi Hg].
  constructor; cbn; rewrite ?Eb', ?Es, ?(list_insert_id sh) by done; auto using keeps_refl.
  rewrite Eb. by eapply keeps_append.
Qed.

Lemma step_get_plain ch spare w w' bh sh k e e' ms size :
  enc_pre w bh sh k e -> e_pc e = PGetPlain ms size -> enc_step ch spare w e = (w', e') ->
  enc_moves w w' bh sh k e e'.
Proof.
  intros Hp Hpc. pose proof Hp as [Hb Hs Hhb Hhs Hr Hok Hlen]. unfold enc_step. rewrite Hpc.
  unfold enc_ok in Hok. rewrite Hpc in Hok. destruct Hok as (Hn & Hw & Hma).
  assert (Hh : holds_plain e = None /\ holds_ms e = Some (s_arr ms))
    by (unfold holds_plain, plain_of, holds_ms, ms_of; by rewrite Hpc). destruct Hh as [Eb Es].
  pose proof (lookup_lt_Some _ _ _ Hhb) as Hk.
  destruct (pool_Get ch plain_new (bheap w) (plainPool w)) as [[h pool] p0] eqn:Hg.
  destruct (pool_inv_get _ _ _ _ _ _ _ k _ Hb Hk Hg) as (Hi & Hgr & Hw0 & Hz & Hext).
  destruct (if Z.of_nat (s_cap p0) <? size then _ else _) as [h' plain] eqn:Hpl.
  assert (Hnew : slice_wf h' plain /\ s_len plain = 0%nat /\ keeps None (bheap w) h'
    /\ pool_inv h' pool (<[k := Some (s_arr plain)]> bh)
    /\ grows (bheap w) (plainPool w) pool bh (<[k := Some (s_arr plain)]> bh)).
  { assert (Hk0 : keeps None (bheap w) h) by (destruct Hext as [->| ->]; [apply keeps_refl|apply keeps_alloc]).
    destruct (_ <? size); unfold alloc in Hpl; injection Hpl as <- <-; cbn [s_len s_arr].
    - assert (Hkl : (k < length (<[k := Some (s_arr p0)]> bh))%nat) by by rewrite length_insert.
      destruct (pool_inv_alloc h pool _ k (repeat (z2b 0) (Z.to_nat size)) Hi Hkl) as [Hi2 Hg2].
      rewrite list_insert_insert_eq in Hi2, Hg2. split; [|split; [done|split; [|split; [done|]]]].
      + split; cbn; [lia|]. by rewrite array_alloc_new.
      + destruct Hk0 as [Hl0 Hk0]. split; [rewrite length_app; lia|]. intros s Hs0 Hn0.
        destruct (Hk0 s Hs0 Hn0) as [<- Hs1]. by apply load_alloc.
      + intros a Ha. destruct (Hg2 a Ha) as [Ha2|Ha2]; [by apply Hgr|]. right. destruct Hk0. lia.
    - split; [apply reslice_wf; [done|lia]|]. done. }
  destruct Hnew as (Hwp & Hzp & Hkp & Hip & Hgp). intros [= <- <-].
  assert (Hrk : map (load h') (load (sheap w) ms) = map (load (bheap w)) (load (sheap w) ms)).
  { apply (reads_keep w bh sh k e); [done|unfold reads; by rewrite Hpc|by rewrite Eb]. }
  constructor; cbn; [exact Hip|exact Hgp|rewrite Eb; exact Hkp| | | |].
  - unfold holds_ms, ms_of. cbn. rewrite Es in Hhs. by rewrite list_insert_id.
  - apply keeps_refl.
  - intros s Hx. left. unfold reads in *. by rewrite Hpc.
  - split; [|done]. unfold enc_ok, marshalled. cbn. by rewrite Hrk.
Qed.

Lemma step_header ch spare w w' bh sh k e e' ms plain :
  enc_pre w bh sh k e -> e_pc e = PHeader ms plain -> enc_step ch spare w e = (w', e') ->
  enc_moves w w' bh sh k e e'.
Proof.
  intros Hp Hpc. pose proof (ep_ok _ _ _ _ _ Hp) as Hok. unfold enc_step. rewrite Hpc.
  unfold enc_ok in Hok. rewrite Hpc in Hok. destruct Hok as (Hn & [Hw Hma] & Hwp & Hz).
  assert (Eb : holds_plain e = Some (s_arr plain)) by (unfold holds_plain, plain_of; by rewrite Hpc).
  destruct (append spare (bheap w) plain _) as [h' plain'] eqn:Happ. intros [= <- <-].
  destruct (append_spec spare _ h' plain plain' _ Hwp Happ) as (El & Hwp' & _).
  assert (Hrk : map (load h') (load (sheap w) ms) = map (load (bheap w)) (load (sheap w) ms)).
  { apply (reads_keep w bh sh k e); [done|unfold reads; by rewrite Hpc|rewrite Eb; by eapply keeps_append]. }
  eapply moves_append; [done|done|done|exact Happ|done| | | |apply (ep_len _ _ _ _ _ Hp)].
  - unfold holds_ms, ms_of. by rewrite Hpc.
  - unfold reads. by rewrite Hpc.
  - unfold enc_ok, marshalled. cbn [e_pc with_pc bheap sheap e_vals]. rewrite Hrk. split; [done|]. split; [done|]. split; [done|].
    rewrite El, load_empty by done. cbn [app]. unfold plain_upto, batch_plain.
    cbn [e_vals e_clientID with_pc]. rewrite <- (ep_len _ _ _ _ _ Hp), take_0. cbn [map concat]. by rewrite app_nil_r.
Qed.

Lemma step_block ch spare w w' bh sh k e e' ms plain i :
  enc_pre w bh sh k e -> e_pc e = PBlock ms plain i -> enc_step ch spare w e = (w', e') ->
  enc_moves w w' bh sh k e e'.
Proof.
  intros Hp Hpc. pose proof (ep_ok _ _ _ _ _ Hp) as Hok. unfold enc_step. rewrite Hpc.
  unfold enc_ok in Hok. rewrite Hpc in Hok. destruct Hok as (Hn & [Hw Hma] & Hwp & Hld).
  assert (Eb : holds_plain e = Some (s_arr plain)) by (unfold holds_plain, plain_of; by rewrite Hpc).
  assert (Es : forall e1, e_pc e1 = PSeal ms plain \/ (exists j p, e_pc e1 = PBlock ms p j) -> holds_ms e1 = holds_ms e
    /\ reads (sheap w) e1 = reads (sheap w) e).
  { intros e1 H1. unfold holds_ms, ms_of, reads. rewrite Hpc. by destruct H1 as [-> |(j & p & ->)]. }
  destruct (load (sheap w) ms !! i) as [raw|] eqn:Hraw.
  - destruct (append spare (bheap w) plain _) as [h' plain'] eqn:Happ. intros [= <- <-].
    destruct (append_spec spare _ h' plain plain' _ Hwp Happ) as (El & Hwp' & _).
    assert (Hrk : map (load h') (load (sheap w) ms) = map (load (bheap w)) (load (sheap w) ms)).
    { apply (reads_keep w bh sh k e); [done|unfold reads; by rewrite Hpc|rewrite Eb; by eapply keeps_append]. }
    destruct (Es (with_pc e (PBlock ms plain' (S i)))) as [Es1 Er1]; [right; eauto|].
    eapply moves_append; [done|done|done|exact Happ|done|done|by rewrite Er1| |apply (ep_len _ _ _ _ _ Hp)].
    unfold enc_ok, marshalled. cbn [e_pc with_pc bheap sheap e_vals]. rewrite Hrk. split; [done|]. split; [done|]. split; [done|].
    rewrite El, Hld. unfold plain_upto, batch_plain. cbn [e_clientID with_pc e_vals].
    assert (Ht : (map (load (bheap w)) (load (sheap w) ms)) !! i = Some (load (bheap w) raw)).
    { change (map ?f ?l) with (f <$> l). by rewrite list_lookup_fmap, Hraw. }
    rewrite (take_S_r _ _ _ Ht), map_app, concat_app. cbn. rewrite app_nil_r. by rewrite <- !app_assoc.
  - intros [= <- <-]. destruct (Es (with_pc e (PSeal ms plain))) as [Es1 Er1]; [by left|].
    apply moves_same; [done|by rewrite Eb|done|by rewrite Er1| |apply (ep_len _ _ _ _ _ Hp)].
    unfold enc_ok. cbn. split; [done|]. split; [done|]. split; [done|]. rewrite Hld. unfold plain_upto.
    rewrite take_ge; [done|]. rewrite length_map. by apply lookup_ge_None.
Qed.

End EncSteps.

(** ** Compressing, sealing and putting back *)

Section Seal.
Context {L : CryptoLib}.

Lemma store_head (h : Heap byte) s x b rest :
  slice_wf h s -> load h s = x :: rest ->
  load (store h (s_arr s) (s_off s) [b]) s = b :: rest
  /\ (s_off s + length [b] <= length (array h (s_arr s)))%nat.
Proof.
  intros Hw Hl. pose proof (f_equal length Hl) as Hn. rewrite length_load in Hn by done. cbn in Hn.
  destruct Hw as [Hlc Hc]. split; [|cbn; lia].
  unfold load in *. rewrite array_store by (apply array_bound; lia). rewrite decide_True by done.
  set (l := array h (s_arr s)) in *. destruct (s_len s) as [|n]; [lia|].
  destruct (drop (s_off s) l) as [|y r] eqn:Hd; [done|]. cbn in Hl. injection Hl as -> <-.
  unfold overwrite. rewrite drop_app_length' by (rewrite length_take; lia). cbn. f_equal.
  rewrite <- drop_drop, Hd. done.
Qed.

(** Writing to a new array does not change what there was. *)
Lemma keeps_fresh {A} o (h h1 : Heap A) a i d :
  keeps o h h1 -> (length h <= a)%nat -> (i + length d <= length (array h1 a))%nat -> keeps o h (store h1 a i d).
Proof.
  intros [Hl Hk] Ha Hd. split; [by rewrite length_store|]. intros s Hs Hn. destruct (Hk s Hs Hn) as [<- Hs1].
  apply load_store_before; [done|done|]. intros Hp E. pose proof (slice_bound h s Hs Hp). lia.
Qed.

Lemma mseal_input_spec spare (h h' : Heap byte) plain input rest :
  slice_wf h plain -> load h plain = z2b 0 :: rest -> mseal_input spare h plain = (h', input) ->
  load h' input = seal_input (load h plain) /\ keeps (Some (s_arr plain)) h h' /\ slice_wf h' plain.
Proof.
  intros Hw Hl. pose proof (f_equal length Hl) as Hn. rewrite length_load in Hn by done. cbn in Hn.
  assert (Hraw : load (store h (s_arr plain) (s_off plain) [batchFlagRaw]) plain
      = <[0%nat := batchFlagRaw]> (load h plain)
    /\ keeps (Some (s_arr plain)) h (store h (s_arr plain) (s_off plain) [batchFlagRaw])
    /\ slice_wf (store h (s_arr plain) (s_off plain) [batchFlagRaw]) plain).
  { destruct (store_head h plain _ batchFlagRaw rest Hw Hl) as [-> Hf]. rewrite Hl.
    split; [done|]. split; [by apply keeps_store|by apply store_wf]. }
  unfold mseal_input, seal_input. rewrite (len_load h plain Hw).
  destruct (compressMinSize <=? _); [|by intros [= <- <-]].
  assert (Hd : load h (reslice plain 1 (s_len plain)) = drop 1 (load h plain)) by apply load_suffix.
  rewrite Hd. assert (Hw1 : slice_wf h (reslice3 plain 0 1 1)).
  { destruct Hw. split; unfold reslice3; cbn; lia. }
  assert (Hl1 : load h (reslice3 plain 0 1 1) = [z2b 0]).
  { unfold load, reslice3 in *. cbn [s_arr s_off s_len s_cap]. rewrite Nat.add_0_r. rewrite Hn in Hl.
    destruct (drop (s_off plain) _); [done|]. cbn in Hl. by injection Hl as ->. }
  destruct (append spare h _ _) as [h1 cmp] eqn:Happ.
  destruct (append_spec spare h h1 _ cmp _ Hw1 Happ) as (El & Hwc & Hpos). rewrite Hl1 in El.
  assert (Hlen : len (z2b 0 :: zstd_EncodeAll (drop 1 (load h plain))) = Z.of_nat (s_len cmp)).
  { rewrite <- (len_load h1 cmp Hwc), El. done. }
  assert (Hh1 : (h1 = h /\ s_arr cmp = s_arr plain) \/ (s_arr cmp = length h /\ exists c, h1 = h ++ [c])).
  { revert Happ. unfold append. cbn [reslice3 s_len s_cap s_arr s_off]. case_bool; intros [= <- <-]; [left|right; eauto].
    destruct (zstd_EncodeAll _) as [|? ?]; [by rewrite store_nil|]. apply Nat.leb_le in Heqb. cbn in Heqb. lia. }
  assert (Hk : keeps (Some (s_arr plain)) h h1) by exact (keeps_append spare h h1 _ cmp _ Hw1 Happ).
  rewrite Hlen. destruct (_ <? _); intros [= <- <-].
  - destruct (store_head h1 cmp _ batchFlagZstd _ Hwc El) as [-> Hf]. split; [done|].
    destruct Hh1 as [[-> E]|[E [c ->]]].
    + split; [rewrite E in *; by apply keeps_store|by apply store_wf].
    + split; [by apply keeps_fresh; [|lia|]|]. apply store_wf; [done|]. by apply load_alloc.
  - assert (Hw2 : load h1 plain = load h plain /\ slice_wf h1 plain).
    { destruct Hh1 as [[-> _]|[_ [c ->]]]; [done|by apply load_alloc]. }
    destruct Hw2 as [E2 Hw2]. rewrite <- E2 in Hl.
    destruct (store_head h1 plain _ batchFlagRaw rest Hw2 Hl) as [-> Hf]. rewrite <- E2, Hl. split; [done|].
    split; [|by apply store_wf].
    destruct Hk as [Hlh Hk]. split; [by rewrite length_store|]. intros s Hs Hns. destruct (Hk s Hs Hns) as [<- Hs1].
    apply load_store_before; [done|done|]. intros Hp E. destruct (Hns Hp). by rewrite E.
Qed.

Lemma step_seal ch spare w w' bh sh k e e' ms plain :
  enc_pre w bh sh k e -> e_pc e = PSeal ms plain -> enc_step ch spare w e = (w', e') ->
  enc_moves w w' bh sh k e e'.
Proof.
  intros Hp Hpc. pose proof Hp as [Hb Hs Hhb Hhs Hr Hok Hlen]. unfold enc_step. rewrite Hpc.
  unfold enc_ok in Hok. rewrite Hpc in Hok. destruct Hok as (Hn & [Hw Hma] & Hwp & Hld).
  assert (Eb : holds_plain e = Some (s_arr plain)) by (unfold holds_plain, plain_of; by rewrite Hpc).
  assert (Es : holds_ms e = Some (s_arr ms)) by (unfold holds_ms, ms_of; by rewrite Hpc).
  destruct (mseal_input spare (bheap w) plain) as [h' input] eqn:Hse. intros [= <- <-].
  destruct (mseal_input_spec spare _ h' plain input _ Hwp Hld Hse) as (El & Hk & Hwp').
  rewrite Eb in Hhb. rewrite Es in Hhs.
  constructor; cbn; unfold holds_plain, holds_ms, plain_of, ms_of; cbn; rewrite ?list_insert_id by done.
  - by eapply pool_inv_keeps.
  - intros a. by left.
  - rewrite Hpc. exact Hk.
  - done.
  - apply keeps_refl.
  - intros s Hx. by apply elem_of_nil in Hx.
  - split; [|done]. unfold enc_ok. cbn. split; [done|]. split; [done|].
    unfold enc_spec, EncodeBatch. cbn. rewrite (proj2 (Z.ltb_ge _ _)) by lia. rewrite Hma. cbn [res_bind].
    by rewrite El, Hld.
Qed.

Lemma step_put ch spare w w' bh sh k e e' :
  enc_pre w bh sh k e -> (exists ms plain r, e_pc e = PPutPlain ms plain r) \/ (exists ms r, e_pc e = PPutMs ms r) ->
  enc_step ch spare w e = (w', e') -> enc_moves w w' bh sh k e e'.
Proof.
  intros Hp Hpc. pose proof Hp as [Hb Hs Hhb Hhs Hr Hok Hlen].
  unfold enc_step, enc_ok in *. destruct Hpc as [(ms & plain & r & Hpc)|(ms & r & Hpc)]; rewrite Hpc in *.
  - destruct Hok as (Hw & Hwp & Er). intros [= <- <-].
    unfold holds_plain, plain_of in Hhb. unfold holds_ms, ms_of in Hhs. rewrite Hpc in Hhb, Hhs. cbn in Hhb, Hhs.
    destruct (pool_inv_put _ _ _ k plain Hb Hhb Hwp) as [Hi Hg].
    constructor; cbn; unfold holds_plain, holds_ms, plain_of, ms_of; cbn; auto using keeps_refl.
    + by rewrite list_insert_id.
    + intros s Hx. by apply elem_of_nil in Hx.
  - destruct Hok as (Hw & Er). intros [= <- <-].
    unfold holds_plain, plain_of in Hhb. unfold holds_ms, ms_of in Hhs. rewrite Hpc in Hhb, Hhs. cbn in Hhb, Hhs.
    assert (Hks : keeps (Some (s_arr ms)) (sheap w)
      (store (sheap w) (s_arr ms) (s_off ms) (repeat nil_slice (s_len ms)))).
    { apply keeps_store. rewrite repeat_length. destruct Hw. lia. }
    constructor; cbn; unfold holds_plain, holds_ms, plain_of, ms_of; cbn; auto using keeps_refl.
    + by rewrite list_insert_id.
    + by apply grows_same.
    + eapply pool_inv_keeps; [exact Hks|]. by apply pool_inv_put.
    + by rewrite Hpc.
    + intros s Hx. by apply elem_of_nil in Hx.
Qed.

End Seal.

(** ** All the calls *)

Section Procs.
Context {L : CryptoLib}.

Lemma enc_step_moves ch spare w w' bh sh k e e' :
  enc_pre w bh sh k e -> enc_step ch spare w e = (w', e') -> enc_moves w w' bh sh k e e'.
Proof.
  intros Hp Hs. destruct (e_pc e) as [|ms todo size|ms size|ms plain|ms plain i|ms plain|ms plain r|ms r|r] eqn:Hpc.
  - by eapply step_start.
  - by eapply step_marshal.
  - by eapply step_get_plain.
  - by eapply step_header.
  - by eapply step_block.
  - by eapply step_seal.
  - eapply step_put; [done|left; eauto|done].
  - eapply step_put; [done|right; eauto|done].
  - unfold enc_step in Hs. rewrite Hpc in Hs. injection Hs as <- <-.
    apply moves_same; [done|done|done|done|apply (ep_ok _ _ _ _ _ Hp)|apply (ep_len _ _ _ _ _ Hp)].
Qed.

Lemma moves_pre w w' bh sh k e e' :
  enc_pre w bh sh k e -> enc_moves w w' bh sh k e e' ->
  enc_pre w' (<[k := holds_plain e']> bh) (<[k := holds_ms e']> sh) k e'.
Proof.
  intros Hp [Hb Hg Hk Hs Hks Hr [Hok Hl]]. constructor; [done|done| | | |done|done].
  - apply list_lookup_insert_eq. by eapply lookup_lt_Some, (ep_hb _ _ _ _ _ Hp).
  - apply list_lookup_insert_eq. by eapply lookup_lt_Some, (ep_hs _ _ _ _ _ Hp).
  - intros s Hx. destruct (Hr s Hx) as [Hx'|[Hw Hn]]; [|done].
    destruct (ep_r _ _ _ _ _ Hp s Hx') as [Hw Hn]. split; [by eapply (read_keeps w bh sh k e)|].
    intros Hl0 Hpo. destruct (Hg _ Hpo) as [Hpo'|Hge]; [by apply Hn|]. pose proof (slice_bound _ s Hw Hl0). lia.
Qed.

(** The other calls do not notice. *)
Lemma moves_other w w' bh sh k e e' j x :
  enc_pre w bh sh k e -> enc_moves w w' bh sh k e e' -> j <> k -> enc_pre w bh sh j x ->
  enc_pre w' (<[k := holds_plain e']> bh) (<[k := holds_ms e']> sh) j x.
Proof.
  intros Hp [Hb Hg Hk Hs Hks _ _] Hjk Hx.
  assert (Hrx : forall s, s ∈ reads (sheap w) x -> load (bheap w') s = load (bheap w) s /\ slice_wf (bheap w') s).
  { intros s Hin. destruct (ep_r _ _ _ _ _ Hx s Hin) as [Hw Hn]. apply (proj2 Hk); [done|]. intros Hl E.
    destruct (Hn Hl). apply (held_pooled _ _ k). by rewrite (ep_hb _ _ _ _ _ Hp), E. }
  destruct (enc_ok_keeps w w' x) as [Hok Hre]; [intros s Hin; by apply Hrx| | |apply (ep_ok _ _ _ _ _ Hx)|].
  { intros s Ho Hw. apply (proj2 Hk); [done|]. intros _ E. destruct Hjk.
    apply (pl_inj _ _ _ (ep_b _ _ _ _ _ Hp) j k (s_arr s)).
    - rewrite (ep_hb _ _ _ _ _ Hx). unfold holds_plain. by rewrite Ho.
    - by rewrite (ep_hb _ _ _ _ _ Hp), E. }
  { intros s Ho Hw. apply (proj2 Hks); [done|]. intros _ E. destruct Hjk.
    apply (pl_inj _ _ _ (ep_s _ _ _ _ _ Hp) j k (s_arr s)).
    - rewrite (ep_hs _ _ _ _ _ Hx). unfold holds_ms. by rewrite Ho.
    - by rewrite (ep_hs _ _ _ _ _ Hp), E. }
  constructor; [done|done| | | |done|apply (ep_len _ _ _ _ _ Hx)].
  - rewrite list_lookup_insert_ne by done. apply (ep_hb _ _ _ _ _ Hx).
  - rewrite list_lookup_insert_ne by done. apply (ep_hs _ _ _ _ _ Hx).
  - rewrite Hre. intros s Hin. destruct (ep_r _ _ _ _ _ Hx s Hin) as [Hw Hn]. split; [by apply Hrx|].
    intros Hl0 Hpo. destruct (Hg _ Hpo) as [Hpo'|Hge]; [by apply Hn|]. pose proof (slice_bound _ s Hw Hl0). lia.
Qed.

Record procs_inv (p : Proc) : Prop := {
  pi_b : pool_inv (bheap (shared p)) (plainPool (shared p)) (map holds_plain (encs p));
  pi_s : pool_inv (sheap (shared p)) (msPool (shared p)) (map holds_ms (encs p));
  pi_e : forall k e, encs p !! k = Some e ->
    enc_pre (shared p) (map holds_plain (encs p)) (map holds_ms (encs p)) k e;
}.

Lemma map_insert {A B} (f : A -> B) k x l : map f (<[k := x]> l) = <[k := f x]> (map f l).
Proof. exact (list_fmap_insert f l k x). Qed.

Lemma pstep_enc p k e ch spare w' e' :
  procs_inv p -> encs p !! k = Some e -> enc_step ch spare (shared p) e = (w', e') ->
  procs_inv (mkProc w' (<[k := e']> (encs p))).
Proof.
  intros [Hb Hs He] Hk Hst. pose proof (He k e Hk) as Hp. pose proof (enc_step_moves _ _ _ _ _ _ _ _ _ Hp Hst) as Hm.
  constructor; cbn; rewrite !map_insert; [apply Hm|apply Hm|].
  intros j x [[-> [<- _]]|[Hj Hx]]%list_lookup_insert_Some.
  - by eapply moves_pre.
  - eapply moves_other; [exact Hp|exact Hm|done|by apply He].
Qed.

Lemma pooled_snoc pool held a : pooled pool (held ++ [None]) a -> pooled pool held a.
Proof.
  intros [?|[?|?%list_elem_of_singleton]%elem_of_app]; [by left|by right|done].
Qed.

Lemma pool_inv_snoc {A} (h : Heap A) pool held : pool_inv h pool held -> pool_inv h pool (held ++ [None]).
Proof.
  intros [H1 H2 H3 H4].
  assert (Hs : forall k a, (held ++ [None]) !! k = Some (Some a) -> held !! k = Some (Some a)).
  { intros k a [?|[_ Hk]]%lookup_app_Some; [done|]. by destruct (k - length held)%nat as [|[|?]]. }
  constructor; [done|done| |].
  - intros k a Ha. by apply (H3 k), Hs.
  - intros k j a Hk Hj. apply (H4 k j a); by apply Hs.
Qed.

Lemma pstep_call p e :
  procs_inv p -> e_pc e = PStart -> e_vals e = map (frame_of (bheap (shared p))) (e_frames e) ->
  Forall (fun f => slice_wf (bheap (shared p)) (mfPayload f) /\
    ((0 < s_len (mfPayload f))%nat -> ~ bytes_pooled p (s_arr (mfPayload f)))) (e_frames e) ->
  procs_inv (mkProc (shared p) (encs p ++ [e])).
Proof.
  intros [Hb Hs He] Hpc Hv Hf.
  assert (Ep : holds_plain e = None) by (unfold holds_plain, plain_of; by rewrite Hpc).
  assert (Em : holds_ms e = None) by (unfold holds_ms, ms_of; by rewrite Hpc).
  constructor; cbn; rewrite !map_app; cbn; rewrite ?Ep, ?Em; [by apply pool_inv_snoc|by apply pool_inv_snoc|].
  intros k x [Hx|[Hl Hx]]%lookup_app_Some.
  - destruct (He k x Hx) as [_ _ Hhb Hhs Hr Hok Hlen]. constructor; auto using pool_inv_snoc.
    + by apply lookup_app_l_Some.
    + by apply lookup_app_l_Some.
    + intros s Hin. destruct (Hr s Hin) as [Hw Hn]. split; [done|]. intros H0 Hpo. by apply Hn, pooled_snoc.
  - destruct (k - length (encs p))%nat as [|?] eqn:Hkn; [|by destruct n]. injection Hx as <-.
    constructor; auto using pool_inv_snoc.
    + rewrite Ep, lookup_app_r by (rewrite length_map; lia). by rewrite length_map, Hkn.
    + rewrite Em, lookup_app_r by (rewrite length_map; lia). by rewrite length_map, Hkn.
    + intros s Hin. unfold reads in Hin. rewrite Hpc in Hin. apply list_elem_of_fmap in Hin as (f & -> & Hin).
      rewrite Forall_forall in Hf. destruct (Hf f Hin) as [Hw Hn]. split; [done|]. intros H0 Hpo. by apply Hn, pooled_snoc.
    + unfold enc_ok. by rewrite Hpc.
    + rewrite Hv. by rewrite len_map.
Qed.

Lemma pstep_other p h :
  procs_inv p -> (length (bheap (shared p)) <= length h)%nat ->
  (forall a, bytes_pooled p a -> array h a = array (bheap (shared p)) a) ->
  (forall e s, e ∈ encs p -> s ∈ reads (sheap (shared p)) e ->
     load h s = load (bheap (shared p)) s /\ slice_wf h s) ->
  procs_inv (mkProc (mkShared h (sheap (shared p)) (plainPool (shared p)) (msPool (shared p))) (encs p)).
Proof.
  intros [Hb Hs He] Hl Ha Hr.
  assert (Hsame : forall s, bytes_pooled p (s_arr s) -> load h s = load (bheap (shared p)) s
    /\ (slice_wf (bheap (shared p)) s -> slice_wf h s)).
  { intros s Hp. apply load_same. by apply Ha. }
  assert (Hb' : pool_inv h (plainPool (shared p)) (map holds_plain (encs p))).
  { destruct Hb as [H1 H2 H3 H4]. constructor; [done| | |done].
    - intros s Hin. destruct (H2 s Hin) as (Hw & Hz & Hbd). split; [|split; [done|lia]]. apply Hsame; [|done].
      left. by apply list_elem_of_fmap_2.
    - intros k a Hk. destruct (H3 k a Hk). split; [lia|done]. }
  constructor; cbn; [done|done|]. intros k e Hk. destruct (He k e Hk) as [_ _ Hhb Hhs Hre Hok Hlen].
  assert (Hin : e ∈ encs p) by by eapply list_elem_of_lookup_2.
  destruct (enc_ok_keeps (shared p) (mkShared h (sheap (shared p)) (plainPool (shared p)) (msPool (shared p))) e)
    as [Hok' Hre']; [intros s Hx; by apply (Hr e)| |done|done|].
  - intros s Ho Hw. destruct (Hsame s) as [? Hw']; [|auto]. apply (held_pooled _ _ k). rewrite Hhb.
    unfold holds_plain. by rewrite Ho.
  - constructor; cbn; try done. intros s Hx. destruct (Hre s Hx) as [_ Hn]. split; [|done]. by apply (Hr e).
Qed.

Lemma pstep_gc p k k' :
  procs_inv p ->
  procs_inv (mkProc (mkShared (bheap (shared p)) (sheap (shared p))
                      (delete k (plainPool (shared p))) (delete k' (msPool (shared p)))) (encs p)).
Proof.
  intros [Hb Hs He]. constructor; cbn; [by apply pool_inv_delete|by apply pool_inv_delete|].
  intros j e Hj. destruct (He j e Hj) as [_ _ Hhb Hhs Hre Hok Hlen].
  constructor; cbn; auto using pool_inv_delete. intros s Hx. destruct (Hre s Hx) as [Hw Hn]. split; [done|].
  intros H0 [(x & E & Hin)%list_elem_of_fmap|?]; apply (Hn H0); [left|by right]. rewrite E.
  apply list_elem_of_fmap_2. by eapply elem_of_sublist; [|apply sublist_delete].
Qed.

Lemma pstep_inv p p' : pstep p p' -> procs_inv p -> procs_inv p'.
Proof.
  intros [p0 k e ch spare w' e' Hk Hs|p0 e Hpc Hv Hf|p0 h Hl Ha Hr|p0 k k'] Hi.
  - by eapply pstep_enc.
  - by apply pstep_call.
  - by apply pstep_other.
  - by apply pstep_gc.
Qed.

Lemma proc_start_inv : procs_inv proc_start.
Proof.
  assert (Hi : forall A, @pool_inv A [] [] []).
  { intros A. constructor; [constructor| | |]; [intros s Hs; by apply elem_of_nil in Hs| |]; intros k; by destruct k. }
  constructor; cbn; [apply Hi|apply Hi|]. intros k e. by destruct k.
Qed.

Lemma psteps_inv p : rtc pstep proc_start p -> procs_inv p.
Proof.
  enough (forall q, rtc pstep q p -> procs_inv q -> procs_inv p) by (intros; eapply H; [done|apply proc_start_inv]).
  intros q. induction 1 as [|q r p Hqr _ IH]; [done|]. intros Hq. by apply IH, (pstep_inv q).
Qed.

End Procs.

(** ** Every call returns, and with the right batch *)

Section Results.
Context {L : CryptoLib}.

(** The steps a call has still to make. *)
Definition steps_left (sh : Heap GoSlice) (e : Enc) : nat :=
  match e_pc e with
  | PStart => 2 * length (e_frames e) + 8
  | PMarshal ms todo _ => 2 * length todo + length (load sh ms) + 7
  | PGetPlain ms _ => length (load sh ms) + 6
  | PHeader ms _ => length (load sh ms) + 5
  | PBlock ms _ i => (length (load sh ms) - i) + 4
  | PSeal _ _ => 3
  | PPutPlain _ _ _ => 2
  | PPutMs _ _ => 1
  | PDone _ => 0
  end.

Lemma enc_step_left ch spare w w' bh sh k e e' :
  enc_pre w bh sh k e -> enc_step ch spare w e = (w', e') ->
  (exists pc, e' = with_pc e pc)
  /\ (steps_left (sheap w) e <> 0%nat -> (steps_left (sheap w') e' < steps_left (sheap w) e)%nat).
Proof.
  intros Hp. pose proof (ep_ok _ _ _ _ _ Hp) as Hok. unfold enc_step, enc_ok in *.
  destruct e as [c rd id fs vals pc]. cbn [e_pc e_frames e_vals e_crypto e_rand e_clientID with_pc] in *.
  destruct pc as [|ms [|f todo] size|ms size|ms plain|ms plain i|ms plain|ms plain r|ms r|r].
  - case_bool; [intros [= <- <-]; split; [by eexists|cbn; lia]|].
    destruct (pool_Get ch ms_new (sheap w) (msPool w)) as [[sh' pool] ms]. intros [= <- <-]. split; [by eexists|].
    unfold steps_left. cbn [e_pc e_frames sheap with_pc]. rewrite load_empty by done. cbn. lia.
  - intros [= <- <-]. split; [by eexists|]. unfold steps_left. cbn. lia.
  - destruct Hok as (_ & vd & _ & Hw & _). destruct (Marshal _); [|intros [= <- <-]; split; [by eexists|unfold steps_left; cbn; lia]..].
    cbn [alloc]. destruct (append _ _ _ _) as [sh' ms'] eqn:Happ. intros [= <- <-]. split; [by eexists|].
    destruct (append_spec _ _ _ _ _ _ Hw Happ) as (El & _). unfold steps_left. cbn [e_pc e_frames sheap with_pc].
    rewrite El, length_app. cbn. lia.
  - destruct (pool_Get ch plain_new (bheap w) (plainPool w)) as [[h pool] plain].
    destruct (if _ : bool then _ else _) as [h' plain']. intros [= <- <-]. split; [by eexists|]. unfold steps_left. cbn. lia.
  - destruct (append _ _ _ _) as [h' plain']. intros [= <- <-]. split; [by eexists|]. unfold steps_left. cbn. lia.
  - destruct (load (sheap w) ms !! i) eqn:Hi.
    + destruct (append _ _ _ _) as [h' plain']. intros [= <- <-]. split; [by eexists|]. apply lookup_lt_Some in Hi.
      unfold steps_left. cbn. lia.
    + intros [= <- <-]. split; [by eexists|]. unfold steps_left. cbn. lia.
  - destruct (mseal_input _ _ _) as [h' input]. intros [= <- <-]. split; [by eexists|]. unfold steps_left. cbn. lia.
  - intros [= <- <-]. split; [by eexists|]. unfold steps_left. cbn. lia.
  - intros [= <- <-]. split; [by eexists|]. unfold steps_left. cbn. lia.
  - intros [= <- <-]. split; [by eexists|]. done.
Qed.

Lemma steps_left_done w bh sh k e :
  enc_pre w bh sh k e -> steps_left (sheap w) e = 0%nat -> e = with_pc e (PDone (enc_spec e)).
Proof.
  intros Hp. pose proof (ep_ok _ _ _ _ _ Hp) as Hok. unfold enc_ok in Hok. unfold steps_left.
  destruct e as [c rd id fs vals pc]. cbn in *. destruct pc; try lia. intros _. by rewrite Hok.
Qed.

Lemma call_ends (n : nat) p k e :
  procs_inv p -> encs p !! k = Some e -> (steps_left (sheap (shared p)) e <= n)%nat ->
  exists p', rtc pstep p p' /\ encs p' !! k = Some (with_pc e (PDone (enc_spec e))).
Proof.
  revert p e. induction n as [|n IH]; intros p e Hi Hk Hn.
  - exists p. split; [done|]. rewrite Hk. f_equal. eapply steps_left_done; [by apply (pi_e _ Hi)|lia].
  - destruct (enc_step None [] (shared p) e) as [w' e'] eqn:Hs.
    destruct (enc_step_left _ _ _ _ _ _ _ _ _ (pi_e _ Hi k e Hk) Hs) as [[pc ->] Hlt].
    destruct (decide (steps_left (sheap (shared p)) e = 0%nat)) as [Hz|Hz].
    { exists p. split; [done|]. rewrite Hk. f_equal. eapply steps_left_done; [by apply (pi_e _ Hi)|done]. }
    set (q := mkProc w' (<[k := with_pc e pc]> (encs p))).
    assert (Hq : encs q !! k = Some (with_pc e pc)).
    { apply list_lookup_insert_eq. by eapply lookup_lt_Some. }
    destruct (IH q (with_pc e pc)) as (p' & Hr & Hk'); [by eapply pstep_enc|done|cbn; specialize (Hlt Hz); lia|].
    exists p'. split; [|done]. eapply rtc_l; [by eapply ps_enc|done].
Qed.

(** C8: the pools do not show.  However the calls of [EncodeBatch] of all
    goroutines are interleaved with each other, with the collector and with
    whatever else writes to memory that is not theirs, a call that has returned
    has returned what the function on values gives for the frames it was called
    with; and a call that has not returned yet returns if it is given
    processor time, with that result. *)
Theorem pooled_encode (p : Proc) (k : nat) (e : Enc) :
  rtc pstep proc_start p -> encs p !! k = Some e ->
  let result := EncodeBatch (e_crypto e) (e_rand e) (e_clientID e) (e_vals e) in
  (forall r, e_pc e = PDone r -> r = result)
  /\ exists p', rtc pstep p p' /\ encs p' !! k = Some (with_pc e (PDone result)).
Proof.
  intros Hr Hk result. pose proof (psteps_inv p Hr) as Hi. split.
  - intros r Hd. pose proof (ep_ok _ _ _ _ _ (pi_e _ Hi k e Hk)) as Hok. unfold enc_ok in Hok. by rewrite Hd in Hok.
  - by eapply call_ends.
Qed.

End Results.

(** Two calls with frames in one array, the first of which was preempted when it
    had taken a buffer. *)
Definition demo_heap : Heap byte := [str "hello world"].
Definition demo_enc (off n : nat) : Enc :=
  let fs := [mkMemFrame (str "session-00000001") (Z.of_nat off) 0 [] (mkSlice 0 off n (11 - off))] in
  mkEnc test_crypto (Some test_nonce) test_client fs (map (frame_of demo_heap) fs) PStart.
Definition demo_proc : Proc :=
  mkProc (mkShared demo_heap [] [] []) [demo_enc 0 5; demo_enc 6 5].

Lemma demo_proc_reachable : rtc pstep proc_start demo_proc.
Proof.
  assert (Hc : forall es off n, (off + n <= 11)%nat -> Forall (fun e => e_pc e = PStart) es ->
    pstep (mkProc (mkShared demo_heap [] [] []) es) (mkProc (mkShared demo_heap [] [] []) (es ++ [demo_enc off n]))).
  { intros es off n Hb Hes. apply (ps_call (mkProc _ es)); [done|done|]. constructor; [|done].
    assert (Hw : slice_wf demo_heap (mkSlice 0 off n (11 - off))).
    { unfold slice_wf. cbn [s_len s_cap s_off s_arr]. change (length (array demo_heap 0)) with 11%nat. lia. }
    split; [exact Hw|]. intros _ [Hin|Hin]; [by apply elem_of_nil in Hin|].
    apply list_elem_of_fmap in Hin as (e & E & Hin). rewrite Forall_forall in Hes. specialize (Hes e Hin).
    unfold holds_plain, plain_of in E. by rewrite Hes in E. }
  eapply rtc_l; [|eapply rtc_l; [|eapply rtc_l; [|apply rtc_refl]]].
  - apply (ps_other proc_start demo_heap); cbn; [lia| |].
    + intros a [Hin|Hin]; by apply elem_of_nil in Hin.
    + intros e s Hin. by apply elem_of_nil in Hin.
  - apply (Hc [] 0%nat 5%nat); [lia|done].
  - apply (Hc [demo_enc 0 5] 6%nat 5%nat); [lia|by constructor].
Qed.

Lemma pooled_encode_witness :
  exists p' body, rtc pstep demo_proc p'
  /\ encs p' !! 1%nat = Some (with_pc (demo_enc 6 5) (PDone (Ok body)))
  /\ DecodeBatch test_crypto body
     = Ok (test_client, [mkFrame (str "session-00000001") 6 0 [] (str "world")]).
Proof.
  destruct (pooled_encode demo_proc 1 (demo_enc 6 5) demo_proc_reachable eq_refl) as [_ (p' & Hr & Hk)].
  destruct (EncodeBatch (e_crypto (demo_enc 6 5)) (e_rand (demo_enc 6 5)) (e_clientID (demo_enc 6 5))
    (e_vals (demo_enc 6 5))) as [body| |] eqn:E; [|vm_compute in E; discriminate..].
  exists p', body. split; [done|]. split; [done|]. vm_compute in E. injection E as <-. vm_compute. reflexivity.
Defined.
