(* ===== verification/Endpoints.v ===== *)
(** * internal/carrier/client.go, quota.go, stats.go: the relay endpoints

    The list of relay deployments the client rotates over: which one a poll
    uses, how failures take a deployment out of rotation and for how long, and
    the per-day counters.  [Endpoints] is the part of [Client] that
    [endpointMu] protects; each operation is one critical section.  The clock
    and the time zone (the local midnight that starts the day of an instant)
    are arguments. *)

From S2P Require Import Prelude GoStd Session.

(** [t.After(u)] and [t.Before(u)]. *)
Definition After (t u : Z) : bool := u <? t.
Definition Before (t u : Z) : bool := t <? u.

Definition endpointBlacklistBaseTTL : Z := 3 * Second.
Definition endpointBlacklistMaxTTL : Z := 1 * Hour.

Record relayEndpoint := mkEp {
  url : bytes;
  account : bytes;
  blacklistedTill : Z;
  failCount : Z;
  statsOK : Z;
  statsFail : Z;
  dailyCount : Z;
  dailyResetAt : Z;
  scriptCount : Z;
  scriptCountAt : Z;
  scriptStatsErrLogged : bool;
}.

Definition new_endpoint (u a : bytes) : relayEndpoint := mkEp u a 0 0 0 0 0 0 0 0 false.

Record Endpoints := mkEps {
  endpoints : list relayEndpoint;
  nextEndpoint : Z;
}.

(** [if endpointIdx < 0 || endpointIdx >= len(c.endpoints) { return }] and an
    update of [&c.endpoints[endpointIdx]]. *)
Definition update_ep (idx : Z) (f : relayEndpoint -> relayEndpoint) (s : Endpoints) : Endpoints :=
  if (idx <? 0) || (len (endpoints s) <=? idx) then s
  else mkEps (alter f (Z.to_nat idx) (endpoints s)) (nextEndpoint s).

(** ** Choosing an endpoint *)

(** The loop over [i] of [pickRelayEndpoint]; [k] rounds are left. *)
Fixpoint pick_scan (eps : list relayEndpoint) (now start : Z) (k : nat) (i : Z) : option (Z * bytes) :=
  match k with
  | O => None
  | S k =>
      let idx := (start + i) mod len eps in
      match eps !! Z.to_nat idx with
      | Some ep => if After (blacklistedTill ep) now then pick_scan eps now start k (i + 1)
                   else Some (idx, url ep)
      | None => None
      end
  end.

(** The endpoint that frees up soonest: [i] is the index of the head. *)
Fixpoint pick_soonest (eps : list relayEndpoint) (i chosen soonest : Z) : Z :=
  match eps with
  | [] => chosen
  | ep :: rest =>
      if Before (blacklistedTill ep) soonest
      then pick_soonest rest (i + 1) i (blacklistedTill ep)
      else pick_soonest rest (i + 1) chosen soonest
  end.

Definition pickRelayEndpoint (now : Z) (s : Endpoints) : Endpoints * (Z * bytes) :=
  let eps := endpoints s in
  match eps with
  | [] => (s, (-1, []))
  | ep0 :: rest =>
      let n := len eps in
      let start := nextEndpoint s mod n in
      match pick_scan eps now start (length eps) 0 with
      | Some (idx, u) => (mkEps eps ((idx + 1) mod n), (idx, u))
      | None =>
          let chosen := pick_soonest rest 1 0 (blacklistedTill ep0) in
          (mkEps eps ((chosen + 1) mod n),
           (chosen, from_option url [] (eps !! Z.to_nat chosen)))
      end
  end.

(** ** Success and failure *)

Definition endpointBlacklistTTL (failCount : Z) : Z :=
  if failCount <=? 0 then 0 else
  if failCount <=? 5 then Z.shiftl endpointBlacklistBaseTTL (failCount - 1) else
  if failCount =? 6 then 5 * Minute else
  if failCount =? 7 then 30 * Minute else
  endpointBlacklistMaxTTL.

Definition ep_success (ep : relayEndpoint) : relayEndpoint :=
  mkEp (url ep) (account ep) 0 0 (u64 (statsOK ep + 1)) (statsFail ep)
       (dailyCount ep) (dailyResetAt ep) (scriptCount ep) (scriptCountAt ep)
       (scriptStatsErrLogged ep).

Definition markEndpointSuccess (idx : Z) (s : Endpoints) : Endpoints :=
  update_ep idx ep_success s.

Definition ep_failure (now minFailCount : Z) (ep : relayEndpoint) : relayEndpoint :=
  let fc := if (0 <? minFailCount) && (failCount ep <? minFailCount)
            then minFailCount else failCount ep in
  let fc := fc + 1 in
  mkEp (url ep) (account ep) (now + endpointBlacklistTTL fc) fc (statsOK ep)
       (u64 (statsFail ep + 1)) (dailyCount ep) (dailyResetAt ep) (scriptCount ep)
       (scriptCountAt ep) (scriptStatsErrLogged ep).

Definition markEndpointFailureWith (now idx minFailCount : Z) (s : Endpoints) : Endpoints :=
  update_ep idx (ep_failure now minFailCount) s.

Definition markEndpointFailure (now idx : Z) := markEndpointFailureWith now idx 0.
Definition markEndpoint403 (now idx : Z) := markEndpointFailureWith now idx 5.
Definition markEndpoint429 (now idx : Z) := markEndpointFailureWith now idx 3.
Definition markEndpointHardFailure (now idx : Z) := markEndpointFailureWith now idx 5.

(** [c.endpointHealthCounts()] *)
Definition endpointHealthCounts (now : Z) (s : Endpoints) : Z * Z :=
  (len (filter (fun ep => After (blacklistedTill ep) now = false) (endpoints s)),
   len (endpoints s)).

(** ** The daily quota window *)

Section Quota.
(** The instant at which the local day of an instant began, in the time zone of
    [quotaResetTZ]: [time.Date(y, m, d, 0, 0, 0, 0, quotaResetTZ)] of its date. *)
Context (startOfDay : Z -> Z).

Definition nextQuotaReset (now : Z) : Z :=
  let midnight := startOfDay now in
  if negb (After midnight now) then midnight + 24 * Hour else midnight.

Definition touchDailyWindow (now : Z) (ep : relayEndpoint) : relayEndpoint * bool :=
  if IsZero (dailyResetAt ep) then
    (mkEp (url ep) (account ep) (blacklistedTill ep) (failCount ep) (statsOK ep)
          (statsFail ep) (dailyCount ep) (nextQuotaReset now) (scriptCount ep)
          (scriptCountAt ep) (scriptStatsErrLogged ep), false)
  else if Before now (dailyResetAt ep) then (ep, false)
  else
    (mkEp (url ep) (account ep) (blacklistedTill ep) (failCount ep) (statsOK ep)
          (statsFail ep) 0 (nextQuotaReset now) (scriptCount ep)
          (scriptCountAt ep) (scriptStatsErrLogged ep), true).

Definition ep_bump (now : Z) (ep : relayEndpoint) : relayEndpoint :=
  let ep := fst (touchDailyWindow now ep) in
  mkEp (url ep) (account ep) (blacklistedTill ep) (failCount ep) (statsOK ep)
       (statsFail ep) (u64 (dailyCount ep + 1)) (dailyResetAt ep) (scriptCount ep)
       (scriptCountAt ep) (scriptStatsErrLogged ep).

Definition bumpDailyCount (now idx : Z) (s : Endpoints) : Endpoints :=
  update_ep idx (ep_bump now) s.

End Quota.

(** ** The counts the scripts report *)

Record scriptStatsResponse := mkStats {
  stats_OK : bool;
  stats_Date : bytes;
  stats_Count : Z;
  stats_Version : Z;
  stats_Protocol : Z;
}.

Definition ep_script_stats (now : Z) (st : scriptStatsResponse) (ep : relayEndpoint) : relayEndpoint :=
  mkEp (url ep) (account ep) (blacklistedTill ep) (failCount ep) (statsOK ep)
       (statsFail ep) (dailyCount ep) (dailyResetAt ep) (u64 (stats_Count st)) now false.

Definition ep_err_logged (ep : relayEndpoint) : relayEndpoint :=
  mkEp (url ep) (account ep) (blacklistedTill ep) (failCount ep) (statsOK ep)
       (statsFail ep) (dailyCount ep) (dailyResetAt ep) (scriptCount ep)
       (scriptCountAt ep) true.

(** The state after it, and whether a warning is logged. *)
Definition logScriptStatsParseErrorOnce (idx : Z) (s : Endpoints) : Endpoints * bool :=
  if (idx <? 0) || (len (endpoints s) <=? idx) then (s, false) else
  match endpoints s !! Z.to_nat idx with
  | Some ep => if scriptStatsErrLogged ep then (s, false) else (update_ep idx ep_err_logged s, true)
  | None => (s, false)
  end.

Section ScriptStats.
(** [json.Unmarshal] into a [scriptStatsResponse]. *)
Context (json_stats : bytes -> option scriptStatsResponse).

Definition recordScriptStatsFromBody (now idx : Z) (body : bytes) (s : Endpoints) : Endpoints :=
  match json_stats (TrimSpace body) with
  | Some st => if stats_OK st then update_ep idx (ep_script_stats now st) s
               else fst (logScriptStatsParseErrorOnce idx s)
  | None => fst (logScriptStatsParseErrorOnce idx s)
  end.

(** The outcome of the GET: no response, a response whose body cannot be read,
    or a status and the first 4 KB of the body. *)
Inductive stats_get :=
| GetFailed
| GetUnreadable
| GetOK (status : Z) (body : bytes).

Definition fetchScriptStats (startOfDay : Z -> Z) (now idx : Z) (g : stats_get) (s : Endpoints) : Endpoints :=
  match g with
  | GetFailed => s
  | GetUnreadable => bumpDailyCount startOfDay now idx s
  | GetOK status body =>
      let s := bumpDailyCount startOfDay now idx s in
      if status =? 200 then recordScriptStatsFromBody now idx body s else s
  end.

(** [pollScriptStats]: every endpoint in order, [gets] being what each GET
    returns. *)
Fixpoint pollScriptStats (startOfDay : Z -> Z) (now idx : Z) (gets : list stats_get) (s : Endpoints) : Endpoints :=
  match gets with
  | [] => s
  | g :: gets => pollScriptStats startOfDay now (idx + 1) gets (fetchScriptStats startOfDay now idx g s)
  end.
End ScriptStats.

(** ** Lemmas *)

Lemma update_ep_in (idx : nat) f s ep :
  endpoints s !! idx = Some ep ->
  endpoints (update_ep (Z.of_nat idx) f s) = <[idx := f ep]> (endpoints s)
  /\ nextEndpoint (update_ep (Z.of_nat idx) f s) = nextEndpoint s.
Proof.
  intros Hl. pose proof (lookup_lt_Some _ _ _ Hl). unfold update_ep, len.
  rewrite (proj2 (Z.ltb_ge _ _)), (proj2 (Z.leb_gt _ _)) by lia. cbn.
  rewrite Nat2Z.id. split; [|done]. apply list_eq. intros j.
  rewrite list_lookup_alter, list_lookup_insert.
  destruct (decide (idx = j)) as [<-|Hj]; [|by rewrite decide_False by intuition].
  by rewrite Hl, decide_True.
Qed.

Lemma len_update_ep idx f s : len (endpoints (update_ep idx f s)) = len (endpoints s).
Proof. unfold update_ep, len. case_bool; [done|]. cbn. by rewrite length_alter. Qed.

Lemma update_ep_other idx f s i :
  Z.of_nat i <> idx -> endpoints (update_ep idx f s) !! i = endpoints s !! i.
Proof.
  intros Hi. unfold update_ep. case_bool; [done|]. cbn. b2p.
  apply list_lookup_alter_ne. lia.
Qed.

(** An endpoint is out of rotation. *)
Definition blocked (s : Endpoints) (now : Z) (i : nat) : Prop :=
  exists ep, endpoints s !! i = Some ep /\ now < blacklistedTill ep.

Section Pick.
Context (eps : list relayEndpoint) (now : Z) (Hne : 0 < len eps).

Definition cyc (start i : Z) : nat := Z.to_nat ((start + i) mod len eps).

Lemma cyc_lt start i : (cyc start i < length eps)%nat.
Proof.
  unfold cyc. pose proof (Z.mod_pos_bound (start + i) (len eps) Hne). unfold len in *. lia.
Qed.

Lemma pick_scan_some start k i idx u :
  pick_scan eps now start k i = Some (idx, u) ->
  exists d ep, (0 <= d < Z.of_nat k) /\ idx = Z.of_nat (cyc start (i + d))
    /\ eps !! cyc start (i + d) = Some ep /\ u = url ep /\ blacklistedTill ep <= now
    /\ forall d', 0 <= d' < d -> exists ep', eps !! cyc start (i + d') = Some ep' /\ now < blacklistedTill ep'.
Proof.
  revert i. induction k as [|k IH]; intros i H; [done|]. cbn [pick_scan] in H.
  fold (cyc start i) in H. destruct (eps !! cyc start i) as [ep|] eqn:Hep; [|done].
  unfold After in H. destruct (Z.ltb_spec now (blacklistedTill ep)) as [Hb|Hb].
  - destruct (IH (i + 1) H) as (d & ep' & Hd & Hidx & Hl & Hu & Hbl & Hprev).
    exists (1 + d), ep'. replace (i + (1 + d)) with (i + 1 + d) by lia.
    split; [lia|]. do 4 (split; [done|]). intros d' Hd'.
    destruct (decide (d' = 0)) as [->|]; [exists ep; by rewrite Z.add_0_r|].
    replace (i + d') with (i + 1 + (d' - 1)) by lia. apply Hprev. lia.
  - injection H as <- <-. exists 0, ep. rewrite !Z.add_0_r. split; [lia|].
    split; [|do 3 (split; [done|]); intros; lia].
    unfold cyc. pose proof (Z.mod_pos_bound (start + i) (len eps) Hne). lia.
Qed.

Lemma pick_scan_none start k i :
  pick_scan eps now start k i = None ->
  forall d, 0 <= d < Z.of_nat k -> exists ep, eps !! cyc start (i + d) = Some ep /\ now < blacklistedTill ep.
Proof.
  revert i. induction k as [|k IH]; intros i H d Hd; [lia|]. cbn [pick_scan] in H.
  fold (cyc start i) in H.
  destruct (lookup_lt_is_Some_2 eps (cyc start i) (cyc_lt start i)) as [ep Hep].
  rewrite Hep in H. unfold After in H. destruct (Z.ltb_spec now (blacklistedTill ep)); [|done].
  destruct (decide (d = 0)) as [->|]; [exists ep; by rewrite Z.add_0_r|].
  replace (i + d) with (i + 1 + (d - 1)) by lia. apply IH; [done|lia].
Qed.

(** Every index is met during one turn of the cycle. *)
Lemma cyc_covers start j : (j < length eps)%nat -> exists d, 0 <= d < len eps /\ cyc start d = j.
Proof.
  intros Hj. exists ((Z.of_nat j - start) mod len eps).
  split; [by apply Z.mod_pos_bound|]. unfold cyc.
  rewrite Zplus_mod_idemp_r. replace (start + (Z.of_nat j - start)) with (Z.of_nat j) by lia.
  rewrite Z.mod_small; [lia|]. unfold len. lia.
Qed.

End Pick.

Lemma pick_soonest_spec rest i chosen soonest :
  0 <= i ->
  let r := pick_soonest rest i chosen soonest in
  (r = chosen /\ (forall ep, ep ∈ rest -> soonest <= blacklistedTill ep)
   \/ exists j ep, r = i + Z.of_nat j /\ rest !! j = Some ep /\ blacklistedTill ep < soonest
        /\ forall ep', ep' ∈ rest -> blacklistedTill ep <= blacklistedTill ep').
Proof.
  revert i chosen soonest. induction rest as [|e rest IH]; intros i chosen soonest Hi; cbn.
  { left. split; [done|]. intros ep Hep. by apply elem_of_nil in Hep. }
  unfold Before. destruct (Z.ltb_spec (blacklistedTill e) soonest) as [Hb|Hb].
  - right. destruct (IH (i + 1) i (blacklistedTill e)) as [[-> Hmin]|(j & ep & -> & Hj & Hlt & Hmin)]; [lia| |].
    + exists 0%nat, e. split; [lia|]. do 2 (split; [done|]).
      intros ep' [->|Hep]%elem_of_cons; [lia|auto].
    + exists (S j), ep. split; [lia|]. split; [done|]. split; [lia|].
      intros ep' [->|Hep]%elem_of_cons; [lia|auto].
  - destruct (IH (i + 1) chosen soonest) as [[-> Hmin]|(j & ep & -> & Hj & Hlt & Hmin)]; [lia| |].
    + left. split; [done|]. intros ep [->|Hep]%elem_of_cons; [lia|auto].
    + right. exists (S j), ep. split; [lia|]. do 2 (split; [done|]).
      intros ep' [->|Hep]%elem_of_cons; [lia|auto].
Qed.

(** The two outcomes of the scan, put together. *)
Lemma pick_spec (now : Z) (s s' : Endpoints) (idx : Z) (u : bytes) :
  endpoints s <> [] -> pickRelayEndpoint now s = (s', (idx, u)) ->
  let n := len (endpoints s) in
  endpoints s' = endpoints s /\ nextEndpoint s' = (idx + 1) mod n
  /\ exists ep, 0 <= idx < n /\ endpoints s !! Z.to_nat idx = Some ep /\ u = url ep
  /\ ((exists j, (j < length (endpoints s))%nat /\ ~ blocked s now j) ->
        blacklistedTill ep <= now
        /\ exists d, 0 <= d < n /\ idx = (nextEndpoint s + d) mod n
           /\ forall d', 0 <= d' < d -> blocked s now (Z.to_nat ((nextEndpoint s + d') mod n)))
  /\ ((forall j, (j < length (endpoints s))%nat -> blocked s now j) ->
        forall ep', ep' ∈ endpoints s -> blacklistedTill ep <= blacklistedTill ep').
Proof.
  intros Hne Hp. destruct s as [eps next]. cbn in *.
  assert (Hn : 0 < len eps) by (by apply len_pos).
  assert (Hmod : forall d, (next mod len eps + d) mod len eps = (next + d) mod len eps)
    by (intros; by rewrite Zplus_mod_idemp_l).
  unfold pickRelayEndpoint in Hp. cbn in Hp. destruct eps as [|ep0 rest] eqn:Heps; [done|].
  rewrite <- Heps in *. destruct (pick_scan eps now _ _ 0) as [[i v]|] eqn:Hs.
  - injection Hp as <- <- <-. cbn. split; [done|]. split; [done|].
    destruct (pick_scan_some eps now Hn _ _ _ _ _ Hs) as (d & ep & Hd & -> & Hl & -> & Hb & Hprev).
    pose proof (cyc_lt eps Hn (next mod len eps) (0 + d)) as Hlt.
    exists ep. rewrite Nat2Z.id. split; [by apply lt_len|]. do 2 (split; [done|]).
    split; [|intros Hall; destruct (Hall _ Hlt) as (ep' & Hl' & Hb'); cbn in Hl'; rewrite Hl in Hl'; injection Hl' as <-; lia].
    intros _. split; [done|]. exists d. fold (len eps) in Hd. split; [done|].
    unfold cyc. rewrite Z.add_0_l, Hmod. split.
    + rewrite Z2Nat.id; [done|]. by apply Z.mod_pos_bound.
    + intros d' Hd'. destruct (Hprev d' Hd') as (ep' & Hl' & Hb'). exists ep'. split; [|done].
      unfold cyc in Hl'. by rewrite Z.add_0_l, Hmod in Hl'.
  - assert (Hall : forall j, (j < length eps)%nat -> exists ep, eps !! j = Some ep /\ now < blacklistedTill ep).
    { intros j Hj. destruct (cyc_covers eps Hn (next mod len eps) j Hj) as (d & Hd & <-).
      apply (pick_scan_none eps now Hn _ _ 0 Hs d). unfold len in Hd. lia. }
    set (r := pick_soonest rest 1 0 (blacklistedTill ep0)) in *. injection Hp as <- <- <-. cbn.
    split; [done|]. split; [done|].
    assert (Hr : exists ep, 0 <= r < len eps /\ eps !! Z.to_nat r = Some ep
      /\ forall ep', ep' ∈ eps -> blacklistedTill ep <= blacklistedTill ep').
    { destruct (pick_soonest_spec rest 1 0 (blacklistedTill ep0)) as [[Hr Hmin]|(j & ep & Hr & Hj & Hlt & Hmin)];
        [lia| |]; fold r in Hr; rewrite Hr.
      - exists ep0. rewrite Heps. split; [rewrite <- Heps; lia|]. split; [done|].
        intros ep' [->|Hep]%elem_of_cons; [lia|auto].
      - exists ep. replace (Z.to_nat (1 + Z.of_nat j)) with (S j) by lia.
        pose proof (lookup_lt_Some _ _ _ Hj). rewrite Heps, len_cons. split; [unfold len; lia|].
        split; [done|]. intros ep' [->|Hep]%elem_of_cons; [lia|auto]. }
    destruct Hr as (ep & Hr & Hl & Hmin). exists ep. rewrite Hl. cbn.
    do 3 (split; [done|]). split; [|done].
    intros (j & Hj & Hnb). destruct Hnb. destruct (Hall j Hj) as (ep' & ? & ?). by exists ep'.
Qed.

(** ** Properties *)

(** C36: which endpoint a poll uses.  With at least one endpoint configured the
    result is a valid index with its URL, and the cursor moves just past it; it
    is in rotation whenever some endpoint is, and then it is the first such one
    at or after the cursor, in cyclic order; when all are blacklisted it is one
    that frees up soonest. *)
Theorem pickRelayEndpoint_spec (now : Z) (s s' : Endpoints) (idx : Z) (u : bytes) :
  endpoints s <> [] -> pickRelayEndpoint now s = (s', (idx, u)) ->
  let n := len (endpoints s) in
  endpoints s' = endpoints s /\ nextEndpoint s' = (idx + 1) mod n
  /\ exists ep, 0 <= idx < n /\ endpoints s !! Z.to_nat idx = Some ep /\ u = url ep
  /\ ((exists j, (j < length (endpoints s))%nat /\ ~ blocked s now j) ->
        blacklistedTill ep <= now
        /\ exists d, 0 <= d < n /\ idx = (nextEndpoint s + d) mod n
           /\ forall d', 0 <= d' < d -> blocked s now (Z.to_nat ((nextEndpoint s + d') mod n)))
  /\ ((forall j, (j < length (endpoints s))%nat -> blocked s now j) ->
        forall ep', ep' ∈ endpoints s -> blacklistedTill ep <= blacklistedTill ep').
Proof. apply pick_spec. Qed.

(** [k] successive picks at one instant. *)
Fixpoint picks (now : Z) (k : nat) (s : Endpoints) : list Z :=
  match k with
  | O => []
  | S k => let '(s', (idx, _)) := pickRelayEndpoint now s in idx :: picks now k s'
  end.

Lemma pick_healthy now s :
  endpoints s <> [] -> (forall ep, ep ∈ endpoints s -> blacklistedTill ep <= now) ->
  exists u, pickRelayEndpoint now s
    = (mkEps (endpoints s) ((nextEndpoint s + 1) mod len (endpoints s)),
       (nextEndpoint s mod len (endpoints s), u)).
Proof.
  intros Hne Hall. destruct (pickRelayEndpoint now s) as [s' [idx u]] eqn:Hp.
  destruct (pick_spec now s s' idx u Hne Hp) as (He & Hn & ep & Hi & Hl & _ & Hrot & _).
  assert (Hlen : 0 < len (endpoints s)) by (by apply len_pos).
  assert (Hnb : forall j, ~ blocked s now j).
  { intros j (ep' & Hep' & Hb). apply list_elem_of_lookup_2, Hall in Hep'. lia. }
  destruct Hrot as (_ & d & Hd & -> & Hprev).
  { exists 0%nat. split; [|apply Hnb]. apply lt_len. lia. }
  destruct (decide (d = 0)) as [->|Hd0]; [|destruct (Hnb _ (Hprev 0 ltac:(lia)))].
  exists u. rewrite Z.add_0_r in *. rewrite Zplus_mod_idemp_l in Hn.
  destruct s'; cbn in *. by subst.
Qed.

(** Round robin.  While no endpoint is blacklisted, successive picks run
    through the endpoints in configuration order, starting at the cursor and
    wrapping around; so any [len] successive picks use each endpoint exactly
    once. *)
Theorem picks_round_robin (now : Z) (k : nat) (s : Endpoints) :
  endpoints s <> [] -> (forall ep, ep ∈ endpoints s -> blacklistedTill ep <= now) ->
  picks now k s = map (fun i => (nextEndpoint s + Z.of_nat i) mod len (endpoints s)) (seq 0 k)
  /\ NoDup (picks now (length (endpoints s)) s).
Proof.
  intros Hne Hall.
  assert (Hp : forall k s, endpoints s <> [] -> (forall ep, ep ∈ endpoints s -> blacklistedTill ep <= now) ->
    picks now k s = map (fun i => (nextEndpoint s + Z.of_nat i) mod len (endpoints s)) (seq 0 k)).
  { clear. induction k as [|k IH]; intros s Hne Hall; [done|]. cbn [picks seq map].
    destruct (pick_healthy now s Hne Hall) as (u & ->). rewrite Z.add_0_r. f_equal.
    rewrite IH by done. cbn. rewrite <- fmap_S_seq, map_map. apply map_ext. intros i.
    rewrite Zplus_mod_idemp_l. f_equal. lia. }
  split; [by apply Hp|]. rewrite Hp by done. apply NoDup_fmap_2_strong; [|apply NoDup_seq].
  intros i j Hi%elem_of_seq Hj%elem_of_seq Hij. set (n := len (endpoints s)) in *.
  assert (Hn : n = Z.of_nat (length (endpoints s))) by done.
  assert (Hd : (Z.of_nat i - Z.of_nat j) mod n = 0).
  { replace (Z.of_nat i - Z.of_nat j)
      with ((nextEndpoint s + Z.of_nat i) - (nextEndpoint s + Z.of_nat j)) by lia.
    rewrite Zminus_mod, Hij, Z.sub_diag. by apply Z.mod_0_l; lia. }
  apply Z.mod_divide in Hd as [q Hq]; [|lia]. assert (q = 0) by nia. lia.
Qed.

(** The retry of a failed poll goes elsewhere: after a failure of the
    endpoint just used, the next pick is a different endpoint whenever another
    one is in rotation. *)
Theorem failover_picks_another (now min idx : Z) (j : nat) (s s' : Endpoints) (i : Z) (u : bytes) :
  0 <= min -> 0 <= idx < len (endpoints s) ->
  (forall ep, ep ∈ endpoints s -> 0 <= failCount ep) ->
  (j < length (endpoints s))%nat -> Z.of_nat j <> idx -> ~ blocked s now j ->
  pickRelayEndpoint now (markEndpointFailureWith now idx min s) = (s', (i, u)) ->
  i <> idx.
Proof.
  intros Hmin Hidx Hfc Hj Hji Hnb Hp ->.
  set (s1 := markEndpointFailureWith now idx min s) in *.
  assert (Hlen : len (endpoints s1) = len (endpoints s)) by apply len_update_ep.
  assert (Hne : endpoints s1 <> []) by (apply len_pos; lia).
  destruct (pick_spec now s1 s' idx u Hne Hp) as (_ & _ & ep & _ & Hl & _ & Hrot & _).
  destruct Hrot as [Hb _].
  { exists j. split; [unfold len in Hlen; lia|]. intros (ep' & Hl' & Hb'). apply Hnb.
    exists ep'. split; [|done]. by rewrite <- (update_ep_other idx (ep_failure now min) s j). }
  destruct (lookup_lt_is_Some_2 (endpoints s) (Z.to_nat idx)) as [ep0 H0]; [unfold len in Hidx; lia|].
  pose proof (update_ep_in (Z.to_nat idx) (ep_failure now min) s ep0 H0) as [He _].
  rewrite Z2Nat.id in He by lia. fold (markEndpointFailureWith now idx min s) in He. fold s1 in He.
  rewrite He, list_lookup_insert_eq in Hl by (unfold len in Hidx; lia). injection Hl as <-.
  cbn in Hb. apply list_elem_of_lookup_2, Hfc in H0.
  assert (0 < endpointBlacklistTTL ((if (0 <? min) && (failCount ep0 <? min) then min else failCount ep0) + 1)); [|lia].
  set (fc := if (0 <? min) && (failCount ep0 <? min) then min else failCount ep0).
  assert (0 <= fc) by (unfold fc; case_bool; lia).
  unfold endpointBlacklistTTL. rewrite (proj2 (Z.leb_gt _ _)) by lia.
  destruct (Z.leb_spec (fc + 1) 5); [|by repeat case_bool].
  rewrite Z.shiftl_mul_pow2 by lia. pose proof (Z.pow_pos_nonneg 2 (fc + 1 - 1)).
  unfold endpointBlacklistBaseTTL, Second. nia.
Qed.

(** The back-off ramp: a failing endpoint is out of rotation for 3 s, 6 s,
    12 s, 24 s, 48 s, 5 min, 30 min and then 1 h, never less after more
    failures and never more than an hour; a 403 or a quota page jumps to at
    least 5 minutes and a 429 to at least 24 s; and one success puts it back
    into rotation with a clean record. *)
Theorem backoff_ramp (now : Z) (ep : relayEndpoint) :
  map (fun n => endpointBlacklistTTL (Z.of_nat n) / Second) (seq 1 9)
    = [3; 6; 12; 24; 48; 300; 1800; 3600; 3600]
  /\ (forall a b, 0 < a <= b ->
        3 * Second <= endpointBlacklistTTL a <= endpointBlacklistTTL b /\ endpointBlacklistTTL b <= Hour)
  /\ (failCount (ep_failure now 0 ep) = failCount ep + 1
      /\ blacklistedTill (ep_failure now 0 ep) = now + endpointBlacklistTTL (failCount ep + 1))
  /\ (0 <= failCount ep -> now + 5 * Minute <= blacklistedTill (ep_failure now 5 ep)
      /\ now + 24 * Second <= blacklistedTill (ep_failure now 3 ep))
  /\ (blacklistedTill (ep_success ep) = 0 /\ failCount (ep_success ep) = 0
      /\ url (ep_success ep) = url ep /\ dailyCount (ep_success ep) = dailyCount ep).
Proof.
  assert (Hmono : forall a b, 0 < a <= b ->
    3 * Second <= endpointBlacklistTTL a <= endpointBlacklistTTL b /\ endpointBlacklistTTL b <= Hour).
  { assert (Hb : forall a, 0 < a -> 3 * Second <= endpointBlacklistTTL a <= Hour
      /\ endpointBlacklistTTL a <= endpointBlacklistTTL (a + 1)).
    { intros a Ha. assert (a = 1 \/ a = 2 \/ a = 3 \/ a = 4 \/ a = 5 \/ a = 6 \/ a = 7 \/ 8 <= a) as Hc by lia.
      do 7 (destruct Hc as [->|Hc]; [by vm_compute|]).
      assert (Hbig : forall x, 8 <= x -> endpointBlacklistTTL x = Hour).
      { intros x Hx. unfold endpointBlacklistTTL. rewrite !(proj2 (Z.leb_gt _ _)) by lia.
        rewrite !(proj2 (Z.eqb_neq _ _)) by lia. done. }
      rewrite !Hbig by lia. by vm_compute. }
    intros a b [Ha Hab]. split; [|by apply Hb; lia]. split; [by apply Hb|].
    replace b with (a + Z.of_nat (Z.to_nat (b - a))) by lia.
    induction (Z.to_nat (b - a)) as [|n IH]; [rewrite Z.add_0_r; lia|].
    etransitivity; [exact IH|]. replace (a + Z.of_nat (S n)) with (a + Z.of_nat n + 1) by lia.
    apply Hb. lia. }
  split; [by vm_compute|]. split; [done|]. split; [done|]. split; [|done].
  intros Hfc. unfold ep_failure. cbn [blacklistedTill].
  change (0 <? 5) with true. change (0 <? 3) with true. cbn [andb].
  destruct (Hmono 6 (Z.max 6 (failCount ep + 1))) as [[_ H5] _]; [lia|].
  destruct (Hmono 4 (Z.max 4 (failCount ep + 1))) as [[_ H3] _]; [lia|].
  change (endpointBlacklistTTL 6) with (5 * Minute) in H5.
  change (endpointBlacklistTTL 4) with (24 * Second) in H3.
  replace ((if failCount ep <? 5 then 5 else failCount ep) + 1) with (Z.max 6 (failCount ep + 1)).
  2:{ destruct (Z.ltb_spec (failCount ep) 5); lia. }
  replace ((if failCount ep <? 3 then 3 else failCount ep) + 1) with (Z.max 4 (failCount ep + 1)).
  2:{ destruct (Z.ltb_spec (failCount ep) 3); lia. }
  lia.
Qed.

(** ** The quota window *)

(** The local day of [now] lasts [h] hours, after which the next one starts. *)
Record day_lasts (sod : Z -> Z) (now h : Z) : Prop := {
  dl_le : sod now <= now < sod now + h * Hour;
  dl_in : forall t, sod now <= t < sod now + h * Hour -> sod t = sod now;
  dl_next : sod (sod now + h * Hour) = sod now + h * Hour;
}.

Lemma nextQuotaReset_eq sod now h :
  day_lasts sod now h -> nextQuotaReset sod now = sod now + 24 * Hour.
Proof.
  intros [Hle _ _]. unfold nextQuotaReset, After. by rewrite (proj2 (Z.ltb_ge _ _)) by lia.
Qed.

Definition window_of (sod : Z -> Z) (now : Z) (ep : relayEndpoint) : Z * Z :=
  if IsZero (dailyResetAt ep) then (dailyCount ep, nextQuotaReset sod now)
  else if Before now (dailyResetAt ep) then (dailyCount ep, dailyResetAt ep)
  else (0, nextQuotaReset sod now).

Lemma ep_bump_window sod now ep :
  dailyCount (ep_bump sod now ep) = u64 (fst (window_of sod now ep) + 1)
  /\ dailyResetAt (ep_bump sod now ep) = snd (window_of sod now ep).
Proof.
  unfold ep_bump, window_of, touchDailyWindow. destruct (IsZero _); [done|]. by destruct (Before _ _).
Qed.

#[local] Arguments ep_bump : simpl never.

(** The counter over a list of responses at the instants [ts]. *)
Definition bumps (sod : Z -> Z) (ts : list Z) (ep : relayEndpoint) : relayEndpoint :=
  foldl (fun ep t => ep_bump sod t ep) ep ts.

(** The instants of [ts] on the local day of [t]. *)
Definition same_day (sod : Z -> Z) (t : Z) (ts : list Z) : list Z := filter (fun x => sod x = sod t) ts.

Lemma len_same_day_le sod t ts : len (same_day sod t ts) <= len ts.
Proof. unfold same_day, len. apply inj_le, length_filter. Qed.

(** The window of an instant whose day has 24 hours. *)
Definition short_day (sod : Z -> Z) (x : Z) : Prop := day_lasts sod x 24 /\ 0 < sod x.

Lemma bump_in_day sod now ep :
  short_day sod now -> 0 <= dailyCount ep < 2 ^ 64 - 1 ->
  (dailyResetAt ep = 0 /\ dailyCount ep = 0) \/ (0 < dailyResetAt ep /\ (now < dailyResetAt ep -> dailyResetAt ep = sod now + 24 * Hour)) ->
  let ep' := ep_bump sod now ep in
  dailyResetAt ep' = sod now + 24 * Hour
  /\ dailyCount ep' = (if now <? dailyResetAt ep then dailyCount ep else 0) + 1.
Proof.
  intros [Hd Hp] Hc Hor ep'. destruct (ep_bump_window sod now ep) as [Hb Hr]. fold ep' in Hb, Hr.
  rewrite Hb, Hr. clear Hb Hr. unfold window_of, IsZero, Before. rewrite (nextQuotaReset_eq sod now 24 Hd).
  destruct Hor as [[Hz Hc0]|[Hz Hin]].
  - rewrite Hz, Hc0. change (0 =? 0) with true. cbn [fst snd]. split; [done|]. by case_bool.
  - rewrite (proj2 (Z.eqb_neq (dailyResetAt ep) 0)) by lia. destruct (Z.ltb_spec now (dailyResetAt ep)) as [Hlt|Hge]; cbn [fst snd].
    + split; [auto|]. apply u64_small. lia.
    + done.
Qed.

(** After the last of the instants, the counter is that of its day. *)
Lemma bumps_day sod ts t u a :
  (forall x, x ∈ ts ++ [t] -> short_day sod x) -> StronglySorted Z.le (ts ++ [t]) -> len ts < 2 ^ 64 - 1 ->
  let ep := bumps sod (ts ++ [t]) (new_endpoint u a) in
  dailyResetAt ep = sod t + 24 * Hour /\ dailyCount ep = len (same_day sod t (ts ++ [t])).
Proof.
  assert (Hlast : forall l x, same_day sod x (l ++ [x]) = same_day sod x l ++ [x]).
  { intros l x. unfold same_day. by rewrite filter_app, (filter_cons_True _ x []). }
  revert t. induction ts as [|t0 ts IH] using rev_ind; intros t Hday Hs Hlen.
  { destruct (bump_in_day sod t (new_endpoint u a)) as [Hr Hc]; [apply Hday; left|done|by left|].
    cbn [app] in *. rewrite (Hlast []). unfold bumps. cbn [foldl]. rewrite Hr, Hc. split; [done|]. by case_bool. }
  unfold bumps. rewrite foldl_app. cbn [foldl]. fold (bumps sod (ts ++ [t0]) (new_endpoint u a)).
  apply StronglySorted_app in Hs as (Hle & Hs & _). rewrite len_app in Hlen. change (len [t0]) with 1 in Hlen.
  pose proof (len_nonneg ts).
  destruct (IH t0) as [Hr Hc]; [intros x Hx; apply Hday; set_solver|done|lia|]. clear IH.
  set (ep := bumps sod (ts ++ [t0]) (new_endpoint u a)) in *.
  assert (H0 : short_day sod t0) by (apply Hday; set_solver). assert (Ht : short_day sod t) by (apply Hday; set_solver).
  assert (Hle0 : t0 <= t) by (apply Hle; set_solver). destruct H0 as [D0 P0], Ht as [D P].
  pose proof (dl_le _ _ _ D0) as L0. pose proof (dl_le _ _ _ D) as Lt.
  assert (Heq : t < sod t0 + 24 * Hour -> sod t = sod t0) by (intros ?; apply (dl_in _ _ _ D0); lia).
  pose proof (len_same_day_le sod t0 (ts ++ [t0])) as Hcl. rewrite len_app in Hcl. change (len [t0]) with 1 in Hcl.
  destruct (bump_in_day sod t ep) as [-> ->]; [done|rewrite Hc; pose proof (len_nonneg (same_day sod t0 (ts ++ [t0]))); lia| |].
  { right. rewrite Hr. split; [unfold Hour, Minute, Second; lia|]. intros ?. by rewrite Heq. }
  split; [done|]. rewrite Hlast, len_app. change (len [t]) with 1. f_equal. rewrite Hr.
  destruct (Z.ltb_spec t (sod t0 + 24 * Hour)) as [Hlt|Hge].
  - rewrite Hc. f_equal. unfold same_day. apply list_filter_iff. intros x. by rewrite (Heq Hlt).
  - symmetry. apply len_zero. destruct (same_day sod t (ts ++ [t0])) as [|x l] eqn:E; [done|exfalso].
    assert (Hin : x ∈ same_day sod t (ts ++ [t0])) by (rewrite E; left).
    apply list_elem_of_filter in Hin as [Hxt Hx].
    assert (Hxs : short_day sod x) by (apply Hday; set_solver). destruct Hxs as [Dx _].
    assert (Hx0 : x <= t0).
    { apply StronglySorted_app in Hs as (Hle' & _ & _). apply elem_of_app in Hx as [Hx| ->%list_elem_of_singleton]; [|lia].
      apply Hle'; set_solver. }
    pose proof (dl_le _ _ _ Dx) as Lx. pose proof (dl_in _ _ _ Dx t0). lia.
Qed.

(** C37: the daily counter counts a day's calls.  Let an endpoint be answered at
    the instants [ts] and then [t], in this order, over any number of days that
    have 24 hours each.  Then after the last one its daily count is the number of
    these instants on the local day of [t], and the next reset is the local
    midnight that ends this day, which is still to come.  (Days of 25 hours are
    different: [daily_window_long_day].) *)
Theorem daily_window (sod : Z -> Z) (ts : list Z) (t : Z) (u a : bytes) :
  (forall x, x ∈ ts ++ [t] -> short_day sod x) -> StronglySorted Z.le (ts ++ [t]) -> len ts < 2 ^ 64 - 1 ->
  let ep := bumps sod (ts ++ [t]) (new_endpoint u a) in
  dailyCount ep = len (same_day sod t (ts ++ [t]))
  /\ dailyResetAt ep = nextQuotaReset sod t
  /\ t < dailyResetAt ep /\ sod (dailyResetAt ep) = dailyResetAt ep.
Proof.
  intros Hday Hs Hlen ep. destruct (bumps_day sod ts t u a Hday Hs Hlen) as [Hr Hc]. fold ep in Hr, Hc.
  destruct (Hday t) as [Hd _]; [set_solver|]. rewrite Hc, Hr, (nextQuotaReset_eq sod t 24 Hd).
  split; [done|]. split; [done|]. split; [apply (dl_le _ _ _ Hd)|apply (dl_next _ _ _ Hd)].
Qed.

(** On a day of 25 hours (the end of daylight saving time) the window is
    wrong: during its last hour [nextQuotaReset] is not after [now], so every
    response rolls the window over and the daily count stays at 1. *)
Theorem daily_window_long_day (sod : Z -> Z) (now : Z) (ep : relayEndpoint) :
  day_lasts sod now 25 -> sod now + 24 * Hour <= now ->
  0 < dailyResetAt ep <= now -> 0 < sod now ->
  nextQuotaReset sod now <= now /\ dailyCount (ep_bump sod now ep) = 1
  /\ dailyCount (ep_bump sod now (ep_bump sod now ep)) = 1.
Proof.
  intros Hday Hlate Hr Hpos. pose proof (nextQuotaReset_eq sod now 25 Hday) as He.
  destruct (ep_bump_window sod now ep) as [Hb Hb2]. unfold window_of in Hb, Hb2.
  unfold IsZero, Before in *. rewrite (proj2 (Z.eqb_neq _ _)) in Hb, Hb2 by lia.
  rewrite (proj2 (Z.ltb_ge _ _)) in Hb, Hb2 by lia. cbn [fst snd] in Hb, Hb2.
  split; [lia|]. split; [by rewrite Hb|].
  destruct (ep_bump_window sod now (ep_bump sod now ep)) as [-> _]. unfold window_of, IsZero, Before.
  rewrite Hb2, He. rewrite (proj2 (Z.ltb_ge _ _)) by lia.
  rewrite (proj2 (Z.eqb_neq _ _)) by (unfold Hour, Minute, Second; lia). done.
Qed.

(** ** Concrete inputs *)

Definition ep_of (u : String.string) (till : Z) : relayEndpoint :=
  mkEp (str u) [] till 0 0 0 0 0 0 0 false.

Definition demo_eps : Endpoints := mkEps [ep_of "a" 0; ep_of "b" 900; ep_of "c" 0] 1.

Lemma pickRelayEndpoint_spec_witness :
  exists s', pickRelayEndpoint 100 demo_eps = (s', (2, str "c"))
    /\ nextEndpoint s' = (2 + 1) mod len (endpoints demo_eps).
Proof.
  eexists. split; [vm_compute; reflexivity|].
  refine (proj1 (proj2 (pickRelayEndpoint_spec 100 demo_eps _ 2 (str "c") _ _)));
    [discriminate|vm_compute; reflexivity].
Defined.

Lemma picks_round_robin_witness :
  picks 1000 5 demo_eps = [1; 2; 0; 1; 2] /\ NoDup (picks 1000 3 demo_eps).
Proof.
  split; [reflexivity|].
  apply (picks_round_robin 1000 3 demo_eps); [discriminate|].
  intros ep Hep. cbn in Hep. set_unfold. destruct Hep as [->|[->|[->|[]]]]; vm_compute; discriminate.
Defined.

Lemma failover_picks_another_witness :
  exists s' i u, pickRelayEndpoint 100 (markEndpointFailureWith 100 0 0 demo_eps) = (s', (i, u)) /\ i <> 0.
Proof.
  do 3 eexists. split; [vm_compute; reflexivity|].
  eapply (failover_picks_another 100 0 0 2 demo_eps).
  - done.
  - by vm_compute.
  - intros ep Hep. cbn in Hep. set_unfold. destruct Hep as [->|[->|[->|[]]]]; vm_compute; discriminate.
  - vm_compute. lia.
  - done.
  - intros (ep & [= <-] & Hb). by vm_compute in Hb.
  - vm_compute. reflexivity.
Defined.

(** The fixed zone the code falls back to, [time.FixedZone("PST", -8*3600)]. *)
Definition FixedZone (offset : Z) (t : Z) : Z :=
  (t + offset) - (t + offset) mod (24 * Hour) - offset.

(** America/Los_Angeles around the end of daylight saving time of 2025: until
    2025-11-03 00:00 PST the offset of the local midnight is -7 h, then -8 h. *)
Definition nov3_pst : Z := 1762156800 * Second.
Definition LosAngeles2025 (t : Z) : Z :=
  if nov3_pst <=? t then FixedZone (-8 * Hour) t
  else if nov3_pst - 25 * Hour <=? t then nov3_pst - 25 * Hour
  else FixedZone (-7 * Hour) t.

Lemma FixedZone_day offset now : day_lasts (FixedZone offset) now 24.
Proof.
  unfold FixedZone. pose proof (Z.mod_pos_bound (now + offset) (24 * Hour) ltac:(done)) as Hb.
  assert (Hd := Z.div_mod (now + offset) (24 * Hour) ltac:(done)).
  set (q := (now + offset) / (24 * Hour)) in *. constructor; [lia| |].
  - intros t Ht. replace (t + offset) with (t + offset - q * (24 * Hour) + q * (24 * Hour)) at 2 by lia.
    rewrite Z.mod_add, Z.mod_small by lia. lia.
  - replace (now + offset - (now + offset) mod (24 * Hour) - offset + 24 * Hour + offset)
      with ((q + 1) * (24 * Hour)) by lia.
    rewrite Z.mod_mul by done. lia.
Qed.

(** Three calls on one day and two on the next. *)
Definition demo_calls : list Z :=
  let now := 1762156800 * Second in [now; now + 1; now + Hour; now + 30 * Hour].

Lemma daily_window_witness :
  dailyCount (bumps (FixedZone (-8 * Hour)) (demo_calls ++ [1762156800 * Second + 31 * Hour]) (new_endpoint (str "u") [])) = 2.
Proof.
  apply (daily_window (FixedZone (-8 * Hour)) demo_calls (1762156800 * Second + 31 * Hour) (str "u") []).
  - intros x Hx. split; [apply FixedZone_day|]. unfold demo_calls in Hx. cbn [app] in Hx.
    repeat (apply elem_of_cons in Hx as [->|Hx]; [by vm_compute|]). by apply elem_of_nil in Hx.
  - unfold demo_calls. cbn [app]. repeat constructor; by vm_compute.
  - reflexivity.
Defined.

Lemma LosAngeles_long_day : day_lasts LosAngeles2025 (nov3_pst - Minute) 25.
Proof.
  constructor.
  - by vm_compute.
  - change (LosAngeles2025 (nov3_pst - Minute)) with (nov3_pst - 25 * Hour).
    intros t Ht. unfold LosAngeles2025.
    by rewrite (proj2 (Z.leb_gt _ _)), (proj2 (Z.leb_le _ _)) by lia.
  - by vm_compute.
Qed.

Lemma daily_window_long_day_witness :
  nextQuotaReset LosAngeles2025 (nov3_pst - Minute) <= nov3_pst - Minute
  /\ dailyCount (ep_bump LosAngeles2025 (nov3_pst - Minute)
       (mkEp (str "u") [] 0 0 0 0 500 (nov3_pst - Hour) 0 0 false)) = 1.
Proof.
  destruct (daily_window_long_day LosAngeles2025 (nov3_pst - Minute)
    (mkEp (str "u") [] 0 0 0 0 500 (nov3_pst - Hour) 0 0 false)) as (H1 & H2 & _);
    [apply LosAngeles_long_day|by vm_compute|by vm_compute|by vm_compute|].
  exact (conj H1 H2).
Defined.
