(* ===== verification/SessionApi.v ===== *)
(** * What the client and the server need of a session

    [internal/carrier] and [internal/exit] hold maps of sessions and use them
    through the methods below.  [SessionApi] is that interface, [SessionApiOk]
    the laws the two components rely on; their theorems are proved against the
    interface, and [Session] is shown here to implement it. *)

From S2P Require Import Prelude Frame Session Stream.

Class SessionApi (S : Type) := {
  api_new : Z -> bytes -> bytes -> bool -> S;
  api_id : S -> bytes;
  api_queued_at : S -> Z;
  api_pending : S -> bool;
  api_pending_syn : S -> bool;
  api_done : Z -> S -> bool;
  api_drain : Z -> Z -> Z -> S -> S * list Frame;
  api_enqueue : Z -> bytes -> S -> option (S * bool);
  api_enqueue_initial : Z -> bytes -> S -> option (S * bool);
  api_request_close : Z -> S -> S;
  api_process : bool -> Frame -> S -> S;
  api_close_rx : S -> res Empty_set S;
  api_stop : S -> S;
}.

(** [api_ok] is the representation invariant of the implementation. *)
Class SessionApiOk (S : Type) {A : SessionApi S} := {
  api_ok : S -> Prop;
  new_ok now id target syn :
    let s := api_new now id target syn in
    api_ok s /\ api_id s = id /\ api_pending s = syn /\ api_pending_syn s = syn;
  drain_ok now mp mf s s' out :
    api_ok s -> api_drain now mp mf s = (s', out) ->
    api_ok s' /\ api_id s' = api_id s
    /\ (out <> [] <-> api_pending s = true)
    /\ (forall f, f ∈ out -> SessionID f = api_id s)
    /\ (0 < mf -> len out <= mf)
    /\ (0 < mp -> forall f, f ∈ out -> len (Payload f) <= mp)
    /\ (api_pending s' = true -> len out = mf)
    /\ (out = [] -> s' = s);
  syn_pending s : api_pending_syn s = true -> api_pending s = true;
  enqueue_ok now data s s' kick :
    api_ok s -> api_enqueue now data s = Some (s', kick) ->
    api_ok s' /\ api_id s' = api_id s
    /\ (kick = false -> s' = s);
  enqueue_initial_ok now data s s' kick :
    api_ok s -> api_enqueue_initial now data s = Some (s', kick) ->
    api_ok s' /\ api_id s' = api_id s
    /\ (kick = false -> s' = s);
  close_ok now s : api_ok s -> let s' := api_request_close now s in
    api_ok s' /\ api_id s' = api_id s;
  process_ok t f s : api_ok s -> let s' := api_process t f s in
    api_ok s' /\ api_id s' = api_id s /\ api_pending s' = api_pending s;
  close_rx_ok s s' : api_ok s -> api_close_rx s = Ok s' ->
    api_ok s' /\ api_id s' = api_id s /\ api_pending s' = api_pending s;
  stop_ok s : api_ok s -> let s' := api_stop s in
    api_ok s' /\ api_id s' = api_id s /\ api_pending s' = api_pending s;
}.

(** ** The implementation *)

#[export] Instance Session_api : SessionApi Session := {
  api_new := New;
  api_id := ID;
  api_queued_at := FirstQueuedAt;
  api_pending := HasPendingTx;
  api_pending_syn := HasPendingSYN;
  api_done := IsDone;
  api_drain := DrainTxLimited;
  api_enqueue := EnqueueTx;
  api_enqueue_initial := EnqueueInitialData;
  api_request_close := fun now s => fst (RequestClose now s);
  api_process := fun t f s => with_rx s (ProcessRx t f (rx s));
  api_close_rx := fun s => let! r := CloseRx (rx s) in Ok (with_rx s r);
  api_stop := fun s => with_rx s (Stop (rx s));
}.

Definition seq_in_range (s : Session) : Prop := 0 <= txSeq (tx s) < 2 ^ 64.

Lemma session_drain_ok now mp mf (s s' : Session) out :
  seq_in_range s -> DrainTxLimited now mp mf s = (s', out) ->
  seq_in_range s' /\ ID s' = ID s
  /\ (out <> [] <-> HasPendingTx s = true)
  /\ (forall f, f ∈ out -> SessionID f = ID s)
  /\ (0 < mf -> len out <= mf)
  /\ (0 < mp -> forall f, f ∈ out -> len (Payload f) <= mp)
  /\ (HasPendingTx s' = true -> len out = mf)
  /\ (out = [] -> s' = s).
Proof.
  intros Hok Hd.
  destruct (drainTx_spec now mp mf s Hok) as (s1 & out1 & p0 & ch & fin & Hd1 & H).
  unfold DrainTxLimited in Hd. rewrite Hd in Hd1. injection Hd1 as <- <-.
  split; [unfold seq_in_range; rewrite (dr_seq _ _ _ _ _ _ _ _ _ H); apply u64_range|].
  split; [by destruct (dr_id _ _ _ _ _ _ _ _ _ H)|].
  split; [|split; [|split; [|split; [|split]]]].
  - unfold HasPendingTx. split.
    + intros Hne. destruct (tx_pending (tx s)) eqn:Hp; [done|].
      rewrite drainTx_idle in Hd by done. congruence.
    + intros Hp ->. rewrite (drained_nil _ _ _ _ _ _ _ _ _ H) in Hp by done. done.
  - intros f [i Hi]%list_elem_of_lookup.
    by destruct (drained_lookup _ _ _ _ _ _ _ _ _ H i f Hi) as (c & _ & ->).
  - apply (dr_cap _ _ _ _ _ _ _ _ _ H).
  - intros Hmp f Hf. by apply (drained_payload_size _ _ _ _ _ _ _ _ _ H f Hmp).
  - intros [Hmf Hle]%(dr_rest _ _ _ _ _ _ _ _ _ H).
    pose proof (dr_cap _ _ _ _ _ _ _ _ _ H Hmf). lia.
  - intros ->. pose proof (drained_nil _ _ _ _ _ _ _ _ _ H eq_refl) as Hp.
    rewrite drainTx_idle in Hd by done. congruence.
Qed.

Lemma EnqueueTx_ok now data (s s' : Session) kick :
  seq_in_range s -> EnqueueTx now data s = Some (s', kick) ->
  seq_in_range s' /\ ID s' = ID s /\ (kick = false -> s' = s).
Proof.
  intros Hok. unfold EnqueueTx. repeat case_bool; [done| |]; intros [= <- <-]; split; try done.
Qed.

#[export] Program Instance Session_api_ok : SessionApiOk Session := {
  api_ok := seq_in_range;
}.
Next Obligation.
  intros now id target syn. split; [unfold seq_in_range; cbn; lia|]. split; [done|].
  cbn. unfold HasPendingTx, HasPendingSYN, tx_pending. cbn. by destruct syn.
Qed.
Next Obligation. intros. by eapply session_drain_ok. Qed.
Next Obligation.
  intros s. cbn. unfold HasPendingSYN, HasPendingTx, tx_pending. by intros ->.
Qed.
Next Obligation.
  intros now data s s' kick. apply EnqueueTx_ok.
Qed.
Next Obligation.
  intros now data s s' kick Hok. cbn. unfold EnqueueInitialData.
  case_bool; [by apply EnqueueTx_ok|]. by intros [= <- <-].
Qed.
Next Obligation. done. Qed.
Next Obligation. done. Qed.
Next Obligation.
  intros s s' Hok. cbn. destruct (CloseRx (rx s)); cbn; [|done..]. by intros [= <-].
Qed.
Next Obligation. done. Qed.
