(* ===== verification/Kick.v ===== *)
(** * internal/carrier/client.go: coalesced wake-ups

    [kick] wakes the idle pollers, at once or, when coalescing is on, at the end
    of a window that later kicks extend but never beyond a hard deadline.
    [Coalesce] is the timer and the deadline; [run] is the sequence of kicks at
    given instants, the timer firing in between whenever its instant has come.
    The result of a run is the list of the instants of the broadcasts. *)

From S2P Require Import Prelude Session Endpoints.

Record Coalesce := mkCoalesce {
  coalesceTimer : option Z;   (* the instant at which the armed timer fires *)
  coalesceDeadline : Z;
}.

Section Kick.
Context (coalesceStep coalesceMax : Z).

(** [fireCoalesceWake], run by the timer if its instant is not after [now]. *)
Definition fire (now : Z) (k : Coalesce) : Coalesce * list Z :=
  match coalesceTimer k with
  | Some t => if t <=? now then (mkCoalesce None (coalesceDeadline k), [t]) else (k, [])
  | None => (k, [])
  end.

Definition kick (now : Z) (k : Coalesce) : Coalesce * list Z :=
  if coalesceStep <=? 0 then (k, [now]) else
  match coalesceTimer k with
  | None => (mkCoalesce (Some (now + coalesceStep)) (now + coalesceMax), [])
  | Some _ =>
      let nextFire := now + coalesceStep in
      let nextFire := if After nextFire (coalesceDeadline k) then coalesceDeadline k else nextFire in
      let wait := nextFire - now in
      if wait <=? 0 then (k, [])
      else (mkCoalesce (Some (now + wait)) (coalesceDeadline k), [])
  end.

(** The kicks at [ts]; at the end the armed timer fires. *)
Fixpoint run (ts : list Z) (k : Coalesce) : list Z :=
  match ts with
  | [] => match coalesceTimer k with Some t => [t] | None => [] end
  | t :: ts =>
      let '(k, w1) := fire t k in
      let '(k, w2) := kick t k in
      w1 ++ w2 ++ run ts k
  end.

Definition no_timer : Coalesce := mkCoalesce None 0.

(** ** Lemmas *)

(** The armed timer fires between the last kick and the deadline. *)
Definition armed_by (t : Z) (k : Coalesce) : Prop :=
  exists f, coalesceTimer k = Some f /\ t <= f <= coalesceDeadline k /\ coalesceDeadline k <= t + coalesceMax.

Lemma run_armed (ts : list Z) (k : Coalesce) (t : Z) :
  0 < coalesceStep <= coalesceMax -> armed_by t k ->
  (forall u, u ∈ ts -> t <= u) -> Sorted Z.le ts ->
  exists w, w ∈ run ts k /\ t <= w <= coalesceDeadline k.
Proof.
  intros Hs. revert k t. induction ts as [|u ts IH]; intros k t (f & Hf & Hlo & Hhi) Hge Hsort; cbn [run].
  { exists f. rewrite Hf. split; [left|lia]. }
  unfold fire. rewrite Hf. destruct (Z.leb_spec f u) as [Hfu|Hfu].
  { destruct (kick u _) as [k2 w2]. exists f. split; [left|lia]. }
  unfold kick. rewrite (proj2 (Z.leb_gt _ _)), Hf by lia.
  assert (Hu : t <= u) by (apply Hge; left).
  apply Sorted_inv in Hsort as [Hsort Hhd].
  assert (Hge' : forall v, v ∈ ts -> u <= v).
  { intros v Hv. destruct ts as [|v0 ts0]; [by apply elem_of_nil in Hv|].
    apply HdRel_inv in Hhd. apply Sorted_StronglySorted in Hsort; [|intros ? ? ?; lia].
    apply StronglySorted_inv in Hsort as [_ Hall]. rewrite Forall_forall in Hall.
    apply elem_of_cons in Hv as [->|Hv]; [done|]. specialize (Hall v Hv). lia. }
  set (nf := if After _ _ then _ else _).
  assert (Hnf : nf <= coalesceDeadline k /\ nf <= u + coalesceStep /\ u < nf).
  { unfold nf, After. destruct (Z.ltb_spec (coalesceDeadline k) (u + coalesceStep)); lia. }
  rewrite (proj2 (Z.leb_gt _ _)) by lia. cbn [app].
  set (k2 := mkCoalesce (Some (u + (nf - u))) (coalesceDeadline k)).
  destruct (IH k2 u) as (w & Hw & Hwb).
  { exists (u + (nf - u)). cbn. repeat split; lia. }
  { done. } { done. }
  exists w. cbn in Hwb. split; [done|lia].
Qed.

Definition settled (t : Z) (k : Coalesce) : Prop := coalesceTimer k = None \/ armed_by t k.

Lemma kick_armed (t u : Z) (k : Coalesce) :
  0 < coalesceStep <= coalesceMax -> settled t k -> t <= u ->
  exists k' w, (let '(k1, w1) := fire u k in let '(k2, w2) := kick u k1 in (k2, w1 ++ w2)) = (k', w)
    /\ armed_by u k' /\ (length w <= 1)%nat /\ (coalesceTimer k = None -> w = []).
Proof.
  intros Hs Hk Hu. unfold fire, kick. rewrite (proj2 (Z.leb_gt coalesceStep 0)) by lia.
  assert (Hnew : armed_by u (mkCoalesce (Some (u + coalesceStep)) (u + coalesceMax))).
  { exists (u + coalesceStep). cbn. repeat split; lia. }
  destruct Hk as [Hn|(f & Hf & Hlo & Hhi)].
  - rewrite Hn. cbn. rewrite ?Hn. do 2 eexists. split; [reflexivity|]. split; [exact Hnew|]. cbn. split; [lia|done].
  - rewrite Hf. destruct (Z.leb_spec f u); cbn.
    + do 2 eexists. split; [reflexivity|]. split; [exact Hnew|]. cbn. split; [lia|done].
    + rewrite Hf. set (nf := if After _ _ then _ else _).
      assert (Hnf : nf <= coalesceDeadline k /\ u < nf).
      { unfold nf, After. destruct (Z.ltb_spec (coalesceDeadline k) (u + coalesceStep)); lia. }
      rewrite (proj2 (Z.leb_gt _ _)) by lia. do 2 eexists. split; [reflexivity|].
      split; [|split; [cbn; lia|done]]. exists (u + (nf - u)). cbn. repeat split; lia.
Qed.

Lemma run_app_settled (pre : list Z) (u : Z) (post : list Z) (k : Coalesce) (t : Z) :
  0 < coalesceStep <= coalesceMax -> settled t k -> (forall v, v ∈ pre ++ u :: post -> t <= v) ->
  StronglySorted Z.le (pre ++ u :: post) ->
  exists w, w ∈ run (pre ++ u :: post) k /\ u <= w <= u + coalesceMax.
Proof.
  intros Hs. revert k t. induction pre as [|v pre IH]; intros k t Hk Hge Hsort;
    cbn [app run] in *; apply StronglySorted_inv in Hsort as [Hsort Hall]; rewrite Forall_forall in Hall.
  - destruct (kick_armed t u k Hs Hk) as (k' & w & He & Ha & _); [apply Hge; left|].
    destruct (fire u k) as [k1 w1]. destruct (kick u k1) as [k2 w2]. injection He as -> <-.
    destruct (run_armed post k' u Hs Ha Hall) as (x & Hx & Hb); [by apply StronglySorted_Sorted|].
    exists x. rewrite app_assoc. split; [apply elem_of_app; by right|].
    destruct Ha as (f & _ & _ & Hd). lia.
  - destruct (kick_armed t v k Hs Hk) as (k' & w & He & Ha & _); [apply Hge; left|].
    destruct (fire v k) as [k1 w1]. destruct (kick v k1) as [k2 w2]. injection He as -> <-.
    destruct (IH k' v) as (x & Hx & Hb); [by right|done|done|].
    exists x. rewrite app_assoc. split; [apply elem_of_app; by right|done].
Qed.

Lemma run_length (ts : list Z) (k : Coalesce) :
  (length (run ts k) <= length ts + (if coalesceTimer k then 1 else 0))%nat.
Proof.
  revert k. induction ts as [|t ts IH]; intros k; cbn [run]; [by destruct (coalesceTimer k)|].
  unfold fire, kick. destruct (coalesceTimer k) as [f|] eqn:Hf.
  - destruct (f <=? t); cbn; rewrite ?Hf; repeat case_bool; cbn;
      match goal with |- context [run ts ?k2] => specialize (IH k2) end; cbn in IH; rewrite ?Hf in IH; lia.
  - rewrite Hf. repeat case_bool; cbn;
      match goal with |- context [run ts ?k2] => specialize (IH k2) end; cbn in IH; rewrite ?Hf in IH; lia.
Qed.

End Kick.

(** C35: coalescing delays a wake-up but never loses one.  With a step between 0
    and the maximum, every kick of a run is followed by a broadcast no later
    than the maximum after it, whatever kicks come in between; a run never
    broadcasts more often than it is kicked; and with coalescing off every
    kick broadcasts at once. *)
Theorem kick_wakes (step max u : Z) (pre post : list Z) :
  0 < step <= max -> StronglySorted Z.le (pre ++ u :: post) ->
  (exists w, w ∈ run step max (pre ++ u :: post) no_timer /\ u <= w <= u + max)
  /\ (length (run step max (pre ++ u :: post) no_timer) <= length (pre ++ u :: post))%nat
  /\ run 0 max (pre ++ u :: post) no_timer = pre ++ u :: post.
Proof.
  intros Hs Hsort. split; [|split].
  - set (t := match pre with v :: _ => v | [] => u end).
    apply (run_app_settled step max pre u post no_timer t Hs); [by left| |done].
    intros v Hv. subst t. destruct pre as [|p pre]; cbn in *;
      apply StronglySorted_inv in Hsort as [_ Hall]; rewrite Forall_forall in Hall;
      apply elem_of_cons in Hv as [->|Hv]; auto; lia.
  - pose proof (run_length step max (pre ++ u :: post) no_timer) as Hl. cbn in Hl. lia.
  - generalize (pre ++ u :: post) as ts. intros ts. induction ts as [|t ts IH]; [done|].
    cbn. by rewrite IH.
Qed.

Lemma kick_wakes_witness :
  run 10 25 [100; 105; 112; 118; 200] no_timer = [125; 210]
  /\ exists w, w ∈ run 10 25 [100; 105; 112; 118; 200] no_timer /\ 112 <= w <= 112 + 25.
Proof.
  split; [reflexivity|].
  apply (kick_wakes 10 25 112 [100; 105] [118; 200]); [lia|].
  repeat constructor; lia.
Defined.
