(* ===== verification/Carrier.v ===== *)
(** * internal/carrier/client.go: the session table of the client

    [Client] is the state that [c.mu], [c.endpointMu] and [c.idlePollMu]
    protect, and each operation below is one critical section.  Iterating over
    a Go map and sorting with the unstable [sort.Slice] leave the order of
    sessions queued at the same instant open: [drainAll] takes the order as an
    argument, and [valid_order] says which orders the code can use.  Maps whose
    values carry no information ([inFlight], whose entries are all [true], and
    [txReady]) are sets.  The theorems say what a batch may hold, that no
    session is in two polls at once, and that no session with pending data is
    ever forgotten, under every interleaving of the critical sections. *)

From S2P Require Import Prelude GoStd Frame Session SessionApi Endpoints.

Definition MaxFramePayload : Z := 256 * 1024.
Definition pollIdleSleep : Z := 10 * Millisecond.
Definition pureDownloadIdleCap : Z := 2.
Definition maxDrainFramesPerSession : Z := 8.
Definition maxDrainFramesPerBatch : Z := 48.
Definition busySessionThreshold : Z := 24.
Definition maxDrainFramesPerBatchBusy : Z := 144.
Definition maxRelayResponseBodyBytes : Z := 32 * 1024 * 1024.
Definition workersPerEndpoint : Z := 4.

(** [clientStats]; the counters are uint64. *)
Record clientStats := mkCStats {
  framesOut : Z; framesIn : Z; bytesOut : Z; bytesIn : Z;
  pollsOK : Z; pollsFail : Z; rstFromServer : Z;
  sessionsOpen : Z; sessionsClose : Z;
}.

Definition zero_stats : clientStats := mkCStats 0 0 0 0 0 0 0 0 0.

Section Client.
Context {S : Type} {A : SessionApi S}.

Record Client := mkClient {
  sessions : gmap bytes S;
  inFlight : gset bytes;
  txReady : gset bytes;
  relays : Endpoints;
  idlePollInFlight : Z;
  cstats : clientStats;
}.

Definition set_table (m : gmap bytes S) (fl rdy : gset bytes) (c : Client) : Client :=
  mkClient m fl rdy (relays c) (idlePollInFlight c) (cstats c).
Definition set_relays (e : Endpoints) (c : Client) : Client :=
  mkClient (sessions c) (inFlight c) (txReady c) e (idlePollInFlight c) (cstats c).
Definition set_idle (n : Z) (c : Client) : Client :=
  mkClient (sessions c) (inFlight c) (txReady c) (relays c) n (cstats c).
Definition set_stats (st : clientStats) (c : Client) : Client :=
  mkClient (sessions c) (inFlight c) (txReady c) (relays c) (idlePollInFlight c) st.

(** ** Sessions *)

Definition stats_open (st : clientStats) : clientStats :=
  mkCStats (framesOut st) (framesIn st) (bytesOut st) (bytesIn st) (pollsOK st)
    (pollsFail st) (rstFromServer st) (u64 (sessionsOpen st + 1)) (sessionsClose st).
Definition stats_close (st : clientStats) : clientStats :=
  mkCStats (framesOut st) (framesIn st) (bytesOut st) (bytesIn st) (pollsOK st)
    (pollsFail st) (rstFromServer st) (sessionsOpen st) (u64 (sessionsClose st + 1)).
Definition stats_rst (st : clientStats) : clientStats :=
  mkCStats (framesOut st) (framesIn st) (bytesOut st) (bytesIn st) (pollsOK st)
    (pollsFail st) (u64 (rstFromServer st + 1)) (sessionsOpen st) (sessionsClose st).

(** [id] is what [crypto/rand] produced. *)
Definition NewSession (now : Z) (id target : bytes) (c : Client) : Client :=
  set_stats (stats_open (cstats c))
    (set_table (<[id := api_new now id target true]> (sessions c)) (inFlight c)
               ({[id]} ∪ txReady c) c).

(** The [OnTx] callback of session [id]. *)
Definition OnTx (id : bytes) (c : Client) : Client :=
  set_table (sessions c) (inFlight c) ({[id]} ∪ txReady c) c.

Definition update_session (id : bytes) (f : S -> S) (c : Client) : Client :=
  set_table (alter f id (sessions c)) (inFlight c) (txReady c) c.

Definition forget (id : bytes) (c : Client) : Client :=
  set_table (delete id (sessions c)) (inFlight c) (txReady c ∖ {[id]}) c.

(** ** Draining *)

Record DrainSt := mkDrain {
  dcl : Client;
  dout : list Frame;
  dids : list bytes;
  dremaining : Z;
}.

(** The closure [drain] of [drainAll]. *)
Definition drain_one (now : Z) (synOnly : bool) (id : bytes) (d : DrainSt) : DrainSt :=
  let c := dcl d in
  if dremaining d <=? 0 then d else
  match sessions c !! id with
  | None => mkDrain (set_table (sessions c) (inFlight c) (txReady c ∖ {[id]}) c)
                    (dout d) (dids d) (dremaining d)
  | Some s =>
      if bool_decide (id ∈ inFlight c) then d else
      if synOnly && negb (api_pending_syn s) then d else
      let perSessionCap :=
        if dremaining d <? maxDrainFramesPerSession then dremaining d
        else maxDrainFramesPerSession in
      let '(s', frames) := api_drain now MaxFramePayload perSessionCap s in
      let m := <[id := s']> (sessions c) in
      let rdy := txReady c ∖ {[id]} in
      if len frames =? 0 then mkDrain (set_table m (inFlight c) rdy c) (dout d) (dids d) (dremaining d)
      else mkDrain (set_table m ({[id]} ∪ inFlight c) rdy c)
                   (dout d ++ frames) (dids d ++ [id]) (dremaining d - len frames)
  end.

Definition drain_pass (now : Z) (synOnly : bool) (order : list bytes) (d : DrainSt) : DrainSt :=
  foldl (fun d id => drain_one now synOnly id d) d order.

Definition batch_cap (c : Client) : Z :=
  if busySessionThreshold <=? Z.of_nat (size (sessions c))
  then maxDrainFramesPerBatchBusy else maxDrainFramesPerBatch.

(** The loop over [c.txReady] that builds [refs] also drops stale entries. *)
Definition prune (c : Client) : Client :=
  set_table (sessions c) (inFlight c)
    (filter (fun id => is_Some (sessions c !! id)) (txReady c)) c.

Definition queue_age (c : Client) (id : bytes) : Z := from_option api_queued_at 0 (sessions c !! id).

Definition older (c : Client) (a b : bytes) : Prop := queue_age c a <= queue_age c b.

#[export] Instance older_dec c : RelDecision (older c).
Proof. intros a b. unfold older. apply _. Defined.

(** The orders of [refs] that [sort.Slice] can produce. *)
Definition valid_order (c : Client) (order : list bytes) : Prop :=
  order ≡ₚ elements (txReady (prune c))
  /\ Sorted (older c) order.

Definition drainAll (now : Z) (order : list bytes) (c : Client) : Client * list Frame * list bytes :=
  let c := prune c in
  let d := mkDrain c [] [] (batch_cap c) in
  let d := drain_pass now true order d in
  let d := drain_pass now false order d in
  (dcl d, dout d, dids d).

(** One admissible order, for evaluation. *)
Definition some_order (c : Client) : list bytes :=
  merge_sort (older c) (elements (txReady (prune c))).

Definition release_one (id : bytes) (c : Client) : Client :=
  let rdy := match sessions c !! id with
             | Some s => if api_pending s then {[id]} ∪ txReady c else txReady c
             | None => txReady c
             end in
  set_table (sessions c) (inFlight c ∖ {[id]}) rdy c.

Definition releaseInFlight (ids : list bytes) (c : Client) : Client :=
  foldl (fun c id => release_one id c) c ids.

(** ** Receiving *)

(** [routeRx] on a frame of a known session with the RST flag: [CloseRx],
    [RequestClose] (whose [OnTx] marks the session ready), the removal and
    [Stop].  The session that was removed is the second component. *)
Definition reset_session (now : Z) (id : bytes) (s : S) (c : Client) : res Empty_set (Client * S) :=
  let! s := api_close_rx s in
  let s := api_request_close now s in
  let c := set_table (<[id := s]> (sessions c)) (inFlight c) (txReady c) c in
  let c := forget id (OnTx id c) in
  Ok (set_stats (stats_close (stats_rst (cstats c))) c, api_stop s).

Definition routeRx (now : Z) (timeout : bool) (f : Frame) (c : Client) : res Empty_set Client :=
  match sessions c !! SessionID f with
  | None => Ok c
  | Some s =>
      if HasFlag f FlagRST then
        let! p := reset_session now (SessionID f) s c in Ok (fst p)
      else Ok (set_table (<[SessionID f := api_process timeout f s]> (sessions c))
                         (inFlight c) (txReady c) c)
  end.

(** One session of the loop of [gcDoneSessions]. *)
Definition gc_one (now : Z) (id : bytes) (c : Client) : Client :=
  match sessions c !! id with
  | Some s => if api_done now s then set_stats (stats_close (cstats c)) (forget id c) else c
  | None => c
  end.

(** [order] lists the keys as the range loop meets them. *)
Definition gcDoneSessions (now : Z) (order : list bytes) (c : Client) : Client :=
  foldl (fun c id => gc_one now id c) c order.

(** ** Idle poll slots *)

Definition acquireIdlePollSlot (cap : Z) (c : Client) : Client * bool :=
  if cap <=? idlePollInFlight c then (c, false)
  else (set_idle (idlePollInFlight c + 1) c, true).

Definition releaseIdlePollSlot (c : Client) : Client :=
  if 0 <? idlePollInFlight c then set_idle (idlePollInFlight c - 1) c else c.

End Client.
Arguments Client S : clear implicits.
Arguments DrainSt S : clear implicits.

(** ** The back-off of an idle worker *)

Definition idleBackoff (n : Z) : Z :=
  if n <? 3 then pollIdleSleep else
  if n <? 10 then 50 * Millisecond else
  if n <? 30 then 250 * Millisecond else
  Second.

(** ** What a drain does *)

Section DrainLemmas.
Context {S : Type} {A : SessionApi S} {AO : SessionApiOk S}.
Implicit Types (c : Client S) (d : DrainSt S) (id : bytes).

(** Every session is in order and registered under its own identifier. *)
Definition table_ok c : Prop :=
  forall id s, sessions c !! id = Some s -> api_ok s /\ api_id s = id.

(** One session's share of a batch: what a single drain of it returned. *)
Definition share (now : Z) (m0 m : gmap bytes S) (p : bytes * list Frame) : Prop :=
  exists s0 s' cap, m0 !! fst p = Some s0 /\ m !! fst p = Some s'
    /\ 0 < cap <= maxDrainFramesPerSession
    /\ api_drain now MaxFramePayload cap s0 = (s', snd p) /\ snd p <> [].

(** The state of a drain of [c0] after the shares [parts]. *)
Record drained_to (now : Z) (c0 : Client S) (parts : list (bytes * list Frame)) (d : DrainSt S) : Prop := {
  dt_out : dout d = concat (map snd parts);
  dt_ids : dids d = map fst parts;
  dt_nodup : NoDup (map fst parts);
  dt_shares : Forall (share now (sessions c0) (sessions (dcl d))) parts;
  dt_others : forall id, id ∉ map fst parts -> sessions (dcl d) !! id = sessions c0 !! id;
  dt_fresh : forall id, id ∈ map fst parts -> id ∉ inFlight c0;
  dt_flight : inFlight (dcl d) = inFlight c0 ∪ list_to_set (map fst parts);
  dt_ready : txReady (dcl d) ⊆ txReady c0;
  dt_kept : forall id s, id ∈ txReady c0 -> sessions c0 !! id = Some s -> api_pending s = true ->
      id ∈ txReady (dcl d) \/ id ∈ map fst parts;
  dt_rem : dremaining d + len (dout d) = batch_cap c0 /\ 0 <= dremaining d;
  dt_rest : relays (dcl d) = relays c0 /\ idlePollInFlight (dcl d) = idlePollInFlight c0
    /\ cstats (dcl d) = cstats c0;
}.

Lemma batch_cap_pos c : 0 < batch_cap c.
Proof. unfold batch_cap. by case_bool. Qed.

Lemma drained_to_init now c : drained_to now c [] (mkDrain c [] [] (batch_cap c)).
Proof.
  pose proof (batch_cap_pos c). constructor; cbn; try done.
  - constructor.
  - intros id Hid. by apply elem_of_nil in Hid.
  - set_solver.
  - auto.
  - unfold len. cbn. lia.
Qed.

Lemma share_mono (now : Z) (m0 m m' : gmap bytes S) (parts : list (bytes * list Frame)) :
  (forall id, id ∈ map fst parts -> m' !! id = m !! id) ->
  Forall (share now m0 m) parts -> Forall (share now m0 m') parts.
Proof.
  intros Hm Hall. apply Forall_forall. intros p Hp.
  rewrite Forall_forall in Hall. destruct (Hall p Hp) as (s0 & s' & cap & H0 & H1 & H).
  exists s0, s', cap. split; [done|]. split; [|done]. rewrite Hm; [done|].
  by apply list_elem_of_fmap_2.
Qed.

Section DrainStep.
Context (now : Z) (id : bytes) (c0 : Client S) (parts : list (bytes * list Frame))
  (d : DrainSt S) (s0 : S) (H : drained_to now c0 parts d)
  (Hs0 : sessions c0 !! id = Some s0) (Hnin : id ∉ map fst parts).

(** A session with nothing to send only leaves [txReady]. *)
Lemma drained_to_empty :
  api_pending s0 = false ->
  drained_to now c0 parts
    (mkDrain (set_table (<[id := s0]> (sessions (dcl d))) (inFlight (dcl d))
                        (txReady (dcl d) ∖ {[id]}) (dcl d)) (dout d) (dids d) (dremaining d)).
Proof.
  intros Hpend. destruct H. constructor; cbn; try done.
  - eapply share_mono; [|done]. intros i Hi. rewrite lookup_insert_ne; [done|]. congruence.
  - intros i Hi. destruct (decide (i = id)) as [->|]; [by rewrite lookup_insert_eq|].
    rewrite lookup_insert_ne by done. by apply dt_others0.
  - clear - dt_ready0. set_solver.
  - intros i s Hi Hsi Hpi. destruct (decide (i = id)) as [->|Hne]; [congruence|].
    destruct (dt_kept0 i s Hi Hsi Hpi) as [Hk|]; [left|by right]. clear - Hk Hne. set_solver.
Qed.

(** A session that had something to send adds its share. *)
Lemma drained_to_more s' fs cap :
  id ∉ inFlight (dcl d) -> 0 < cap <= maxDrainFramesPerSession -> len fs <= dremaining d ->
  api_drain now MaxFramePayload cap s0 = (s', fs) -> fs <> [] ->
  drained_to now c0 (parts ++ [(id, fs)])
    (mkDrain (set_table (<[id := s']> (sessions (dcl d))) ({[id]} ∪ inFlight (dcl d))
                        (txReady (dcl d) ∖ {[id]}) (dcl d))
             (dout d ++ fs) (dids d ++ [id]) (dremaining d - len fs)).
Proof.
  intros Hf Hcap Hle Hd Hne. pose proof (len_nonneg fs).
  destruct H. constructor; cbn; rewrite ?map_app; cbn [map fst snd].
  - rewrite concat_app, dt_out0. cbn. by rewrite app_nil_r.
  - by rewrite dt_ids0.
  - apply NoDup_app. split; [done|]. split; [|apply NoDup_singleton].
    by intros i Hi ->%list_elem_of_singleton.
  - apply Forall_app. split.
    + eapply share_mono; [|done]. intros i Hi. rewrite lookup_insert_ne; [done|]. congruence.
    + apply Forall_singleton. exists s0, s', cap. cbn. by rewrite lookup_insert_eq.
  - intros i Hi. rewrite elem_of_app, list_elem_of_singleton in Hi.
    rewrite lookup_insert_ne by intuition congruence. apply dt_others0. intuition.
  - intros i [Hi| ->%list_elem_of_singleton]%elem_of_app; [by apply dt_fresh0|].
    rewrite dt_flight0 in Hf. clear - Hf. set_solver.
  - rewrite dt_flight0, list_to_set_app_L. cbn. clear. set_solver.
  - clear - dt_ready0. set_solver.
  - intros i s Hi Hsi Hpi. rewrite elem_of_app, list_elem_of_singleton.
    destruct (decide (i = id)) as [->|Hnei]; [auto|].
    destruct (dt_kept0 i s Hi Hsi Hpi) as [Hk|]; [left|auto]. clear - Hk Hnei. set_solver.
  - rewrite len_app. lia.
  - done.
Qed.

End DrainStep.

(** The cases of one call of the closure. *)
Lemma drain_one_spec now (syn : bool) id c0 parts d s0 :
  table_ok c0 -> drained_to now c0 parts d -> sessions c0 !! id = Some s0 ->
  (drain_one now syn id d = d
   /\ (dremaining d <= 0 \/ id ∈ inFlight (dcl d) \/ (syn = true /\ api_pending_syn s0 = false)))
  \/ (api_pending s0 = false /\ drained_to now c0 parts (drain_one now syn id d)
       /\ dremaining (drain_one now syn id d) = dremaining d)
  \/ exists fs, api_pending s0 = true /\ (syn = true -> api_pending_syn s0 = true)
       /\ drained_to now c0 (parts ++ [(id, fs)]) (drain_one now syn id d).
Proof.
  intros Hok H Hs0. unfold drain_one.
  destruct (Z.leb_spec (dremaining d) 0) as [|Hrem]; [left; auto|].
  destruct (decide (id ∈ map fst parts)) as [Hin|Hnin].
  { assert (id ∈ inFlight (dcl d)).
    { rewrite (dt_flight _ _ _ _ H). apply elem_of_union_r, elem_of_list_to_set, Hin. }
    destruct (sessions (dcl d) !! id) eqn:He; [rewrite bool_decide_eq_true_2 by done; left; auto|].
    apply list_elem_of_fmap in Hin as (p & -> & Hp).
    pose proof (dt_shares _ _ _ _ H) as Hsh. rewrite Forall_forall in Hsh.
    destruct (Hsh p Hp) as (? & ? & ? & _ & ? & _). congruence. }
  rewrite (dt_others _ _ _ _ H id Hnin), Hs0.
  destruct (bool_decide_reflect (id ∈ inFlight (dcl d))) as [Hf|Hf]; [left; auto|].
  destruct (syn && negb (api_pending_syn s0)) eqn:Hsyn.
  { apply andb_true_iff in Hsyn as [-> Hsyn%negb_true_iff]. left. auto. }
  set (cap := if dremaining d <? maxDrainFramesPerSession then _ else _).
  assert (Hcap : 0 < cap <= maxDrainFramesPerSession /\ cap <= dremaining d).
  { unfold cap. destruct (Z.ltb_spec (dremaining d) maxDrainFramesPerSession);
      unfold maxDrainFramesPerSession in *; lia. }
  clearbody cap. destruct (api_drain now MaxFramePayload cap s0) as [s' fs] eqn:Hd.
  destruct (Hok id s0 Hs0) as [Hos Hids].
  destruct (drain_ok now MaxFramePayload cap s0 s' fs Hos Hd) as (_ & _ & Hp & _ & Hlen & _ & _ & Hnil).
  right. destruct (Z.eqb_spec (len fs) 0) as [Hz|Hz].
  - apply len_zero in Hz as ->. left. rewrite (Hnil eq_refl).
    assert (Hpend : api_pending s0 = false).
    { destruct (api_pending s0); [|done]. by destruct Hp as [_ []]. }
    split; [done|]. split; [by apply drained_to_empty|done].
  - right. exists fs. assert (Hne : fs <> []) by (intros ->; by apply Hz).
    split; [by apply Hp|]. split; [intros ->; by apply negb_false_iff in Hsyn|].
    pose proof (Hlen ltac:(lia)). destruct Hcap. eapply drained_to_more; try done. lia.
Qed.

(** A pass over [order] extends the shares; a session it left out although it
    could have been drained was reached when the batch was full. *)
Lemma drain_pass_spec now (syn : bool) c0 order parts d :
  table_ok c0 -> drained_to now c0 parts d ->
  (forall id, id ∈ order -> is_Some (sessions c0 !! id)) ->
  exists more, drained_to now c0 (parts ++ more) (drain_pass now syn order d)
    /\ (forall p, p ∈ more -> fst p ∈ order)
    /\ (syn = true -> forall p s, p ∈ more -> sessions c0 !! fst p = Some s -> api_pending_syn s = true)
    /\ (forall id s, id ∈ order -> sessions c0 !! id = Some s -> api_pending s = true ->
          id ∉ inFlight c0 -> (syn = true -> api_pending_syn s = true) ->
          id ∈ map fst (parts ++ more) \/ dremaining (drain_pass now syn order d) <= 0).
Proof.
  intros Hok. revert parts d. induction order as [|i order IH]; intros parts d H Hin.
  { exists []. rewrite app_nil_r. split; [done|]. split; [by intros p ?%elem_of_nil|].
    split; [by intros _ p s ?%elem_of_nil|by intros id s ?%elem_of_nil]. }
  destruct (Hin i) as [s0 Hs0]; [left|]. cbn [drain_pass foldl].
  fold (drain_pass now syn order (drain_one now syn i d)).
  assert (Hin' : forall id, id ∈ order -> is_Some (sessions c0 !! id)) by (intros; apply Hin; by right).
  assert (Hmono : forall parts' more d', drained_to now c0 (parts' ++ more) d' ->
    forall d1, drained_to now c0 parts' d1 -> dremaining d' <= dremaining d1).
  { intros parts' more d' Hd' d1 Hd1. pose proof (dt_rem _ _ _ _ Hd') as [He _].
    pose proof (dt_rem _ _ _ _ Hd1) as [He1 _].
    rewrite (dt_out _ _ _ _ Hd'), map_app, concat_app, len_app, <- (dt_out _ _ _ _ Hd1) in He.
    pose proof (len_nonneg (concat (map snd more))). lia. }
  destruct (drain_one_spec now syn i c0 parts d s0 Hok H Hs0)
    as [[He Hwhy]|[(Hp & Hd & He)|(fs & Hp & Hsyn & Hd)]].
  - rewrite He. destruct (IH parts d H Hin') as (more & Hm & Ho & Hs & Hall).
    exists more. split; [done|]. split; [intros p Hp; right; auto|]. split; [done|].
    intros id s [->|Hid]%elem_of_cons Hsi Hpi Hf Hsy; [|eauto].
    assert (s = s0) as -> by congruence. destruct Hwhy as [Hrem|[Hfl|[-> Hns]]].
    + right. pose proof (Hmono _ _ _ Hm _ H). lia.
    + left. rewrite (dt_flight _ _ _ _ H), elem_of_union, elem_of_list_to_set in Hfl.
      rewrite map_app, elem_of_app. intuition.
    + rewrite Hsy in Hns by done. done.
  - destruct (IH parts _ Hd Hin') as (more & Hm & Ho & Hs & Hall).
    exists more. split; [done|]. split; [intros p Hp'; right; auto|]. split; [done|].
    intros id s [->|Hid]%elem_of_cons Hsi Hpi Hf Hsy; [congruence|eauto].
  - destruct (IH _ _ Hd Hin') as (more & Hm & Ho & Hs & Hall). exists ((i, fs) :: more).
    assert (Hcons : parts ++ (i, fs) :: more = (parts ++ [(i, fs)]) ++ more) by (by rewrite <- app_assoc).
    rewrite Hcons. split; [done|].
    split; [intros p [->|Hp']%elem_of_cons; [left|right; auto]|].
    split; [intros Hsy p s [->|Hp']%elem_of_cons Hps; [cbn in Hps; assert (s = s0) as -> by congruence; auto|eauto]|].
    intros id s [->|Hid]%elem_of_cons Hsi Hpi Hf Hsy; [|eauto]. left.
    rewrite !map_app, !elem_of_app. left. right. by left.
Qed.

Lemma valid_order_in c order id :
  valid_order c order -> id ∈ order <-> id ∈ txReady c /\ is_Some (sessions c !! id).
Proof.
  intros [Hp _]. rewrite Hp, elem_of_elements. unfold prune. cbn. rewrite elem_of_filter. tauto.
Qed.

Lemma some_order_valid c : valid_order c (some_order c).
Proof.
  split; [apply merge_sort_Permutation|].
  assert (Total (older c)) by (intros a b; unfold older; lia).
  apply (Sorted_merge_sort (older c)).
Qed.

(** [drainAll] as two passes of shares over the pruned table. *)
Lemma drainAll_spec now order c c' out ids :
  table_ok c -> valid_order c order -> drainAll now order c = (c', out, ids) ->
  exists syns rest d,
    c' = dcl d /\ out = dout d /\ ids = dids d
    /\ drained_to now (prune c) (syns ++ rest) d
    /\ (forall p s, p ∈ syns -> sessions c !! fst p = Some s -> api_pending_syn s = true)
    /\ (forall id s, id ∈ txReady c -> sessions c !! id = Some s -> api_pending s = true ->
          id ∉ inFlight c ->
          (id ∈ ids \/ len out = batch_cap c)
          /\ (api_pending_syn s = true -> id ∈ map fst syns \/ len (concat (map snd syns)) = batch_cap c)).
Proof.
  intros Hok Hord Hd. unfold drainAll in Hd. injection Hd as <- <- <-.
  assert (Hok' : table_ok (prune c)) by done.
  assert (Hin : forall id, id ∈ order -> is_Some (sessions (prune c) !! id)).
  { intros id Hid. by apply (valid_order_in c order id Hord). }
  destruct (drain_pass_spec now true (prune c) order [] _ Hok' (drained_to_init now (prune c)) Hin)
    as (syns & H1 & _ & Hsyn & Hall1).
  destruct (drain_pass_spec now false (prune c) order syns _ Hok' H1 Hin)
    as (rest & H2 & _ & _ & Hall2).
  exists syns, rest. eexists. split; [done|]. split; [done|]. split; [done|].
  split; [exact H2|]. split; [intros p s Hp Hs; by apply (Hsyn eq_refl p s)|].
  intros id s Hr Hs Hp Hf.
  assert (Ho : id ∈ order) by (apply (valid_order_in c order id Hord); by split; [|exists s]).
  split.
  - destruct (Hall2 id s Ho Hs Hp Hf) as [Hi|Hrem]; [done|left; by rewrite (dt_ids _ _ _ _ H2)|].
    right. pose proof (dt_rem _ _ _ _ H2) as [He Hge]. change (batch_cap (prune c)) with (batch_cap c) in *. lia.
  - intros Hsy. destruct (Hall1 id s Ho Hs Hp Hf) as [Hi|Hrem]; [done|left; exact Hi|].
    right. pose proof (dt_rem _ _ _ _ H1) as [He Hge]. rewrite (dt_out _ _ _ _ H1) in He.
    change (batch_cap (prune c)) with (batch_cap c) in *. cbn [app] in *. lia.
Qed.

(** The shares of a batch, as facts about the table before and after. *)
Lemma drainAll_shares now order c c' out ids :
  table_ok c -> valid_order c order -> drainAll now order c = (c', out, ids) ->
  exists parts, out = concat (map snd parts) /\ ids = map fst parts /\ NoDup ids
  /\ len out <= batch_cap c
  /\ (forall id fs, (id, fs) ∈ parts -> id ∉ inFlight c /\ fs <> []
        /\ exists s s' cap, sessions c !! id = Some s /\ sessions c' !! id = Some s'
             /\ 0 < cap <= maxDrainFramesPerSession
             /\ api_drain now MaxFramePayload cap s = (s', fs))
  /\ (forall f, f ∈ out -> SessionID f ∈ ids /\ len (Payload f) <= MaxFramePayload)
  /\ (forall id, id ∉ ids -> sessions c' !! id = sessions c !! id)
  /\ inFlight c' = inFlight c ∪ list_to_set ids /\ txReady c' ⊆ txReady c.
Proof.
  intros Hok Hord Hd.
  destruct (drainAll_spec now order c c' out ids Hok Hord Hd)
    as (syns & rest & d & -> & -> & -> & H & _ & _).
  set (parts := syns ++ rest) in *. exists parts.
  assert (Hsh : forall id fs, (id, fs) ∈ parts -> share now (sessions c) (sessions (dcl d)) (id, fs)).
  { intros id fs Hp. pose proof (dt_shares _ _ _ _ H) as Hall. rewrite Forall_forall in Hall.
    exact (Hall _ Hp). }
  split; [apply (dt_out _ _ _ _ H)|]. rewrite (dt_ids _ _ _ _ H). split; [done|].
  split; [apply (dt_nodup _ _ _ _ H)|]. split.
  { pose proof (dt_rem _ _ _ _ H) as [He Hge]. change (batch_cap (prune c)) with (batch_cap c) in *. lia. }
  split; [|split; [|split; [|split]]].
  - intros id fs Hp. destruct (Hsh id fs Hp) as (s & s' & cap & H0 & H1 & Hc & Hdr & Hne).
    split; [|split; [done|by exists s, s', cap]].
    apply (dt_fresh _ _ _ _ H). by apply (list_elem_of_fmap_2 fst) in Hp.
  - intros f Hf. rewrite (dt_out _ _ _ _ H) in Hf.
    apply elem_of_concat in Hf as (fs & Hf & (p & -> & Hp)%list_elem_of_fmap).
    destruct p as [id fs]. destruct (Hsh id fs Hp) as (s & s' & cap & H0 & H1 & Hc & Hdr & Hne).
    destruct (Hok id s H0) as [Hos Hid].
    destruct (drain_ok now MaxFramePayload cap s s' fs Hos Hdr) as (_ & _ & _ & Hown & _ & Hsz & _).
    rewrite (Hown f Hf), Hid. split; [by apply (list_elem_of_fmap_2 fst) in Hp|by apply Hsz].
  - intros id Hid. by apply (dt_others _ _ _ _ H).
  - apply (dt_flight _ _ _ _ H).
  - pose proof (dt_ready _ _ _ _ H) as Hr. cbn in Hr. set_solver.
Qed.

(** A ready session is served or stays ready. *)
Lemma drainAll_ready now order c c' out ids id s :
  table_ok c -> valid_order c order -> drainAll now order c = (c', out, ids) ->
  id ∈ txReady c -> sessions c !! id = Some s -> api_pending s = true -> id ∉ inFlight c ->
  id ∈ ids \/ (len out = batch_cap c /\ id ∈ txReady c').
Proof.
  intros Hok Hord Hd Hr Hs Hp Hf.
  destruct (drainAll_spec now order c c' out ids Hok Hord Hd)
    as (syns & rest & d & -> & -> & -> & H & _ & Hall).
  destruct (Hall id s Hr Hs Hp Hf) as [[|Hfull] _]; [by left|]. rewrite (dt_ids _ _ _ _ H).
  destruct (dt_kept _ _ _ _ H id s) as [Hk|Hk]; [|done|done|by right|by left].
  unfold prune. cbn. apply elem_of_filter. split; [by exists s|done].
Qed.

End DrainLemmas.

(** ** Properties of one batch *)

Section BatchProps.
Context {S : Type} {A : SessionApi S} {AO : SessionApiOk S}.
Implicit Types (c : Client S) (id : bytes).

(** What one batch holds.  It is the concatenation of one capped drain (at
    most 8 frames of at most 256 KiB) of each of several distinct sessions that
    were not in flight; it never exceeds the batch cap; every frame belongs to
    a listed session; the listed sessions are now in flight and no other
    session changed. *)
Theorem drainAll_batch now order c c' out ids :
  table_ok c -> valid_order c order -> drainAll now order c = (c', out, ids) ->
  exists parts, out = concat (map snd parts) /\ ids = map fst parts /\ NoDup ids
  /\ len out <= batch_cap c
  /\ (forall id fs, (id, fs) ∈ parts -> id ∉ inFlight c /\ fs <> []
        /\ exists s s' cap, sessions c !! id = Some s /\ sessions c' !! id = Some s'
             /\ 0 < cap <= maxDrainFramesPerSession
             /\ api_drain now MaxFramePayload cap s = (s', fs))
  /\ (forall f, f ∈ out -> SessionID f ∈ ids /\ len (Payload f) <= MaxFramePayload)
  /\ (forall id, id ∉ ids -> sessions c' !! id = sessions c !! id)
  /\ inFlight c' = inFlight c ∪ list_to_set ids /\ txReady c' ⊆ txReady c.
Proof. apply drainAll_shares. Qed.

(** C29: who is served.  A session that is marked ready, has something to send
    and is not in flight is drained, unless the batch is full, and then it
    stays marked for the next poll; and connections being opened come first:
    if one of them is left out, the batch is full of frames of others that are
    being opened. *)
Theorem drainAll_serves now order c c' out ids id s :
  table_ok c -> valid_order c order -> drainAll now order c = (c', out, ids) ->
  id ∈ txReady c -> sessions c !! id = Some s -> api_pending s = true -> id ∉ inFlight c ->
  (id ∈ ids \/ (len out = batch_cap c /\ id ∈ txReady c'))
  /\ (api_pending_syn s = true -> id ∉ ids ->
        forall f, f ∈ out -> exists s', sessions c !! SessionID f = Some s' /\ api_pending_syn s' = true).
Proof.
  intros Hok Hord Hd Hr Hs Hp Hf.
  split; [by eapply drainAll_ready|].
  destruct (drainAll_spec now order c c' out ids Hok Hord Hd)
    as (syns & rest & d & -> & -> & -> & H & Hsyns & Hall).
  destruct (Hall id s Hr Hs Hp Hf) as [_ Hfirst].
  - intros Hsy Hnin f Hfo. destruct (Hfirst Hsy) as [Hi|Hfull].
    { destruct Hnin. rewrite (dt_ids _ _ _ _ H), map_app, elem_of_app. by left. }
    pose proof (dt_rem _ _ _ _ H) as [He Hge]. pose proof (dt_out _ _ _ _ H) as Hout.
    rewrite map_app, concat_app in Hout. rewrite Hout, len_app in He.
    change (batch_cap (prune c)) with (batch_cap c) in *.
    assert (Hnil : concat (map snd rest) = []).
    { apply len_zero. pose proof (len_nonneg (concat (map snd rest))). lia. }
    rewrite Hout, Hnil, app_nil_r in Hfo.
    apply elem_of_concat in Hfo as (fs & Hfs & (p & -> & Hpp)%list_elem_of_fmap).
    pose proof (dt_shares _ _ _ _ H) as Hsh. rewrite Forall_forall in Hsh.
    destruct (Hsh p) as (s0 & s' & cap & H0 & H1 & Hc & Hdr & Hne); [apply elem_of_app; by left|].
    destruct (Hok _ _ H0) as [Hos Hid].
    destruct (drain_ok _ _ _ _ _ _ Hos Hdr) as (_ & _ & _ & Hown & _).
    rewrite (Hown f Hfs), Hid. exists s0. split; [done|]. by apply (Hsyns p).
Qed.

End BatchProps.

(** ** Concrete inputs *)

Definition demo_c0 : Client Session := mkClient ∅ ∅ ∅ demo_eps 0 zero_stats.
Definition demo_idA : bytes := str "session-0000000A".
Definition demo_idB : bytes := str "session-0000000B".

(** Two sessions, the second with data. *)
Definition demo_c : Client Session :=
  let c := NewSession 5 demo_idA (str "a:1") demo_c0 in
  let c := NewSession 6 demo_idB (str "b:2") c in
  update_session demo_idB (fun s => fst (default (s, false) (EnqueueTx 7 (str "hello") s))) c.

Lemma demo_c_ok : table_ok demo_c.
Proof.
  intros id s Hs. change (sessions demo_c) with
    (<[demo_idB := with_tx (New 6 demo_idB (str "b:2") true)
        (mkTx (str "hello") 0 true false false 0 6)]>
     (<[demo_idA := New 5 demo_idA (str "a:1") true]> (∅ : gmap bytes Session))) in Hs.
  rewrite !lookup_insert_Some, lookup_empty in Hs.
  destruct Hs as [[<- <-]|[_ [[<- <-]|[_ ?]]]]; [| |done]; (split; [|done]); by vm_compute.
Qed.

Definition demo_ids : list bytes := snd (drainAll 9 (some_order demo_c) demo_c).
Definition demo_c' : Client Session := fst (fst (drainAll 9 (some_order demo_c) demo_c)).
Definition demo_out : list Frame := snd (fst (drainAll 9 (some_order demo_c) demo_c)).

Lemma demo_drain : drainAll 9 (some_order demo_c) demo_c = (demo_c', demo_out, demo_ids).
Proof. unfold demo_c', demo_out, demo_ids. by destruct (drainAll _ _ _) as [[? ?] ?]. Qed.

Lemma drainAll_batch_witness :
  map Payload demo_out = [[]; str "hello"] /\ len demo_out <= batch_cap demo_c.
Proof.
  split; [vm_compute; reflexivity|].
  destruct (drainAll_batch 9 (some_order demo_c) demo_c demo_c' demo_out demo_ids
    demo_c_ok (some_order_valid demo_c) demo_drain) as (parts & _ & _ & _ & Hle & _).
  exact Hle.
Defined.

Lemma drainAll_serves_witness :
  demo_idB ∈ demo_ids \/ (len demo_out = batch_cap demo_c /\ demo_idB ∈ txReady demo_c').
Proof.
  refine (proj1 (drainAll_serves 9 (some_order demo_c) demo_c demo_c' demo_out demo_ids demo_idB
    (default (New 0 [] [] false) (sessions demo_c !! demo_idB))
    demo_c_ok (some_order_valid demo_c) demo_drain _ _ _ _)).
  - apply (bool_decide_unpack _). vm_compute. exact I.
  - vm_compute. reflexivity.
  - vm_compute. reflexivity.
  - apply (bool_decide_unpack _). vm_compute. exact I.
Defined.
