(* ===== verification/Dns.v ===== *)
(** * internal/exit/dnscache.go: dialling through a DNS cache

    [dnsCache] is the map of recent resolutions with its three methods, and
    [dialWithDNSCache] the dial that uses it.  The resolver, the dialler and
    the parsing of IP literals are arguments; [SplitHostPort] and
    [JoinHostPort] are the functions of package [net]. *)

From S2P Require Import Prelude GoStd Session Endpoints.

(** ** net.SplitHostPort and net.JoinHostPort *)

Fixpoint last_index (c : byte) (l : bytes) (i : nat) (found : option nat) : option nat :=
  match l with
  | [] => found
  | a :: t => last_index c t (S i) (if bool_decide (a = c) then Some i else found)
  end.

Definition has_byte (c : byte) (l : bytes) : bool := bool_decide (c ∈ l).

Fixpoint index_byte (c : byte) (l : bytes) (i : nat) : option nat :=
  match l with
  | [] => None
  | a :: t => if bool_decide (a = c) then Some i else index_byte c t (S i)
  end.

Definition colon : byte := z2b 58.
Definition lbracket : byte := z2b 91.
Definition rbracket : byte := z2b 93.

(** [j] and [k] of the code: where the search for stray brackets starts. *)
Definition SplitHostPort (hostport : bytes) : option (bytes * bytes) :=
  match last_index colon hostport 0 None with
  | None => None
  | Some i =>
      let split :=
        match hostport with
        | c :: _ =>
            if bool_decide (c = lbracket) then
              match index_byte rbracket hostport 0 with
              | None => None
              | Some e =>
                  if bool_decide (e + 1 = length hostport)%nat then None
                  else if bool_decide (e + 1 = i)%nat
                  then Some (take (e - 1) (drop 1 hostport), 1%nat, (e + 1)%nat)
                  else None
              end
            else
              let host := take i hostport in
              if has_byte colon host then None else Some (host, 0%nat, 0%nat)
        | [] => None
        end in
      match split with
      | None => None
      | Some (host, j, k) =>
          if has_byte lbracket (drop j hostport) then None
          else if has_byte rbracket (drop k hostport) then None
          else Some (host, drop (i + 1) hostport)
      end
  end.

Definition JoinHostPort (host port : bytes) : bytes :=
  if has_byte colon host then [lbracket] ++ host ++ [rbracket; colon] ++ port
  else host ++ [colon] ++ port.

(** ** The cache *)

Definition dnsCacheTTL : Z := 5 * Minute.

Record dnsEntry := mkDns { ip : bytes; expires : Z }.
Abbreviation dnsCache := (gmap bytes dnsEntry).

(** [nil] entries read as the empty address. *)
Definition dns_get (now : Z) (host : bytes) (c : dnsCache) : dnsCache * bytes :=
  match c !! host with
  | None => (c, [])
  | Some e => if After now (expires e) then (delete host c, []) else (c, ip e)
  end.

Definition dns_set (now : Z) (host addr : bytes) (c : dnsCache) : dnsCache :=
  <[host := mkDns addr (now + dnsCacheTTL)]> c.

Definition dns_forget (host : bytes) (c : dnsCache) : dnsCache := delete host c.

Section Dial.
(** Connections, dial errors, the dialler, the resolver (the addresses it
    returns, in textual form) and [net.ParseIP(host) != nil]. *)
Context {Conn DialErr : Type}.
Context (baseDial : bytes -> DialErr + Conn) (LookupIPAddr : bytes -> option (list bytes))
  (ParseIP_ok : bytes -> bool).

Record dialResult := mkDial { Conn_ : Conn; DNSCached : bool }.

Definition dial_via (addr : bytes) (cached : bool) : DialErr + dialResult :=
  match baseDial addr with
  | inl e => inl e
  | inr c => inr (mkDial c cached)
  end.

Definition dialWithDNSCache (now : Z) (address : bytes) (cache : dnsCache)
    : dnsCache * (DialErr + dialResult) :=
  match SplitHostPort address with
  | None => (cache, dial_via address false)
  | Some (host, port) =>
      if ParseIP_ok host then (cache, dial_via address false) else
      let '(cache, addr) := dns_get now host cache in
      if negb (len addr =? 0) then
        match dial_via (JoinHostPort addr port) true with
        | inl e => (dns_forget host cache, inl e)
        | inr r => (cache, inr r)
        end
      else
        match LookupIPAddr host with
        | Some (a :: _) => (dns_set now host a cache, dial_via (JoinHostPort a port) false)
        | _ => (cache, dial_via address false)
        end
  end.

End Dial.

(** ** Properties *)

(** Every entry is younger than five minutes or expired. *)
Definition cache_fresh (now : Z) (c : dnsCache) : Prop :=
  forall host e, c !! host = Some e -> expires e <= now + dnsCacheTTL.

Definition resolvable (c : dnsCache) (now : Z) (host : bytes) : option bytes :=
  match c !! host with
  | Some e => if After now (expires e) then None else Some (ip e)
  | None => None
  end.

Lemma dns_set_fresh now host a c : cache_fresh now c -> cache_fresh now (dns_set now host a c).
Proof.
  intros Hfr h e. unfold dns_set. intros [[<- <-]|[_ Hh]]%lookup_insert_Some; [done|by apply (Hfr h)].
Qed.

(** [get] returns a live entry and leaves the cache alone, or returns the empty
    address and at most removes the host's own entry. *)
Lemma dns_get_spec now host c : cache_fresh now c ->
  let '(c1, addr) := dns_get now host c in
  cache_fresh now c1 /\ (forall h, h <> host -> c1 !! h = c !! h)
  /\ match resolvable c now host with
     | Some a => addr = a /\ c1 = c
     | None => addr = []
     end.
Proof.
  intros Hfr. unfold dns_get, resolvable. destruct (c !! host) as [e|]; [|done].
  destruct (After now (expires e)); [|done]. split; [|split; [|done]].
  - intros h e' [_ Hh]%lookup_delete_Some. by apply (Hfr h).
  - intros h Hh. by rewrite lookup_delete_ne.
Qed.

(** What a dial leaves in the cache.  An address that was dialled from the
    cache and failed is forgotten, so the next dial resolves again; a fresh
    resolution is kept for exactly five minutes, also when the dial then
    fails; the entries of other hosts never change; and no entry ever outlives
    five minutes. *)
Theorem dialWithDNSCache_cache {Conn DialErr : Type} (baseDial : bytes -> DialErr + Conn)
    (lookup : bytes -> option (list bytes)) (isIP : bytes -> bool)
    (now : Z) (address host port : bytes) (c c' : dnsCache) (r : DialErr + dialResult) :
  cache_fresh now c -> SplitHostPort address = Some (host, port) -> isIP host = false ->
  dialWithDNSCache baseDial lookup isIP now address c = (c', r) ->
  cache_fresh now c'
  /\ (forall h, h <> host -> c' !! h = c !! h)
  /\ (forall a, resolvable c now host = Some a -> a <> [] ->
        (forall e, baseDial (JoinHostPort a port) = inl e -> c' !! host = None /\ r = inl e)
        /\ (forall conn, baseDial (JoinHostPort a port) = inr conn -> c' = c /\ r = inr (mkDial conn true)))
  /\ (resolvable c now host = None -> forall a rest, lookup host = Some (a :: rest) ->
        c' !! host = Some (mkDns a (now + dnsCacheTTL))).
Proof.
  intros Hfr Hs Hip Hd. unfold dialWithDNSCache in Hd. rewrite Hs, Hip in Hd.
  pose proof (dns_get_spec now host c Hfr) as Hget.
  destruct (dns_get now host c) as [c1 addr]. destruct Hget as (Hfr1 & Hoth1 & Hres).
  destruct (Z.eqb_spec (len addr) 0) as [Hz|Hz]; cbn [negb] in Hd.
  - apply len_zero in Hz as ->.
    assert (Hmiss : forall a, resolvable c now host = Some a -> a = []).
    { intros a Ha. rewrite Ha in Hres. by destruct Hres. }
    destruct (lookup host) as [[|a rest]|] eqn:Hl; injection Hd as <- <-.
    1,3: split; [done|]; split; [done|]; split; [by intros a ->%Hmiss|by intros ? ? ?].
    split; [by apply dns_set_fresh|]. split; [intros h Hh; unfold dns_set; rewrite lookup_insert_ne by done; auto|].
    split; [by intros a' ->%Hmiss|]. intros _ a' rest' [= <- <-]. unfold dns_set. by rewrite lookup_insert_eq.
  - destruct (resolvable c now host) as [a|]; [|by subst addr]. destruct Hres as [-> ->].
    unfold dial_via in Hd. destruct (baseDial (JoinHostPort a port)) as [er|conn] eqn:Hb; injection Hd as <- <-.
    + unfold dns_forget. split; [intros h e [_ Hh]%lookup_delete_Some; by apply (Hfr h)|].
      split; [intros h Hh; by rewrite lookup_delete_ne|]. split; [|done].
      intros a' [= <-] Hne. rewrite Hb. split; [|done]. intros e' [= <-].
      by rewrite lookup_delete_eq.
    + split; [done|]. split; [done|]. split; [|done]. intros a' [= <-] Hne. rewrite Hb.
      split; [done|]. by intros ? [= <-].
Qed.

(** ** Splitting and joining *)

Lemma last_index_none c l i found : c ∉ l -> last_index c l i found = found.
Proof.
  revert i found. induction l as [|a l IH]; intros i found Hn; [done|]. cbn.
  rewrite bool_decide_eq_false_2 by (intros ->; apply Hn; left).
  apply IH. intros Hl. apply Hn. by right.
Qed.

Lemma last_index_app c l k i found :
  c ∉ k -> last_index c (l ++ c :: k) i found = Some (i + length l)%nat.
Proof.
  intros Hk. revert i found. induction l as [|a l IH]; intros i found; cbn.
  - rewrite bool_decide_eq_true_2, last_index_none by done. f_equal. lia.
  - rewrite IH. f_equal. lia.
Qed.

Lemma has_byte_false c l : c ∉ l -> has_byte c l = false.
Proof. intros. by apply bool_decide_eq_false_2. Qed.

(** [SplitHostPort] takes apart what [JoinHostPort] puts together, for every
    host and port without brackets, the host containing a colon (an IPv6
    address, which is put in brackets) or not. *)
Lemma SplitHostPort_join (host port : bytes) :
  host <> [] -> lbracket ∉ host -> rbracket ∉ host ->
  colon ∉ port -> lbracket ∉ port -> rbracket ∉ port ->
  SplitHostPort (JoinHostPort host port) = Some (host, port).
Proof.
  intros Hne Hl Hr Hpc Hpl Hpr.
  assert (Hd1 : lbracket <> colon) by done. assert (Hd2 : rbracket <> colon) by done.
  assert (Hd3 : lbracket <> rbracket) by done. unfold JoinHostPort, has_byte at 1.
  case_bool_decide as Hc.
  - change (([lbracket] ++ host ++ [rbracket; colon] ++ port))
      with (lbracket :: (host ++ [rbracket; colon] ++ port)).
    assert (Hsh : lbracket :: host ++ [rbracket; colon] ++ port = (lbracket :: host ++ [rbracket]) ++ colon :: port).
    { cbn. by rewrite <- app_assoc. }
    unfold SplitHostPort. rewrite Hsh at 1. rewrite last_index_app by done.
    rewrite bool_decide_eq_true_2 by done.
    assert (Hix : index_byte rbracket (lbracket :: host ++ [rbracket; colon] ++ port) 0 = Some (S (length host))).
    { cbn. clear - Hr. assert (Hg : forall i, index_byte rbracket (host ++ rbracket :: colon :: port) i = Some (i + length host)%nat).
      { induction host as [|a h IH]; intros i; cbn.
        - f_equal. lia.
        - rewrite bool_decide_eq_false_2 by (intros ->; apply Hr; left).
          rewrite IH by (intros H; apply Hr; by right). f_equal. lia. }
      rewrite Hg. f_equal. }
    rewrite Hix. cbn [length]. rewrite !length_app. cbn [length].
    rewrite bool_decide_eq_false_2 by lia. rewrite bool_decide_eq_true_2 by lia.
    replace (S (length host) - 1)%nat with (length host) by lia. cbn [drop].
    rewrite !drop_0, take_app_length.
    rewrite has_byte_false by (rewrite !elem_of_app, !elem_of_cons, elem_of_nil; intuition congruence).
    replace (drop (S (length host) + 1) (lbracket :: host ++ [rbracket; colon] ++ port)) with (colon :: port).
    2:{ rewrite Nat.add_1_r. cbn [drop]. rewrite drop_app_ge by lia.
        by replace (S (length host) - length host)%nat with 1%nat by lia. }
    rewrite has_byte_false by (rewrite elem_of_cons; intuition congruence). do 2 f_equal.
    rewrite Hsh, drop_app_ge by (cbn; rewrite length_app; cbn; lia).
    cbn [length]. rewrite length_app. cbn [length].
    by replace (0 + S (length host + 1) + 1 - S (length host + 1))%nat with 1%nat by lia.
  - change (host ++ [colon] ++ port) with (host ++ colon :: port).
    unfold SplitHostPort. rewrite last_index_app by done.
    destruct host as [|a h]; [done|]. cbn [app].
    rewrite bool_decide_eq_false_2 by (intros ->; apply Hl; left).
    change (a :: h ++ colon :: port) with ((a :: h) ++ colon :: port).
    cbn [Nat.add]. rewrite take_app_length. rewrite has_byte_false by done. rewrite !drop_0.
    rewrite !has_byte_false.
    + do 2 f_equal. rewrite drop_app_ge by lia.
      by replace (length (a :: h) + 1 - length (a :: h))%nat with 1%nat by lia.
    + intros [Hx|[Hx|Hx]%elem_of_cons]%elem_of_app; [done|congruence|done].
    + intros [Hx|[Hx|Hx]%elem_of_cons]%elem_of_app; [done|congruence|done].
Qed.

(** ** Concrete inputs *)

Definition demo_dial (a : bytes) : Z + Z := if bool_decide (a = str "10.0.0.1:443") then inl 1 else inr (len a).
Definition demo_cache : dnsCache := {[ str "example.com" := mkDns (str "10.0.0.1") 500 ]}.

Lemma demo_cache_fresh : cache_fresh 100 demo_cache.
Proof. intros h e. unfold demo_cache. intros [<- <-]%lookup_singleton_Some. by vm_compute. Qed.

Lemma dialWithDNSCache_cache_witness :
  exists c' r, dialWithDNSCache demo_dial (fun _ => None) (fun _ => false) 100 (str "example.com:443") demo_cache = (c', r)
    /\ c' !! str "example.com" = None /\ r = inl 1.
Proof.
  destruct (dialWithDNSCache demo_dial (fun _ => None) (fun _ => false) 100 (str "example.com:443") demo_cache)
    as [c' r] eqn:Hd. exists c', r. split; [done|].
  destruct (dialWithDNSCache_cache demo_dial (fun _ => None) (fun _ => false) 100 (str "example.com:443")
    (str "example.com") (str "443") demo_cache c' r demo_cache_fresh) as (_ & _ & Hhit & _);
    [vm_compute; reflexivity|done|exact Hd|].
  apply (Hhit (str "10.0.0.1")); [vm_compute; reflexivity|discriminate|vm_compute; reflexivity].
Defined.
