(* ===== verification/TestJson.v ===== *)
(** * A concrete instance of [JsonLib]

    An executable printer and parser that satisfy the laws of [JsonLibOk], so
    that the theorems which assume them can be applied to concrete inputs and
    evaluated.  The text is not JSON: between the braces stands the binary
    encoding of the tree, a character per bit. *)

From S2P Require Import Prelude GoStd GoText.

Fixpoint json_tree (j : json) : gen_tree bytes :=
  match j with
  | JNull => GenNode 0 []
  | JBool b => GenNode (if b then 1 else 2)%nat []
  | JNumber t => GenNode 3 [GenLeaf t]
  | JString s => GenNode 4 [GenLeaf s]
  | JArray l => GenNode 5 (map json_tree l)
  | JObject ms => GenNode 6 (map (fun m => GenNode 0 [GenLeaf (fst m); json_tree (snd m)]) ms)
  end.

Fixpoint tree_json (t : gen_tree bytes) : option json :=
  match t with
  | GenNode 0 [] => Some JNull
  | GenNode 1 [] => Some (JBool true)
  | GenNode 2 [] => Some (JBool false)
  | GenNode 3 [GenLeaf t] => Some (JNumber t)
  | GenNode 4 [GenLeaf s] => Some (JString s)
  | GenNode 5 l =>
      JArray <$> foldr (fun t acc => j ← tree_json t; l ← acc; Some (j :: l)) (Some []) l
  | GenNode 6 l =>
      JObject <$> foldr (fun t acc =>
        m ← match t with GenNode 0 [GenLeaf s; v] => j ← tree_json v; Some (s, j) | _ => None end;
        l ← acc; Some (m :: l)) (Some []) l
  | _ => None
  end.

Lemma json_nested_ind (P : json -> Prop) :
  P JNull -> (forall b, P (JBool b)) -> (forall t, P (JNumber t)) -> (forall s, P (JString s)) ->
  (forall l, Forall P l -> P (JArray l)) -> (forall ms, Forall (fun m => P (snd m)) ms -> P (JObject ms)) ->
  forall j, P j.
Proof.
  intros H0 H1 H2 H3 H4 H5. fix IH 1. intros [| | | |l|ms]; [by apply H0|apply H1|apply H2|apply H3| |].
  - apply H4. induction l; constructor; auto.
  - apply H5. induction ms as [|[s j] ms]; constructor; auto.
Qed.

Lemma tree_json_tree j : tree_json (json_tree j) = Some j.
Proof.
  induction j as [|[]| | |l IH|ms IH] using json_nested_ind; [done..| |]; cbn [json_tree tree_json].
  - match goal with |- _ <$> ?x = _ => assert (E : x = Some l) end; [|by rewrite E].
    induction IH as [|j l Hj _ IHl]; [done|]. cbn. by rewrite Hj, IHl.
  - match goal with |- _ <$> ?x = _ => assert (E : x = Some ms) end; [|by rewrite E].
    induction IH as [|[s j] ms Hj _ IHl]; [done|]. cbn in *. by rewrite Hj, IHl.
Qed.

Fixpoint pos_bits (p : positive) : bytes :=
  match p with
  | xH => []
  | xO p => z2b 48 :: pos_bits p
  | xI p => z2b 49 :: pos_bits p
  end.

Fixpoint bits_pos (l : bytes) : positive :=
  match l with
  | c :: l => if bool_decide (c = z2b 125) then xH
              else if bool_decide (c = z2b 49) then xI (bits_pos l) else xO (bits_pos l)
  | [] => xH
  end.

Lemma bits_pos_bits p : bits_pos (pos_bits p ++ [z2b 125]) = p.
Proof. induction p as [p IH|p IH|]; cbn; by rewrite ?IH. Qed.

#[export] Instance TestJson : JsonLib := {|
  json_print j := z2b 123 :: pos_bits (encode (json_tree j)) ++ [z2b 125];
  json_parse t := match t with _ :: t => x ← decode (bits_pos t); tree_json x | [] => None end;
|}.

#[export] Instance TestJsonOk : JsonLibOk TestJson.
Proof.
  constructor.
  - intros j _. cbn. rewrite bits_pos_bits, decode_encode. cbn. apply tree_json_tree.
  - intros ms. by eexists.
Qed.
