(* ===== verification/Version.v ===== *)
(** * internal/protocol/protocol.go: versions

    What client and server tell each other about their versions: the probe a
    client sends at start-up and the information a server answers with.  The
    JSON text is the library's ([JsonLib]); which members the text has, and how
    a struct is filled from them, is modelled. *)

From S2P Require Import Prelude GoStd GoText.

Definition ProtocolVersion : Z := 1.
Definition ProbePrefix : bytes := str "goose_version_probe:v1".

Record VersionInfo := mkVersion {
  OK : bool;
  Protocol : Z;
  ServerVersion : bytes;
  MaxFramePayload : Z;
  Features : list bytes;
}.

Definition zero_version : VersionInfo := mkVersion false 0 [] 0 [].

(** The JSON form of the structs, by their tags; an [int] is written in
    decimal. *)
Definition json_int (n : Z) : json := JNumber (if n <? 0 then z2b 45 :: Itoa (- n) else Itoa n).

Definition version_json (v : VersionInfo) : json :=
  JObject [(str "ok", JBool (OK v)); (str "protocol", json_int (Protocol v));
           (str "server_version", JString (ServerVersion v));
           (str "max_frame_payload", json_int (MaxFramePayload v));
           (str "features", JArray (map JString (Features v)))].

Definition probe_json (clientVersion : bytes) : json :=
  JObject [(str "type", JString (str "version_probe")); (str "client_version", JString clientVersion);
           (str "protocol", json_int ProtocolVersion)].

(** [json.Unmarshal] of one member into a [VersionInfo]: names are compared
    without case, [null] changes nothing, a value of another type is an
    error. *)
Definition un_bool (j : json) (old : bool) : option bool :=
  match j with JBool b => Some b | JNull => Some old | _ => None end.
Definition un_int (j : json) (old : Z) : option Z :=
  match j with JNumber t => Atoi t | JNull => Some old | _ => None end.
Definition un_str (j : json) (old : bytes) : option bytes :=
  match j with JString s => Some s | JNull => Some old | _ => None end.
Definition un_strs (j : json) : option (list bytes) :=
  match j with JArray l => mapM (fun j => un_str j []) l | JNull => Some [] | _ => None end.

Definition version_member (v : option VersionInfo) (m : bytes * json) : option VersionInfo :=
  let key := map lower_ascii (fst m) in
  v ← v;
  if bool_decide (key = str "ok") then
    x ← un_bool (snd m) (OK v); Some (mkVersion x (Protocol v) (ServerVersion v) (MaxFramePayload v) (Features v))
  else if bool_decide (key = str "protocol") then
    x ← un_int (snd m) (Protocol v); Some (mkVersion (OK v) x (ServerVersion v) (MaxFramePayload v) (Features v))
  else if bool_decide (key = str "server_version") then
    x ← un_str (snd m) (ServerVersion v); Some (mkVersion (OK v) (Protocol v) x (MaxFramePayload v) (Features v))
  else if bool_decide (key = str "max_frame_payload") then
    x ← un_int (snd m) (MaxFramePayload v); Some (mkVersion (OK v) (Protocol v) (ServerVersion v) x (Features v))
  else if bool_decide (key = str "features") then
    x ← un_strs (snd m); Some (mkVersion (OK v) (Protocol v) (ServerVersion v) (MaxFramePayload v) x)
  else Some v.

Definition un_version (j : json) : option VersionInfo :=
  match j with
  | JObject ms => foldl version_member (Some zero_version) ms
  | JNull => Some zero_version
  | _ => None
  end.

Section Protocol.
Context {J : JsonLib}.

Definition EncodeProbePayload (clientVersion : bytes) : bytes :=
  ProbePrefix ++ str "|" ++ json_print (probe_json clientVersion).

Definition IsProbePayload (payload : bytes) : bool :=
  HasPrefix payload (ProbePrefix ++ str "|") || bool_decide (payload = ProbePrefix).

Definition DecodeVersionInfo (payload : bytes) : option VersionInfo :=
  j ← json_parse (TrimSpace payload); un_version j.

(** [json.Marshal] of this struct cannot fail. *)
Definition EncodeVersionInfo (serverVersion : bytes) (maxFramePayload : Z) (features : list bytes)
    : option bytes :=
  Some (json_print (version_json (mkVersion true ProtocolVersion serverVersion maxFramePayload features))).

End Protocol.

(** ** Round trips *)

Lemma Atoi_json_int n : - 2 ^ 63 < n < 2 ^ 63 ->
  exists t, json_int n = JNumber t /\ Atoi t = Some n.
Proof.
  intros Hn. unfold json_int. destruct (Z.ltb_spec n 0).
  - eexists. split; [done|]. pose proof (Itoa_value (- n) ltac:(lia)) as Hv.
    cbn [Atoi]. change (b2z (z2b 45)) with 45. cbn [Z.eqb Pos.eqb].
    destruct (Itoa (- n)) as [|c t] eqn:E; [by apply Itoa_nonempty in E|].
    rewrite Hv. cbn. unfold in_int64. rewrite Z.opp_involutive.
    by rewrite (proj2 (Z.leb_le _ _)), (proj2 (Z.ltb_lt _ _)) by lia.
  - eexists. split; [done|]. apply Atoi_Itoa. lia.
Qed.

Lemma un_strs_map l : un_strs (JArray (map JString l)) = Some l.
Proof. cbn. induction l as [|s l IH]; [done|]. cbn. by rewrite IH. Qed.

Ltac member_names :=
  repeat match goal with
  | |- context [bool_decide (map lower_ascii (str ?a) = str ?b)] =>
      let r := eval vm_compute in (bool_decide (map lower_ascii (str a) = str b)) in
      change (bool_decide (map lower_ascii (str a) = str b)) with r
  end; cbv iota.

Ltac ascii_str := apply (bool_decide_unpack _); vm_compute; exact I.

Lemma un_version_json v :
  - 2 ^ 63 < Protocol v < 2 ^ 63 -> - 2 ^ 63 < MaxFramePayload v < 2 ^ 63 ->
  un_version (version_json v) = Some v.
Proof.
  intros Hp Hm. destruct (Atoi_json_int _ Hp) as (tp & Ep & Hp').
  destruct (Atoi_json_int _ Hm) as (tm & Em & Hm').
  unfold un_version, version_json. rewrite Ep, Em. cbn [foldl].
  unfold version_member. cbn [fst snd mbind option_bind]. member_names.
  cbn [mbind option_bind un_bool un_int OK Protocol ServerVersion MaxFramePayload Features].
  rewrite Hp'. cbn [mbind option_bind un_str un_int OK Protocol ServerVersion MaxFramePayload Features].
  rewrite Hm'. cbn [mbind option_bind]. rewrite un_strs_map. by destruct v.
Qed.

Section RoundTrip.
Context {J : JsonLib} {JO : JsonLibOk J}.

Lemma DecodeVersionInfo_encoded version n features payload :
  ascii version -> Forall ascii features -> - 2 ^ 63 < n < 2 ^ 63 ->
  EncodeVersionInfo version n features = Some payload ->
  0 < len payload
  /\ DecodeVersionInfo payload = Some (mkVersion true ProtocolVersion version n features).
Proof.
  intros Hv Hf Hn [= <-]. split.
  { destruct (json_object_text [(str "ok", JBool true)]) as [? _].
    unfold version_json. edestruct json_object_text as [mid ->]. apply len_pos. done. }
  unfold DecodeVersionInfo, version_json. rewrite TrimSpace_object, json_roundtrip.
  - cbn [mbind option_bind]. by apply un_version_json.
  - unfold json_int. cbn -[str ascii]. repeat case_bool; cbn -[str ascii].
    all: repeat (apply Forall_cons; split; [first [done|ascii_str]|]).
    all: rewrite app_nil_r; apply Forall_concat; rewrite Forall_map; apply Forall_map; cbn -[ascii];
      eapply Forall_impl; [exact Hf|]; intros; by repeat constructor.
Qed.

Lemma IsProbePayload_encoded clientVersion : IsProbePayload (EncodeProbePayload clientVersion) = true.
Proof.
  unfold IsProbePayload, EncodeProbePayload. apply orb_true_iff. left. apply HasPrefix_spec.
  exists (json_print (probe_json clientVersion)). by rewrite <- app_assoc.
Qed.

End RoundTrip.
