(* ===== verification/CarrierSteps.v ===== *)
(** * The client's critical sections, interleaved

    The pollers, the SOCKS connections and the garbage collection of
    [internal/carrier] run concurrently; what they do to the session table are
    the critical sections of [Carrier].  [carrier_step] lets them happen in any
    order: a write or a close on a session and the [OnTx] callback it triggers
    are separate steps, and so are the drain of a poll and the release at its
    end.  The invariant is what the comments around [txReady] and [inFlight]
    promise: nothing pending is ever forgotten, and no session is in two polls
    at the same time. *)

From S2P Require Import Prelude GoStd Frame Session SessionApi Endpoints Carrier.

Section Steps.
Context {S : Type} {A : SessionApi S} {AO : SessionApiOk S}.

(** The table, the [OnTx] callbacks still to run, and the sessions each poll in
    progress holds. *)
Record World := mkWorld {
  wc : Client S;
  wcalls : list bytes;
  wpolls : list (list bytes);
}.

Inductive carrier_step : World -> World -> Prop :=
| w_new w now id target :
    sessions (wc w) !! id = None -> id ∉ inFlight (wc w) ->
    carrier_step w (mkWorld (NewSession now id target (wc w)) (wcalls w) (wpolls w))
| w_write w now id data s s' kick :
    sessions (wc w) !! id = Some s -> api_enqueue now data s = Some (s', kick) ->
    carrier_step w (mkWorld (update_session id (fun _ => s') (wc w))
                            (if kick : bool then id :: wcalls w else wcalls w) (wpolls w))
| w_write_initial w now id data s s' kick :
    sessions (wc w) !! id = Some s -> api_enqueue_initial now data s = Some (s', kick) ->
    carrier_step w (mkWorld (update_session id (fun _ => s') (wc w))
                            (if kick : bool then id :: wcalls w else wcalls w) (wpolls w))
| w_close w now id s :
    sessions (wc w) !! id = Some s ->
    carrier_step w (mkWorld (update_session id (api_request_close now) (wc w))
                            (id :: wcalls w) (wpolls w))
| w_ontx w l1 id l2 :
    wcalls w = l1 ++ id :: l2 ->
    carrier_step w (mkWorld (OnTx id (wc w)) (l1 ++ l2) (wpolls w))
| w_drain w now order c' out ids :
    valid_order (wc w) order -> drainAll now order (wc w) = (c', out, ids) ->
    carrier_step w (mkWorld c' (wcalls w) (ids :: wpolls w))
| w_release w p1 ids p2 :
    wpolls w = p1 ++ ids :: p2 ->
    carrier_step w (mkWorld (releaseInFlight ids (wc w)) (wcalls w) (p1 ++ p2))
| w_receive w timeout f s :
    sessions (wc w) !! SessionID f = Some s ->
    carrier_step w (mkWorld (update_session (SessionID f) (api_process timeout f) (wc w))
                            (wcalls w) (wpolls w))
| w_close_rx w id s s' :
    sessions (wc w) !! id = Some s -> api_close_rx s = Ok s' ->
    carrier_step w (mkWorld (update_session id (fun _ => s') (wc w)) (wcalls w) (wpolls w))
| w_forget w id :
    carrier_step w (mkWorld (forget id (wc w)) (wcalls w) (wpolls w))
| w_gc w now id :
    carrier_step w (mkWorld (gc_one now id (wc w)) (wcalls w) (wpolls w)).

Definition carrier_steps : relation World := rtc carrier_step.

Definition world_init (e : Endpoints) : World := mkWorld (mkClient ∅ ∅ ∅ e 0 zero_stats) [] [].

(** A session with something to send that nobody will look at again. *)
Definition stranded (w : World) (id : bytes) : Prop :=
  exists s, sessions (wc w) !! id = Some s /\ api_pending s = true
    /\ id ∉ txReady (wc w) /\ id ∉ inFlight (wc w) /\ id ∉ wcalls w.

Record world_inv (w : World) : Prop := {
  wi_table : table_ok (wc w);
  wi_pending : forall id s, sessions (wc w) !! id = Some s -> api_pending s = true ->
      id ∈ txReady (wc w) \/ id ∈ inFlight (wc w) \/ id ∈ wcalls w;
  wi_flight : forall id, id ∈ inFlight (wc w) <-> id ∈ concat (wpolls w);
  wi_polls : NoDup (concat (wpolls w));
}.

Lemma world_inv_init e : world_inv (world_init e).
Proof.
  constructor; cbn; try done; [..|constructor].
  intros id. split; [set_solver|by intros ?%elem_of_nil].
Qed.

(** Replacing one session by one that is pending only if [Q]. *)
Lemma world_inv_update w id s0 s' calls :
  world_inv w -> sessions (wc w) !! id = Some s0 ->
  api_ok s' /\ api_id s' = id ->
  (api_pending s' = true -> api_pending s0 = true \/ id ∈ calls) ->
  (forall x, x ∈ wcalls w -> x ∈ calls) ->
  world_inv (mkWorld (set_table (<[id := s']> (sessions (wc w))) (inFlight (wc w)) (txReady (wc w)) (wc w))
                     calls (wpolls w)).
Proof.
  intros [Htab Hpend Hfl Hpolls] Hs0 Hs' Hp Hcalls. constructor; unfold table_ok; cbn; try done.
  - intros i s Hi. apply lookup_insert_Some in Hi as [[<- <-]|[_ Hi]]; [done|]. by apply Htab.
  - intros i s Hi Hps. apply lookup_insert_Some in Hi as [[<- <-]|[Hne Hi]].
    + destruct (Hp Hps) as [Hps0|]; [|auto]. destruct (Hpend id s0 Hs0 Hps0) as [|[|]]; auto.
    + destruct (Hpend i s Hi Hps) as [|[|]]; auto.
Qed.

Lemma update_session_insert id f (c : Client S) s :
  sessions c !! id = Some s ->
  update_session id f c = set_table (<[id := f s]> (sessions c)) (inFlight c) (txReady c) c.
Proof.
  intros Hs. unfold update_session. f_equal. apply map_eq. intros i.
  rewrite lookup_alter, lookup_insert. destruct (decide (id = i)) as [<-|]; [|done]. by rewrite Hs.
Qed.

(** A write, and the callback it may have made due. *)
Lemma world_inv_write w id s s' (kick : bool) :
  world_inv w -> sessions (wc w) !! id = Some s ->
  api_ok s' /\ api_id s' = id /\ (kick = false -> s' = s) ->
  world_inv (mkWorld (update_session id (fun _ => s') (wc w))
               (if kick then id :: wcalls w else wcalls w) (wpolls w)).
Proof.
  intros Hi Hs (Hok' & Hid' & Hk). rewrite (update_session_insert id _ _ s Hs).
  apply (world_inv_update w id s); try done.
  - intros Hp. destruct kick; [right; left|]. rewrite Hk in Hp by done. by left.
  - intros x Hx. destruct kick; [by right|done].
Qed.

Lemma world_inv_forget w id st : world_inv w ->
  world_inv (mkWorld (set_stats st (forget id (wc w))) (wcalls w) (wpolls w)).
Proof.
  intros [Htab Hpend Hfl Hpolls]. constructor; unfold table_ok; cbn; try done.
  - intros i s [Hne Hi]%lookup_delete_Some. by apply Htab.
  - intros i s [Hne Hi]%lookup_delete_Some Hp.
    destruct (Hpend i s Hi Hp) as [Hr|[|]]; [left; set_solver|auto|auto].
Qed.

Lemma world_inv_drain w now order c' out ids :
  world_inv w -> valid_order (wc w) order -> drainAll now order (wc w) = (c', out, ids) ->
  world_inv (mkWorld c' (wcalls w) (ids :: wpolls w)).
Proof.
  intros [Htab Hpend Hfl Hpolls] Hord Hd.
  destruct (drainAll_shares now order (wc w) c' out ids Htab Hord Hd)
    as (parts & Hout & Hids & Hnd & Hcap & Hsh & _ & Hoth & Hfl' & Hrd').
  assert (Hpart : forall id, id ∈ ids -> exists fs, (id, fs) ∈ parts).
  { intros id Hid. rewrite Hids in Hid. apply list_elem_of_fmap in Hid as ([i fs] & -> & Hp). eauto. }
  constructor; unfold table_ok; cbn.
  - intros id s Hs. destruct (decide (id ∈ ids)) as [Hin|Hnin].
    + destruct (Hpart id Hin) as [fs Hp]. destruct (Hsh id fs Hp) as (_ & _ & s0 & s' & cap & H0 & H1 & Hc & Hdr).
      assert (s = s') as -> by congruence. destruct (Htab id s0 H0) as [Hok Hid].
      destruct (drain_ok _ _ _ _ _ _ Hok Hdr) as (? & -> & _). done.
    + rewrite Hoth in Hs by done. by apply Htab.
  - intros id s Hs Hp. destruct (decide (id ∈ ids)) as [Hin|Hnin].
    + right. left. rewrite Hfl'. apply elem_of_union_r, elem_of_list_to_set, Hin.
    + rewrite Hoth in Hs by done. rewrite Hfl', elem_of_union.
      destruct (decide (id ∈ inFlight (wc w))) as [|Hnf]; [auto|].
      destruct (Hpend id s Hs Hp) as [Hr|[Hf|Hc]]; [|done|auto].
      left. destruct (drainAll_ready now order (wc w) c' out ids id s Htab Hord Hd Hr Hs Hp Hnf) as [|[]]; done.
  - intros id. rewrite Hfl', elem_of_union, elem_of_list_to_set, elem_of_app, Hfl. tauto.
  - apply NoDup_app. split; [done|]. split; [|done]. intros id Hin Hc. apply Hfl in Hc.
    destruct (Hpart id Hin) as [fs Hp]. by destruct (Hsh id fs Hp) as [Hn _].
Qed.

(** The release, session by session. *)
Lemma release_fold ids (c : Client S) :
  let c' := releaseInFlight ids c in
  sessions c' = sessions c
  /\ (forall id, id ∈ inFlight c' <-> id ∈ inFlight c /\ id ∉ ids)
  /\ (forall id, id ∈ txReady c -> id ∈ txReady c')
  /\ (forall id s, id ∈ ids -> sessions c !! id = Some s -> api_pending s = true -> id ∈ txReady c').
Proof.
  revert c. induction ids as [|i ids IH]; intros c; cbn.
  { split; [done|]. split; [intros id; rewrite elem_of_nil; tauto|].
    split; [done|]. by intros id s ?%elem_of_nil. }
  fold (releaseInFlight ids (release_one i c)).
  destruct (IH (release_one i c)) as (Hs & Hf & Hr & Hall). split; [done|]. split; [|split].
  - intros id. rewrite Hf, elem_of_cons. cbn. rewrite elem_of_difference, elem_of_singleton. tauto.
  - intros id Hid. apply Hr. unfold release_one. cbn. destruct (sessions c !! i); [|done].
    case_bool; [|done]. set_solver.
  - intros id s [->|Hid]%elem_of_cons Hsi Hp; [|by apply (Hall id s)].
    apply Hr. unfold release_one. cbn. rewrite Hsi, Hp. set_solver.
Qed.

Lemma world_inv_release w p1 ids p2 :
  world_inv w -> wpolls w = p1 ++ ids :: p2 ->
  world_inv (mkWorld (releaseInFlight ids (wc w)) (wcalls w) (p1 ++ p2)).
Proof.
  intros [Htab Hpend Hfl Hpolls] Hpl. rewrite Hpl, concat_app in *. cbn in *.
  destruct (release_fold ids (wc w)) as (Hs & Hf & Hr & Hall).
  assert (Hdis : forall id, id ∈ ids -> id ∉ concat p1 /\ id ∉ concat p2).
  { intros id Hid. apply NoDup_app in Hpolls as (_ & H1 & H2). apply NoDup_app in H2 as (_ & H3 & _).
    split; [|by apply H3]. intros Hc. apply (H1 id Hc). apply elem_of_app. by left. }
  constructor; unfold table_ok; cbn; rewrite ?concat_app.
  - intros id s. rewrite Hs. apply Htab.
  - intros id s. rewrite Hs. intros Hsi Hp. destruct (decide (id ∈ ids)) as [Hin|Hnin].
    + left. by apply (Hall id s).
    + destruct (Hpend id s Hsi Hp) as [|[Hi|]]; [auto| |auto]. right. left. by apply Hf.
  - intros id. rewrite Hf, Hfl, !elem_of_app. split.
    + intros [[?|[?|?]] ?]; tauto.
    + intros Hc. split; [tauto|]. intros Hin. destruct (Hdis id Hin). tauto.
  - apply NoDup_app in Hpolls as (H1 & H2 & H3). apply NoDup_app in H3 as (_ & _ & H4).
    apply NoDup_app. split; [done|]. split; [|done]. intros id Hid Hc. apply (H2 id Hid).
    apply elem_of_app. by right.
Qed.

Lemma world_step_inv w w' : world_inv w -> carrier_step w w' -> world_inv w'.
Proof.
  intros Hi Hst. pose proof Hi as [Htab Hpend Hfl Hpolls].
  destruct Hst as [w now id target Hn Hnf|w now id data s s' kick Hs He|w now id data s s' kick Hs He|w now id s Hs|w l1 id l2 Hc
    |w now order c' out ids Hord Hd|w p1 ids p2 Hp|w timeout f s Hs|w id s s' Hs He|w id|w now id].
  - constructor; unfold table_ok; cbn; try done.
    + intros i s [[<- <-]|[_ Hi']]%lookup_insert_Some; [|by apply Htab].
      by destruct (new_ok now id target true) as (? & ? & _).
    + intros i s [[<- <-]|[_ Hi']]%lookup_insert_Some Hp; [left; set_solver|].
      destruct (Hpend i s Hi' Hp) as [|[|]]; [left; set_solver|auto|auto].
  - destruct (Htab id s Hs) as [Hok Hid]. apply (world_inv_write w id s); [done..|].
    rewrite <- Hid. by eapply enqueue_ok.
  - destruct (Htab id s Hs) as [Hok Hid]. apply (world_inv_write w id s); [done..|].
    rewrite <- Hid. by eapply enqueue_initial_ok.
  - destruct (Htab id s Hs) as [Hok Hid]. destruct (close_ok now s Hok) as [Hok' Hid'].
    rewrite (update_session_insert id _ _ s Hs). apply (world_inv_update w id s); try done.
    + by rewrite Hid'.
    + intros _. right. left.
    + intros x Hx. by right.
  - rewrite Hc in *. constructor; unfold table_ok; cbn; try done.
    intros i s Hs Hp. destruct (Hpend i s Hs Hp) as [|[|Hin]]; [left; set_solver|auto|].
    rewrite elem_of_app, elem_of_cons in Hin. rewrite elem_of_app. destruct Hin as [|[->|]]; [auto|left; set_solver|auto].
  - by eapply world_inv_drain.
  - by eapply world_inv_release.
  - destruct (Htab _ s Hs) as [Hok Hid]. destruct (process_ok timeout f s Hok) as (Hok' & Hid' & Hp').
    rewrite (update_session_insert _ _ _ s Hs). apply (world_inv_update w _ s); try done.
    + by rewrite Hid'.
    + rewrite Hp'. by left.
  - destruct (Htab _ s Hs) as [Hok Hid]. destruct (close_rx_ok s s' Hok He) as (Hok' & Hid' & Hp').
    rewrite (update_session_insert _ _ _ s Hs). apply (world_inv_update w _ s); try done.
    + by rewrite Hid'.
    + rewrite Hp'. by left.
  - apply (world_inv_forget w id (cstats (wc w)) Hi).
  - unfold gc_one. destruct (sessions (wc w) !! id) as [s|]; [|by destruct w].
    case_bool; [by apply world_inv_forget|by destruct w].
Qed.

Lemma world_reach_inv e w : carrier_steps (world_init e) w -> world_inv w.
Proof.
  intros H. remember (world_init e) as w0 eqn:Hw. assert (Hi : world_inv w0) by (subst; apply world_inv_init).
  clear Hw. induction H as [|w0 w1 w Hst _ IH]; [done|]. apply IH. by eapply world_step_inv.
Qed.

(** C12: no session is ever stranded.  Whatever the interleaving of new
    sessions, writes, closes, their callbacks, drains, releases, incoming
    frames, resets and garbage collection, a registered session with something
    to send is marked ready, or held by a poll that will re-mark it on release,
    or about to be marked by a callback; and a session is held by at most one
    poll, exactly while it is marked in flight, so its frames leave in order. *)
Theorem no_stranded_session (e : Endpoints) (w : World) :
  carrier_steps (world_init e) w ->
  (forall id, ~ stranded w id)
  /\ NoDup (concat (wpolls w)) /\ (forall id, id ∈ inFlight (wc w) <-> id ∈ concat (wpolls w)).
Proof.
  intros H%world_reach_inv. split; [|by destruct H].
  intros id (s & Hs & Hp & Hr & Hf & Hc). destruct (wi_pending w H id s Hs Hp) as [|[|]]; done.
Qed.

End Steps.
Arguments World S : clear implicits.

Definition demo_world : World Session :=
  mkWorld (NewSession 5 demo_idA (str "a:1") (mkClient ∅ ∅ ∅ demo_eps 0 zero_stats)) [] [].

Lemma no_stranded_session_witness :
  demo_idA ∈ txReady (wc demo_world) /\ forall id, ~ stranded demo_world id.
Proof.
  split; [apply (bool_decide_unpack _); vm_compute; exact I|].
  refine (proj1 (no_stranded_session demo_eps demo_world _)).
  apply rtc_once. apply (w_new (world_init demo_eps) 5 demo_idA (str "a:1")).
  - reflexivity.
  - intros H. by apply elem_of_empty in H.
Defined.
