(* ===== verification/Worker.v ===== *)
(** * internal/carrier/client.go: the waker and the loop of a worker

    A broadcast channel is its number: [Broadcast] closes the current one and
    makes the next, so the channel [ch] is closed once a later one is current.
    A worker is polling, or waits on the channel it captured after its poll
    until the instant its back-off ends. *)

From S2P Require Import Prelude Session SessionApi Carrier.

Record waker := mkWaker { wk_ch : nat }.

Definition newWaker : waker := mkWaker 0.
Definition waker_C (w : waker) : nat := wk_ch w.
Definition Broadcast (w : waker) : waker := mkWaker (Datatypes.S (wk_ch w)).
Definition closed (ch : nat) (w : waker) : bool := bool_decide (ch < wk_ch w)%nat.

Inductive worker_pc := Polling | Waiting (ch : nat) (until : Z).

Record worker := mkWorker { pc : worker_pc; consecutiveIdle : Z }.

(** The loop of [runWorker] after a poll that returned [didWork]. *)
Definition poll_done (didWork : bool) (now : Z) (w : waker) (k : worker) : worker :=
  if didWork then mkWorker Polling 0
  else
    let idle := consecutiveIdle k + 1 in
    mkWorker (Waiting (waker_C w) (now + idleBackoff idle)) idle.

(** The [select]: the closed channel or the timer; otherwise it still waits. *)
Definition select (now : Z) (w : waker) (k : worker) : worker :=
  match pc k with
  | Polling => k
  | Waiting ch until =>
      if closed ch w then mkWorker Polling 0
      else if until <=? now then mkWorker Polling (consecutiveIdle k)
      else k
  end.

Inductive activity :=
| PollDone (didWork : bool)
| Kicked
| Look.

Definition step (now : Z) (a : activity) (s : waker * worker) : waker * worker :=
  let '(w, k) := s in
  match a with
  | PollDone didWork => match pc k with Polling => (w, poll_done didWork now w k) | _ => s end
  | Kicked => (Broadcast w, k)
  | Look => (w, select now w k)
  end.

Definition run (l : list (Z * activity)) (s : waker * worker) : waker * worker :=
  foldl (fun s p => step (fst p) (snd p) s) s l.

(** The captured channel is never newer than the current one, and the timer
    was set at most a second after [t], the last instant looked at. *)
Definition worker_ok (t : Z) (s : waker * worker) : Prop :=
  0 <= consecutiveIdle (snd s)
  /\ match pc (snd s) with
     | Polling => True
     | Waiting ch until => (ch <= wk_ch (fst s))%nat /\ until <= t + Second
     end.

Lemma idleBackoff_range n : pollIdleSleep <= idleBackoff n <= Second.
Proof. unfold idleBackoff. repeat case_bool; done. Qed.

Lemma step_ok t now a s : t <= now -> worker_ok t s -> worker_ok now (step now a s).
Proof.
  intros Hle. destruct s as [w [p i]]. unfold worker_ok. cbn. intros [Hi Hp]. destruct a as [b| |]; cbn.
  - destruct p as [|ch u]; [|cbn; split; [done|]; destruct Hp; split; [done|lia]].
    destruct b; cbn; [done|]. pose proof (idleBackoff_range (i + 1)). split; [lia|]. split; [done|lia].
  - destruct p as [|ch u]; cbn; split; try done. destruct Hp. split; lia.
  - destruct p as [|ch u]; cbn; [done|]. destruct Hp. case_bool; [done|]. case_bool; cbn; [done|].
    split; [done|]. split; [done|lia].
Qed.

(** The instants of a history never go back. *)
Fixpoint ordered (t : Z) (l : list (Z * activity)) : Prop :=
  match l with [] => True | p :: l => t <= fst p /\ ordered (fst p) l end.

Definition last_time (t : Z) (l : list (Z * activity)) : Z := foldl (fun _ p => fst p) t l.

Lemma run_ok t l s : ordered t l -> worker_ok t s -> worker_ok (last_time t l) (run l s).
Proof.
  revert t s. induction l as [|[u a] l IH]; intros t s; [done|]. intros [Ht Ho] Hs.
  apply (IH u); [done|]. by apply (step_ok t).
Qed.

(** What wakes a worker, and what does not.  At every moment of a worker's
    life, a kick releases it if it is waiting, and its idle count starts anew;
    and even without one it polls again at most a second later.  But a kick
    that comes during a poll, after the drain, is not seen: the channel is
    captured only when the poll is over, so a poll without work is followed by
    the full back-off although data is ready. *)
Theorem worker_wakes (t now : Z) (l : list (Z * activity)) :
  ordered t l -> last_time t l <= now ->
  let '(w, k) := run l (newWaker, mkWorker Polling 0) in
  (pc k <> Polling -> select now (Broadcast w) k = mkWorker Polling 0)
  /\ pc (select (last_time t l + Second) w k) = Polling
  /\ (pc k = Polling -> forall now', now' < now + pollIdleSleep ->
        let '(w1, k1) := run [(now, Kicked); (now, PollDone false)] (w, k) in
        select now' w1 k1 = k1 /\ pc k1 <> Polling).
Proof.
  intros Hord Hnow.
  assert (H : worker_ok (last_time t l) (run l (newWaker, mkWorker Polling 0))) by by apply run_ok.
  destruct (run l (newWaker, mkWorker Polling 0)) as [w [p i]]. unfold worker_ok in H. cbn in H.
  destruct H as [Hi Hp]. split; [|split].
  - destruct p as [|ch u]; [done|]. intros _. cbn. unfold closed. cbn.
    rewrite bool_decide_eq_true_2 by lia. done.
  - destruct p as [|ch u]; [done|]. cbn. case_bool; [done|].
    rewrite (proj2 (Z.leb_le _ _)) by lia. done.
  - cbn. intros -> now' Hlt. cbn. unfold closed. cbn.
    rewrite bool_decide_eq_false_2 by lia. pose proof (idleBackoff_range (i + 1)).
    rewrite (proj2 (Z.leb_gt _ _)) by lia. done.
Qed.

Lemma worker_wakes_witness :
  let l := [(5, PollDone false); (6, Kicked)] in
  pc (snd (run l (newWaker, mkWorker Polling 0))) <> Polling
  /\ pc (select (6 + Second) (fst (run l (newWaker, mkWorker Polling 0))) (snd (run l (newWaker, mkWorker Polling 0)))) = Polling.
Proof.
  split; [discriminate|].
  pose proof (worker_wakes 0 6 [(5, PollDone false); (6, Kicked)]) as H.
  cbn in H. destruct H as (_ & H & _); [lia|lia|]. exact H.
Defined.
