(* ===== verification/Poll.v ===== *)
(** * internal/carrier/client.go: the client's poll

    [New] builds the client, [pollOnce] is one poll of a worker (drain, encode,
    up to two attempts, routing of the answer, and the deferred releases) and
    [Shutdown] the final batch of resets.  The HTTP exchange is an argument:
    [attempts i] says at what instant attempt [i] runs and what it gets.  The
    poll is the composition of the critical sections of [Carrier] without
    interference; [CarrierSteps] has the interleavings.  Log lines and sleeps
    are left out. *)

From S2P Require Import Prelude GoStd Frame Crypto TestLib RelayBody Session SessionApi Endpoints Carrier CarrierSteps.

(** ** Construction *)

Record Config := mkConfig {
  ScriptURLs : list bytes;
  ScriptAccounts : list bytes;
  AESKeyHex : bytes;
  IdleSlotsPerBucket : Z;
}.

(** The fields of [Client] that never change. *)
Record ClientConst := mkConst {
  c_aead : Crypto;
  clientID : bytes;
  numWorkers : Z;
  bucketCount : Z;
  idleSlotsPerBucket : Z;
}.

(** The loop of [New] over [cfg.ScriptURLs] from index [i]. *)
Fixpoint new_endpoints (raws : list bytes) (i : nat) (accounts : list bytes)
    (seen : gset bytes) : list relayEndpoint :=
  match raws with
  | [] => []
  | raw :: raws =>
      let u := TrimSpace raw in
      if len u =? 0 then new_endpoints raws (S i) accounts seen else
      if bool_decide (u ∈ seen) then new_endpoints raws (S i) accounts seen else
      let a := match accounts !! i with Some a => TrimSpace a | None => [] end in
      new_endpoint u a :: new_endpoints raws (S i) accounts ({[u]} ∪ seen)
  end.

Inductive new_err := BadKey (e : crypto_err) | NoScriptURL | RandFailed.

Section New.
Context {L : CryptoLib} {S : Type}.

(** [rand]: the 16 random bytes, or the failure of [rand.Read]. *)
Definition New (cfg : Config) (rand : option bytes) : res new_err (ClientConst * Client S) :=
  let! aead := res_map_err BadKey (NewCryptoFromHexKey (AESKeyHex cfg)) in
  let eps := new_endpoints (ScriptURLs cfg) 0 (ScriptAccounts cfg) ∅ in
  if len eps =? 0 then Err NoScriptURL else
  let buckets := Z.of_nat (size (list_to_set (map account eps) : gset bytes)) in
  match rand with
  | None => Err RandFailed
  | Some cid =>
      let idle := if IdleSlotsPerBucket cfg <=? 0 then 1 else IdleSlotsPerBucket cfg in
      let workers := (workersPerEndpoint + idle - 1) * buckets in
      Ok (mkConst aead cid workers buckets idle,
          mkClient ∅ ∅ ∅ (mkEps eps 0) 0 zero_stats)
  end.

End New.

(** [idx % len] of [pickHTTPClient], with the counter after it. *)
Definition pickHTTPClient (nclients nextHTTP : Z) : Z * Z :=
  if nclients =? 1 then (0, nextHTTP)
  else let nextHTTP := u64 (nextHTTP + 1) in (u64 (nextHTTP - 1) mod nclients, nextHTTP).

(** ** One poll *)

(** What an HTTP attempt comes to: the request cannot be built, [Do] fails
    (because the context ended, or not), the body cannot be read, or a status
    and a body arrive. *)
Inductive http_result :=
| HttpBadRequest
| HttpError (ctxDone : bool)
| HttpReadError
| HttpResponse (status : Z) (body : bytes).

Record Attempt := mkAttempt { at_now : Z; at_result : http_result; at_timeouts : bytes -> bool }.

(** [countFrameBytes]: the two counters after it. *)
Definition countFrameBytes (frames bts : Z) (fs : list Frame) : Z * Z :=
  if len fs =? 0 then (frames, bts) else
  (u64 (frames + len fs), u64 (bts + foldl (fun n f => u64 (n + len (Payload f))) 0 fs)).

Definition stats_out (fs : list Frame) (st : clientStats) : clientStats :=
  let '(a, b) := countFrameBytes (framesOut st) (bytesOut st) fs in
  mkCStats a (framesIn st) b (bytesIn st) (pollsOK st) (pollsFail st)
           (rstFromServer st) (sessionsOpen st) (sessionsClose st).
Definition stats_in (fs : list Frame) (st : clientStats) : clientStats :=
  let '(a, b) := countFrameBytes (framesIn st) (bytesIn st) fs in
  mkCStats (framesOut st) a (bytesOut st) b (pollsOK st) (pollsFail st)
           (rstFromServer st) (sessionsOpen st) (sessionsClose st).
Definition stats_poll (ok : bool) (st : clientStats) : clientStats :=
  mkCStats (framesOut st) (framesIn st) (bytesOut st) (bytesIn st)
           (if ok then u64 (pollsOK st + 1) else pollsOK st)
           (if ok then pollsFail st else u64 (pollsFail st + 1))
           (rstFromServer st) (sessionsOpen st) (sessionsClose st).

Section Poll.
Context {L : CryptoLib} {S : Type} {A : SessionApi S}.
Context (cc : ClientConst) (startOfDay : Z -> Z).

(** The result of one attempt: go on with the next, or return. *)
Inductive attempt_result :=
| Retry (c : Client S)
| Finish (c : Client S) (pollOK didWork : bool).

(** [for _, f := range rxFrames { c.routeRx(f) }] *)
Fixpoint route_all (now : Z) (timeouts : bytes -> bool) (fs : list Frame) (c : Client S)
    : res Empty_set (Client S) :=
  match fs with
  | [] => Ok c
  | f :: fs => let! c := routeRx now (timeouts (SessionID f)) f c in route_all now timeouts fs c
  end.

(** The body of the loop once a response was read; [mark] is the failure of
    this endpoint that a case calls for, [retry] whether an attempt is left. *)
Definition handle_response (now idx : Z) (timeouts : bytes -> bool) (frames : list Frame)
    (status : Z) (body : bytes) (retry : bool) (c : Client S) : res Empty_set attempt_result :=
  let fail mark (work : bool) :=
    let c := set_relays (mark now idx (relays c)) c in
    Ok (if retry then Retry c else Finish c false work) in
  if (status =? 204) || (len body =? 0) then
    let c := set_relays (markEndpointSuccess idx (relays c)) c in
    Ok (Finish (set_stats (stats_out frames (cstats c)) c) true (0 <? len frames))
  else if negb (status =? 200) then
    if status =? 403 then fail markEndpoint403 false
    else if status =? 429 then fail markEndpoint429 false
    else fail markEndpointFailure false
  else if maxRelayResponseBodyBytes <? len body then fail markEndpointFailure (0 <? len frames)
  else if isLikelyNonBatchRelayPayload body then
    fail (if snd (classifyRelayErrorBody body) then markEndpointHardFailure else markEndpointFailure)
         (0 <? len frames)
  else
    match DecodeBatch (c_aead cc) body with
    | Ok (_, rxFrames) =>
        let! c := route_all now timeouts rxFrames c in
        let c := set_relays (markEndpointSuccess idx (relays c)) c in
        let c := set_stats (stats_in rxFrames (stats_out frames (cstats c))) c in
        Ok (Finish c true ((0 <? len frames) || (0 <? len rxFrames)))
    | Err _ => fail markEndpointFailure (0 <? len frames)
    | Panic => Panic
    end.

(** The retry loop: [more] attempts may follow attempt [i].  The result is
    the client, whether an attempt was made, [pollOK] and the returned value. *)
Fixpoint poll_loop (more : nat) (i : nat) (attempts : nat -> Attempt) (frames : list Frame)
    (attempted : bool) (c : Client S) : res Empty_set (Client S * bool * bool * bool) :=
  let at_ := attempts i in
  let now := at_now at_ in
  let '(e, (idx, u)) := pickRelayEndpoint now (relays c) in
  let c := set_relays e c in
  if (idx <? 0) || (len u =? 0) then Ok (c, attempted, false, false) else
  let retry := match more with O => false | _ => true end in
  let continue c :=
    match more with
    | O => Ok (c, true, false, false)
    | Datatypes.S more => poll_loop more (Datatypes.S i) attempts frames true c
    end in
  let failed c := if retry then continue c else Ok (c, true, false, false) in
  match at_result at_ with
  | HttpBadRequest => Ok (c, attempted, false, false)
  | HttpError true => Ok (c, true, false, false)
  | HttpError false => failed (set_relays (markEndpointFailure now idx (relays c)) c)
  | HttpReadError =>
      let c := set_relays (bumpDailyCount startOfDay now idx (relays c)) c in
      failed (set_relays (markEndpointFailure now idx (relays c)) c)
  | HttpResponse status body =>
      let c := set_relays (bumpDailyCount startOfDay now idx (relays c)) c in
      let! r := handle_response now idx (at_timeouts at_) frames status body retry c in
      match r with
      | Retry c => continue c
      | Finish c ok work => Ok (c, true, ok, work)
      end
  end.

Definition maxAttempts_left (c : Client S) : nat :=
  if 1 <? len (endpoints (relays c)) then 1 else 0.

Definition idle_cap (c : Client S) : Z :=
  let cap := bucketCount cc * idleSlotsPerBucket cc in
  if (Z.of_nat (size (txReady c)) =? 0) && (cap <? pureDownloadIdleCap)
  then pureDownloadIdleCap else cap.

(** The part of the poll between the acquisition of an idle slot (if one is
    needed) and the deferred functions. *)
Definition poll_body (rand : option bytes) (attempts : nat -> Attempt) (frames : list Frame)
    (c : Client S) : res Empty_set (Client S * bool) :=
  match EncodeBatch (c_aead cc) rand (clientID cc) frames with
  | Ok _ =>
      let! r := poll_loop (maxAttempts_left c) 0 attempts frames false c in
      let '(c, attempted, pollOK, work) := r in
      Ok (if attempted then set_stats (stats_poll pollOK (cstats c)) c else c, work)
  | Err _ => Ok (c, false)
  | Panic => Panic
  end.

Definition pollOnce (now : Z) (order : list bytes) (rand : option bytes)
    (attempts : nat -> Attempt) (c : Client S) : res Empty_set (Client S * bool) :=
  let '(c, frames, drainedIDs) := drainAll now order c in
  let finish (c : Client S) := releaseInFlight drainedIDs c in
  if len frames =? 0 then
    let '(c, got) := acquireIdlePollSlot (idle_cap c) c in
    if negb got then Ok (finish c, false) else
    let! r := poll_body rand attempts frames c in
    Ok (finish (releaseIdlePollSlot (fst r)), snd r)
  else
    let! r := poll_body rand attempts frames c in
    Ok (finish (fst r), snd r).

(** ** Shutdown *)

(** [order] lists the sessions as the range loop meets them; the result is the
    batch that is posted, if any. *)
Definition shutdown_frames (order : list bytes) : list Frame :=
  map (fun id => mkFrame id 0 FlagRST [] []) order.

Definition Shutdown (now : Z) (order : list bytes) (rand : option bytes) (c : Client S)
    : Client S * option bytes :=
  if Z.of_nat (size (sessions c)) =? 0 then (c, None) else
  match EncodeBatch (c_aead cc) rand (clientID cc) (shutdown_frames order) with
  | Ok body =>
      let '(e, (_, u)) := pickRelayEndpoint now (relays c) in
      let c := set_relays e c in
      if len u =? 0 then (c, None) else (c, Some body)
  | _ => (c, None)
  end.

(** ** A worker *)

(** One round of [runWorker]: the poll, the garbage collection, and the number
    of consecutive idle polls after it; the result says how long the worker
    then waits (unless it is woken), if it does. *)
Definition worker_round (now : Z) (order gc_order : list bytes) (rand : option bytes)
    (attempts : nat -> Attempt) (idle : Z) (c : Client S)
    : res Empty_set (Client S * Z * option Z) :=
  let! r := pollOnce now order rand attempts c in
  let c := gcDoneSessions now gc_order (fst r) in
  if snd r then Ok (c, 0, None)
  else let idle := idle + 1 in Ok (c, idle, Some (idleBackoff idle)).

End Poll.

(** ** Lemmas *)

Section PollLemmas.
Context {L : CryptoLib} {S : Type} {A : SessionApi S} {AO : SessionApiOk S}.
Context (cc : ClientConst) (startOfDay : Z -> Z).
Implicit Types (c : Client S).

(** Every session with something to send is marked ready or in flight. *)
Definition marked c : Prop :=
  forall id s, sessions c !! id = Some s -> api_pending s = true ->
    id ∈ txReady c \/ id ∈ inFlight c.

(** What the middle of a poll leaves alone. *)
Record kept c c' : Prop := {
  k_flight : inFlight c' = inFlight c;
  k_idle : idlePollInFlight c' = idlePollInFlight c;
  k_table : table_ok c -> table_ok c';
  k_marked : table_ok c -> marked c -> marked c';
}.

#[global] Instance kept_pre : PreOrder kept.
Proof.
  split.
  - intros c. by constructor.
  - intros c1 c2 c3 [] []. constructor; auto; congruence.
Qed.

Lemma kept_relays e c : kept c (set_relays e c).
Proof. by constructor. Qed.

Lemma kept_stats st c : kept c (set_stats st c).
Proof. by constructor. Qed.

Lemma kept_routeRx now t f c c' : routeRx now t f c = Ok c' -> kept c c'.
Proof.
  unfold routeRx. destruct (sessions c !! SessionID f) as [s|] eqn:Hs; [|intros [= <-]; reflexivity].
  case_bool.
  - unfold reset_session. destruct (api_close_rx s) as [s1|[]|] eqn:Hc; cbn; [|done].
    intros [= <-]. constructor; cbn; try done.
    + intros Hok i x. cbn. rewrite delete_insert_eq. intros [_ Hi]%lookup_delete_Some. by apply Hok.
    + intros Hok Hm i x. cbn. rewrite delete_insert_eq. intros [Hne Hi]%lookup_delete_Some Hp.
      destruct (Hm i x Hi Hp); [left; set_solver|by right].
  - intros [= <-]. constructor; cbn; try done.
    + intros Hok i x. cbn. intros [[<- <-]|[_ Hi]]%lookup_insert_Some; [|by apply Hok].
      destruct (Hok _ _ Hs) as [Hos <-]. by destruct (process_ok t f s Hos) as (? & ? & _).
    + intros Hok Hm i x. cbn. intros [[<- <-]|[_ Hi]]%lookup_insert_Some Hp; [|by apply (Hm i x)].
      destruct (Hok _ _ Hs) as [Hos _]. destruct (process_ok t f s Hos) as (_ & _ & Hpe).
      rewrite Hpe in Hp. by apply (Hm _ s).
Qed.

Lemma kept_route_all now ts fs c c' : route_all now ts fs c = Ok c' -> kept c c'.
Proof.
  revert c. induction fs as [|f fs IH]; intros c; cbn; [intros [= <-]; reflexivity|].
  destruct (routeRx now (ts (SessionID f)) f c) as [c1|[]|] eqn:H1; cbn; [|done].
  intros H2. etransitivity; [by eapply kept_routeRx|by apply IH].
Qed.

Definition res_client (r : @attempt_result S) : Client S :=
  match r with Retry c => c | Finish c _ _ => c end.

Lemma kept_response now idx ts frames status body retry c r :
  handle_response cc now idx ts frames status body retry c = Ok r -> kept c (res_client r).
Proof.
  unfold handle_response.
  assert (Hfail : forall mark w (r0 : @attempt_result S),
    Ok (E := Empty_set) (if retry then Retry (set_relays (mark now idx (relays c)) c)
        else Finish (set_relays (mark now idx (relays c)) c) false w) = Ok r0 -> kept c (res_client r0)).
  { intros mark w r0 [= <-]. destruct retry; apply kept_relays. }
  case_bool.
  { intros [= <-]. cbn. etransitivity; [apply kept_relays|apply kept_stats]. }
  repeat (case_bool; [by apply Hfail|]).
  case_bool; [case_bool; [by apply Hfail|case_bool; by apply Hfail]|].
  do 2 (case_bool; [by apply Hfail|]).
  destruct (DecodeBatch (c_aead cc) body) as [[cid rx]|e|]; [|by apply Hfail|done].
  destruct (route_all now ts rx c) as [c1|[]|] eqn:Hr; cbn; [|done]. intros [= <-].
  apply kept_route_all in Hr. etransitivity; [exact Hr|].
  cbn. etransitivity; [apply kept_relays|apply kept_stats].
Qed.

Lemma kept_poll_loop more i atts frames attempted c c' a ok w :
  poll_loop cc startOfDay more i atts frames attempted c = Ok (c', a, ok, w) -> kept c c'.
Proof.
  revert i attempted c. induction more as [|more IH]; intros i attempted c; cbn;
    destruct (pickRelayEndpoint _ _) as [e [idx u]];
    (case_bool; [intros [= <- _ _ _]; apply kept_relays|]);
    destruct (at_result (atts i)) as [|[]| |status body];
    try (intros [= <- _ _ _]; repeat (etransitivity; [|apply kept_relays]); reflexivity).
  - destruct (handle_response _ _ _ _ _ _ _ _ _) as [r|[]|] eqn:Hr; cbn; [|done].
    apply kept_response in Hr. destruct r as [c1|c1 ok1 w1]; intros [= <- _ _ _]; cbn in Hr;
      (etransitivity; [|exact Hr]); repeat (etransitivity; [|apply kept_relays]); reflexivity.
  - intros H%IH. etransitivity; [|exact H]. repeat (etransitivity; [|apply kept_relays]); reflexivity.
  - intros H%IH. etransitivity; [|exact H]. repeat (etransitivity; [|apply kept_relays]); reflexivity.
  - destruct (handle_response _ _ _ _ _ _ _ _ _) as [r|[]|] eqn:Hr; cbn; [|done].
    apply kept_response in Hr. destruct r as [c1|c1 ok1 w1]; cbn in Hr.
    + intros H%IH. etransitivity; [|exact H]. etransitivity; [|exact Hr].
      repeat (etransitivity; [|apply kept_relays]); reflexivity.
    + intros [= <- _ _ _]. etransitivity; [|exact Hr].
      repeat (etransitivity; [|apply kept_relays]); reflexivity.
Qed.

Lemma kept_poll_body rand atts frames c c' w :
  poll_body cc startOfDay rand atts frames c = Ok (c', w) -> kept c c'.
Proof.
  unfold poll_body. destruct (EncodeBatch _ _ _ _); [|intros [= <- _]; reflexivity|done].
  destruct (poll_loop _ _ _ _ _ _ _ _) as [[[[c1 att] ok] w1]|[]|] eqn:Hl; cbn; [|done].
  apply kept_poll_loop in Hl. intros [= <- _]. destruct att; [|done].
  etransitivity; [exact Hl|apply kept_stats].
Qed.

(** A client on its own, as a world whose other polls hold what is in flight. *)
Lemma marked_world c :
  table_ok c -> marked c -> world_inv (mkWorld c [] [elements (inFlight c)]).
Proof.
  intros Hok Hm. constructor; cbn; rewrite ?app_nil_r; [done| | |apply NoDup_elements].
  - intros id s Hs Hp. destruct (Hm id s Hs Hp); auto.
  - intros id. by rewrite elem_of_elements.
Qed.

Lemma kept_world c c' polls : kept c c' -> world_inv (mkWorld c [] polls) -> world_inv (mkWorld c' [] polls).
Proof.
  intros [Hf _ Ht Hm] [Htab Hp Hfl Hpo]. cbn in *.
  assert (Hmc : marked c).
  { intros id s Hs Hps. destruct (Hp id s Hs Hps) as [|[|Hx]]; [auto|auto|by apply elem_of_nil in Hx]. }
  constructor; cbn; [auto| |by rewrite Hf|done].
  intros id s Hs Hps. destruct (Hm Htab Hmc id s Hs Hps); auto.
Qed.

Lemma release_idle ids c : idlePollInFlight (releaseInFlight ids c) = idlePollInFlight c.
Proof.
  revert c. induction ids as [|i ids IH]; intros c; [done|]. cbn.
  fold (releaseInFlight ids (release_one i c)). by rewrite IH.
Qed.

Lemma pollOnce_world now order rand atts c c' w :
  table_ok c -> marked c -> valid_order c order -> 0 <= idlePollInFlight c ->
  pollOnce cc startOfDay now order rand atts c = Ok (c', w) ->
  world_inv (mkWorld c' [] [elements (inFlight c)]) /\ idlePollInFlight c' = idlePollInFlight c.
Proof.
  intros Hok Hm Hord Hidle. unfold pollOnce.
  destruct (drainAll now order c) as [[c1 frames] ids] eqn:Hd.
  pose proof (world_inv_drain _ now order c1 frames ids (marked_world c Hok Hm) Hord Hd) as Hw. cbn in Hw.
  assert (Hidle1 : idlePollInFlight c1 = idlePollInFlight c).
  { destruct (drainAll_spec now order c c1 frames ids Hok Hord Hd) as (? & ? & d & -> & _ & _ & Hdt & _).
    by destruct (dt_rest _ _ _ _ Hdt) as (_ & -> & _). }
  assert (Hfin : forall c2, kept c1 c2 ->
    world_inv (mkWorld (releaseInFlight ids c2) [] [elements (inFlight c)])
    /\ idlePollInFlight (releaseInFlight ids c2) = idlePollInFlight c1).
  { intros c2 Hk. split; [|by rewrite release_idle, (k_idle _ _ Hk)].
    apply (world_inv_release (mkWorld c2 [] (ids :: [elements (inFlight c)])) [] ids); [|done].
    by apply (kept_world c1). }
  case_bool.
  - unfold acquireIdlePollSlot. case_bool; cbn.
    + intros [= <- _]. destruct (Hfin c1) as [? Hi]; [done|]. by rewrite Hi.
    + destruct (poll_body _ _ _ _ _ _) as [[c2 w2]|[]|] eqn:Hb; cbn; [|done].
      intros [= <- _]. apply kept_poll_body in Hb.
      assert (Hk : kept c1 (releaseIdlePollSlot c2)).
      { destruct Hb as [Hf Hi Ht Hmk]. cbn in Hi. unfold releaseIdlePollSlot.
        rewrite Hi, (proj2 (Z.ltb_lt _ _)) by lia. constructor; cbn; try done. lia. }
      destruct (Hfin _ Hk) as [? Hi]. by rewrite Hi.
  - destruct (poll_body _ _ _ _ _ _) as [[c2 w2]|[]|] eqn:Hb; cbn; [|done].
    intros [= <- _]. apply kept_poll_body in Hb. destruct (Hfin _ Hb) as [? Hi]. by rewrite Hi.
Qed.

(** C30: a poll cleans up after itself on every path (no slot, an encoding
    error, a bad URL, a transport error, an HTTP error, an oversized or
    undecodable answer, success, with or without a second attempt): the idle
    slots and the sessions in flight are what they were before it, every
    registered session is still in order, and every one with something left to
    send is marked ready or held by another poll. *)
Theorem pollOnce_cleans_up now order rand atts c c' w :
  table_ok c -> marked c -> valid_order c order -> 0 <= idlePollInFlight c ->
  pollOnce cc startOfDay now order rand atts c = Ok (c', w) ->
  inFlight c' = inFlight c /\ idlePollInFlight c' = idlePollInFlight c
  /\ table_ok c' /\ marked c'.
Proof.
  intros Hok Hm Hord Hidle Hp.
  destruct (pollOnce_world now order rand atts c c' w Hok Hm Hord Hidle Hp) as [[Ht Hpe Hf _] Hi].
  cbn in *. split; [|split; [done|split; [done|]]].
  - apply set_eq. intros id. rewrite Hf, app_nil_r. apply elem_of_elements.
  - intros id s Hs Hps. destruct (Hpe id s Hs Hps) as [|[|Hx]]; [auto|auto|by apply elem_of_nil in Hx].
Qed.

(** ** Failed polls *)

(** The outcome of an attempt is a failure whatever the body would have been. *)
Definition no_answer (r : http_result) : Prop :=
  match r with
  | HttpResponse status body => status <> 200 /\ status <> 204 /\ body <> []
  | _ => True
  end.

Lemma response_no_answer now idx ts frames status body retry c r :
  no_answer (HttpResponse status body) ->
  handle_response cc now idx ts frames status body retry c = Ok r ->
  sessions (res_client r) = sessions c /\ (forall c1 ok w, r = Finish c1 ok w -> ok = false /\ w = false).
Proof.
  intros (H2 & H4 & Hb). unfold handle_response.
  rewrite (proj2 (Z.eqb_neq _ _) H4), (proj2 (Z.eqb_neq _ _) H2).
  rewrite (proj2 (Z.eqb_neq (len body) 0)) by (intros ?%len_zero; done). cbn.
  repeat case_bool; intros [= <-]; destruct retry; cbn; (split; [done|]); by intros ? ? ? [= <- <- <-].
Qed.

Lemma loop_no_answer more i atts frames attempted c c' a ok w :
  (forall j, no_answer (at_result (atts j))) ->
  poll_loop cc startOfDay more i atts frames attempted c = Ok (c', a, ok, w) ->
  sessions c' = sessions c /\ ok = false /\ w = false.
Proof.
  intros Hno. revert i attempted c. induction more as [|more IH]; intros i attempted c; cbn;
    destruct (pickRelayEndpoint _ _) as [e [idx u]];
    (case_bool; [by intros [= <- _ <- <-]|]); pose proof (Hno i) as Hi;
    destruct (at_result (atts i)) as [|[]| |status body];
    try (by intros [= <- _ <- <-]); try (by intros H%IH);
    (destruct (handle_response _ _ _ _ _ _ _ _ _) as [r|[]|] eqn:Hr; cbn; [|done]);
    apply response_no_answer in Hr as [Hs Hw]; try done; cbn in Hs.
  - destruct r as [c1|c1 ok1 w1]; cbn in Hs; intros [= <- _ <- <-]; [done|].
    destruct (Hw _ _ _ eq_refl) as [-> ->]. done.
  - destruct r as [c1|c1 ok1 w1]; cbn in Hs; [intros H%IH; by rewrite <- Hs|intros [= <- _ <- <-]].
    destruct (Hw _ _ _ eq_refl) as [-> ->]. done.
Qed.

Lemma release_sessions ids c : sessions (releaseInFlight ids c) = sessions c.
Proof. by destruct (release_fold ids c). Qed.

(** A poll without an answer loses what it drained.  When every attempt
    ends in a transport error or an HTTP error status, the poll reports no work
    and the sessions are left as the drain left them: the frames it took are
    kept nowhere, so they are never sent again (their receiver then waits for
    their sequence numbers for ever, by [Stream.stream_delivery]). *)
Theorem failed_poll_drops now order rand atts c c1 frames ids c' w :
  drainAll now order c = (c1, frames, ids) -> frames <> [] ->
  (forall i, no_answer (at_result (atts i))) ->
  pollOnce cc startOfDay now order rand atts c = Ok (c', w) ->
  w = false /\ sessions c' = sessions c1.
Proof.
  intros Hd Hne Hno. unfold pollOnce. rewrite Hd.
  rewrite (proj2 (Z.eqb_neq (len frames) 0)) by (intros ?%len_zero; done).
  unfold poll_body. destruct (EncodeBatch _ _ _ _); cbn; [|by intros [= <- <-]; rewrite release_sessions|done].
  destruct (poll_loop _ _ _ _ _ _ _ _) as [[[[c2 att] ok] w1]|[]|] eqn:Hl; cbn; [|done].
  apply loop_no_answer in Hl as (Hs & _ & ->); [|done].
  intros [= <- <-]. split; [done|]. rewrite release_sessions. by destruct att.
Qed.

(** The client after an attempt was answered with a batch, [e] its endpoints. *)
Definition answered (idx : Z) (frames rx : list Frame) (e : Endpoints) c : Client S :=
  set_stats (stats_in rx (stats_out frames (cstats c))) (set_relays (markEndpointSuccess idx e) c).

Lemma response_batch {LO : CryptoLibOk L} {AL : AeadLaws (c_aead cc).(aead)}
    now idx ts frames retry nonce sid rx body c c2 :
  len nonce = NonceSize (aead (c_aead cc)) -> len sid = ClientIDLen ->
  Forall frame_wf rx -> EncodeBatch (c_aead cc) (Some nonce) sid rx = Ok body ->
  len body <= maxRelayResponseBodyBytes -> HasPrefix body (str "HTTP/") = false ->
  route_all now ts rx c = Ok c2 ->
  handle_response cc now idx ts frames 200 body retry c
    = Ok (Finish (answered idx frames rx (relays c2) c2) true ((0 <? len frames) || (0 <? len rx))).
Proof.
  intros Hn Hsid Hwf He Hlen Hpre Hr.
  destruct (DecodeBatch_encoded (c_aead cc) nonce sid rx body Hn Hsid Hwf He) as [Hpos Hdec].
  unfold handle_response. change (200 =? 204) with false.
  rewrite (proj2 (Z.eqb_neq (len body) 0)) by lia. cbn [orb].
  change (negb (200 =? 200)) with false. cbn iota.
  rewrite (proj2 (Z.ltb_ge _ _)) by done.
  assert (isLikelyNonBatchRelayPayload body = false) as ->.
  { rewrite EncodeBatch_ok in He by (by apply EncodeBatch_inv in He as []).
    injection He as <-. by rewrite nonbatch_b64. }
  by rewrite Hdec, Hr.
Qed.

(** Routing does not look at the endpoints and the idle slots. *)
Definition with_rest (e : Endpoints) (n : Z) c : Client S := set_idle n (set_relays e c).

Lemma with_rest_same c : with_rest (relays c) (idlePollInFlight c) c = c.
Proof. by destruct c. Qed.

Lemma routeRx_rest now t f e n c c' :
  routeRx now t f c = Ok c' -> routeRx now t f (with_rest e n c) = Ok (with_rest e n c').
Proof.
  unfold routeRx. cbn [with_rest set_idle set_relays sessions].
  destruct (sessions c !! SessionID f) as [s|]; [|by intros [= <-]].
  case_bool; [|by intros [= <-]]. unfold reset_session.
  destruct (api_close_rx s) as [s1|[]|]; cbn; [|done]. by intros [= <-].
Qed.

Lemma route_all_rest now ts fs e n c c' :
  route_all now ts fs c = Ok c' -> route_all now ts fs (with_rest e n c) = Ok (with_rest e n c').
Proof.
  revert c. induction fs as [|f fs IH]; intros c; cbn; [by intros [= <-]|].
  destruct (routeRx now (ts (SessionID f)) f c) as [c1|[]|] eqn:Hr; cbn; [|done].
  apply (routeRx_rest _ _ _ e n) in Hr. rewrite Hr. apply IH.
Qed.

Lemma route_all_relays now ts fs e c c' :
  route_all now ts fs c = Ok c' -> route_all now ts fs (set_relays e c) = Ok (set_relays e c').
Proof.
  intros H. pose proof (route_all_rest _ _ _ (relays c) (idlePollInFlight c) _ _ H) as H0.
  rewrite with_rest_same, H in H0. injection H0 as E.
  pose proof (route_all_rest _ _ _ e (idlePollInFlight c) _ _ H) as H1.
  replace (set_relays e c') with (with_rest e (idlePollInFlight c) c'); [|rewrite E; done].
  rewrite <- H1. by destruct c.
Qed.

Lemma poll_loop_batch {LO : CryptoLibOk L} {AL : AeadLaws (c_aead cc).(aead)}
    more atts frames nonce sid rx body c c2 e idx u :
  endpoints (relays c) <> [] -> (forall ep, ep ∈ endpoints (relays c) -> url ep <> []) ->
  len nonce = NonceSize (aead (c_aead cc)) -> len sid = ClientIDLen ->
  Forall frame_wf rx -> EncodeBatch (c_aead cc) (Some nonce) sid rx = Ok body ->
  at_result (atts 0%nat) = HttpResponse 200 body ->
  len body <= maxRelayResponseBodyBytes -> HasPrefix body (str "HTTP/") = false ->
  route_all (at_now (atts 0%nat)) (at_timeouts (atts 0%nat)) rx c = Ok c2 ->
  pickRelayEndpoint (at_now (atts 0%nat)) (relays c) = (e, (idx, u)) ->
  poll_loop cc startOfDay more 0 atts frames false c
  = Ok (answered idx frames rx (bumpDailyCount startOfDay (at_now (atts 0%nat)) idx e) c2, true, true,
        (0 <? len frames) || (0 <? len rx)).
Proof.
  intros Hne Hu Hn Hsid Hwf He Hat Hlen Hpre Hr Hp.
  destruct (pick_spec _ _ _ _ _ Hne Hp) as (_ & _ & ep & Hi & Hl & -> & _).
  assert (Hu0 : (idx <? 0) || (len (url ep) =? 0) = false).
  { apply orb_false_iff. split; [apply Z.ltb_ge; lia|]. apply Z.eqb_neq. intros ?%len_zero.
    by apply list_elem_of_lookup_2, Hu in Hl. }
  pose proof (fun retry => response_batch (at_now (atts 0%nat)) idx (at_timeouts (atts 0%nat)) frames retry nonce sid rx body
    (set_relays (bumpDailyCount startOfDay (at_now (atts 0%nat)) idx e) (set_relays e c))
    (set_relays (bumpDailyCount startOfDay (at_now (atts 0%nat)) idx e) (set_relays e c2))
    Hn Hsid Hwf He Hlen Hpre ltac:(by do 2 apply route_all_relays)) as Hh.
  destruct more; cbn [poll_loop]; rewrite Hp, Hu0, Hat; cbn [set_relays relays] in *; by rewrite Hh.
Qed.

Lemma release_rest ids c : relays (releaseInFlight ids c) = relays c /\ cstats (releaseInFlight ids c) = cstats c.
Proof.
  revert c. induction ids as [|i ids IH]; intros c; [done|]. cbn.
  fold (releaseInFlight ids (release_one i c)). by destruct (IH (release_one i c)) as [-> ->].
Qed.

(** The endpoints of an answered attempt: one call counted, the endpoint healthy,
    the others as they were. *)
Lemma answered_endpoints now eps e idx u :
  endpoints eps <> [] -> pickRelayEndpoint now eps = (e, (idx, u)) ->
  let eps' := endpoints (markEndpointSuccess idx (bumpDailyCount startOfDay now idx e)) in
  exists ep ep', endpoints eps !! Z.to_nat idx = Some ep /\ eps' !! Z.to_nat idx = Some ep'
    /\ url ep = u /\ url ep' = u /\ failCount ep' = 0 /\ blacklistedTill ep' = 0 /\ statsOK ep' = u64 (statsOK ep + 1)
    /\ forall j, j <> Z.to_nat idx -> eps' !! j = endpoints eps !! j.
Proof.
  intros Hne Hp. destruct (pick_spec _ _ _ _ _ Hne Hp) as (Ee & _ & ep & Hi & Hl & -> & _).
  exists ep, (ep_success (ep_bump startOfDay now ep)).
  assert (Hr : forall f (s : Endpoints), len (endpoints s) = len (endpoints eps) ->
    endpoints (update_ep idx f s) = alter f (Z.to_nat idx) (endpoints s)).
  { intros f s E. unfold update_ep.
    rewrite (proj2 (orb_false_iff _ _)); [done|]. split; [apply Z.ltb_ge; lia|apply Z.leb_gt; lia]. }
  unfold markEndpointSuccess, bumpDailyCount.
  assert (E1 : len (endpoints e) = len (endpoints eps)) by by rewrite Ee.
  rewrite (Hr ep_success), (Hr (ep_bump startOfDay now)) by (rewrite ?(Hr (ep_bump startOfDay now)) by done;
    unfold len in *; by rewrite ?length_alter).
  rewrite Ee, !list_lookup_alter, !decide_True, Hl by done. do 3 (split; [done|]).
  assert (Hu : url (ep_bump startOfDay now ep) = url ep /\ statsOK (ep_bump startOfDay now ep) = statsOK ep).
  { unfold ep_bump, touchDailyWindow. by repeat case_bool. }
  destruct Hu as [Hu Ho]. unfold ep_success. cbn [url failCount blacklistedTill statsOK]. rewrite Hu, Ho. do 4 (split; [done|]).
  intros j Hj. by rewrite !list_lookup_alter_ne.
Qed.

(** C19: an answered poll, with something to send or idle.  Let a poll have
    drained [frames], which encode; if there are none, let it get an idle slot.
    Let its first attempt be answered 200 with a batch of well-formed frames that
    was sealed under the shared key, of at most 32 MiB and not starting with the
    letters [HTTP/].  Then the poll delivers exactly the frames of the batch, in
    order, to the sessions they name ([c2] is the client after that) and changes
    no session otherwise; it counts the poll as a success, with the frames and
    bytes of both batches; it marks the endpoint it picked healthy, whatever
    failures and pauses it had, and leaves the others alone; and it reports that it
    did work if and only if one of the batches had a frame. *)
Theorem poll_delivers {LO : CryptoLibOk L} {AL : AeadLaws (c_aead cc).(aead)}
    now order rand atts c c1 frames ids c' w nonce sid rx body c2 req :
  drainAll now order c = (c1, frames, ids) ->
  (frames = [] -> snd (acquireIdlePollSlot (idle_cap cc c1) c1) = true) ->
  endpoints (relays c1) <> [] -> (forall ep, ep ∈ endpoints (relays c1) -> url ep <> []) ->
  EncodeBatch (c_aead cc) rand (clientID cc) frames = Ok req ->
  len nonce = NonceSize (aead (c_aead cc)) -> len sid = ClientIDLen ->
  Forall frame_wf rx -> EncodeBatch (c_aead cc) (Some nonce) sid rx = Ok body ->
  at_result (atts 0%nat) = HttpResponse 200 body ->
  len body <= maxRelayResponseBodyBytes -> HasPrefix body (str "HTTP/") = false ->
  route_all (at_now (atts 0%nat)) (at_timeouts (atts 0%nat)) rx c1 = Ok c2 ->
  pollOnce cc startOfDay now order rand atts c = Ok (c', w) ->
  sessions c' = sessions c2 /\ w = (0 <? len frames) || (0 <? len rx)
  /\ cstats c' = stats_poll true (stats_in rx (stats_out frames (cstats c2)))
  /\ exists k ep ep', snd (pickRelayEndpoint (at_now (atts 0%nat)) (relays c1)) = (Z.of_nat k, url ep)
       /\ endpoints (relays c1) !! k = Some ep /\ endpoints (relays c') !! k = Some ep'
       /\ url ep' = url ep /\ failCount ep' = 0 /\ blacklistedTill ep' = 0 /\ statsOK ep' = u64 (statsOK ep + 1)
       /\ forall j, j <> k -> endpoints (relays c') !! j = endpoints (relays c1) !! j.
Proof.
  intros Hd Hslot Hep Hu Hreq Hn Hsid Hwf He Hat Hlen Hpre Hroute Hp.
  destruct (pickRelayEndpoint (at_now (atts 0%nat)) (relays c1)) as [e [idx u]] eqn:Hpick.
  set (e' := bumpDailyCount startOfDay (at_now (atts 0%nat)) idx e).
  assert (Hout : exists c3, sessions c' = sessions c3 /\ sessions c3 = sessions c2
    /\ w = (0 <? len frames) || (0 <? len rx) /\ cstats c3 = cstats c2
    /\ relays c' = markEndpointSuccess idx e' /\ cstats c' = stats_poll true (stats_in rx (stats_out frames (cstats c3)))).
  { assert (Hbody : forall n, poll_body cc startOfDay rand atts frames (set_idle n c1)
      = Ok (set_stats (stats_poll true (stats_in rx (stats_out frames (cstats c2)))) (answered idx frames rx e' (set_idle n c2)),
            (0 <? len frames) || (0 <? len rx))).
    { intros n. unfold poll_body. rewrite Hreq.
      rewrite (poll_loop_batch _ atts frames nonce sid rx body (set_idle n c1) (set_idle n c2) e idx u); try done.
      pose proof (route_all_rest _ _ _ (relays c1) n _ _ Hroute) as H. pose proof (route_all_rest _ _ _ (relays c1) (idlePollInFlight c1) _ _ Hroute) as H0.
      rewrite with_rest_same, Hroute in H0. injection H0 as E0. rewrite E0. revert H. by destruct c1. }
    revert Hp. unfold pollOnce. rewrite Hd. destruct (Z.eqb_spec (len frames) 0) as [Hz|Hz].
    - revert Hslot. rewrite <- len_zero. intros Hslot. specialize (Hslot Hz). revert Hslot. unfold acquireIdlePollSlot. case_bool; [done|].
      cbn [snd negb]. intros _. rewrite Hbody. cbn [res_bind fst snd]. intros [= <- <-]. exists c2.
      rewrite release_sessions. destruct (release_rest ids (releaseIdlePollSlot (set_stats
        (stats_poll true (stats_in rx (stats_out frames (cstats c2)))) (answered idx frames rx e' (set_idle (idlePollInFlight c1 + 1) c2))))) as [-> ->].
      unfold releaseIdlePollSlot. by case_bool.
    - specialize (Hbody (idlePollInFlight c1)). replace (set_idle (idlePollInFlight c1) c1) with c1 in Hbody by by destruct c1.
      rewrite Hbody. cbn [res_bind fst snd]. intros [= <- <-]. exists c2. rewrite release_sessions.
      destruct (release_rest ids (set_stats (stats_poll true (stats_in rx (stats_out frames (cstats c2))))
        (answered idx frames rx e' (set_idle (idlePollInFlight c1) c2)))) as [-> ->]. done. }
  destruct Hout as (c3 & Hs & Hs3 & Hw & Hst3 & Hrel & Hst). split; [congruence|]. split; [done|]. split; [congruence|].
  destruct (answered_endpoints (at_now (atts 0%nat)) (relays c1) e idx u Hep Hpick)
    as (ep & ep' & H1 & H2 & Hue & Hue' & H3 & H4 & H5 & H6). fold e' in H2, H6. rewrite <- Hrel in H2, H6.
  destruct (pick_spec _ _ _ _ _ Hep Hpick) as (_ & _ & _ & Hi & _).
  exists (Z.to_nat idx), ep, ep'. cbn. rewrite Z2Nat.id by lia. split; [by rewrite Hue|]. do 2 (split; [done|]).
  split; [congruence|done].
Qed.
End PollLemmas.

(** One over-long target poisons a batch.  When any drained frame has a
    target over 255 bytes (a SOCKS5 host name of 255 bytes and its port is
    enough), the whole batch fails to encode: the poll makes no request, its
    result does not depend on the network, and what every other session had in
    the batch is dropped as well. *)
Theorem long_target_drops_batch {L : CryptoLib} {S : Type} {A : SessionApi S} {AO : SessionApiOk S}
    (cc : ClientConst) (sod : Z -> Z) now order rand atts (c c1 : Client S) frames ids f :
  drainAll now order c = (c1, frames, ids) -> Forall frame_wf frames ->
  f ∈ frames -> maxTargetLen < len (Target f) ->
  pollOnce cc sod now order rand atts c = Ok (releaseInFlight ids c1, false)
  /\ sessions (releaseInFlight ids c1) = sessions c1.
Proof.
  intros Hd Hwf Hf Ht. split; [|apply release_sessions].
  unfold pollOnce. rewrite Hd.
  assert (len frames <> 0) as Hne%Z.eqb_neq by (intros ->%len_zero; by apply elem_of_nil in Hf).
  rewrite Hne. unfold poll_body.
  assert (exists e, EncodeBatch (c_aead cc) rand (clientID cc) frames = Err e) as [e ->]; [|done].
  unfold EncodeBatch. case_bool; [eauto|].
  destruct (marshal_all_err frames Hwf) as [e He]; [|rewrite He; cbn; eauto].
  intros Hall. rewrite Forall_forall in Hall. destruct (Hall f Hf). lia.
Qed.

Lemma new_endpoints_spec raws i accounts seen :
  let eps := new_endpoints raws i accounts seen in
  NoDup (map url eps)
  /\ (forall ep, ep ∈ eps -> url ep <> [] /\ url ep ∉ seen /\ exists raw, raw ∈ raws /\ url ep = TrimSpace raw)
  /\ (forall raw, raw ∈ raws -> TrimSpace raw = [] \/ TrimSpace raw ∈ seen \/ TrimSpace raw ∈ map url eps).
Proof.
  revert i seen. induction raws as [|raw raws IH]; intros i seen; cbn [new_endpoints].
  { split; [constructor|]. split; [by intros ep ?%elem_of_nil|by intros raw ?%elem_of_nil]. }
  assert (Hskip : TrimSpace raw = [] \/ TrimSpace raw ∈ seen ->
    let eps := new_endpoints raws (S i) accounts seen in
    NoDup (map url eps)
    /\ (forall ep, ep ∈ eps -> url ep <> [] /\ url ep ∉ seen /\ exists r, r ∈ raw :: raws /\ url ep = TrimSpace r)
    /\ (forall r, r ∈ raw :: raws -> TrimSpace r = [] \/ TrimSpace r ∈ seen \/ TrimSpace r ∈ map url eps)).
  { intros Hr. destruct (IH (S i) seen) as (H1 & H2 & H3). split; [done|]. split.
    - intros ep Hep. destruct (H2 ep Hep) as (? & ? & r & ? & ?). split; [done|]. split; [done|].
      exists r. split; [by right|done].
    - intros r [->|Hin]%elem_of_cons; [tauto|auto]. }
  destruct (Z.eqb_spec (len (TrimSpace raw)) 0) as [Hz|Hz]; [apply Hskip; left; by apply len_zero|].
  case_bool_decide as Hseen; [apply Hskip; by right|]. clear Hskip.
  destruct (IH (S i) ({[TrimSpace raw]} ∪ seen)) as (H1 & H2 & H3). cbn [map url new_endpoint].
  split; [|split].
  - constructor; [|done]. intros (ep & He & Hep)%list_elem_of_fmap.
    destruct (H2 ep Hep) as (_ & Hn & _). apply Hn. rewrite <- He. set_solver.
  - intros ep [->|Hep]%elem_of_cons; cbn.
    + split; [intros Hnil; by rewrite Hnil in Hz|]. split; [done|]. exists raw. split; [left|done].
    + destruct (H2 ep Hep) as (? & Hn & r & ? & ?). split; [done|]. split; [set_solver|].
      exists r. split; [by right|done].
  - intros r [->|Hin]%elem_of_cons; [right; right; left|].
    destruct (H3 r Hin) as [|[Hs|]]; [by left| |right; right; by right].
    apply elem_of_union in Hs as [->%elem_of_singleton|]; [right; right; left|right; by left].
Qed.

Lemma list_to_set_size_le (l : list bytes) : (size (list_to_set l : gset bytes) <= length l)%nat.
Proof.
  induction l as [|x l IH]; [done|]. cbn. rewrite size_union_alt, size_singleton.
  assert (size ((list_to_set l : gset bytes) ∖ {[x]}) <= size (list_to_set l : gset bytes))%nat
    by (apply subseteq_size; set_solver). lia.
Qed.

(** What [New] builds: endpoints with distinct, non-blank URLs covering every
    non-blank URL of the configuration; between 1 and as many account buckets
    as endpoints; and [workersPerEndpoint + idle slots - 1] workers per bucket,
    so at least 4 (the number does not grow with the endpoints of one
    account). *)
Theorem New_spec {L : CryptoLib} {S : Type} {A : SessionApi S} {AO : SessionApiOk S}
    (cfg : Config) (cid : bytes) (cc : ClientConst) (c : Client S) :
  New cfg (Some cid) = Ok (cc, c) ->
  let eps := endpoints (relays c) in
  eps <> [] /\ NoDup (map url eps) /\ (forall ep, ep ∈ eps -> url ep <> [])
  /\ (forall raw, raw ∈ ScriptURLs cfg -> TrimSpace raw <> [] -> TrimSpace raw ∈ map url eps)
  /\ 1 <= bucketCount cc <= len eps
  /\ numWorkers cc = (workersPerEndpoint + idleSlotsPerBucket cc - 1) * bucketCount cc
  /\ 4 <= numWorkers cc /\ 1 <= idleSlotsPerBucket cc
  /\ clientID cc = cid /\ table_ok c /\ marked c.
Proof.
  unfold New. destruct (NewCryptoFromHexKey _) as [ae|e|]; cbn [res_map_err res_bind]; [|done..].
  set (eps := new_endpoints _ _ _ _).
  destruct (Z.eqb_spec (len eps) 0) as [|Hne]; [done|]. intros [= <- <-]. cbn.
  destruct (new_endpoints_spec (ScriptURLs cfg) 0 (ScriptAccounts cfg) ∅) as (H1 & H2 & H3).
  fold eps in H1, H2, H3. set (accounts := list_to_set (map account eps) : gset bytes).
  assert (Hb : 1 <= Z.of_nat (size accounts) <= len eps).
  { split.
    - assert (size accounts <> 0%nat); [|lia]. intros Hz%size_empty_inv.
      destruct eps as [|ep eps']; [done|].
      assert (account ep ∈ accounts) as Hin by (unfold accounts; cbn; set_solver).
      rewrite Hz in Hin. by apply elem_of_empty in Hin.
    - unfold accounts. rewrite <- (len_map account eps). unfold len. apply inj_le.
      apply list_to_set_size_le. }
  set (idle := if IdleSlotsPerBucket cfg <=? 0 then 1 else _).
  assert (Hi : 1 <= idle) by (unfold idle; destruct (Z.leb_spec (IdleSlotsPerBucket cfg) 0); lia).
  split; [by intros Hn; rewrite Hn in Hne|]. split; [done|].
  split; [intros ep Hep; by destruct (H2 ep Hep)|].
  split. { intros raw Hr Hnb. destruct (H3 raw Hr) as [|[Hx|]]; [done|by apply elem_of_empty in Hx|done]. }
  split; [done|]. split; [done|]. unfold workersPerEndpoint. split; [nia|]. split; [done|]. split; [done|].
  split; intros id s Hs; cbn in Hs; by rewrite lookup_empty in Hs.
Qed.

(** An idle worker's pause is between 10 ms and 1 s and never shrinks while
    it stays idle. *)
Theorem idleBackoff_bounds (n m : Z) :
  n <= m -> pollIdleSleep <= idleBackoff n <= idleBackoff m /\ idleBackoff m <= Second.
Proof.
  intros. unfold idleBackoff.
  repeat match goal with |- context [?a <? ?b] => destruct (Z.ltb_spec a b) end;
    unfold pollIdleSleep, Second, Millisecond; lia.
Qed.

(** ** Concrete inputs *)

Definition demo_cc : ClientConst := mkConst test_crypto test_client 4 1 1.
Definition demo_sod : Z -> Z := FixedZone (-8 * Hour).

Definition demo_rx : list Frame := [mkFrame demo_idB 0 0 [] (str "world")].
Definition demo_body : bytes :=
  match EncodeBatch test_crypto (Some test_nonce) test_client demo_rx with Ok b => b | _ => [] end.

Definition atts_fail : nat -> Attempt := fun _ => mkAttempt 9 (HttpError false) (fun _ => false).
Definition atts_ok : nat -> Attempt := fun _ => mkAttempt 9 (HttpResponse 200 demo_body) (fun _ => false).

Lemma demo_c_marked : marked demo_c.
Proof.
  intros id s Hs _. left. change (sessions demo_c) with
    (<[demo_idB := with_tx (Session.New 6 demo_idB (str "b:2") true)
        (mkTx (str "hello") 0 true false false 0 6)]>
     (<[demo_idA := Session.New 5 demo_idA (str "a:1") true]> (∅ : gmap bytes Session))) in Hs.
  rewrite !lookup_insert_Some, lookup_empty in Hs.
  destruct Hs as [[<- _]|[_ [[<- _]|[_ ?]]]]; [| |done];
    apply (bool_decide_unpack _); vm_compute; exact I.
Qed.

Definition poll_demo (atts : nat -> Attempt) : res Empty_set (Client Session * bool) :=
  pollOnce demo_cc demo_sod 9 (some_order demo_c) (Some test_nonce) atts demo_c.

Lemma pollOnce_cleans_up_witness :
  exists c', poll_demo atts_fail = Ok (c', false) /\ inFlight c' = inFlight demo_c /\ marked c'.
Proof.
  destruct (poll_demo atts_fail) as [[c' w]|[]|] eqn:Hp; [|vm_compute in Hp; discriminate].
  assert (Hw : w = false).
  { pose proof (f_equal (fun r => match r with Ok (_, w) => w | _ => true end) Hp) as He.
    vm_compute in He. by rewrite <- He. }
  exists c'. split; [by rewrite Hw|].
  destruct (pollOnce_cleans_up demo_cc demo_sod 9 (some_order demo_c) (Some test_nonce) atts_fail
    demo_c c' w demo_c_ok demo_c_marked (some_order_valid demo_c)) as (Hf & _ & _ & Hm);
    [by vm_compute|exact Hp|]. by split.
Defined.

Lemma failed_poll_drops_witness :
  exists c', poll_demo atts_fail = Ok (c', false) /\ sessions c' = sessions demo_c'.
Proof.
  destruct (poll_demo atts_fail) as [[c' w]|[]|] eqn:Hp; [|vm_compute in Hp; discriminate].
  exists c'.
  destruct (failed_poll_drops demo_cc demo_sod 9 (some_order demo_c) (Some test_nonce) atts_fail
    demo_c demo_c' demo_out demo_ids c' w demo_drain) as [-> Hs];
    [vm_compute; discriminate|done|exact Hp|]. by split.
Defined.

Lemma poll_delivers_witness :
  exists c', poll_demo atts_ok = Ok (c', true)
    /\ (forall s, sessions c' !! demo_idB = Some s -> rxInbox (rx s) = demo_rx)
    /\ exists k ep', endpoints (relays c') !! k = Some ep' /\ failCount ep' = 0 /\ blacklistedTill ep' = 0.
Proof.
  destruct (poll_demo atts_ok) as [[c' w]|[]|] eqn:Hp; [|vm_compute in Hp; discriminate].
  exists c'.
  destruct (route_all 9 (fun _ => false) demo_rx demo_c') as [c2|[]|] eqn:Hr;
    [|vm_compute in Hr; discriminate].
  destruct (poll_delivers demo_cc demo_sod (AL := test_aead_laws) 9 (some_order demo_c) (Some test_nonce)
    atts_ok demo_c demo_c' demo_out demo_ids c' w test_nonce test_client demo_rx demo_body c2
    (match EncodeBatch test_crypto (Some test_nonce) test_client demo_out with Ok b => b | _ => [] end)
    demo_drain) as (Hs & Hw & _ & k & ep & ep' & _ & _ & H2 & _ & H3 & H4 & _).
  - intros Hn. vm_compute in Hn. discriminate Hn.
  - vm_compute. discriminate.
  - intros ep Hep. vm_compute in Hep. set_unfold. destruct Hep as [->|[->|[->|[]]]]; discriminate.
  - vm_compute. reflexivity.
  - reflexivity.
  - reflexivity.
  - repeat constructor; by vm_compute.
  - vm_compute. reflexivity.
  - reflexivity.
  - vm_compute. discriminate.
  - vm_compute. reflexivity.
  - exact Hr.
  - exact Hp.
  - split; [by rewrite Hw|]. split; [|exists k, ep'; split; [exact H2|split; [exact H3|exact H4]]]. rewrite Hs. intros s.
    assert (Hin : match route_all 9 (fun _ => false) demo_rx demo_c' with
      | Ok c => option_map (fun s => rxInbox (rx s)) (sessions c !! demo_idB) | _ => None end = Some demo_rx)
      by (vm_compute; reflexivity).
    intros Hl. rewrite Hr, Hl in Hin. by injection Hin as ->.
Defined.

Definition long_c : Client Session :=
  NewSession 7 demo_idA (zeros 256) (NewSession 6 demo_idB (str "b:2") demo_c0).

Lemma long_target_drops_batch_witness :
  exists c1 frames ids, drainAll 9 (some_order long_c) long_c = (c1, frames, ids) /\ len frames = 2
    /\ pollOnce demo_cc demo_sod 9 (some_order long_c) (Some test_nonce) atts_ok long_c
       = Ok (releaseInFlight ids c1, false).
Proof.
  destruct (drainAll 9 (some_order long_c) long_c) as [[c1 frames] ids] eqn:Hd.
  exists c1, frames, ids. split; [done|].
  assert (Hf : frames = [mkFrame demo_idB 0 FlagSYN (str "b:2") []; mkFrame demo_idA 0 FlagSYN (zeros 256) []]).
  { pose proof (f_equal (fun p => snd (fst p)) Hd) as He. vm_compute in He. by rewrite <- He. }
  split; [by rewrite Hf|].
  refine (proj1 (long_target_drops_batch demo_cc demo_sod 9 (some_order long_c) (Some test_nonce) atts_ok
    long_c c1 frames ids (mkFrame demo_idA 0 FlagSYN (zeros 256) []) Hd _ _ _)).
  - rewrite Hf. repeat constructor; by vm_compute.
  - rewrite Hf. right. left.
  - by vm_compute.
Defined.

Lemma New_spec_witness :
  exists cc (c : Client Session), New (mkConfig [str " u1 "; str "u2"; str "u1"; []] [str "A"] test_key 0) (Some test_client)
    = Ok (cc, c) /\ numWorkers cc = 8 /\ NoDup (map url (endpoints (relays c))).
Proof.
  do 2 eexists. split; [vm_compute; reflexivity|]. split; [reflexivity|].
  refine (proj1 (proj2 (New_spec (mkConfig [str " u1 "; str "u2"; str "u1"; []] [str "A"] test_key 0)
    test_client _ _ _))). vm_compute. reflexivity.
Defined.

Lemma idleBackoff_bounds_witness : idleBackoff 1 <= idleBackoff 40.
Proof. apply (idleBackoff_bounds 1 40). discriminate. Defined.
