(* ===== verification/Config.v ===== *)
(** * internal/config: the configuration files

    [LoadClient] and [LoadServer] are translated from the decoded file on: the
    argument is the struct that [json.Unmarshal] filled, the fields of type
    [json.RawMessage] being [json] values ([None] when absent), whose further
    decoding by the code is modelled.  [url.Parse] is an argument, with the
    scheme, the host and the [String] of its result.  Error texts are left
    out, the errors are the constructors of [config_err]. *)

From S2P Require Import Prelude GoStd GoText Frame Crypto TestLib Session SessionApi Endpoints Dns Carrier CarrierSteps Poll.

(** ** Fields *)

Fixpoint firstNonEmpty (values : list bytes) : bytes :=
  match values with
  | [] => []
  | v :: rest => let v := TrimSpace v in if negb (len v =? 0) then v else firstNonEmpty rest
  end.

Fixpoint firstPositive (values : list Z) : Z :=
  match values with
  | [] => 0
  | v :: rest => if 0 <? v then v else firstPositive rest
  end.

(** ["/"] separates; the loop finds the part after one that is ["s"]. *)
Definition slash : byte := z2b 47.

Fixpoint after_s (parts : list bytes) : option bytes :=
  match parts with
  | p :: ((q :: _) as rest) => if bool_decide (p = str "s") then Some q else after_s rest
  | _ => None
  end.

Definition normalizeDeploymentID (v : bytes) : bytes :=
  let v := TrimSpace v in
  if len v =? 0 then [] else
  let v := TrimSuffix v (str "/exec") in
  let v := Trim v [slash] in
  let parts := Split v slash in
  match after_s parts with
  | Some id => id
  | None => match last parts with Some p => p | None => v end
  end.

Definition buildScriptURL (deploymentID : bytes) : bytes :=
  str "https://script.google.com/macros/s/" ++ deploymentID ++ str "/exec".

Fixpoint dedupe_loop (values : list bytes) (seen : gset bytes) : list bytes :=
  match values with
  | [] => []
  | v :: rest =>
      let v := TrimSpace v in
      if len v =? 0 then dedupe_loop rest seen else
      if bool_decide (v ∈ seen) then dedupe_loop rest seen
      else v :: dedupe_loop rest ({[v]} ∪ seen)
  end.

Definition dedupeStrings (values : list bytes) : list bytes := dedupe_loop values ∅.

Record scriptKeyEntry := mkEntry { EntryID : bytes; Account : bytes }.

Inductive keys_err := NotAnArray | BadElement (i : Z) | NoID (i : Z).

(** [json.Unmarshal] into a [scriptKeyEntry]: the members are taken in order,
    their names compared without case; a value that is neither a string nor
    [null] is an error. *)
Definition un_member (e : option scriptKeyEntry) (m : bytes * json) : option scriptKeyEntry :=
  let key := map lower_ascii (fst m) in
  match e with
  | None => None
  | Some e =>
      if bool_decide (key = str "id") then
        match snd m with
        | JString s => Some (mkEntry s (Account e)) | JNull => Some e | _ => None
        end
      else if bool_decide (key = str "account") then
        match snd m with
        | JString s => Some (mkEntry (EntryID e) s) | JNull => Some e | _ => None
        end
      else Some e
  end.

Definition un_entry (j : json) : option scriptKeyEntry :=
  match j with
  | JObject members => foldl un_member (Some (mkEntry [] [])) members
  | JNull => Some (mkEntry [] [])
  | _ => None
  end.

Fixpoint parse_items (arr : list json) (i : Z) : res keys_err (list scriptKeyEntry) :=
  match arr with
  | [] => Ok []
  | item :: arr =>
      match un_string item with
      | Some s => let! rest := parse_items arr (i + 1) in Ok (mkEntry s [] :: rest)
      | None =>
          match un_entry item with
          | None => Err (BadElement i)
          | Some obj =>
              if len (TrimSpace (EntryID obj)) =? 0 then Err (NoID i)
              else let! rest := parse_items arr (i + 1) in Ok (obj :: rest)
          end
      end
  end.

Definition parseScriptKeys (raw : option json) : res keys_err (list scriptKeyEntry) :=
  match raw with
  | None => Ok []
  | Some j =>
      match un_array j with
      | None => Err NotAnArray
      | Some arr => parse_items arr 0
      end
  end.

Inductive id_err := EmptyID | Placeholder | EditorURL | Whitespace | WrongPrefix | TooShort.

Definition validateDeploymentID (id : bytes) : option id_err :=
  if len id =? 0 then Some EmptyID else
  if bool_decide (id = str "REPLACE_WITH_DEPLOYMENT_ID")
     || bool_decide (id = str "OPTIONAL_SECOND_DEPLOYMENT_ID") then Some Placeholder else
  if Contains id (str "/edit") || Contains id (str "script.google.com/d/") then Some EditorURL else
  if existsb (in_cutset [z2b 32; z2b 9; z2b 10; z2b 13]) id then Some Whitespace else
  if negb (HasPrefix id (str "AKfycb")) then Some WrongPrefix else
  if len id <? 50 then Some TooShort else None.

Definition default_sni : list bytes := [str "www.google.com"].

Definition parseSNIHosts (raw : option json) : list bytes :=
  match raw with
  | None => default_sni
  | Some j =>
      match un_string j with
      | Some single =>
          let single := TrimSpace single in
          if len single =? 0 then default_sni else [single]
      | None =>
          match (arr ← un_array j; mapM un_string arr) with
          | None => default_sni
          | Some multi =>
              let out := List.filter (fun h => negb (len h =? 0)) (map TrimSpace multi) in
              if len out =? 0 then default_sni else out
          end
      end
  end.

(** ** The files *)

Record clientFile := mkClientFile {
  cf_SocksHost : bytes; cf_SocksPort : Z; cf_GoogleHost : bytes;
  cf_SNI : option json; cf_ScriptKeys : option json; cf_RelayURLs : list bytes;
  cf_TunnelKey : bytes; cf_DebugTiming : bool;
  cf_SocksUser : bytes; cf_SocksPass : bytes;
  cf_CoalesceStepMs : Z; cf_IdleSlotsPerBucket : Z;
}.

Record ClientCfg := mkClientCfg {
  cc_ListenAddr : bytes; cc_GoogleIP : bytes; cc_SNIHosts : list bytes;
  cc_ScriptURLs : list bytes; cc_ScriptAccounts : list bytes; cc_UseFronting : bool;
  cc_AESKeyHex : bytes; cc_DebugTiming : bool; cc_SocksUser : bytes; cc_SocksPass : bytes;
  cc_CoalesceStepMs : Z; cc_CoalesceMaxMs : Z; cc_IdleSlotsPerBucket : Z;
}.

Inductive config_err :=
| PortRange (port : Z)
| RelayParse (v : bytes) | RelayScheme (v : bytes) | RelayHost (v : bytes)
| KeyMissing | KeySize (n : Z) | KeyNotHex
| ScriptKeysErr (e : keys_err) | NoScriptKeys | BadScriptKey (i : Z) (e : id_err)
| SocksCredentials | NegativeCoalesce | IdleSlotsRange
| ProxyURL | ProxyHost.

(** The result of [url.Parse]. *)
Record URL := mkURL { Scheme : bytes; Host : bytes; URLString : bytes }.

Section Load.
Context (url_Parse : bytes -> option URL).

Definition normalizeRelayURL (v : bytes) : res config_err bytes :=
  let v := TrimSpace v in
  if len v =? 0 then Ok [] else
  match url_Parse v with
  | None => Err (RelayParse v)
  | Some u =>
      if negb (bool_decide (Scheme u = str "http")) && negb (bool_decide (Scheme u = str "https"))
      then Err (RelayScheme v)
      else if len (TrimSpace (Host u)) =? 0 then Err (RelayHost v)
      else Ok (URLString u)
  end.

Fixpoint relay_urls (raws : list bytes) : res config_err (list bytes) :=
  match raws with
  | [] => Ok []
  | raw :: raws =>
      let! n := normalizeRelayURL raw in
      let! rest := relay_urls raws in
      Ok (if negb (len n =? 0) then n :: rest else rest)
  end.

(** The loop over the entries: deployment IDs and accounts without duplicates. *)
Fixpoint deployments (entries : list scriptKeyEntry) (i : Z) (seen : gset bytes)
    : res config_err (list (bytes * bytes)) :=
  match entries with
  | [] => Ok []
  | entry :: entries =>
      let id := normalizeDeploymentID (EntryID entry) in
      match validateDeploymentID id with
      | Some e => Err (BadScriptKey i e)
      | None =>
          if bool_decide (id ∈ seen) then deployments entries (i + 1) seen
          else
            let! rest := deployments entries (i + 1) ({[id]} ∪ seen) in
            Ok ((id, TrimSpace (Account entry)) :: rest)
      end
  end.

(** [tunnel_key]: present, 64 characters, hexadecimal. *)
Definition check_key (placeholder key : bytes) : res config_err bytes :=
  if (len key =? 0) || bool_decide (key = placeholder) then Err KeyMissing else
  if negb (len key =? 64) then Err (KeySize (len key)) else
  match hex_decode key with
  | None => Err KeyNotHex
  | Some raw => if negb (len raw =? 32) then Err KeyNotHex else Ok key
  end.

(** The endpoints: relay URLs as they are, or Apps Script deployments behind
    the Google front. *)
Definition load_endpoints (f : clientFile) (relayURLs : list bytes)
    : res config_err (bytes * list bytes * list bytes * list bytes) :=
  if negb (len relayURLs =? 0)
  then Ok ([], [], relayURLs, repeat [] (length relayURLs))
  else
    let googleIP := JoinHostPort (firstNonEmpty [cf_GoogleHost f; str "216.239.38.120"]) (Itoa 443) in
    let sniHosts := parseSNIHosts (cf_SNI f) in
    let! entries := res_map_err ScriptKeysErr (parseScriptKeys (cf_ScriptKeys f)) in
    if len entries =? 0 then Err NoScriptKeys else
    let! ds := deployments entries 0 ∅ in
    Ok (googleIP, sniHosts, map (fun d => buildScriptURL (fst d)) ds, map snd ds).

(** 64-bit wrap-around of [f.CoalesceStepMs * 25]. *)
Definition int64 (z : Z) : Z := (z + 2 ^ 63) mod 2 ^ 64 - 2 ^ 63.

Definition listen_port (values : list Z) (default_ : Z) : res config_err Z :=
  let p := firstPositive values in
  let p := if p =? 0 then default_ else p in
  if (p <? 1) || (65535 <? p) then Err (PortRange p) else Ok p.

Definition LoadClient (f : clientFile) : res config_err ClientCfg :=
  let listenHost := firstNonEmpty [cf_SocksHost f; str "127.0.0.1"] in
  let! listenPort := listen_port [cf_SocksPort f] 1080 in
  let! relays := relay_urls (cf_RelayURLs f) in
  let relayURLs := dedupeStrings relays in
  let! key := check_key (str "REPLACE_WITH_OUTPUT_OF_scripts_gen-key.sh") (TrimSpace (cf_TunnelKey f)) in
  let! eps := load_endpoints f relayURLs in
  let '(googleIP, sniHosts, scriptURLs, scriptAccounts) := eps in
  let socksUser := TrimSpace (cf_SocksUser f) in
  let socksPass := TrimSpace (cf_SocksPass f) in
  if negb (Bool.eqb (len socksUser =? 0) (len socksPass =? 0)) then Err SocksCredentials else
  if cf_CoalesceStepMs f <? 0 then Err NegativeCoalesce else
  let coalesceMax := if 0 <? cf_CoalesceStepMs f then int64 (cf_CoalesceStepMs f * 25) else 0 in
  if (cf_IdleSlotsPerBucket f <? 0) || (3 <? cf_IdleSlotsPerBucket f) then Err IdleSlotsRange else
  Ok (mkClientCfg (JoinHostPort listenHost (Itoa listenPort)) googleIP sniHosts scriptURLs
        scriptAccounts (len relayURLs =? 0) key (cf_DebugTiming f) socksUser socksPass
        (cf_CoalesceStepMs f) coalesceMax (cf_IdleSlotsPerBucket f)).

Record serverFile := mkServerFile {
  sf_ServerHost : bytes; sf_ServerPort : Z; sf_TunnelKey : bytes; sf_DebugTiming : bool;
  sf_UpstreamProxy : bytes; sf_ListenAddr : bytes; sf_AESKeyHex : bytes;
}.

Record ServerCfg := mkServerCfg {
  sc_ListenAddr : bytes; sc_AESKeyHex : bytes; sc_DebugTiming : bool; sc_UpstreamProxy : bytes;
}.

Definition parseLegacyListenAddr (addr : bytes) : bytes * Z :=
  let addr := TrimSpace addr in
  if len addr =? 0 then ([], 0) else
  match SplitHostPort addr with
  | None => ([], 0)
  | Some (host, portStr) =>
      match Atoi portStr with
      | None => ([], 0)
      | Some port => (TrimSpace host, port)
      end
  end.

Definition upstream_proxy (v : bytes) : res config_err bytes :=
  let raw := TrimSpace v in
  if len raw =? 0 then Ok [] else
  match url_Parse raw with
  | None => Err ProxyURL
  | Some u =>
      if negb (bool_decide (Scheme u = str "socks5")) then Err ProxyURL
      else if len (Host u) =? 0 then Err ProxyHost
      else Ok (Host u)
  end.

Definition LoadServer (f : serverFile) : res config_err ServerCfg :=
  let '(legacyHost, legacyPort) := parseLegacyListenAddr (sf_ListenAddr f) in
  let listenHost := firstNonEmpty [sf_ServerHost f; legacyHost; str "0.0.0.0"] in
  let! listenPort := listen_port [sf_ServerPort f; legacyPort] 8443 in
  let! key := check_key (str "SAME_VALUE_AS_CLIENT_tunnel_key")
                (TrimSpace (firstNonEmpty [sf_TunnelKey f; sf_AESKeyHex f])) in
  let! upstreamProxy := upstream_proxy (sf_UpstreamProxy f) in
  Ok (mkServerCfg (JoinHostPort listenHost (Itoa listenPort)) key (sf_DebugTiming f) upstreamProxy).

End Load.
