(* ===== verification/ConfigProps.v ===== *)
(** * What a configuration that loads guarantees

    Deployment IDs survive being pasted as URLs, a loaded client configuration
    starts the client, the two sides agree on the key, and legacy listen
    addresses keep their meaning. *)

From S2P Require Import Prelude GoStd GoText Frame Crypto TestLib Session SessionApi Endpoints Dns Carrier CarrierSteps.
From S2P Require Import Poll Config.

(** ** Text *)

Lemma Split_free l : slash ∉ l -> Split l slash = [l].
Proof.
  induction l as [|a l IH]; intros Hn; [done|]. cbn.
  rewrite bool_decide_eq_false_2 by (intros ->; apply Hn; left).
  rewrite IH; [done|]. intros H. apply Hn. by right.
Qed.

Lemma Split_app l k : slash ∉ l -> Split (l ++ slash :: k) slash = l :: Split k slash.
Proof.
  induction l as [|a l IH]; intros Hn; cbn.
  { by rewrite bool_decide_eq_true_2. }
  rewrite bool_decide_eq_false_2 by (intros ->; apply Hn; left).
  rewrite IH; [done|]. intros H. apply Hn. by right.
Qed.

Lemma TrimSuffix_app l k : TrimSuffix (l ++ k) k = l.
Proof.
  unfold TrimSuffix. rewrite length_app, Nat.add_sub.
  rewrite drop_app_length, take_app_length. by rewrite bool_decide_eq_true_2.
Qed.

Lemma TrimSuffix_none l k x : x ∈ k -> x ∉ l -> TrimSuffix l k = l.
Proof.
  intros Hk Hl. unfold TrimSuffix. rewrite bool_decide_eq_false_2; [done|]. intros He.
  apply Hl. rewrite <- He in Hk. rewrite <- (take_drop (length l - length k) l), elem_of_app. by right.
Qed.

Lemma drop_while_head p a l : p a = false -> drop_while p (a :: l) = a :: l.
Proof. cbn. by intros ->. Qed.

Lemma Trim_ends (cut : bytes) a l b : a ∉ cut -> b ∉ cut -> Trim (a :: l ++ [b]) cut = a :: l ++ [b].
Proof.
  intros Ha Hb. unfold Trim, TrimLeft, TrimRight.
  rewrite drop_while_head by (apply bool_decide_eq_false_2; done).
  change (a :: l ++ [b]) with ((a :: l) ++ [b]). rewrite rev_app_distr. cbn [rev app].
  rewrite drop_while_head by (apply bool_decide_eq_false_2; done).
  cbn [rev]. by rewrite rev_app_distr, rev_involutive.
Qed.

Lemma Trim_single (cut : bytes) a : a ∉ cut -> Trim [a] cut = [a].
Proof.
  intros Ha. unfold Trim, TrimLeft, TrimRight.
  rewrite drop_while_head by (apply bool_decide_eq_false_2; done). cbn [rev app].
  by rewrite drop_while_head by (apply bool_decide_eq_false_2; done).
Qed.

Lemma Trim_free (cut : bytes) l : (forall x, x ∈ l -> x ∉ cut) -> Trim l cut = l.
Proof.
  intros H. destruct l as [|a t]; [done|]. destruct t as [|b t] using rev_ind.
  - apply Trim_single, H. left.
  - apply Trim_ends; apply H; [left|]. rewrite app_comm_cons, elem_of_app. right. left.
Qed.

Definition url_parts : list bytes := [str "https:"; []; str "script.google.com"; str "macros"; str "s"].

(** A deployment ID as Google issues them: visible ASCII without a slash. *)
Definition plain_id (id : bytes) : Prop := id <> [] /\ Forall graph_byte id /\ slash ∉ id.

Lemma graph_str (l : bytes) : forallb (fun c => (b2z c <? 128) && negb (ascii_space c)) l = true -> Forall graph_byte l.
Proof.
  intros H. apply Forall_forall. intros c Hc%list_elem_of_In. rewrite forallb_forall in H.
  specialize (H c Hc). apply andb_true_iff in H as [H1%Z.ltb_lt H2%negb_true_iff]. done.
Qed.

Lemma buildScriptURL_graph id : Forall graph_byte id -> TrimSpace (buildScriptURL id) = buildScriptURL id.
Proof.
  intros H. apply TrimSpace_graph. unfold buildScriptURL.
  apply Forall_app. split; [apply graph_str; vm_compute; reflexivity|].
  apply Forall_app. split; [done|apply graph_str; vm_compute; reflexivity].
Qed.

Lemma normalize_plain id : plain_id id -> normalizeDeploymentID id = id.
Proof.
  intros (Hne & Hg & Hs). unfold normalizeDeploymentID. rewrite TrimSpace_graph by done.
  destruct (Z.eqb_spec (len id) 0) as [Hz|_]; [by apply len_zero in Hz|].
  rewrite (TrimSuffix_none id _ slash); [|vm_compute; left|done].
  rewrite Trim_free by (intros x Hx ->%list_elem_of_singleton; done).
  by rewrite Split_free.
Qed.

Lemma normalize_url id : plain_id id -> normalizeDeploymentID (buildScriptURL id) = id.
Proof.
  intros (Hne & Hg & Hs). unfold normalizeDeploymentID. rewrite buildScriptURL_graph by done.
  assert (Hlen : len (buildScriptURL id) =? 0 = false).
  { apply Z.eqb_neq. unfold buildScriptURL. rewrite !len_app. pose proof (len_nonneg id).
    change (len (str "https://script.google.com/macros/s/")) with 35.
    change (len (str "/exec")) with 5. lia. }
  rewrite Hlen. unfold buildScriptURL. rewrite app_assoc, TrimSuffix_app.
  destruct (exists_last Hne) as (t & b & Hb).
  assert (Hpre : str "https://script.google.com/macros/s/" = z2b 104 :: str "ttps://script.google.com/macros/s/") by done.
  assert (Htrim : Trim (str "https://script.google.com/macros/s/" ++ id) [slash]
                = str "https://script.google.com/macros/s/" ++ id).
  { rewrite Hb, Hpre. cbn [app]. rewrite app_assoc. apply Trim_ends.
    - by intros H%list_elem_of_singleton.
    - intros ->%list_elem_of_singleton. apply Hs. rewrite Hb, elem_of_app. right. left. }
  rewrite Htrim.
  assert (Hsplit : Split (str "https://script.google.com/macros/s/" ++ id) slash = url_parts ++ [id]).
  { change (str "https://script.google.com/macros/s/" ++ id)
      with (str "https:" ++ slash :: [] ++ slash :: str "script.google.com" ++ slash :: str "macros" ++ slash :: str "s" ++ slash :: id).
    rewrite !Split_app by (apply (bool_decide_unpack _); vm_compute; exact I).
    by rewrite Split_free. }
  by rewrite Hsplit.
Qed.

(** A deployment ID is recognised however it is pasted: as the bare ID or as
    the Web App URL built from it, the normal form is the ID itself, so it is
    validated, deduplicated and turned into a URL the same way. *)
Theorem deployment_id_roundtrip (id : bytes) :
  plain_id id ->
  normalizeDeploymentID (buildScriptURL id) = id /\ normalizeDeploymentID id = id
  /\ validateDeploymentID (normalizeDeploymentID (buildScriptURL id)) = validateDeploymentID id.
Proof. intros H. rewrite normalize_url, normalize_plain by done. done. Qed.

(** ** The client *)

Lemma dedupe_spec vs seen :
  let out := dedupe_loop vs seen in
  NoDup out /\ (forall v, v ∈ out -> v ∉ seen /\ v <> [] /\ TrimSpace v = v)
  /\ (forall v, v ∈ vs -> TrimSpace v = [] \/ TrimSpace v ∈ seen \/ TrimSpace v ∈ out).
Proof.
  revert seen. induction vs as [|v vs IH]; intros seen; cbn [dedupe_loop].
  { split; [constructor|]. split; [by intros ? ?%elem_of_nil|by intros ? ?%elem_of_nil]. }
  destruct (Z.eqb_spec (len (TrimSpace v)) 0) as [Hz%len_zero|Hz].
  { destruct (IH seen) as (H1 & H2 & H3). split; [done|]. split; [done|].
    intros w [->|Hw]%elem_of_cons; [by left|auto]. }
  case_bool_decide as Hs.
  { destruct (IH seen) as (H1 & H2 & H3). split; [done|]. split; [done|].
    intros w [->|Hw]%elem_of_cons; [auto|auto]. }
  destruct (IH ({[TrimSpace v]} ∪ seen)) as (H1 & H2 & H3). split; [|split].
  - constructor; [|done]. intros Hin. destruct (H2 _ Hin) as (Hn & _). apply Hn. set_solver.
  - intros w [->|Hw]%elem_of_cons.
    + split; [done|]. split; [by intros Hn; rewrite Hn in Hz|apply TrimSpace_idem].
    + destruct (H2 w Hw) as (Hn & ? & ?). split; [set_solver|done].
  - intros w [->|Hw]%elem_of_cons; [right; right; left|].
    destruct (H3 w Hw) as [|[Hx|]]; [by left| |right; right; by right].
    apply elem_of_union in Hx as [->%elem_of_singleton|]; [right; right; left|right; by left].
Qed.

Lemma deployments_spec entries i seen ds :
  deployments entries i seen = Ok ds ->
  NoDup (map fst ds)
  /\ (forall d, d ∈ ds -> fst d ∉ seen /\ validateDeploymentID (fst d) = None
        /\ exists e, e ∈ entries /\ fst d = normalizeDeploymentID (EntryID e) /\ snd d = TrimSpace (Account e))
  /\ (entries <> [] -> seen = ∅ -> ds <> []).
Proof.
  revert i seen ds. induction entries as [|e entries IH]; intros i seen ds; cbn [deployments].
  { intros [= <-]. split; [constructor|]. split; [by intros ? ?%elem_of_nil|done]. }
  destruct (validateDeploymentID _) eqn:Hv; [done|].
  set (id := normalizeDeploymentID (EntryID e)) in *. case_bool_decide as Hs.
  - intros Hd. destruct (IH _ _ _ Hd) as (H1 & H2 & _). split; [done|]. split.
    + intros d Hin. destruct (H2 d Hin) as (? & ? & x & ? & ?). split; [done|]. split; [done|].
      exists x. split; [by right|done].
    + intros _ ->. by apply elem_of_empty in Hs.
  - destruct (deployments entries (i + 1) ({[id]} ∪ seen)) as [rest| |] eqn:Hr; cbn; [|done..].
    intros [= <-]. destruct (IH _ _ _ Hr) as (H1 & H2 & _). cbn. split; [|split; [|done]].
    + constructor; [|done]. intros (d & Hd & Hin)%list_elem_of_fmap.
      destruct (H2 d Hin) as (Hn & _). apply Hn. rewrite <- Hd. set_solver.
    + intros d [->|Hin]%elem_of_cons; cbn.
      * split; [done|]. split; [done|]. exists e. split; [left|done].
      * destruct (H2 d Hin) as (Hn & ? & x & ? & ?). split; [set_solver|]. split; [done|].
        exists x. split; [by right|done].
Qed.

Lemma check_key_spec placeholder key k :
  check_key placeholder key = Ok k ->
  k = key /\ len key = 64 /\ exists raw, hex_decode key = Some raw /\ len raw = 32.
Proof.
  unfold check_key. case_bool; [done|]. destruct (Z.eqb_spec (len key) 64) as [Hl|]; [|done]. cbn [negb].
  destruct (hex_decode key) as [raw|] eqn:Hh; [|done].
  destruct (Z.eqb_spec (len raw) 32); [|done]. intros [= <-]. eauto.
Qed.

Lemma key_crypto {L : CryptoLib} placeholder key k :
  check_key placeholder key = Ok k -> exists c, NewCryptoFromHexKey k = Ok c.
Proof.
  intros (-> & _ & raw & Hh & Hl)%check_key_spec. unfold NewCryptoFromHexKey. rewrite Hh, Hl. cbn. eauto.
Qed.

(** The text built around an ID is trimmed already. *)
Lemma buildScriptURL_trimmed id : TrimSpace (buildScriptURL id) = buildScriptURL id.
Proof.
  unfold TrimSpace, buildScriptURL.
  change (str "https://script.google.com/macros/s/") with (z2b 104 :: str "ttps://script.google.com/macros/s/").
  cbn [app]. rewrite trim_left_space_id by done.
  change (str "/exec") with (str "/exe" ++ [z2b 99]). rewrite !app_assoc, app_comm_cons.
  by apply trim_right_space_id.
Qed.

Lemma buildScriptURL_inj a b : buildScriptURL a = buildScriptURL b -> a = b.
Proof. unfold buildScriptURL. intros H%app_inv_head. by apply app_inv_tail in H. Qed.

(** [New] keeps a list of distinct, trimmed, non-blank URLs as it is, each with
    its own account. *)
Lemma new_endpoints_all urls accounts pre seen :
  NoDup urls -> (forall u, u ∈ urls -> u <> [] /\ TrimSpace u = u /\ u ∉ seen) ->
  length accounts = length urls ->
  let eps := new_endpoints urls (length pre) (pre ++ accounts) seen in
  map url eps = urls /\ map account eps = map TrimSpace accounts.
Proof.
  revert accounts pre seen. induction urls as [|u urls IH]; intros accounts pre seen Hnd Hall Hlen.
  { destruct accounts; done. }
  destruct accounts as [|a accounts]; [done|]. apply NoDup_cons in Hnd as [Hu Hnd].
  destruct (Hall u) as (Hne & Htr & Hs); [left|]. cbn [new_endpoints]. rewrite Htr.
  destruct (Z.eqb_spec (len u) 0) as [Hz%len_zero|_]; [done|].
  rewrite bool_decide_eq_false_2 by done.
  rewrite lookup_app_r, Nat.sub_diag by done. cbn [map lookup].
  destruct (IH accounts (pre ++ [a]) ({[u]} ∪ seen)) as [H1 H2]; [done| |by injection Hlen|].
  { intros v Hv. destruct (Hall v) as (? & ? & ?); [by right|]. split; [done|]. split; [done|].
    intros [->%elem_of_singleton|]%elem_of_union; done. }
  rewrite length_app, <- app_assoc in *. cbn in *. rewrite Nat.add_1_r in *. by rewrite H1, H2.
Qed.

(** What a client configuration that loads holds. *)
Record client_ok (c : ClientCfg) : Prop := {
  ck_urls : cc_ScriptURLs c <> [] /\ NoDup (cc_ScriptURLs c)
    /\ forall u, u ∈ cc_ScriptURLs c -> u <> [] /\ TrimSpace u = u;
  ck_accounts : length (cc_ScriptAccounts c) = length (cc_ScriptURLs c);
  ck_fronting : cc_UseFronting c = true -> forall u, u ∈ cc_ScriptURLs c ->
    exists id, u = buildScriptURL id /\ validateDeploymentID id = None;
  ck_key : len (cc_AESKeyHex c) = 64 /\ exists raw, hex_decode (cc_AESKeyHex c) = Some raw /\ len raw = 32;
  ck_socks : cc_SocksUser c = [] <-> cc_SocksPass c = [];
  ck_coalesce : 0 <= cc_CoalesceStepMs c
    /\ (cc_CoalesceStepMs c < 2 ^ 58 -> cc_CoalesceMaxMs c = 25 * cc_CoalesceStepMs c);
  ck_idle : 0 <= cc_IdleSlotsPerBucket c <= 3;
}.

Lemma load_endpoints_ok f relays ip sni urls accounts :
  load_endpoints f (dedupeStrings relays) = Ok (ip, sni, urls, accounts) ->
  (urls <> [] /\ NoDup urls /\ forall u, u ∈ urls -> u <> [] /\ TrimSpace u = u)
  /\ length accounts = length urls
  /\ (len (dedupeStrings relays) =? 0 = true -> forall u, u ∈ urls ->
        exists id, u = buildScriptURL id /\ validateDeploymentID id = None).
Proof.
  unfold load_endpoints. destruct (dedupe_spec relays ∅) as (H1 & H2 & _).
  fold (dedupeStrings relays) in H1, H2.
  destruct (Z.eqb_spec (len (dedupeStrings relays)) 0) as [Hz|Hz]; cbn [negb].
  - destruct (parseScriptKeys _) as [entries| |]; cbn; [|done..].
    destruct (Z.eqb_spec (len entries) 0) as [|He]; [done|].
    destruct (deployments entries 0 ∅) as [ds| |] eqn:Hds; cbn; [|done..].
    intros [= _ _ <- <-]. destruct (deployments_spec _ _ _ _ Hds) as (D1 & D2 & D3).
    assert (Hne : ds <> []) by (apply D3; [by intros Hn; rewrite Hn in He|done]).
    split; [|split; [by rewrite !length_map|]].
    + split; [by destruct ds|]. split.
      * rewrite <- (map_map fst buildScriptURL). apply NoDup_fmap_2_strong; [|done].
        intros a b _ _. apply buildScriptURL_inj.
      * intros u (d & -> & _)%list_elem_of_fmap. split; [done|apply buildScriptURL_trimmed].
    + intros _ u (d & -> & Hd)%list_elem_of_fmap. destruct (D2 d Hd) as (_ & Hv & _). eauto.
  - intros [= _ _ <- <-]. split; [|split; [apply repeat_length|done]].
    split; [by intros Hn; rewrite Hn in Hz|]. split; [done|]. intros u Hu. by destruct (H2 u Hu).
Qed.

Lemma LoadClient_inv url_Parse f c : LoadClient url_Parse f = Ok c -> client_ok c.
Proof.
  unfold LoadClient. destruct (listen_port _ _) as [port| |]; cbn; [|done..].
  destruct (relay_urls _ _) as [relays| |]; cbn; [|done..].
  destruct (check_key _ _) as [key| |] eqn:Hk; cbn; [|done..].
  destruct (load_endpoints f (dedupeStrings relays)) as [[[[ip sni] urls] accounts]| |] eqn:He; cbn; [|done..].
  destruct (Bool.eqb _ _) eqn:Hs; cbn; [|done]. destruct (Z.ltb_spec (cf_CoalesceStepMs f) 0); [done|].
  destruct (_ || _) eqn:Hi; [done|]. intros [= <-]. b2p.
  destruct (load_endpoints_ok _ _ _ _ _ _ He) as (E1 & E2 & E3). apply check_key_spec in Hk as (-> & Hk1 & Hk2).
  constructor; cbn; try done.
  - apply eqb_prop in Hs. rewrite <- !len_zero.
    destruct (Z.eqb_spec (len (TrimSpace (cf_SocksUser f))) 0), (Z.eqb_spec (len (TrimSpace (cf_SocksPass f))) 0);
      try done; split; lia.
  - split; [done|]. intros Hlt. destruct (Z.ltb_spec 0 (cf_CoalesceStepMs f)); [|lia].
    unfold int64. rewrite Z.mod_small by lia. lia.
Qed.

(** What [main] passes on. *)
Definition carrier_config (c : ClientCfg) : Poll.Config :=
  mkConfig (cc_ScriptURLs c) (cc_ScriptAccounts c) (cc_AESKeyHex c) (cc_IdleSlotsPerBucket c).

(** C39: a client configuration that loads starts the client.  [carrier.New]
    succeeds on it, its endpoints are exactly the configured URLs in order and
    without loss, each with its own account label; every URL of a fronted
    configuration is built from a valid deployment ID; there are between 4 and
    6 workers per account bucket; credentials come in pairs; and the coalescing
    cap is 25 steps. *)
Theorem client_config_starts {L : CryptoLib} {S : Type} (url_Parse : bytes -> option URL)
    (f : clientFile) (c : ClientCfg) (cid : bytes) :
  LoadClient url_Parse f = Ok c ->
  exists cc (cl : Client S), New (carrier_config c) (Some cid) = Ok (cc, cl)
    /\ map url (endpoints (relays cl)) = cc_ScriptURLs c
    /\ map account (endpoints (relays cl)) = map TrimSpace (cc_ScriptAccounts c)
    /\ client_ok c
    /\ 1 <= bucketCount cc /\ 4 * bucketCount cc <= numWorkers cc <= 6 * bucketCount cc.
Proof.
  intros Hc%LoadClient_inv. pose proof Hc as [(Hne & Hnd & Hu) Ha _ [_ (raw & Hr & Hlr)] _ _ Hidle].
  destruct (new_endpoints_all (cc_ScriptURLs c) (cc_ScriptAccounts c) [] ∅ Hnd) as [E1 E2]; [|done|].
  { intros u Hin. destruct (Hu u Hin). split; [done|]. split; [done|]. apply not_elem_of_empty. }
  cbn [app length] in E1, E2. unfold New, NewCryptoFromHexKey, carrier_config. cbn [AESKeyHex].
  rewrite Hr, Hlr. cbn [negb Z.eqb res_map_err res_bind ScriptURLs ScriptAccounts].
  change (negb (32 =? 32)) with false. cbn [res_map_err res_bind].
  set (eps := new_endpoints _ _ _ _) in *.
  assert (Hlen : len eps =? 0 = false).
  { apply Z.eqb_neq. rewrite <- (len_map url), E1. by rewrite len_zero. }
  rewrite Hlen. do 2 eexists. split; [reflexivity|]. cbn [relays endpoints bucketCount numWorkers].
  split; [done|]. split; [done|]. split; [done|].
  set (b := Z.of_nat (size _)). assert (Hb : 1 <= b).
  { unfold b. assert (size (list_to_set (map account eps) : gset bytes) <> 0%nat); [|lia].
    intros Hz%size_empty_inv. destruct eps as [|ep eps']; [done|].
    assert (account ep ∈ (list_to_set (map account (ep :: eps')) : gset bytes)) as Hin by (cbn; set_solver).
    rewrite Hz in Hin. by apply elem_of_empty in Hin. }
  split; [done|]. cbn [IdleSlotsPerBucket]. unfold workersPerEndpoint.
  destruct (Z.leb_spec (cc_IdleSlotsPerBucket c) 0); nia.
Qed.

(** ** The server *)

(** Both sides derive the same key.  If the client's file and the server's
    file hold the same tunnel key, up to white space, and both load, then they
    build the same AEAD, the server from the current field name or the old
    one. *)
Theorem tunnel_keys_agree {L : CryptoLib} (url_Parse : bytes -> option URL) f g c s :
  LoadClient url_Parse f = Ok c -> LoadServer url_Parse g = Ok s ->
  TrimSpace (cf_TunnelKey f) = TrimSpace (sf_TunnelKey g)
    \/ (TrimSpace (sf_TunnelKey g) = [] /\ TrimSpace (cf_TunnelKey f) = TrimSpace (sf_AESKeyHex g)) ->
  exists k, NewCryptoFromHexKey (cc_AESKeyHex c) = Ok k /\ NewCryptoFromHexKey (sc_AESKeyHex s) = Ok k.
Proof.
  intros Hc Hs Hk. assert (Hkc : exists p, check_key p (TrimSpace (cf_TunnelKey f)) = Ok (cc_AESKeyHex c)).
  { revert Hc. unfold LoadClient. destruct (listen_port _ _) as [port| |]; cbn; [|done..].
    destruct (relay_urls _ _) as [relays| |]; cbn; [|done..].
    destruct (check_key _ _) as [key| |] eqn:Hk'; cbn; [|done..].
    destruct (load_endpoints _ _) as [[[[ip sni] urls] accounts]| |]; cbn; [|done..].
    destruct (Bool.eqb _ _); cbn; [|done]. do 2 (case_bool; [done|]). intros [= <-]. cbn. eauto. }
  assert (Hks : exists p, check_key p (TrimSpace (firstNonEmpty [sf_TunnelKey g; sf_AESKeyHex g])) = Ok (sc_AESKeyHex s)).
  { revert Hs. unfold LoadServer. destruct (parseLegacyListenAddr _) as [h p].
    destruct (listen_port _ _) as [port| |]; cbn -[firstNonEmpty]; [|done..].
    destruct (check_key _ _) as [key| |] eqn:Hk'; cbn -[firstNonEmpty]; [|done..].
    destruct (upstream_proxy _ _) as [up| |]; cbn; [|done..]. intros [= <-]. cbn. eauto. }
  destruct Hkc as [pc Hkc], Hks as [ps Hks].
  destruct (key_crypto pc _ _ Hkc) as [k Hnk]. exists k. split; [done|].
  apply check_key_spec in Hkc as (Ec & Hl & _). apply check_key_spec in Hks as (Es & _).
  assert (He : sc_AESKeyHex s = TrimSpace (cf_TunnelKey f)); [|by rewrite He, <- Ec].
  rewrite Es. cbn [firstNonEmpty].
  destruct (Z.eqb_spec (len (TrimSpace (sf_TunnelKey g))) 0) as [Hz|Hz]; cbn [negb].
  - destruct Hk as [Hk|[_ Hk]]; [rewrite Hk in Hl; lia|]. rewrite <- Hk.
    destruct (Z.eqb_spec (len (TrimSpace (cf_TunnelKey f))) 0); cbn [negb]; [lia|]. apply TrimSpace_idem.
  - destruct Hk as [Hk|[Hn _]]; [|by rewrite Hn in Hz]. rewrite Hk. apply TrimSpace_idem.
Qed.

(** A legacy [listen_addr] keeps its meaning.  An address made of a host
    without brackets or white space and a port in range is split into them
    again, and a server file with nothing but it listens there. *)
Theorem legacy_listen_addr (url_Parse : bytes -> option URL) (host : bytes) (port : Z) (g : serverFile) (s : ServerCfg) :
  host <> [] -> Forall graph_byte host -> lbracket ∉ host -> rbracket ∉ host -> 1 <= port <= 65535 ->
  sf_ListenAddr g = JoinHostPort host (Itoa port) -> sf_ServerHost g = [] -> sf_ServerPort g <= 0 ->
  LoadServer url_Parse g = Ok s ->
  parseLegacyListenAddr (sf_ListenAddr g) = (host, port) /\ sc_ListenAddr s = sf_ListenAddr g.
Proof.
  intros Hne Hg Hl Hr Hp Ha Hh Hsp Hs.
  assert (Hd : Forall graph_byte (Itoa port)).
  { eapply Forall_impl; [apply Itoa_digits|]. intros c Hc. unfold is_digit, graph_byte, ascii_space in *.
    split; [lia|]. rewrite (proj2 (Z.leb_gt (b2z c) 13)), (proj2 (Z.eqb_neq (b2z c) 32)) by lia.
    by rewrite andb_false_r. }
  assert (Hj : Forall graph_byte (JoinHostPort host (Itoa port))).
  { unfold JoinHostPort. case_bool; repeat (apply Forall_app; split); try done;
      apply graph_str; vm_compute; reflexivity. }
  assert (Hjn : len (JoinHostPort host (Itoa port)) =? 0 = false).
  { apply Z.eqb_neq. unfold JoinHostPort. pose proof (len_nonneg host). pose proof (len_nonneg (Itoa port)).
    case_bool; rewrite !len_app; change (len [lbracket]) with 1; change (len [colon]) with 1;
      change (len [rbracket; colon]) with 2; lia. }
  assert (Hleg : parseLegacyListenAddr (sf_ListenAddr g) = (host, port)).
  { unfold parseLegacyListenAddr. rewrite Ha, TrimSpace_graph, Hjn by done.
    rewrite SplitHostPort_join; [|done..| | |]; try (apply Itoa_free; vm_compute; by intros []).
    rewrite Atoi_Itoa by lia. by rewrite TrimSpace_graph. }
  split; [done|]. revert Hs. unfold LoadServer. rewrite Hleg, Hh. cbn [firstNonEmpty].
  change (TrimSpace []) with (@nil byte). cbn [len length negb Z.eqb Z.of_nat].
  assert (Hhn : len host =? 0 = false) by (apply Z.eqb_neq; by rewrite len_zero).
  rewrite (TrimSpace_graph host), Hhn by done. cbn [negb].
  unfold listen_port, firstPositive. rewrite (proj2 (Z.ltb_ge 0 (sf_ServerPort g))) by lia.
  rewrite (proj2 (Z.ltb_lt 0 port)) by lia. rewrite (proj2 (Z.eqb_neq port 0)) by lia.
  rewrite (proj2 (Z.ltb_ge port 1)), (proj2 (Z.ltb_ge 65535 port)) by lia. cbn [orb res_bind].
  destruct (check_key _ _) as [key| |]; cbn [res_bind]; [|done..].
  destruct (upstream_proxy _ _) as [up| |]; cbn [res_bind]; [|done..]. intros [= <-]. cbn. by rewrite Ha.
Qed.

(** ** Concrete inputs *)

Definition demo_id : bytes := str "AKfycbxABCDEFGHIJKLMNOPQRSTUVWXYZ0123456789-abcdefghijk_2".
Definition demo_key : bytes := str "000102030405060708090a0b0c0d0e0f101112131415161718191a1b1c1d1e1f".

Lemma deployment_id_roundtrip_witness :
  normalizeDeploymentID (buildScriptURL demo_id) = demo_id /\ validateDeploymentID demo_id = None.
Proof.
  split; [|vm_compute; reflexivity]. apply (deployment_id_roundtrip demo_id).
  split; [discriminate|]. split; [apply graph_str; vm_compute; reflexivity|].
  apply (bool_decide_unpack _). vm_compute. exact I.
Defined.

(** The ID twice, once as a URL and once in an object with an account. *)
Definition demo_file : clientFile :=
  mkClientFile [] 0 [] None
    (Some (JArray [JString (buildScriptURL demo_id);
                   JObject [(str "ID", JString demo_id); (str "account", JString (str "me"))]]))
    [] demo_key false [] [] 20 2.

Definition no_urls : bytes -> option URL := fun _ => None.

Definition demo_cfg : ClientCfg :=
  mkClientCfg (str "127.0.0.1:1080") (str "216.239.38.120:443") (default_sni) [buildScriptURL demo_id] [[]] true
    demo_key false [] [] 20 500 2.

Lemma demo_cfg_loads : LoadClient no_urls demo_file = Ok demo_cfg.
Proof. vm_compute. reflexivity. Qed.

Lemma client_config_starts_witness :
  exists cc (cl : Client Session), New (carrier_config demo_cfg) (Some test_client) = Ok (cc, cl)
    /\ map url (endpoints (relays cl)) = [buildScriptURL demo_id].
Proof.
  destruct (client_config_starts (S := Session) no_urls demo_file demo_cfg test_client demo_cfg_loads)
    as (cc & cl & H1 & H2 & _).
  exists cc, cl. split; [exact H1|exact H2].
Defined.

Definition demo_server_file : serverFile :=
  mkServerFile [] 0 (str " " ++ demo_key) false [] (str "[::1]:9000") [].

Definition demo_server_cfg : ServerCfg := mkServerCfg (str "[::1]:9000") demo_key false [].

Lemma demo_server_loads : LoadServer no_urls demo_server_file = Ok demo_server_cfg.
Proof. vm_compute. reflexivity. Qed.

Lemma tunnel_keys_agree_witness :
  exists k, NewCryptoFromHexKey (cc_AESKeyHex demo_cfg) = Ok k
    /\ NewCryptoFromHexKey (sc_AESKeyHex demo_server_cfg) = Ok k.
Proof.
  apply (tunnel_keys_agree no_urls demo_file demo_server_file demo_cfg demo_server_cfg
    demo_cfg_loads demo_server_loads).
  left. vm_compute. reflexivity.
Defined.

Lemma legacy_listen_addr_witness :
  parseLegacyListenAddr (str "[::1]:9000") = (str "::1", 9000) /\ sc_ListenAddr demo_server_cfg = str "[::1]:9000".
Proof.
  apply (legacy_listen_addr no_urls (str "::1") 9000 demo_server_file demo_server_cfg).
  - discriminate.
  - apply graph_str. vm_compute. reflexivity.
  - apply (bool_decide_unpack _). vm_compute. exact I.
  - apply (bool_decide_unpack _). vm_compute. exact I.
  - lia.
  - vm_compute. reflexivity.
  - reflexivity.
  - reflexivity || (vm_compute; discriminate).
  - exact demo_server_loads.
Defined.
