(* ===== verification/ConfigFile.v ===== *)
(** * internal/config: the files

    What [json.Unmarshal] makes of the text of a configuration file, by the tags
    of [clientFile] and [serverFile], and the outcome of [LoadClient] and
    [LoadServer] from the file on. *)

From S2P Require Import Prelude GoStd GoText Version Config.

(** One field: the members whose name is its tag without regard to case, the
    last of which counts. *)
Definition member {X} (dec : json -> X -> option X) (tag : bytes) (zero : X) (ms : list (bytes * json)) : option X :=
  foldl (fun acc m => x ← acc; if bool_decide (map lower_ascii (fst m) = tag) then dec (snd m) x else Some x) (Some zero) ms.

(** A [json.RawMessage] keeps the value. *)
Definition un_raw (j : json) (_ : option json) : option (option json) := Some (Some j).

Definition client_members (ms : list (bytes * json)) : option clientFile :=
  socksHost ← member un_str (str "socks_host") [] ms;
  socksPort ← member un_int (str "socks_port") 0 ms;
  googleHost ← member un_str (str "google_host") [] ms;
  sni ← member un_raw (str "sni") None ms;
  scriptKeys ← member un_raw (str "script_keys") None ms;
  relayURLs ← member (fun j _ => un_strs j) (str "relay_urls") [] ms;
  tunnelKey ← member un_str (str "tunnel_key") [] ms;
  debugTiming ← member un_bool (str "debug_timing") false ms;
  socksUser ← member un_str (str "socks_user") [] ms;
  socksPass ← member un_str (str "socks_pass") [] ms;
  coalesceStepMs ← member un_int (str "coalesce_step_ms") 0 ms;
  idleSlots ← member un_int (str "idle_slots_per_bucket") 0 ms;
  Some (mkClientFile socksHost socksPort googleHost sni scriptKeys relayURLs tunnelKey debugTiming
          socksUser socksPass coalesceStepMs idleSlots).

Definition server_members (ms : list (bytes * json)) : option serverFile :=
  serverHost ← member un_str (str "server_host") [] ms;
  serverPort ← member un_int (str "server_port") 0 ms;
  tunnelKey ← member un_str (str "tunnel_key") [] ms;
  debugTiming ← member un_bool (str "debug_timing") false ms;
  upstreamProxy ← member un_str (str "upstream_proxy") [] ms;
  listenAddr ← member un_str (str "listen_addr") [] ms;
  aesKeyHex ← member un_str (str "aes_key_hex") [] ms;
  Some (mkServerFile serverHost serverPort tunnelKey debugTiming upstreamProxy listenAddr aesKeyHex).

(** A struct from a value: [null] leaves it as it is. *)
Definition un_struct {X} (members : list (bytes * json) -> option X) (j : json) : option X :=
  match j with
  | JObject ms => members ms
  | JNull => members []
  | _ => None
  end.

(** What [os.ReadFile] finds. *)
Inductive file := Missing | Unreadable | Content (b : bytes).

Inductive file_err := NotFound | CannotRead | NotJSON | Invalid (e : config_err).

Section Read.
Context {J : JsonLib} (url_Parse : bytes -> option URL).

Definition load {X C} (members : list (bytes * json) -> option X) (check : X -> res config_err C) (f : file)
    : res file_err C :=
  match f with
  | Missing => Err NotFound
  | Unreadable => Err CannotRead
  | Content b =>
      match (j ← json_parse b; un_struct members j) with
      | None => Err NotJSON
      | Some x => res_map_err Invalid (check x)
      end
  end.

Definition LoadClientFile : file -> res file_err ClientCfg := load client_members (LoadClient url_Parse).
Definition LoadServerFile : file -> res file_err ServerCfg := load server_members (LoadServer url_Parse).

End Read.
