(* ===== verification/Fronting.v ===== *)
(** * internal/carrier/fronting.go: choosing the SNI hosts

    The start-up probe of the fronted clients: what one host's two samples come
    to, which hosts are kept, and what the log says of them (the values, not the
    texts).  The HTTP exchange of a sample is an argument.  [FrontedClients] has the clients themselves. *)

From S2P Require Import Prelude GoStd.

Definition frontedProbeOKBody : bytes := str "GooseRelay forwarder OK".
Definition probeSamples : nat := 2.

(** One sample: the request could not be built, the exchange failed, the body
    could not be read, or an answer came after [dur]. *)
Inductive sample :=
| RequestErr
| DoErr
| ReadErr
| Answer (status : Z) (body : bytes) (dur : Z).

Record frontedProbeResult := mkProbe { p_index : nat; p_samples : list Z; p_err : bool }.

Definition probe_ok (r : frontedProbeResult) : bool := 0 <? len (p_samples r).

Definition latency (r : frontedProbeResult) : Z :=
  if len (p_samples r) =? 0 then 0
  else default 0 (merge_sort Z.le (p_samples r) !! (length (p_samples r) / 2)%nat).

(** [None]: no error. *)
Definition validateFrontedProbeResponse (statusCode : Z) (body : bytes) : bool :=
  (statusCode =? 200) && bool_decide (TrimSpace body = frontedProbeOKBody).

(** The goroutine of one host. *)
Fixpoint probe_loop (n : nat) (samples : list sample) (r : frontedProbeResult) : frontedProbeResult :=
  match n, samples with
  | S n, s :: samples =>
      match s with
      | RequestErr => mkProbe (p_index r) (p_samples r) true
      | DoErr | ReadErr => probe_loop n samples (mkProbe (p_index r) (p_samples r) true)
      | Answer status body dur =>
          if validateFrontedProbeResponse status body
          then probe_loop n samples (mkProbe (p_index r) (p_samples r ++ [dur]) (p_err r))
          else probe_loop n samples (mkProbe (p_index r) (p_samples r) true)
      end
  | _, _ => r
  end.

(** [results[res.index] = res] puts the results in the order of the hosts. *)
Definition probeFrontedClients (samples : list (list sample)) : list frontedProbeResult :=
  imap (fun i ss => probe_loop probeSamples ss (mkProbe i [] false)) samples.

Definition indexesForFrontedResults (results : list frontedProbeResult) : list nat :=
  map p_index results.
Definition allFrontedClientIndexes (n : nat) : list nat := seq 0 n.

Definition median (latencies : list Z) : Z :=
  default 0 (merge_sort Z.le latencies !! (length latencies / 2)%nat).

Definition selectFrontedClientIndexes (results : list frontedProbeResult) : list nat :=
  if len results <=? 1 then allFrontedClientIndexes (length results) else
  let successes := List.filter probe_ok results in
  if len successes =? 0 then allFrontedClientIndexes (length results) else
  if len successes =? 1 then map p_index successes else
  let m := median (map latency successes) in
  if (len successes <=? 2) || (m <=? 0) then indexesForFrontedResults successes else
  let threshold := 3 * m in
  let kept := map p_index (List.filter (fun r => latency r <=? threshold) successes) in
  if len kept <? 2 then indexesForFrontedResults successes else kept.

(** The kept hosts and clients; [None] would be an index out of range. *)
Definition filterFrontedClientsByProbe {C : Type} (hosts : list bytes) (clients : list C)
    (probeURL : bytes) (samples : list (list sample)) : option (list bytes * list C) :=
  if (len hosts <=? 1) || (len probeURL =? 0) then Some (hosts, clients) else
  let keep := selectFrontedClientIndexes (probeFrontedClients samples) in
  if len keep =? 0 then Some (hosts, clients) else
  hs ← mapM (fun i => hosts !! i) keep; cs ← mapM (fun i => clients !! i) keep; Some (hs, cs).

(** [Duration.Round]: to the nearest multiple of [m], halves away from zero. *)
Definition Round (d m : Z) : Z :=
  if m <=? 0 then d else
  if d <? 0 then
    let r := - Z.rem d m in if r + r <? m then d + r else d - (m - r)
  else
    let r := Z.rem d m in if r + r <? m then d - r else d + (m - r).

Definition ms : Z := 1000000.

(** A line of the log: kept or dropped, and the latency and number of samples,
    the error, or neither. *)
Inductive probe_detail := TTFB (rounded samples : Z) | ProbeErr | NoSamples.
Record probe_line := mkProbeLine { pl_keep : bool; pl_host : bytes; pl_detail : probe_detail }.

(** The last line: how many hosts were kept, of how many, and their median. *)
Record probe_summary := mkSummary { ps_kept : Z; ps_total : Z; ps_median : Z }.

Definition log_probe (host : nat -> bytes) (keep : list nat) (res : frontedProbeResult) : probe_line :=
  mkProbeLine (bool_decide (p_index res ∈ keep)) (host (p_index res))
    (if probe_ok res then TTFB (Round (latency res) ms) (len (p_samples res))
     else if p_err res then ProbeErr else NoSamples).

Definition logFrontedProbeDecision (host : nat -> bytes) (results : list frontedProbeResult) (keep : list nat)
    : list probe_line * probe_summary :=
  let latencies := map latency (List.filter probe_ok results) in
  let med := if 0 <? len latencies then median latencies else 0 in
  (map (log_probe host keep) results, mkSummary (len keep) (len results) (Round med ms)).

(** ** The median *)

Lemma merge_sort_perm (l : list Z) : merge_sort Z.le l ≡ₚ l.
Proof. apply merge_sort_Permutation. Qed.

Lemma merge_sort_sorted (l : list Z) : StronglySorted Z.le (merge_sort Z.le l).
Proof.
  assert (Total Z.le) by (intros a b; lia). assert (Transitive Z.le) by (intros a b c; lia).
  apply Sorted_StronglySorted; [done|]. apply (Sorted_merge_sort Z.le).
Qed.

Lemma filter_len_perm (p : Z -> bool) l k : l ≡ₚ k -> length (List.filter p l) = length (List.filter p k).
Proof. induction 1; cbn; repeat case_bool; cbn; lia. Qed.

(** More than half of a list is not above its median. *)
Lemma median_half (l : list Z) : l <> [] ->
  (length l / 2 < length (List.filter (fun x => (x <=? median l)%Z) l))%nat.
Proof.
  intros Hne. set (p := fun x => x <=? median l). rewrite <- (filter_len_perm p _ _ (merge_sort_perm l)).
  pose proof (merge_sort_sorted l) as Hs. pose proof (Permutation_length (merge_sort_perm l)) as Hl.
  assert (Hlt : (length l / 2 < length (merge_sort Z.le l))%nat).
  { rewrite Hl. apply Nat.div_lt; [|lia]. destruct l; cbn; [done|lia]. }
  destruct (lookup_lt_is_Some_2 _ _ Hlt) as [m Hm].
  assert (Hmed : median l = m) by (unfold median; by rewrite Hm).
  assert (Hp : forall x, x ∈ take (S (length l / 2)) (merge_sort Z.le l) -> p x = true).
  { intros x Hx. apply Z.leb_le. rewrite Hmed. apply list_elem_of_lookup in Hx as [i Hi].
    apply lookup_take_Some in Hi as [Hi Hlti].
    destruct (decide (i = length l / 2)%nat) as [->|Hne']; [by rewrite Hm in Hi; injection Hi as ->; lia|].
    apply (StronglySorted_app_1_elem_of Z.le (take (S i) (merge_sort Z.le l)) (drop (S i) (merge_sort Z.le l))).
    - by rewrite take_drop.
    - apply list_elem_of_lookup. exists i. by apply lookup_take_Some; split; [|lia].
    - apply list_elem_of_lookup. exists (length l / 2 - S i)%nat. rewrite lookup_drop.
      by replace (S i + (length l / 2 - S i))%nat with (length l / 2)%nat by lia. }
  rewrite <- (take_drop (S (length l / 2)) (merge_sort Z.le l)), List.filter_app, length_app.
  assert (Hall : List.filter p (take (S (length l / 2)) (merge_sort Z.le l)) = take (S (length l / 2)) (merge_sort Z.le l)).
  { clear - Hp. induction (take _ _) as [|x k IH]; [done|]. cbn. rewrite Hp by left.
    f_equal. apply IH. intros y Hy. apply Hp. by right. }
  rewrite Hall, length_take. lia.
Qed.

Lemma filter_map_len {X} (f : X -> Z) (q : Z -> bool) l :
  length (List.filter q (map f l)) = length (List.filter (fun x => q (f x)) l).
Proof. induction l as [|x l IH]; [done|]. cbn. case_bool; cbn; by rewrite IH. Qed.

Lemma filter_len_mono {X} (p q : X -> bool) l : (forall x, p x = true -> q x = true) ->
  (length (List.filter p l) <= length (List.filter q l))%nat.
Proof.
  intros H. induction l as [|x l IH]; [done|]. cbn. destruct (p x) eqn:Hp; [rewrite (H x Hp); cbn; lia|].
  case_bool; cbn; lia.
Qed.

Definition wf_results (results : list frontedProbeResult) : Prop :=
  map p_index results = seq 0 (length results).

Lemma kept_cases results :
  let successes := List.filter probe_ok results in
  let m := median (map latency successes) in
  (3 <= length successes)%nat -> 0 < m ->
  selectFrontedClientIndexes results
  = map p_index (List.filter (fun r => latency r <=? 3 * m) successes)
  /\ (length successes / 2 < length (selectFrontedClientIndexes results))%nat.
Proof.
  intros successes m H3 Hm. unfold selectFrontedClientIndexes. fold successes. fold m.
  assert (Hle : (length successes <= length results)%nat).
  { unfold successes. clear. induction results as [|r l IH]; [done|]. cbn. case_bool; cbn; lia. }
  assert (Hhalf : (length successes / 2 < length (List.filter (fun r => (latency r <=? 3 * m)%Z) successes))%nat).
  { eapply Nat.lt_le_trans; [|apply (filter_len_mono (fun r => latency r <=? m)%Z)].
    - rewrite <- (filter_map_len latency (fun x => x <=? m)%Z). unfold m.
      rewrite <- (length_map latency successes) at 1. apply median_half.
      destruct successes; cbn in *; [lia|done].
    - intros r Hr%Z.leb_le. apply Z.leb_le. lia. }
  assert (Hdiv : (1 <= length successes / 2)%nat) by (apply Nat.div_le_lower_bound; lia).
  unfold len. rewrite (proj2 (Z.leb_gt _ _)), !(proj2 (Z.eqb_neq _ _)) by lia.
  rewrite (proj2 (Z.leb_gt (Z.of_nat (length successes)) 2)), (proj2 (Z.leb_gt m 0)) by lia. cbn [orb].
  rewrite length_map, (proj2 (Z.ltb_ge _ 2)) by lia. by rewrite length_map.
Qed.

Lemma In_seq_index results r : wf_results results -> r ∈ results -> (p_index r < length results)%nat.
Proof.
  unfold wf_results. intros H Hr. assert (Hi : p_index r ∈ seq 0 (length results)).
  { rewrite <- H. by apply list_elem_of_fmap_2. }
  apply elem_of_seq in Hi. lia.
Qed.

Lemma NoDup_filter_map results p : wf_results results -> NoDup (map p_index (List.filter p results)).
Proof.
  unfold wf_results. intros H. assert (Hn : NoDup (map p_index results)) by (rewrite H; apply NoDup_seq).
  clear H. induction results as [|r l IH]; [constructor|]. cbn in *. apply NoDup_cons in Hn as [Hr Hn].
  case_bool; [|by apply IH]. cbn. constructor; [|by apply IH].
  intros (x & Hx & Hin)%list_elem_of_fmap. apply Hr. rewrite Hx.
  apply list_elem_of_fmap_2. apply list_elem_of_In in Hin. apply filter_In in Hin as [Hin _]. by apply list_elem_of_In.
Qed.

(** The three possible outcomes: everything, the successes, or the successes
    within three times the median. *)
Lemma index_unique results r r' :
  wf_results results -> r ∈ results -> r' ∈ results -> p_index r = p_index r' -> r = r'.
Proof.
  intros Hwf Hr Hr' He. unfold wf_results in Hwf.
  apply list_elem_of_lookup in Hr as [i Hi], Hr' as [j Hj].
  pose proof (f_equal (fun l => l !! i) Hwf) as E1. pose proof (f_equal (fun l => l !! j) Hwf) as E2. cbn in E1, E2.
  rewrite list_lookup_fmap, Hi in E1. rewrite list_lookup_fmap, Hj in E2. cbn in E1, E2.
  symmetry in E1, E2. apply lookup_seq in E1 as [E1 _], E2 as [E2 _]. assert (i = j) by lia. congruence.
Qed.

Lemma elem_of_filter_list {X} (p : X -> bool) l x : x ∈ List.filter p l <-> x ∈ l /\ p x = true.
Proof. by rewrite !list_elem_of_In, filter_In. Qed.

Lemma filtered_index results q i :
  wf_results results -> i ∈ map p_index (List.filter q results) -> (i < length results)%nat.
Proof.
  intros Hwf (r & -> & [Hr _]%elem_of_filter_list)%list_elem_of_fmap. by apply In_seq_index.
Qed.

Lemma filter_filter q results :
  List.filter q (List.filter probe_ok results) = List.filter (fun r => q r && probe_ok r) results.
Proof.
  induction results as [|r l IH]; [done|]. cbn.
  destruct (probe_ok r); cbn; [|by rewrite andb_false_r]. rewrite andb_true_r. case_bool; by rewrite IH.
Qed.

Lemma successes_len results : (length (List.filter probe_ok results) <= length results)%nat.
Proof. induction results as [|r l IH]; [done|]. cbn. case_bool; cbn; lia. Qed.

Lemma select_cases results :
  let successes := List.filter probe_ok results in
  let keep := selectFrontedClientIndexes results in
  let m := median (map latency successes) in
  (keep = seq 0 (length results) /\ (successes = [] \/ (length results <= 1)%nat))
  \/ (successes <> [] /\ keep = map p_index successes)
  \/ (keep = map p_index (List.filter (fun r => latency r <=? 3 * m) successes)
      /\ (2 <= length keep)%nat /\ (length successes / 2 < length keep)%nat).
Proof.
  intros successes keep m. pose proof (successes_len results) as Hle. fold successes in Hle.
  destruct (decide (3 <= length successes)%nat) as [H3|H3].
  - right. destruct (Z.ltb_spec 0 m) as [Hm|Hm].
    + right. destruct (kept_cases results H3 Hm) as [He Hhalf]. split; [done|].
      assert (1 <= length successes / 2)%nat by (apply Nat.div_le_lower_bound; lia).
      fold successes keep in Hhalf. split; [lia|done].
    + left. split; [by destruct successes; cbn in *; [lia|]|].
      unfold keep, selectFrontedClientIndexes. fold successes. fold m. unfold len.
      rewrite (proj2 (Z.leb_gt _ _)), !(proj2 (Z.eqb_neq _ _)) by lia.
      rewrite (proj2 (Z.leb_le _ 0)) by done. by rewrite orb_true_r.
  - unfold keep, selectFrontedClientIndexes. fold successes. unfold len.
    destruct (Z.leb_spec (Z.of_nat (length results)) 1); [left; split; [done|right; lia]|].
    destruct successes as [|r1 [|r2 [|r3 l]]] eqn:E; [left; auto|right; left; done|right; left; done|cbn in H3; lia].
Qed.

(** Which hosts survive the start-up probe.  Some host always does, and an
    index is kept at most once.  If any host answered, exactly hosts that
    answered are kept; one is dropped only if its latency exceeds three times
    the median, and then more than half of those that answered are kept, at
    least two: the code's fallback for fewer than two is never needed. *)
Theorem select_spec (results : list frontedProbeResult) :
  wf_results results -> results <> [] ->
  let keep := selectFrontedClientIndexes results in
  let successes := List.filter probe_ok results in
  keep <> [] /\ NoDup keep /\ (forall i, i ∈ keep -> (i < length results)%nat)
  /\ ((2 <= length results)%nat -> successes <> [] ->
        (forall r, r ∈ results -> p_index r ∈ keep -> probe_ok r = true)
        /\ (forall r, r ∈ successes -> p_index r ∉ keep ->
              3 * median (map latency successes) < latency r
              /\ (length successes / 2 < length keep)%nat /\ (2 <= length keep)%nat)).
Proof.
  intros Hwf Hne keep successes.
  assert (Hsub : forall q r, r ∈ results -> p_index r ∈ map p_index (List.filter q successes) ->
    probe_ok r = true /\ q r = true).
  { intros q r Hr (r' & Hi & Hr')%list_elem_of_fmap.
    apply elem_of_filter_list in Hr' as [Hr' Hq]. apply elem_of_filter_list in Hr' as [Hr' Hok].
    by rewrite (index_unique results r r'). }
  destruct (select_cases results) as [[Hk Hwhy]|[[Hsne Hk]|(Hk & H2 & Hhalf)]];
    fold keep in Hk; fold successes in Hk; rewrite Hk.
  - split; [by destruct results|]. split; [apply NoDup_seq|]. split; [intros i Hi%elem_of_seq; lia|].
    intros Hl Hsne. fold successes in Hwhy. destruct Hwhy; [done|lia].
  - fold successes in Hsne. split; [by destruct successes|]. split; [by apply NoDup_filter_map|].
    split; [intros i; by apply filtered_index|]. intros _ _. split.
    + intros r Hr Hi. apply (Hsub (fun _ => true) r Hr). by rewrite List.filter_true.
    + intros r Hr Hn. destruct Hn. by apply list_elem_of_fmap_2.
  - fold successes keep in H2, Hhalf. rewrite <- Hk. split; [by intros Hn; rewrite Hn in H2; cbn in H2; lia|].
    assert (Hff : keep = map p_index (List.filter (fun r => (latency r <=? 3 * median (map latency successes)) && probe_ok r) results))
      by (rewrite Hk; unfold successes at 2; by rewrite filter_filter).
    split; [rewrite Hff; by apply NoDup_filter_map|].
    split; [intros i; rewrite Hff; by apply filtered_index|]. intros _ _. split.
    + intros r Hr Hi. rewrite Hk in Hi. by destruct (Hsub _ r Hr Hi).
    + intros r Hr Hn. split; [|done]. apply Z.nle_gt. intros Hlat. apply Hn. rewrite Hk.
      apply list_elem_of_fmap_2, elem_of_filter_list. split; [done|]. by apply Z.leb_le.
Qed.

Lemma probe_loop_index n ss r : p_index (probe_loop n ss r) = p_index r.
Proof.
  revert ss r. induction n as [|n IH]; intros ss r; [done|]. destruct ss as [|[| | |st b d] ss]; cbn; try done.
  - by rewrite IH.
  - by rewrite IH.
  - case_bool; by rewrite IH.
Qed.

(** The results come in the order of the hosts. *)
Lemma probe_wf samples : wf_results (probeFrontedClients samples).
Proof.
  unfold wf_results, probeFrontedClients. rewrite length_imap. apply list_eq. intros i.
  rewrite list_lookup_fmap, list_lookup_imap. destruct (samples !! i) as [ss|] eqn:Hs; cbn -[probe_loop].
  - rewrite probe_loop_index. symmetry. apply lookup_seq. split; [done|]. by apply lookup_lt_Some in Hs.
  - symmetry. apply lookup_seq_ge. by apply lookup_ge_None in Hs.
Qed.

(** Filtering never fails and keeps hosts and clients paired: the result is
    not empty, and the client at every position of it is the client that was
    configured for the host at that position. *)
Theorem filter_pairs {C : Type} (hosts : list bytes) (clients : list C) probeURL samples :
  hosts <> [] -> length clients = length hosts -> length samples = length hosts ->
  exists hs cs, filterFrontedClientsByProbe hosts clients probeURL samples = Some (hs, cs)
    /\ hs <> [] /\ length hs = length cs
    /\ forall i h c, hs !! i = Some h -> cs !! i = Some c -> exists j, hosts !! j = Some h /\ clients !! j = Some c.
Proof.
  intros Hne Hc Hs. unfold filterFrontedClientsByProbe.
  assert (Hsame : exists hs cs, Some (hosts, clients) = Some (hs, cs) /\ hs <> [] /\ length hs = length cs
    /\ forall i h c, hs !! i = Some h -> cs !! i = Some c -> exists j, hosts !! j = Some h /\ clients !! j = Some c).
  { exists hosts, clients. split; [done|]. split; [done|]. split; [done|]. eauto. }
  case_bool; [done|]. destruct (Z.eqb_spec (len (selectFrontedClientIndexes (probeFrontedClients samples))) 0) as [|Hk]; [done|].
  set (keep := selectFrontedClientIndexes (probeFrontedClients samples)) in *.
  assert (Hlt : forall i, i ∈ keep -> (i < length hosts)%nat).
  { intros i Hi. assert (Hl : length (probeFrontedClients samples) = length hosts).
    { unfold probeFrontedClients. by rewrite length_imap. }
    rewrite <- Hl. destruct (select_cases (probeFrontedClients samples)) as [[E _]|[[_ E]|(E & _)]];
      fold keep in E; rewrite E in Hi.
    - apply elem_of_seq in Hi. lia.
    - by apply filtered_index in Hi; [|apply probe_wf].
    - rewrite filter_filter in Hi. by apply filtered_index in Hi; [|apply probe_wf]. }
  assert (Hmap : forall {X} (l : list X), length l = length hosts -> exists r, mapM (fun i => l !! i) keep = Some r).
  { intros X l Hl. destruct (mapM (fun i => l !! i) keep) as [r|] eqn:E; [eauto|].
    apply mapM_None_1 in E. apply Exists_exists in E as (i & Hi & Hn).
    apply lookup_ge_None in Hn. specialize (Hlt i Hi). lia. }
  destruct (Hmap _ hosts eq_refl) as [hs Hhs]. destruct (Hmap _ clients Hc) as [cs Hcs].
  rewrite Hhs, Hcs. cbn. exists hs, cs. split; [done|].
  apply mapM_Some in Hhs, Hcs. pose proof (Forall2_length _ _ _ Hhs). pose proof (Forall2_length _ _ _ Hcs).
  split; [|split; [lia|]].
  { intros ->. apply Hk. apply len_zero. by destruct keep. }
  intros i h c Hi Hi'. destruct (Forall2_lookup_r _ _ _ _ _ Hhs Hi) as (j & Hj & Hh).
  destruct (Forall2_lookup_r _ _ _ _ _ Hcs Hi') as (j' & Hj' & Hc'). exists j. by assert (j' = j) as -> by congruence.
Qed.

(** [Round] is to the nearest. *)
Lemma Round_nearest d m : 0 < m -> Round d m mod m = 0 /\ 2 * Z.abs (Round d m - d) <= m.
Proof.
  intros Hm. unfold Round. rewrite (proj2 (Z.leb_gt m 0)) by lia.
  assert (Hk : forall q r, d = m * q + r -> 0 <= r < m ->
    (if r + r <? m then d - r else d + (m - r)) mod m = 0
    /\ 2 * Z.abs ((if r + r <? m then d - r else d + (m - r)) - d) <= m).
  { intros q r E Hr. destruct (Z.ltb_spec (r + r) m); (split; [|lia]).
    - replace (d - r) with (q * m) by lia. apply Z.mod_mul. lia.
    - replace (d + (m - r)) with ((q + 1) * m) by lia. apply Z.mod_mul. lia. }
  destruct (Z.ltb_spec d 0) as [Hd|Hd].
  - assert (Er : - Z.rem d m = (- d) mod m) by (rewrite <- Z.rem_opp_l, Z.rem_mod_nonneg by lia; done).
    rewrite Er. pose proof (Z.mod_pos_bound (- d) m Hm). pose proof (Z.div_mod (- d) m).
    destruct (Z.ltb_spec ((- d) mod m + (- d) mod m) m); (split; [|lia]).
    + replace (d + (- d) mod m) with ((- ((- d) / m)) * m) by lia. apply Z.mod_mul. lia.
    + replace (d - (m - (- d) mod m)) with ((- ((- d) / m) - 1) * m) by lia. apply Z.mod_mul. lia.
  - assert (Er : Z.rem d m = d mod m) by (apply Z.rem_mod_nonneg; lia). rewrite Er.
    apply (Hk (d / m)); [apply Z.div_mod; lia|by apply Z.mod_pos_bound].
Qed.

Lemma log_keep_count host keep results :
  length (List.filter pl_keep (map (log_probe host keep) results))
  = length (List.filter (fun i => bool_decide (i ∈ keep)) (map p_index results)).
Proof. induction results as [|r results IH]; [done|]. cbn. case_bool; cbn; by rewrite IH. Qed.

(** The log is about the decision: there is one line for each host, in order;
    as many say keep as the summary counts and as there are clients in the end;
    and with two hosts or more, if any answered, those kept have a latency. *)
Theorem log_agrees host (results : list frontedProbeResult) :
  wf_results results -> results <> [] ->
  let keep := selectFrontedClientIndexes results in
  let lines := fst (logFrontedProbeDecision host results keep) in
  let summary := snd (logFrontedProbeDecision host results keep) in
  map pl_host lines = map host (seq 0 (length results))
  /\ len (List.filter pl_keep lines) = ps_kept summary /\ 0 < ps_kept summary <= ps_total summary
  /\ ((2 <= length results)%nat -> List.filter probe_ok results <> [] ->
      forall l, l ∈ lines -> pl_keep l = true -> exists d n, pl_detail l = TTFB d n /\ 0 < n).
Proof.
  intros Hwf Hne keep lines summary. destruct (select_spec results Hwf Hne) as (Hk & Hnd & Hin & Hok).
  fold keep in Hk, Hnd, Hin, Hok. subst lines summary. cbn [fst snd logFrontedProbeDecision ps_kept ps_total].
  assert (Hlen : len (List.filter pl_keep (map (log_probe host keep) results)) = len keep).
  { unfold len. f_equal. transitivity (length (List.filter (fun i => bool_decide (i ∈ keep)) (map p_index results))).
    - apply log_keep_count.
    - rewrite Hwf. apply Permutation_length, NoDup_Permutation; [|done|].
      + apply NoDup_ListNoDup, List.NoDup_filter, NoDup_ListNoDup, NoDup_seq.
      + intros i. rewrite elem_of_filter_list, bool_decide_eq_true. split; [tauto|]. intros Hi. split; [|done].
        apply elem_of_seq. specialize (Hin i Hi). lia. }
  split; [rewrite map_map; cbn; rewrite <- (map_map p_index host), Hwf; done|].
  split; [exact Hlen|]. split.
  - split; [apply len_pos; done|]. unfold keep in *. rewrite <- Hlen, <- (len_map (log_probe host (selectFrontedClientIndexes results)) results).
    unfold len. apply inj_le, filter_length_le.
  - intros Hl Hs l (r & -> & Hr)%list_elem_of_fmap Hkeep. cbn in Hkeep |- *.
    apply bool_decide_eq_true in Hkeep. destruct (Hok Hl Hs) as [Hpo _].
    rewrite (Hpo r Hr Hkeep). do 2 eexists. split; [done|]. specialize (Hpo r Hr Hkeep).
    unfold probe_ok in Hpo. by apply Z.ltb_lt in Hpo.
Qed.

(** ** Concrete inputs *)

Definition demo_results : list frontedProbeResult :=
  [mkProbe 0 [12; 10] false; mkProbe 1 [] true; mkProbe 2 [90] false; mkProbe 3 [11] false].

Lemma select_spec_witness :
  selectFrontedClientIndexes demo_results = [0; 3]%nat
  /\ 3 * median (map latency (List.filter probe_ok demo_results)) < latency (mkProbe 2 [90] false).
Proof.
  split; [vm_compute; reflexivity|].
  destruct (select_spec demo_results) as (_ & _ & _ & H); [vm_compute; reflexivity|discriminate|].
  destruct H as [_ H]; [vm_compute; repeat constructor|vm_compute; discriminate|].
  apply (H (mkProbe 2 [90] false)).
  - right. left.
  - apply (bool_decide_unpack _). vm_compute. exact I.
Defined.

Lemma filter_pairs_witness :
  exists hs cs, filterFrontedClientsByProbe [str "a"; str "b"] [1; 2] (str "u") [[DoErr; DoErr]; [Answer 200 (str " GooseRelay forwarder OK") 5]]
    = Some (hs, cs) /\ hs <> [] /\ cs = [2].
Proof.
  destruct (filter_pairs [str "a"; str "b"] [1; 2] (str "u") [[DoErr; DoErr]; [Answer 200 (str " GooseRelay forwarder OK") 5]])
    as (hs & cs & H1 & H2 & _); [discriminate|reflexivity|reflexivity|].
  exists hs, cs. split; [exact H1|]. split; [exact H2|].
  assert (E : Some (hs, cs) = Some ([str "b"], [2])) by (rewrite <- H1; vm_compute; reflexivity).
  injection E as _ E. exact E.
Defined.
