(* ===== verification/Conn.v ===== *)
(** * internal/socks/conn.go: the connection given to the SOCKS server

    [VirtualConn] reads from the session's [RxChan] and writes to its transmit
    buffer.  A [Read] is one run of the method; [Blocks] says that it waits for
    the channel ([RxChan] empty and open, no deadline reached). *)

From S2P Require Import Prelude Frame Session Stream.

Record VirtualConn := mkConn { vsess : Session; readBuf : bytes; readDeadline : Z }.

Definition NewVirtualConn (s : Session) : VirtualConn := mkConn s [] 0.

Inductive read_result :=
| Read_ok (data : bytes)
| Read_EOF
| Read_deadline
| Blocks.

Definition with_chan (ch : list bytes) (s : Session) : Session :=
  with_rx s (mkRx (rxSeq (rx s)) (rxQueue (rx s)) (rxClosed (rx s)) ch (RxChanClosed (rx s))
                  (rxInbox (rx s)) (rxDone (rx s))).

(** The receives of the loop: empty payloads are skipped. *)
Fixpoint receive_data (n : nat) (ch : list bytes) : list bytes * option (bytes * bytes) :=
  match ch with
  | [] => ([], None)
  | [] :: ch => receive_data n ch
  | data :: ch => (ch, Some (take n data, drop n data))
  end.

(** [n] is the length of the caller's buffer; [now] stands still during the
    call. *)
Definition Read (now : Z) (n : nat) (v : VirtualConn) : VirtualConn * read_result :=
  if 0 <? len (readBuf v)
  then (mkConn (vsess v) (drop n (readBuf v)) (readDeadline v), Read_ok (take n (readBuf v)))
  else if negb (IsZero (readDeadline v)) && (readDeadline v - now <=? 0) then (v, Read_deadline)
  else
    match receive_data n (RxChan (rx (vsess v))) with
    | (ch, Some (data, rest)) => (mkConn (with_chan ch (vsess v)) rest (readDeadline v), Read_ok data)
    | (ch, None) =>
        (mkConn (with_chan ch (vsess v)) (readBuf v) (readDeadline v),
         if RxChanClosed (rx (vsess v)) then Read_EOF else Blocks)
    end.

(** [None]: the call waits in [EnqueueInitialData]. *)
Definition Write (now : Z) (b : bytes) (v : VirtualConn) : option (VirtualConn * Z) :=
  if 0 <? len b then
    match EnqueueInitialData now b (vsess v) with
    | None => None
    | Some (s, _) => Some (mkConn s (readBuf v) (readDeadline v), len b)
    end
  else Some (v, 0).

Definition Close (now : Z) (v : VirtualConn) : VirtualConn :=
  mkConn (fst (RequestClose now (vsess v))) (readBuf v) (readDeadline v).

Definition SetReadDeadline (t : Z) (v : VirtualConn) : VirtualConn :=
  mkConn (vsess v) (readBuf v) t.
Definition SetDeadline (t : Z) (v : VirtualConn) : VirtualConn := SetReadDeadline t v.

(** ** Reading a stream *)

(** Reads with buffers of the given sizes until one of them is not answered
    with data. *)
Fixpoint read_all (now : Z) (sizes : list nat) (v : VirtualConn) : VirtualConn * bytes * option read_result :=
  match sizes with
  | [] => (v, [], None)
  | n :: sizes =>
      match Read now n v with
      | (v, Read_ok data) => let '(v, rest, r) := read_all now sizes v in (v, data ++ rest, r)
      | (v, r) => (v, [], Some r)
      end
  end.

(** What is still to be read. *)
Definition pending (v : VirtualConn) : bytes := readBuf v ++ concat (RxChan (rx (vsess v))).

Lemma receive_data_spec n ch :
  match receive_data n ch with
  | (ch', Some (d, r)) => concat ch = d ++ r ++ concat ch' /\ d ++ r <> [] /\ d = take n (d ++ r)
  | (ch', None) => concat ch = [] /\ ch' = []
  end.
Proof.
  induction ch as [|[|b data] ch IH]; [done|exact IH|]. cbn [receive_data].
  rewrite take_drop. cbn [concat]. rewrite <- (take_drop n (b :: data)) at 1. by rewrite <- app_assoc.
Qed.

Lemma Read_spec now n v v' r :
  Read now n v = (v', r) ->
  RxChanClosed (rx (vsess v')) = RxChanClosed (rx (vsess v)) /\ readDeadline v' = readDeadline v
  /\ match r with
     | Read_ok d => pending v = d ++ pending v' /\ ((0 < n)%nat -> d <> []) /\ (length d <= n)%nat
     | Read_EOF => pending v = [] /\ pending v' = [] /\ RxChanClosed (rx (vsess v)) = true
     | Blocks => pending v = [] /\ pending v' = [] /\ RxChanClosed (rx (vsess v)) = false
     | Read_deadline => v' = v
     end.
Proof.
  unfold Read, pending. destruct (Z.ltb_spec 0 (len (readBuf v))) as [Hp|Hz].
  { intros [= <- <-]. cbn. split; [done|]. split; [done|]. split; [by rewrite app_assoc, take_drop|].
    split; [|rewrite length_take; lia]. intros Hn He. apply len_pos in Hp.
    destruct (readBuf v), n; done || lia. }
  assert (Hb : readBuf v = []) by (apply len_zero; pose proof (len_nonneg (readBuf v)); lia).
  rewrite Hb. case_bool; [by intros [= <- <-]|].
  pose proof (receive_data_spec n (RxChan (rx (vsess v)))) as Hr.
  destruct (receive_data n _) as [ch [[d rest]|]].
  - intros [= <- <-]. cbn. destruct Hr as (E & Hne & Hd). split; [done|]. split; [done|].
    split; [done|]. split; [|rewrite Hd, length_take; lia].
    intros Hn Hd0. subst d. cbn in Hd. destruct rest; [done|]. destruct n; [lia|done].
  - destruct Hr as [E ->]. case_bool; intros [= <- <-]; cbn; by rewrite E.
Qed.

(** C23: a reader gets the stream.  Reads with buffers of any sizes deliver, in
    order and without loss or duplication, a prefix of what the receive loop
    put into the channel; the rest is still there; end-of-file is reported only
    when the channel is closed and everything was read; a read with room in its
    buffer never returns zero bytes; and without a deadline it waits only when
    there is nothing to read. *)
Theorem read_stream (now : Z) (sizes : list nat) (v v' : VirtualConn) (data : bytes) (r : option read_result) :
  read_all now sizes v = (v', data, r) ->
  pending v = data ++ pending v'
  /\ (r = Some Read_EOF -> pending v' = [] /\ RxChanClosed (rx (vsess v)) = true)
  /\ (r = Some Blocks -> pending v' = [] /\ RxChanClosed (rx (vsess v)) = false)
  /\ (readDeadline v = 0 -> r <> Some Read_deadline)
  /\ (r = None -> Forall (fun n => (0 < n)%nat) sizes -> (length sizes <= length data)%nat).
Proof.
  revert v data. induction sizes as [|n sizes IH]; intros v data; cbn.
  { intros [= <- <- <-]. split; [done|]. split; [done|]. split; [done|]. split; [done|]. cbn. lia. }
  destruct (Read now n v) as [v1 r1] eqn:Hr1. destruct (Read_spec _ _ _ _ _ Hr1) as (Hc & Hdl & H).
  destruct r1 as [d| | |].
  - destruct (read_all now sizes v1) as [[v2 rest] r2] eqn:Hr2. intros [= <- <- <-].
    destruct (IH v1 rest Hr2) as (E & HE & HB & HD & HL). destruct H as (Hp & Hne & _).
    split; [by rewrite <- app_assoc, <- E|]. rewrite <- Hc, <- Hdl. split; [done|]. split; [done|]. split; [done|].
    intros Hn [Hn0 Hall]%Forall_cons. rewrite length_app. specialize (HL Hn Hall). specialize (Hne Hn0).
    destruct d; [done|]. cbn. lia.
  - intros [= <- <- <-]. destruct H as (Hp & Hp' & Hcl). by rewrite Hp, Hp'.
  - intros [= <- <- <-]. subst v1. split; [done|]. split; [done|]. split; [done|]. split; [|done].
    intros Hd _. revert Hr1. unfold Read. case_bool; [done|]. rewrite Hd. cbn.
    destruct (receive_data _ _) as [? [[? ?]|]]; [done|]. by case_bool.
  - intros [= <- <- <-]. destruct H as (Hp & Hp' & Hcl). by rewrite Hp, Hp'.
Qed.

(** ** A concrete connection *)

Definition demo_conn : VirtualConn :=
  NewVirtualConn (with_rx (Session.New 0 (str "session-00000001") (str "h:1") true)
    (mkRx 3 ∅ true [str "hel"; []; str "lo"] true [] true)).

Lemma read_stream_witness :
  snd (fst (read_all 7 [2; 5; 5; 1]%nat demo_conn)) = str "hello"
  /\ pending (fst (fst (read_all 7 [2; 5; 5; 1]%nat demo_conn))) = [].
Proof.
  split; [vm_compute; reflexivity|].
  destruct (read_all 7 [2; 5; 5; 1]%nat demo_conn) as [[v data] r] eqn:H.
  destruct (read_stream 7 [2; 5; 5; 1]%nat demo_conn v data r H) as (_ & H2 & _).
  apply H2. change r with (snd (v, data, r)). rewrite <- H. vm_compute. reflexivity.
Defined.
