(* ===== verification/Exit.v ===== *)
(** * internal/exit/exit.go: the server

    [Server] is the state that [s.mu] protects (and the DNS cache).  Each
    function below is one critical section, or, for [routeIncoming],
    [openSession] and [gcIdleSessions], the sequence of them the code runs;
    [handleTunnel] is in [Tunnel].  A wake channel is a number and the tokens
    its one-element buffer holds, so that a channel that was replaced is not
    confused with the new one.  The dialler, connections and the JSON encoder
    of the version answer are arguments; the pump goroutines of a session only
    call the session's methods and are not part of the state. *)

From S2P Require Import Prelude GoStd Frame Session SessionApi Endpoints Dns Version.

Definition ActiveDrainWindow : Z := 350 * Millisecond.
Definition LongPollWindow : Z := 8 * Second.
Definition MaxFramePayload : Z := 256 * 1024.
Definition coalesceWindow : Z := 25 * Millisecond.
Definition coalesceWindowBusy : Z := 10 * Millisecond.
Definition coalesceMinFrames : Z := 4.
Definition maxDrainFramesPerSession : Z := 8.
Definition maxDrainFramesPerBatch : Z := 48.
Definition busySessionThreshold : Z := 24.
Definition maxDrainFramesPerBatchBusy : Z := 144.
Definition maxResponseBytesPreEncode : Z := 22 * 1024 * 1024.
Definition dialFailureBackoff : Z := 2 * Second.
Definition idleSessionTimeout : Z := 10 * Minute.

Record serverStats := mkSStats {
  st_requests : Z; st_framesIn : Z; st_framesOut : Z; st_bytesIn : Z; st_bytesOut : Z;
  st_sessionsOpen : Z; st_sessionsClose : Z; st_dialsOK : Z; st_dialsFail : Z;
  st_rstSent : Z; st_decodeFailures : Z;
}.

Definition zero_sstats : serverStats := mkSStats 0 0 0 0 0 0 0 0 0 0 0.

Definition st_open (s : serverStats) : serverStats :=
  mkSStats (st_requests s) (st_framesIn s) (st_framesOut s) (st_bytesIn s) (st_bytesOut s)
    (u64 (st_sessionsOpen s + 1)) (st_sessionsClose s) (st_dialsOK s) (st_dialsFail s)
    (st_rstSent s) (st_decodeFailures s).
Definition st_close (s : serverStats) : serverStats :=
  mkSStats (st_requests s) (st_framesIn s) (st_framesOut s) (st_bytesIn s) (st_bytesOut s)
    (st_sessionsOpen s) (u64 (st_sessionsClose s + 1)) (st_dialsOK s) (st_dialsFail s)
    (st_rstSent s) (st_decodeFailures s).
Definition st_dial_ok (s : serverStats) : serverStats :=
  mkSStats (st_requests s) (st_framesIn s) (st_framesOut s) (st_bytesIn s) (st_bytesOut s)
    (st_sessionsOpen s) (st_sessionsClose s) (u64 (st_dialsOK s + 1)) (st_dialsFail s)
    (st_rstSent s) (st_decodeFailures s).
Definition st_dial_fail (s : serverStats) : serverStats :=
  mkSStats (st_requests s) (st_framesIn s) (st_framesOut s) (st_bytesIn s) (st_bytesOut s)
    (st_sessionsOpen s) (st_sessionsClose s) (st_dialsOK s) (u64 (st_dialsFail s + 1))
    (st_rstSent s) (st_decodeFailures s).
Definition st_rst (s : serverStats) : serverStats :=
  mkSStats (st_requests s) (st_framesIn s) (st_framesOut s) (st_bytesIn s) (st_bytesOut s)
    (st_sessionsOpen s) (st_sessionsClose s) (st_dialsOK s) (st_dialsFail s)
    (u64 (st_rstSent s + 1)) (st_decodeFailures s).

Section Server.
Context {S : Type} {A : SessionApi S} {Conn : Type}.

Record Server := mkServer {
  sessions : gmap bytes S;
  sessionOwners : gmap bytes bytes;
  txReady : gset bytes;
  firstReply : gset bytes;
  upstreams : gmap bytes Conn;
  lastActivity : gmap bytes Z;
  dialFail : gmap bytes Z;
  pendingRSTs : gmap bytes (list Frame);
  pendingCtrl : gmap bytes (list Frame);
  activity : gmap bytes nat;      (* the channel of each client *)
  tokens : gset nat;              (* the channels whose buffer is full *)
  nextChan : nat;
  dns : dnsCache;
  sstats : serverStats;
}.

Definition init_server : Server :=
  mkServer ∅ ∅ ∅ ∅ ∅ ∅ ∅ ∅ ∅ ∅ ∅ 0 ∅ zero_sstats.

(** Updates of groups of fields. *)
Definition set_sess (m : gmap bytes S) (o : gmap bytes bytes) (rdy fst_ : gset bytes)
    (u : gmap bytes Conn) (la : gmap bytes Z) (s : Server) : Server :=
  mkServer m o rdy fst_ u la (dialFail s) (pendingRSTs s) (pendingCtrl s) (activity s)
    (tokens s) (nextChan s) (dns s) (sstats s).
Definition set_dialFail (d : gmap bytes Z) (s : Server) : Server :=
  mkServer (sessions s) (sessionOwners s) (txReady s) (firstReply s) (upstreams s)
    (lastActivity s) d (pendingRSTs s) (pendingCtrl s) (activity s) (tokens s) (nextChan s)
    (dns s) (sstats s).
Definition set_pending (r c : gmap bytes (list Frame)) (s : Server) : Server :=
  mkServer (sessions s) (sessionOwners s) (txReady s) (firstReply s) (upstreams s)
    (lastActivity s) (dialFail s) r c (activity s) (tokens s) (nextChan s) (dns s) (sstats s).
Definition set_activity (a : gmap bytes nat) (t : gset nat) (n : nat) (s : Server) : Server :=
  mkServer (sessions s) (sessionOwners s) (txReady s) (firstReply s) (upstreams s)
    (lastActivity s) (dialFail s) (pendingRSTs s) (pendingCtrl s) a t n (dns s) (sstats s).
Definition set_dns (d : dnsCache) (s : Server) : Server :=
  mkServer (sessions s) (sessionOwners s) (txReady s) (firstReply s) (upstreams s)
    (lastActivity s) (dialFail s) (pendingRSTs s) (pendingCtrl s) (activity s) (tokens s)
    (nextChan s) d (sstats s).
Definition set_sstats (st : serverStats) (s : Server) : Server :=
  mkServer (sessions s) (sessionOwners s) (txReady s) (firstReply s) (upstreams s)
    (lastActivity s) (dialFail s) (pendingRSTs s) (pendingCtrl s) (activity s) (tokens s)
    (nextChan s) (dns s) st.

(** ** Waking pollers *)

(** The channel of [owner], allocated on first use. *)
Definition activityFor (owner : bytes) (s : Server) : Server * nat :=
  match activity s !! owner with
  | Some ch => (s, ch)
  | None => (set_activity (<[owner := nextChan s]> (activity s)) (tokens s) (Datatypes.S (nextChan s)) s,
             nextChan s)
  end.

(** The non-blocking send of [kick]. *)
Definition kick (owner : bytes) (s : Server) : Server :=
  let '(s, ch) := activityFor owner s in
  set_activity (activity s) ({[ch]} ∪ tokens s) (nextChan s) s.

Definition queueRST (owner sessionID : bytes) (s : Server) : Server :=
  let rst := mkFrame sessionID 0 FlagRST [] [] in
  kick owner (set_pending (<[owner := default [] (pendingRSTs s !! owner) ++ [rst]]> (pendingRSTs s))
                          (pendingCtrl s) s).

(** [info] is what [protocol.EncodeVersionInfo] returns, [None] an error. *)
Definition queueVersionResponse (info : option bytes) (owner sessionID : bytes) (s : Server) : Server :=
  let payload := match info with Some p => p | None => str "{" ++ [z2b 34] ++ str "ok" ++ [z2b 34] ++ str ":false}" end in
  let rst := mkFrame sessionID 0 FlagRST [] payload in
  kick owner (set_pending (pendingRSTs s)
                (<[owner := default [] (pendingCtrl s !! owner) ++ [rst]]> (pendingCtrl s)) s).

(** The [OnTx] callback of a session opened for [owner]. *)
Definition OnTx (id owner : bytes) (s : Server) : Server :=
  kick owner (set_sess (sessions s) (sessionOwners s) ({[id]} ∪ txReady s) (firstReply s)
                       (upstreams s) (lastActivity s) s).

(** ** Dial failures *)

Definition isDialSuppressed (now : Z) (target : bytes) (s : Server) : Server * bool :=
  match dialFail s !! target with
  | None => (s, false)
  | Some until =>
      if After now until then (set_dialFail (delete target (dialFail s)) s, false)
      else (s, true)
  end.

(** What [errors.As] finds in a dial error: a [net.DNSError] and whether it is
    a definite not-found, a [net.OpError] and whether it is a time-out, and the
    system error inside it. *)
Inductive errno := ECONNREFUSED | EHOSTUNREACH | ENETUNREACH | ENETDOWN | EADDRNOTAVAIL
  | ETIMEDOUT | EOTHER.

Record dial_error := mkDialError {
  dnsNotFound : option bool;
  opTimeout : option bool;
  sysErrno : option errno;
}.

Definition isBackoffEligibleDialErr (e : dial_error) : bool :=
  if match dnsNotFound e with Some b => b | None => false end then true else
  match opTimeout e with
  | None => false
  | Some true => true
  | Some false =>
      match sysErrno e with
      | None => false
      | Some EOTHER => false
      | Some _ => true
      end
  end.

Definition recordDialFailure (now : Z) (target : bytes) (e : dial_error) (s : Server) : Server :=
  if isBackoffEligibleDialErr e
  then set_dialFail (<[target := now + dialFailureBackoff]> (dialFail s)) s
  else s.

Definition clearDialFailure (target : bytes) (s : Server) : Server :=
  set_dialFail (delete target (dialFail s)) s.

(** ** Incoming frames *)

(** The dial of [openSession]: with or without the upstream proxy. *)
Inductive dialler :=
| DialProxy (dial : bytes -> dial_error + Conn)
| DialDirect (baseDial : bytes -> dial_error + Conn) (lookup : bytes -> option (list bytes))
    (isIP : bytes -> bool).

Definition run_dial (d : dialler) (now : Z) (target : bytes) (s : Server) : Server * (dial_error + Conn) :=
  match d with
  | DialProxy dial => (s, dial target)
  | DialDirect base lookup isIP =>
      let '(c, r) := dialWithDNSCache base lookup isIP now target (dns s) in
      (set_dns c s, match r with inl e => inl e | inr r => inr (Conn_ r) end)
  end.

(** The registration of a dialled session. *)
Definition register (now : Z) (id target owner : bytes) (upstream : Conn) (s : Server) : Server :=
  set_sstats (st_open (sstats s))
    (set_sess (<[id := api_new now id target false]> (sessions s))
       (<[id := owner]> (sessionOwners s)) (txReady s) ({[id]} ∪ firstReply s)
       (<[id := upstream]> (upstreams s)) (<[id := now]> (lastActivity s)) s).

Definition openSession (d : dialler) (now : Z) (id target owner : bytes) (s : Server)
    : Server * option dial_error :=
  let '(s, r) := run_dial d now target s in
  match r with
  | inl e => (s, Some e)
  | inr conn => (register now id target owner conn s, None)
  end.

(** The end of [routeIncoming]: [ProcessRx] and the activity time stamp.  The
    session the code holds is the registered one, unless a concurrent call
    replaced or removed it. *)
Definition deliver (now : Z) (timeout : bool) (f : Frame) (s : Server) : Server :=
  match sessions s !! SessionID f with
  | None => s
  | Some sess =>
      set_sess (<[SessionID f := api_process timeout f sess]> (sessions s)) (sessionOwners s)
        (txReady s) (firstReply s) (upstreams s) (<[SessionID f := now]> (lastActivity s)) s
  end.

Definition reject (owner id : bytes) (s : Server) : Server :=
  let s := queueRST owner id s in set_sstats (st_rst (sstats s)) s.

(** [routeIncoming] after its first critical section, which found [exists_] and
    the owner. *)
Definition route_after (d : dialler) (info : option bytes) (now : Z) (timeout : bool) (f : Frame)
    (owner : bytes) (exists_ : bool) (existingOwner : option bytes) (s : Server) : Server :=
  let id := SessionID f in
  let collision :=
    match existingOwner with Some o => exists_ && negb (bool_decide (o = owner)) | None => false end in
  if collision then reject owner id s else
  if negb exists_ then
    if negb (HasFlag f FlagSYN) then
      if IsProbePayload (Payload f) then queueVersionResponse info owner id s
      else reject owner id s
    else
      let '(s, suppressed) := isDialSuppressed now (Target f) s in
      if suppressed then reject owner id s else
      let '(s, err) := openSession d now id (Target f) owner s in
      match err with
      | Some e =>
          let s := recordDialFailure now (Target f) e s in
          set_sstats (st_dial_fail (sstats s)) s
      | None =>
          let s := clearDialFailure (Target f) (set_sstats (st_dial_ok (sstats s)) s) in
          deliver now timeout f s
      end
  else deliver now timeout f s.

Definition routeIncoming (d : dialler) (info : option bytes) (now : Z) (timeout : bool)
    (f : Frame) (owner : bytes) (s : Server) : Server :=
  route_after d info now timeout f owner
    (bool_decide (is_Some (sessions s !! SessionID f))) (sessionOwners s !! SessionID f) s.

(** ** Draining *)

Record DrainSt := mkDrain {
  dsv : Server;
  dout : list Frame;
  durgent : bool;
  dremaining : Z;
  dbytes : Z;
}.

Definition payload_bytes (fs : list Frame) : Z := foldr (fun f n => len (Payload f) + n) 0 fs.

(** The body of the loop over [refs]; the [break] of the code leaves the rest
    of the loop without effect, as the test does here. *)
Definition drain_one (now : Z) (id : bytes) (d : DrainSt) : DrainSt :=
  let s := dsv d in
  if (dremaining d <=? 0) || (dbytes d <=? 0) then d else
  match sessions s !! id with
  | None => mkDrain (set_sess (sessions s) (sessionOwners s) (txReady s ∖ {[id]}) (firstReply s)
                      (upstreams s) (lastActivity s) s)
                    (dout d) (durgent d) (dremaining d) (dbytes d)
  | Some sess =>
      let cap := if dremaining d <? maxDrainFramesPerSession then dremaining d
                 else maxDrainFramesPerSession in
      let '(sess', frames) := api_drain now MaxFramePayload cap sess in
      let rdy := if api_pending sess' then txReady s else txReady s ∖ {[id]} in
      let any := 0 <? len frames in
      let isFirst := any && bool_decide (id ∈ firstReply s) in
      let fr := if isFirst then firstReply s ∖ {[id]} else firstReply s in
      let la := if any then <[id := now]> (lastActivity s) else lastActivity s in
      mkDrain (set_sess (<[id := sess']> (sessions s)) (sessionOwners s) rdy fr (upstreams s) la s)
        (dout d ++ frames) (durgent d || isFirst) (dremaining d - len frames)
        (dbytes d - payload_bytes frames)
  end.

(** What the map of owners gives for an absent key. *)
Definition zero_id : bytes := zeros 16.

(** [refs]: the ready sessions of [owner]; stale entries are dropped. *)
Definition prune (s : Server) : Server :=
  set_sess (sessions s) (sessionOwners s) (filter (fun id => is_Some (sessions s !! id)) (txReady s))
    (firstReply s) (upstreams s) (lastActivity s) s.

Definition owned_ready (owner : bytes) (s : Server) : gset bytes :=
  filter (fun id => default zero_id (sessionOwners s !! id) = owner) (txReady (prune s)).

Definition queue_age (s : Server) (id : bytes) : Z := from_option api_queued_at 0 (sessions s !! id).
Definition older (s : Server) (a b : bytes) : Prop := queue_age s a <= queue_age s b.

#[export] Instance older_dec s : RelDecision (older s).
Proof. intros a b. unfold older. apply _. Defined.

Definition valid_order (owner : bytes) (s : Server) (order : list bytes) : Prop :=
  order ≡ₚ elements (owned_ready owner s) /\ Sorted (older s) order.

Definition some_order (owner : bytes) (s : Server) : list bytes :=
  merge_sort (older s) (elements (owned_ready owner s)).

Definition batch_cap (s : Server) : Z :=
  if busySessionThreshold <=? Z.of_nat (size (sessions s))
  then maxDrainFramesPerBatchBusy else maxDrainFramesPerBatch.

Definition drainAll (now : Z) (order : list bytes) (owner : bytes) (byteBudget : Z) (s : Server)
    : Server * list Frame * bool :=
  let ctrl := default [] (pendingCtrl s !! owner) in
  let rsts := default [] (pendingRSTs s !! owner) in
  let pc := if 0 <? len ctrl then delete owner (pendingCtrl s) else pendingCtrl s in
  let pr := if 0 <? len rsts then delete owner (pendingRSTs s) else pendingRSTs s in
  let urgent := (0 <? len ctrl) || (0 <? len rsts) in
  let s := set_pending pr pc s in
  let cap := batch_cap s in
  let s := prune s in
  let d := foldl (fun d id => drain_one now id d) (mkDrain s (ctrl ++ rsts) urgent cap byteBudget) order in
  (dsv d, dout d, durgent d).

(** ** Garbage collection *)

(** What both collectors delete for one session. *)
Definition remove_session (id : bytes) (s : Server) : Server :=
  set_sess (delete id (sessions s)) (delete id (sessionOwners s)) (txReady s ∖ {[id]})
    (firstReply s ∖ {[id]}) (delete id (upstreams s)) (delete id (lastActivity s)) s.

Definition gc_done_one (now : Z) (id : bytes) (s : Server) : Server :=
  match sessions s !! id with
  | Some sess =>
      if api_done now sess then set_sstats (st_close (sstats s)) (remove_session id s) else s
  | None => s
  end.

(** The second half of [gcDoneSessions]: the wake channels of clients without a
    session are dropped from the map. *)
Definition active_owners (s : Server) : gset bytes :=
  list_to_set (map snd (map_to_list (sessionOwners s))).

Definition gc_activity (s : Server) : Server :=
  set_activity (filter (fun p => p.1 ∈ active_owners s) (activity s)) (tokens s) (nextChan s) s.

(** [order] lists the keys as the range loop meets them. *)
Definition gcDoneSessions (now : Z) (order : list bytes) (s : Server) : Server :=
  gc_activity (foldl (fun s id => gc_done_one now id s) s order).

(** One entry of [lastActivity]; a victim is its session and connection. *)
Definition gc_idle_one (now : Z) (id : bytes) (p : Server * list (S * option Conn))
    : Server * list (S * option Conn) :=
  let '(s, victims) := p in
  match lastActivity s !! id with
  | None => (s, victims)
  | Some last =>
      if After last (now - idleSessionTimeout) then (s, victims) else
      match sessions s !! id with
      | None => (set_sess (sessions s) (sessionOwners s) (txReady s) (firstReply s) (upstreams s)
                   (delete id (lastActivity s)) s, victims)
      | Some sess => (remove_session id s, victims ++ [(sess, upstreams s !! id)])
      end
  end.

(** Closing the victims outside the lock: the connections to close, the
    sessions after [CloseRx] and [Stop], and the count. *)
Fixpoint close_victims (victims : list (S * option Conn)) (s : Server)
    : res Empty_set (Server * list Conn * list S) :=
  match victims with
  | [] => Ok (s, [], [])
  | (sess, up) :: rest =>
      let! sess := api_close_rx sess in
      let sess := api_stop sess in
      let! r := close_victims rest (set_sstats (st_close (sstats s)) s) in
      let '(s, ups, ss) := r in
      Ok (s, match up with Some u => u :: ups | None => ups end, sess :: ss)
  end.

Definition gcIdleSessions (now : Z) (order : list bytes) (s : Server)
    : res Empty_set (Server * list Conn * list S) :=
  let '(s, victims) := foldl (fun p id => gc_idle_one now id p) (s, []) order in
  close_victims victims s.

End Server.
Arguments Server S Conn : clear implicits.
Arguments DrainSt S Conn : clear implicits.
Arguments dialler Conn : clear implicits.
