(* ===== verification/ExitDrain.v ===== *)
(** * What one drain of the server returns

    The contract of [Exit.drainAll]: whose frames are in a batch, how many and
    how many bytes, and what happens to the sessions that were served and to
    those that were not.  [sdrained] is the invariant of the loop; a part is
    what one session contributed. *)

From S2P Require Import Prelude GoStd Frame Session SessionApi Endpoints Dns Exit.

Section Drain.
Context {S : Type} {A : SessionApi S} {AO : SessionApiOk S} {Conn : Type}.
Implicit Types (s : Server S Conn) (d : DrainSt S Conn) (id owner : bytes)
  (parts : list (bytes * list Frame)).

(** Every session is in order and registered under its own identifier. *)
Definition table_ok s : Prop :=
  forall id x, sessions s !! id = Some x -> api_ok x /\ api_id x = id.

Definition share (now : Z) (m0 m : gmap bytes S) (p : bytes * list Frame) : Prop :=
  exists x x' cap, m0 !! fst p = Some x /\ m !! fst p = Some x'
    /\ 0 < cap <= maxDrainFramesPerSession
    /\ api_drain now MaxFramePayload cap x = (x', snd p) /\ snd p <> [].

(** The frames that came from sessions. *)
Definition part_frames parts : list Frame := concat (map snd parts).

Record sdrained (now : Z) (s0 : Server S Conn) (pre : list Frame) (urg : bool) (budget : Z)
    parts d : Prop := {
  sd_out : dout d = pre ++ part_frames parts;
  sd_nodup : NoDup (map fst parts);
  sd_shares : Forall (share now (sessions s0) (sessions (dsv d))) parts;
  sd_others : forall id, id ∉ map fst parts -> sessions (dsv d) !! id = sessions s0 !! id;
  sd_ready : txReady (dsv d) ⊆ txReady s0;
  sd_kept : forall id x, id ∈ txReady s0 -> sessions (dsv d) !! id = Some x ->
      api_pending x = true -> id ∈ txReady (dsv d);
  sd_rem : dremaining d + len (part_frames parts) = batch_cap s0 /\ 0 <= dremaining d;
  sd_bytes : dbytes d + payload_bytes (part_frames parts) = budget
    /\ (parts = [] \/ - (maxDrainFramesPerSession * MaxFramePayload) < dbytes d);
  sd_first : firstReply (dsv d) = firstReply s0 ∖ list_to_set (map fst parts)
    /\ durgent d = urg || existsb (fun id => bool_decide (id ∈ firstReply s0)) (map fst parts);
  sd_active : forall id, lastActivity (dsv d) !! id
    = if decide (id ∈ map fst parts) then Some now else lastActivity s0 !! id;
  sd_rest : sessionOwners (dsv d) = sessionOwners s0 /\ upstreams (dsv d) = upstreams s0
    /\ pendingRSTs (dsv d) = pendingRSTs s0 /\ pendingCtrl (dsv d) = pendingCtrl s0
    /\ activity (dsv d) = activity s0 /\ tokens (dsv d) = tokens s0
    /\ nextChan (dsv d) = nextChan s0 /\ dialFail (dsv d) = dialFail s0;
}.

Lemma payload_bytes_app l k : payload_bytes (l ++ k) = payload_bytes l + payload_bytes k.
Proof. induction l as [|f l IH]; [done|]. cbn. fold (payload_bytes (l ++ k)) (payload_bytes l). lia. Qed.

Lemma payload_bytes_nonneg l : 0 <= payload_bytes l.
Proof. induction l as [|f l IH]; [done|]. cbn. fold (payload_bytes l). pose proof (len_nonneg (Payload f)). lia. Qed.

Lemma payload_bytes_bound l m :
  (forall f, f ∈ l -> len (Payload f) <= m) -> payload_bytes l <= len l * m.
Proof.
  induction l as [|f l IH]; intros Hm; [done|]. cbn. fold (payload_bytes l). rewrite len_cons.
  assert (len (Payload f) <= m) by (apply Hm; left).
  assert (payload_bytes l <= len l * m) by (apply IH; intros; apply Hm; by right). lia.
Qed.

Lemma srv_batch_cap_pos s : 0 < batch_cap s.
Proof. unfold batch_cap. by case_bool. Qed.

Lemma sdrained_init now s pre urg budget :
  sdrained now s pre urg budget [] (mkDrain s pre urg (batch_cap s) budget).
Proof.
  pose proof (srv_batch_cap_pos s). constructor; cbn; try done.
  - by rewrite app_nil_r.
  - constructor.
  - unfold len. cbn. lia.
  - split; [lia|by left].
  - split; [|by rewrite orb_false_r]. clear. set_solver.
Qed.

Lemma srv_share_mono (now : Z) (m0 m m' : gmap bytes S) parts :
  (forall id, id ∈ map fst parts -> m' !! id = m !! id) ->
  Forall (share now m0 m) parts -> Forall (share now m0 m') parts.
Proof.
  intros Hm Hall. apply Forall_forall. intros p Hp.
  rewrite Forall_forall in Hall. destruct (Hall p Hp) as (s0 & s' & cap & H0 & H1 & H).
  exists s0, s', cap. split; [done|]. split; [|done]. rewrite Hm; [done|].
  by apply list_elem_of_fmap_2.
Qed.

Section Step.
Context (now : Z) (id : bytes) (s0 : Server S Conn) (pre : list Frame) (urg : bool) (budget : Z)
  (parts : list (bytes * list Frame)) (d : DrainSt S Conn) (x : S)
  (Hok : table_ok s0) (H : sdrained now s0 pre urg budget parts d)
  (Hx : sessions s0 !! id = Some x) (Hnin : id ∉ map fst parts).

Lemma sdrained_empty :
  api_pending x = false ->
  sdrained now s0 pre urg budget parts
    (mkDrain (set_sess (<[id := x]> (sessions (dsv d))) (sessionOwners (dsv d))
                (txReady (dsv d) ∖ {[id]}) (firstReply (dsv d)) (upstreams (dsv d))
                (lastActivity (dsv d)) (dsv d))
             (dout d ++ []) (durgent d || false) (dremaining d - 0) (dbytes d - 0)).
Proof.
  intros Hpend. rewrite app_nil_r, orb_false_r, !Z.sub_0_r. destruct H. constructor; cbn; try done.
  - eapply srv_share_mono; [|done]. intros i Hi. rewrite lookup_insert_ne; [done|]. congruence.
  - intros i Hi. destruct (decide (i = id)) as [->|]; [by rewrite lookup_insert_eq|].
    rewrite lookup_insert_ne by done. by apply sd_others0.
  - clear - sd_ready0. set_solver.
  - intros i y Hi Hy Hp. apply lookup_insert_Some in Hy as [[<- <-]|[Hne Hy]]; [congruence|].
    pose proof (sd_kept0 i y Hi Hy Hp) as Hk. clear - Hk Hne. set_solver.
Qed.

Lemma sdrained_more (x' : S) (fs : list Frame) (cap : Z) (rdy : gset bytes) :
  0 < cap <= maxDrainFramesPerSession -> cap <= dremaining d -> 0 < dbytes d ->
  api_drain now MaxFramePayload cap x = (x', fs) -> fs <> [] ->
  rdy = (if api_pending x' then txReady (dsv d) else txReady (dsv d) ∖ {[id]}) ->
  let isFirst := bool_decide (id ∈ firstReply (dsv d)) in
  sdrained now s0 pre urg budget (parts ++ [(id, fs)])
    (mkDrain (set_sess (<[id := x']> (sessions (dsv d))) (sessionOwners (dsv d)) rdy
                (if isFirst then firstReply (dsv d) ∖ {[id]} else firstReply (dsv d))
                (upstreams (dsv d)) (<[id := now]> (lastActivity (dsv d))) (dsv d))
             (dout d ++ fs) (durgent d || isFirst) (dremaining d - len fs)
             (dbytes d - payload_bytes fs)).
Proof.
  intros Hcap Hle Hb Hd Hne -> isFirst.
  destruct (Hok id x Hx) as [Hox Hidx].
  destruct (drain_ok _ _ _ _ _ _ Hox Hd) as (_ & _ & _ & _ & Hlen & Hsz & _ & _).
  pose proof (Hlen ltac:(lia)) as Hl. specialize (Hsz ltac:(done)).
  pose proof (payload_bytes_bound fs MaxFramePayload Hsz) as Hpb.
  destruct H. constructor; unfold part_frames in *; cbn; rewrite ?map_app; cbn [map fst snd].
  - rewrite sd_out0, <- app_assoc, concat_app. cbn.
    by rewrite app_nil_r.
  - apply NoDup_app. split; [done|]. split; [|apply NoDup_singleton].
    by intros i Hi ->%list_elem_of_singleton.
  - apply Forall_app. split.
    + eapply srv_share_mono; [|done]. intros i Hi. rewrite lookup_insert_ne; [done|]. congruence.
    + apply Forall_singleton. exists x, x', cap. cbn. by rewrite lookup_insert_eq.
  - intros i Hi. rewrite elem_of_app, list_elem_of_singleton in Hi.
    rewrite lookup_insert_ne by intuition congruence. apply sd_others0. intuition.
  - case_bool; [done|]. clear - sd_ready0. set_solver.
  - intros i y Hi Hy Hp. apply lookup_insert_Some in Hy as [[<- <-]|[Hne' Hy]].
    + rewrite Hp. apply (sd_kept0 id x); [done|by rewrite sd_others0|].
      destruct (drain_ok _ _ _ _ _ _ Hox Hd) as (_ & _ & Hp' & _). by apply Hp'.
    + pose proof (sd_kept0 i y Hi Hy Hp) as Hk. case_bool; [done|]. clear - Hk Hne'. set_solver.
  - rewrite concat_app. cbn. rewrite app_nil_r, len_app. unfold part_frames in *. lia.
  - rewrite concat_app. cbn. rewrite app_nil_r, payload_bytes_app.
    unfold part_frames, maxDrainFramesPerSession, MaxFramePayload in *.
    split; [lia|]. right. nia.
  - destruct sd_first0 as [Hf Hu]. rewrite list_to_set_app_L, existsb_app, Hu. cbn. rewrite orb_false_r.
    assert (isFirst = bool_decide (id ∈ firstReply s0)) as Hfi.
    { unfold isFirst. rewrite Hf. apply bool_decide_ext.
      rewrite elem_of_difference, elem_of_list_to_set. tauto. }
    rewrite <- Hfi, orb_assoc. split; [|done]. unfold isFirst. rewrite Hf.
    case_bool; [clear; set_solver|]. apply bool_decide_eq_false in Heqb.
    clear - Heqb. set_solver.
  - intros i. destruct (decide (i = id)) as [->|Hnei].
    + rewrite lookup_insert_eq, decide_True; [done|]. apply elem_of_app. right. by left.
    + rewrite lookup_insert_ne, sd_active0 by done. apply decide_ext.
      rewrite elem_of_app, list_elem_of_singleton. tauto.
  - done.
Qed.

End Step.

(** One round of the loop. *)
Lemma srv_drain_one_spec now id s0 pre urg budget parts d x :
  table_ok s0 -> sdrained now s0 pre urg budget parts d -> sessions s0 !! id = Some x ->
  id ∉ map fst parts ->
  (drain_one now id d = d /\ (dremaining d <= 0 \/ dbytes d <= 0))
  \/ (api_pending x = false /\ sdrained now s0 pre urg budget parts (drain_one now id d))
  \/ exists fs, sdrained now s0 pre urg budget (parts ++ [(id, fs)]) (drain_one now id d).
Proof.
  intros Hok H Hx Hnin. unfold drain_one.
  destruct (Z.leb_spec (dremaining d) 0) as [|Hrem]; [left; auto|].
  destruct (Z.leb_spec (dbytes d) 0) as [|Hby]; [left; auto|]. cbn [orb]. right.
  rewrite (sd_others _ _ _ _ _ _ _ H id Hnin), Hx.
  set (cap := if dremaining d <? maxDrainFramesPerSession then _ else _).
  assert (Hcap : 0 < cap <= maxDrainFramesPerSession /\ cap <= dremaining d).
  { unfold cap. destruct (Z.ltb_spec (dremaining d) maxDrainFramesPerSession);
      unfold maxDrainFramesPerSession in *; lia. }
  clearbody cap. destruct Hcap as [Hcap Hle].
  destruct (api_drain now MaxFramePayload cap x) as [x' fs] eqn:Hd.
  destruct (Hok id x Hx) as [Hox Hidx].
  destruct (drain_ok now MaxFramePayload cap x x' fs Hox Hd) as (_ & _ & Hp & _ & _ & _ & _ & Hnil).
  destruct (Z.ltb_spec 0 (len fs)) as [Hz|Hz]; cbn [andb].
  - right. exists fs. apply len_pos in Hz. by eapply sdrained_more.
  - left. assert (fs = []) as -> by (apply len_zero; pose proof (len_nonneg fs); lia).
    rewrite (Hnil eq_refl). assert (Hpend : api_pending x = false).
    { destruct (api_pending x); [|done]. by destruct Hp as [_ []]. }
    split; [done|]. rewrite Hpend. by apply sdrained_empty.
Qed.

(** The loop: every session of [order] with something to send is served, or
    the frames or the bytes ran out. *)
Lemma drain_fold_spec now s0 pre urg budget order parts d :
  table_ok s0 -> sdrained now s0 pre urg budget parts d -> NoDup order ->
  (forall id, id ∈ order -> is_Some (sessions s0 !! id) /\ id ∉ map fst parts) ->
  exists more, let d' := foldl (fun d id => drain_one now id d) d order in
    sdrained now s0 pre urg budget (parts ++ more) d'
    /\ (forall p, p ∈ more -> fst p ∈ order)
    /\ (forall id x, id ∈ order -> sessions s0 !! id = Some x -> api_pending x = true ->
          id ∈ map fst more \/ dremaining d' <= 0 \/ dbytes d' <= 0).
Proof.
  intros Hok. revert parts d. induction order as [|i order IH]; intros parts d H Hnd Hin; cbn.
  { exists []. rewrite app_nil_r. split; [done|]. split; [by intros p ?%elem_of_nil|by intros id s ?%elem_of_nil]. }
  apply NoDup_cons in Hnd as [Hi Hnd]. destruct (Hin i) as [[x Hx] Hnp]; [left|].
  assert (Hin' : forall id, id ∈ order -> is_Some (sessions s0 !! id) /\ id ∉ map fst parts)
    by (intros; apply Hin; by right).
  destruct (srv_drain_one_spec now i s0 pre urg budget parts d x Hok H Hx Hnp)
    as [[He Hwhy]|[[Hp Hd]|[fs Hd]]].
  - rewrite He. destruct (IH parts d H Hnd Hin') as (more & Hm & Ho & Hall). exists more.
    split; [done|]. split; [intros p ?; right; auto|].
    intros id y [->|Hid]%elem_of_cons Hy Hpy; [|eauto]. right.
    assert (Hsame : foldl (fun d id => drain_one now id d) d order = d).
    { clear - Hwhy. induction order as [|j order IH]; [done|]. cbn.
      assert (Hj : drain_one now j d = d); [|by rewrite Hj]. unfold drain_one.
      destruct (Z.leb_spec (dremaining d) 0), (Z.leb_spec (dbytes d) 0); try done. lia. }
    by rewrite Hsame.
  - destruct (IH parts _ Hd Hnd Hin') as (more & Hm & Ho & Hall). exists more.
    split; [done|]. split; [intros p ?; right; auto|].
    intros id y [->|Hid]%elem_of_cons Hy Hpy; [congruence|eauto].
  - destruct (IH _ _ Hd Hnd) as (more & Hm & Ho & Hall).
    { intros id Hid. destruct (Hin' id Hid) as [? Hn]. split; [done|].
      rewrite map_app, elem_of_app. cbn. rewrite list_elem_of_singleton. intros [?| ->]; done. }
    exists ((i, fs) :: more).
    assert (Hcons : parts ++ (i, fs) :: more = (parts ++ [(i, fs)]) ++ more) by (by rewrite <- app_assoc).
    rewrite Hcons. split; [done|].
    split; [intros p [->|Hp]%elem_of_cons; [left|right; auto]|].
    intros id y [->|Hid]%elem_of_cons Hy Hpy; [left; cbn; left|].
    destruct (Hall id y Hid Hy Hpy) as [|]; [left; cbn; by right|auto].
Qed.

Lemma owned_ready_in owner s id :
  id ∈ owned_ready owner s <->
  id ∈ txReady s /\ is_Some (sessions s !! id) /\ default zero_id (sessionOwners s !! id) = owner.
Proof. unfold owned_ready, prune. cbn. rewrite !elem_of_filter. tauto. Qed.

Lemma srv_valid_order_in owner s order id :
  valid_order owner s order ->
  id ∈ order <-> id ∈ txReady s /\ is_Some (sessions s !! id)
                 /\ default zero_id (sessionOwners s !! id) = owner.
Proof. intros [Hp _]. by rewrite Hp, elem_of_elements, owned_ready_in. Qed.

Lemma srv_some_order_valid owner s : valid_order owner s (some_order owner s).
Proof.
  split; [apply merge_sort_Permutation|].
  assert (Total (older s)) by (intros a b; unfold older; lia).
  apply (Sorted_merge_sort (older s)).
Qed.

(** The control answers and resets queued for a client. *)
Definition queued owner s : list Frame :=
  default [] (pendingCtrl s !! owner) ++ default [] (pendingRSTs s !! owner).

Lemma queue_taken (m : gmap bytes (list Frame)) owner :
  default [] ((if 0 <? len (default [] (m !! owner)) then delete owner m else m) !! owner) = [].
Proof.
  destruct (Z.ltb_spec 0 (len (default [] (m !! owner)))) as [|Hle]; [by rewrite lookup_delete_eq|].
  apply len_zero. pose proof (len_nonneg (default [] (m !! owner))). lia.
Qed.

(** [drainAll] as a whole. *)
Lemma srv_drainAll_spec now order owner budget s s' out urgent :
  table_ok s -> valid_order owner s order ->
  drainAll now order owner budget s = (s', out, urgent) ->
  exists parts d, s' = dsv d /\ out = dout d /\ urgent = durgent d
    /\ (let s1 := set_pending (if 0 <? len (default [] (pendingRSTs s !! owner))
                               then delete owner (pendingRSTs s) else pendingRSTs s)
                              (if 0 <? len (default [] (pendingCtrl s !! owner))
                               then delete owner (pendingCtrl s) else pendingCtrl s) s in
        sdrained now (prune s1) (queued owner s) (bool_decide (queued owner s <> [])) budget parts d)
    /\ (forall p, p ∈ parts -> fst p ∈ order)
    /\ (forall id x, id ∈ order -> sessions s !! id = Some x -> api_pending x = true ->
          id ∈ map fst parts \/ dremaining d <= 0 \/ dbytes d <= 0).
Proof.
  intros Hok Hord Hd. unfold drainAll in Hd. injection Hd as <- <- <-.
  set (s1 := set_pending _ _ s). change (batch_cap s1) with (batch_cap (prune s1)).
  assert (Hnd : NoDup order) by (destruct Hord as [Hperm _]; rewrite Hperm; apply NoDup_elements).
  destruct (drain_fold_spec now (prune s1) (queued owner s) (bool_decide (queued owner s <> []))
    budget order [] _ Hok (sdrained_init _ _ _ _ _) Hnd) as (more & H & Ho & Hall).
  { intros id Hid. split; [|by intros ?%elem_of_nil]. by apply (srv_valid_order_in owner s order id Hord). }
  assert (Hurg : bool_decide (queued owner s <> [])
    = (0 <? len (default [] (pendingCtrl s !! owner))) || (0 <? len (default [] (pendingRSTs s !! owner)))).
  { unfold queued. destruct (default [] (pendingCtrl s !! owner)), (default [] (pendingRSTs s !! owner)); try done. }
  rewrite <- Hurg. fold (queued owner s).
  by eexists more, _.
Qed.

(** What is queued for the client is taken, what is queued for others stays. *)
Lemma drainAll_queues now order owner budget s s' out urgent :
  table_ok s -> valid_order owner s order ->
  drainAll now order owner budget s = (s', out, urgent) ->
  queued owner s' = [] /\ (forall o, o <> owner -> queued o s' = queued o s).
Proof.
  intros Hok Hord Hd.
  destruct (srv_drainAll_spec _ _ _ _ _ _ _ _ Hok Hord Hd) as (parts & d & -> & -> & -> & H & _).
  cbn in H. unfold queued. destruct (sd_rest _ _ _ _ _ _ _ H) as (_ & _ & -> & -> & _). cbn. split.
  - by rewrite !queue_taken.
  - intros o Ho. do 2 case_bool; rewrite ?lookup_delete_ne by done; done.
Qed.

(** C14: clients are isolated.  Everything in the batch returned to a client is
    a control answer or a reset queued for that client, which leave the queue,
    or a frame of a ready session that client owns; the sessions, activity and
    queues of all others are left exactly as they were. *)
Theorem drainAll_isolation now order owner budget s s' out urgent :
  table_ok s -> valid_order owner s order ->
  drainAll now order owner budget s = (s', out, urgent) ->
  (forall f, f ∈ out -> f ∈ queued owner s
     \/ default zero_id (sessionOwners s !! SessionID f) = owner /\ SessionID f ∈ txReady s)
  /\ queued owner s' = []
  /\ sessionOwners s' = sessionOwners s
  /\ (forall id, default zero_id (sessionOwners s !! id) <> owner ->
        sessions s' !! id = sessions s !! id /\ lastActivity s' !! id = lastActivity s !! id)
  /\ (forall o, o <> owner -> queued o s' = queued o s).
Proof.
  intros Hok Hord Hd. destruct (drainAll_queues _ _ _ _ _ _ _ _ Hok Hord Hd) as [Hq1 Hq2].
  destruct (srv_drainAll_spec _ _ _ _ _ _ _ _ Hok Hord Hd) as (parts & d & -> & -> & -> & H & Hin & _).
  cbn in H. assert (Hown : forall p, p ∈ parts -> fst p ∈ txReady s /\ is_Some (sessions s !! fst p)
      /\ default zero_id (sessionOwners s !! fst p) = owner).
  { intros p Hp. apply (srv_valid_order_in _ _ _ _ Hord), Hin, Hp. }
  split; [|split; [|split; [|split]]].
  - intros f Hf. rewrite (sd_out _ _ _ _ _ _ _ H) in Hf. apply elem_of_app in Hf as [Hf|Hf]; [by left|].
    right. apply elem_of_concat in Hf as (fs & Hf & (p & -> & Hp)%list_elem_of_fmap).
    pose proof (sd_shares _ _ _ _ _ _ _ H) as Hsh. rewrite Forall_forall in Hsh.
    destruct (Hsh p Hp) as (x & x' & cap & H0 & _ & _ & Hdr & _). destruct (Hok _ _ H0) as [Hox Hidx].
    destruct (drain_ok _ _ _ _ _ _ Hox Hdr) as (_ & _ & _ & Hid & _).
    rewrite (Hid f Hf), Hidx. by destruct (Hown p Hp) as (? & _ & ?).
  - done.
  - by destruct (sd_rest _ _ _ _ _ _ _ H) as (-> & _).
  - intros id Hid. assert (Hn : id ∉ map fst parts).
    { intros (p & -> & Hp)%list_elem_of_fmap. by destruct (Hown p Hp) as (_ & _ & ?). }
    rewrite (sd_others _ _ _ _ _ _ _ H id Hn), (sd_active _ _ _ _ _ _ _ H id), decide_False by done. done.
  - done.
Qed.

(** C27: the size of what one call of [drainAll] returns.  Besides the queued
    control frames it holds at most the batch cap of frames, at most 8 of at most
    256 KiB of a session; and its payload stays below the byte budget of the call
    plus one session's share, which is the overshoot the code allows (the last
    session drained may pass the budget by almost 8 x 256 KiB, and not by a single
    frame).  An answer is more: while the handler coalesces it appends the frames of
    further calls, each with the cap of its own and the rest of the byte budget
    ([TunnelProps.answer_passes_cap]). *)
Theorem drainAll_bounds now order owner budget s s' out urgent :
  table_ok s -> valid_order owner s order -> 0 <= budget ->
  drainAll now order owner budget s = (s', out, urgent) ->
  exists parts, out = queued owner s ++ part_frames parts
    /\ NoDup (map fst parts)
    /\ len (part_frames parts) <= batch_cap s
    /\ payload_bytes (part_frames parts) < budget + maxDrainFramesPerSession * MaxFramePayload
    /\ (forall p, p ∈ parts -> snd p <> [] /\ len (snd p) <= maxDrainFramesPerSession
          /\ forall f, f ∈ snd p -> SessionID f = fst p /\ len (Payload f) <= MaxFramePayload).
Proof.
  intros Hok Hord Hb Hd.
  destruct (srv_drainAll_spec _ _ _ _ _ _ _ _ Hok Hord Hd) as (parts & d & -> & -> & -> & H & Hin & _).
  cbn in H. exists parts. split; [apply (sd_out _ _ _ _ _ _ _ H)|]. split; [apply (sd_nodup _ _ _ _ _ _ _ H)|].
  split; [|split].
  - pose proof (sd_rem _ _ _ _ _ _ _ H) as [Hr Hge].
    change (batch_cap (prune _)) with (batch_cap s) in Hr. lia.
  - pose proof (sd_bytes _ _ _ _ _ _ _ H) as [Hr [->|Hge]]; [|lia].
    change (payload_bytes (part_frames [])) with 0. unfold maxDrainFramesPerSession, MaxFramePayload. lia.
  - intros p Hp. pose proof (sd_shares _ _ _ _ _ _ _ H) as Hsh. rewrite Forall_forall in Hsh.
    destruct (Hsh p Hp) as (x & x' & cap & H0 & _ & Hcap & Hdr & Hne). destruct (Hok _ _ H0) as [Hox Hidx].
    destruct (drain_ok _ _ _ _ _ _ Hox Hdr) as (_ & _ & _ & Hid & Hlen & Hsz & _).
    split; [done|]. pose proof (Hlen ltac:(lia)). split; [lia|].
    intros f Hf. rewrite (Hid f Hf). split; [done|]. apply Hsz; [done|done].
Qed.

(** A ready session with something to send is served, or the batch is full. *)
Lemma drainAll_serves_owner now order owner budget s s' out urgent id x :
  table_ok s -> valid_order owner s order ->
  drainAll now order owner budget s = (s', out, urgent) ->
  id ∈ txReady s -> sessions s !! id = Some x -> api_pending x = true ->
  default zero_id (sessionOwners s !! id) = owner ->
  (exists f, f ∈ out /\ SessionID f = id)
  \/ len out - len (queued owner s) = batch_cap s
  \/ budget <= payload_bytes out - payload_bytes (queued owner s).
Proof.
  intros Hok Hord Hd Hr Hx Hp Ho.
  destruct (srv_drainAll_spec _ _ _ _ _ _ _ _ Hok Hord Hd) as (parts & d & -> & -> & -> & H & Hin & Hall).
  cbn in H. rewrite (sd_out _ _ _ _ _ _ _ H), len_app, payload_bytes_app.
  destruct (Hall id x) as [Hi|[Hrem|Hby]]; [..|done|done| | |].
  - apply (srv_valid_order_in _ _ _ _ Hord). eauto.
  - left. apply list_elem_of_fmap in Hi as (p & -> & Hpp).
    pose proof (sd_shares _ _ _ _ _ _ _ H) as Hsh. rewrite Forall_forall in Hsh.
    destruct (Hsh p Hpp) as (y & y' & cap & H0 & _ & _ & Hdr & Hne). destruct (Hok _ _ H0) as [Hoy Hidy].
    destruct (drain_ok _ _ _ _ _ _ Hoy Hdr) as (_ & _ & _ & Hid & _).
    destruct (snd p) as [|f fs] eqn:Hfs; [done|]. exists f. split; [|rewrite Hid, Hidy; [done|left]].
    apply elem_of_app. right. apply elem_of_concat. exists (snd p). rewrite Hfs. split; [left|].
    rewrite <- Hfs. by apply list_elem_of_fmap_2.
  - right. left. pose proof (sd_rem _ _ _ _ _ _ _ H) as [Hr' Hge].
    change (batch_cap (prune _)) with (batch_cap s) in Hr'. lia.
  - right. right. pose proof (sd_bytes _ _ _ _ _ _ _ H) as [Hr' _]. lia.
Qed.

(** Nothing pending leaves the ready set. *)
Lemma drainAll_keeps now order owner budget s s' out urgent id x :
  table_ok s -> valid_order owner s order ->
  drainAll now order owner budget s = (s', out, urgent) ->
  id ∈ txReady s -> sessions s' !! id = Some x -> api_pending x = true -> id ∈ txReady s'.
Proof.
  intros Hok Hord Hd Hr Hx Hp.
  destruct (srv_drainAll_spec _ _ _ _ _ _ _ _ Hok Hord Hd) as (parts & d & -> & -> & -> & H & Hin & Hall).
  cbn in H. apply (sd_kept _ _ _ _ _ _ _ H id x); [|done|done].
  unfold prune. cbn. apply elem_of_filter. split; [|done].
  destruct (decide (id ∈ map fst parts)) as [Hi|Hi].
  - apply list_elem_of_fmap in Hi as (p & -> & Hpp).
    by destruct (proj1 (srv_valid_order_in _ _ _ _ Hord) (Hin p Hpp)) as (_ & ? & _).
  - rewrite (sd_others _ _ _ _ _ _ _ H id Hi) in Hx. by exists x.
Qed.

End Drain.
