(* ===== verification/ExitSteps.v ===== *)
(** * The server's critical sections, interleaved

    HTTP handlers, the pump goroutines of the sessions and the two collectors
    of [internal/exit] run concurrently.  [exit_step] lets their critical
    sections happen in any order: [routeIncoming] is taken apart into its look-up
    (which leaves no trace: every later step may act on an outdated one), the
    dial and its bookkeeping, the registration, [ProcessRx] and the renewal of
    the activity time; a write to a session and the [OnTx] callback it triggers
    are separate steps too.  [route_steps] puts the parts of [routeIncoming]
    together again.  The first part describes what the collectors remove. *)

From S2P Require Import Prelude GoStd Frame Session SessionApi Endpoints Dns Exit ExitDrain.

Section Gc.
Context {S : Type} {A : SessionApi S} {AO : SessionApiOk S} {Conn : Type}.
Implicit Types (s : Server S Conn) (id owner : bytes).

(** [s'] is [s] without the sessions of [R]. *)
Record removes (R : gset bytes) s s' : Prop := {
  rm_sessions : forall id, sessions s' !! id = if decide (id ∈ R) then None else sessions s !! id;
  rm_owners : forall id, sessionOwners s' !! id = if decide (id ∈ R) then None else sessionOwners s !! id;
  rm_upstreams : forall id, upstreams s' !! id = if decide (id ∈ R) then None else upstreams s !! id;
  rm_active : forall id, lastActivity s' !! id = if decide (id ∈ R) then None else lastActivity s !! id;
  rm_ready : txReady s' = txReady s ∖ R;
  rm_first : firstReply s' = firstReply s ∖ R;
  rm_rest : pendingRSTs s' = pendingRSTs s /\ pendingCtrl s' = pendingCtrl s
    /\ activity s' = activity s /\ tokens s' = tokens s /\ nextChan s' = nextChan s
    /\ dialFail s' = dialFail s;
}.

Lemma removes_refl s : removes ∅ s s.
Proof. constructor; intros; try rewrite decide_False by set_solver; try done; set_solver. Qed.

Lemma lookup_removed {B} (m m0 : gmap bytes B) (R : gset bytes) id :
  (forall i, m !! i = if decide (i ∈ R) then None else m0 !! i) ->
  forall i, delete id m !! i = if decide (i ∈ {[id]} ∪ R) then None else m0 !! i.
Proof.
  intros Hm i. destruct (decide (i = id)) as [->|Hne].
  - rewrite lookup_delete_eq, decide_True by (clear; set_solver). done.
  - rewrite lookup_delete_ne, Hm by done. apply decide_ext. clear - Hne. set_solver.
Qed.

Lemma removes_one id R s s' st :
  removes R s s' -> removes ({[id]} ∪ R) s (set_sstats st (remove_session id s')).
Proof.
  intros []. constructor; cbn; try done; try by apply lookup_removed.
  - rewrite rm_ready0. clear. set_solver.
  - rewrite rm_first0. clear. set_solver.
Qed.

Lemma removes_idle id R s s' :
  removes R s s' -> removes ({[id]} ∪ R) s (remove_session id s').
Proof. intros H. exact (removes_one id R s s' (sstats s') H). Qed.

Lemma removes_stats st R s s' : removes R s s' -> removes R s (set_sstats st s').
Proof. by intros []; constructor. Qed.

Lemma gc_done_fold now order s :
  exists R, removes R s (foldl (fun s id => gc_done_one now id s) s order)
    /\ forall id, id ∈ R <-> id ∈ order /\ exists x, sessions s !! id = Some x /\ api_done now x = true.
Proof.
  induction order as [|id order IH] using rev_ind.
  { exists ∅. split; [apply removes_refl|]. intros id. rewrite elem_of_empty, elem_of_nil. tauto. }
  destruct IH as (R & H & HR). rewrite foldl_app. cbn. unfold gc_done_one at 1.
  rewrite (rm_sessions _ _ _ H). destruct (decide (id ∈ R)) as [Hin|Hnin].
  { exists R. split; [done|]. intros i. rewrite HR, elem_of_app, list_elem_of_singleton.
    split; [tauto|]. intros [[?| ->] ?]; [tauto|]. by apply HR in Hin. }
  destruct (sessions s !! id) as [x|] eqn:Hx; [destruct (api_done now x) eqn:Hdone|].
  - exists ({[id]} ∪ R). split; [by apply removes_one|].
    intros i. rewrite elem_of_union, elem_of_singleton, HR, elem_of_app, list_elem_of_singleton.
    split; [intros [->|[? ?]]; eauto|]. intros [[?| ->] ?]; auto.
  - exists R. split; [done|]. intros i. rewrite HR, elem_of_app, list_elem_of_singleton.
    split; [tauto|]. intros [[?| ->] (y & Hy & Hd)]; [eauto|congruence].
  - exists R. split; [done|]. intros i. rewrite HR, elem_of_app, list_elem_of_singleton.
    split; [tauto|]. intros [[?| ->] (y & Hy & Hd)]; [eauto|congruence].
Qed.

(** The sessions [gcIdleSessions] gives up. *)
Definition expired (now : Z) s id : Prop :=
  exists last, lastActivity s !! id = Some last /\ last <= now - idleSessionTimeout.

Lemma gc_idle_fold now order s :
  (forall id, is_Some (lastActivity s !! id) -> is_Some (sessions s !! id)) ->
  exists R s' victims, foldl (fun p id => gc_idle_one now id p) (s, []) order = (s', victims)
    /\ removes R s s'
    /\ (forall id, id ∈ R <-> id ∈ order /\ expired now s id)
    /\ (forall x up, (x, up) ∈ victims <-> exists id, id ∈ R /\ sessions s !! id = Some x /\ upstreams s !! id = up).
Proof.
  intros Hdom. induction order as [|id order IH] using rev_ind.
  { exists ∅, s, []. split; [done|]. split; [apply removes_refl|].
    split; [intros id; rewrite elem_of_empty, elem_of_nil; tauto|].
    intros x up. rewrite elem_of_nil. split; [done|]. intros (id & Hid & _). by apply elem_of_empty in Hid. }
  destruct IH as (R & s' & vs & He & H & HR & Hvs). rewrite foldl_app, He. cbn.
  rewrite (rm_active _ _ _ H), (rm_sessions _ _ _ H), (rm_upstreams _ _ _ H).
  assert (Hsame : (id ∈ order \/ ~ expired now s id) -> forall i,
    i ∈ R <-> i ∈ order ++ [id] /\ expired now s i).
  { intros Hid i. rewrite HR, elem_of_app, list_elem_of_singleton. split; [tauto|].
    intros [[?| ->] ?]; tauto. }
  destruct (decide (id ∈ R)) as [Hin|Hnin].
  { exists R, s', vs. apply HR in Hin as Ho. tauto. }
  destruct (lastActivity s !! id) as [last|] eqn:Hl.
  2: { exists R, s', vs. split; [done|]. split; [done|]. split; [|done]. apply Hsame.
       right. intros (l & Hl' & _). congruence. }
  unfold After. destruct (Z.ltb_spec (now - idleSessionTimeout) last) as [Hlt|Hge].
  { exists R, s', vs. split; [done|]. split; [done|]. split; [|done]. apply Hsame.
    right. intros (l & Hl' & ?). assert (l = last) as -> by congruence. lia. }
  destruct (Hdom id) as [x Hx]; [by exists last|]. rewrite Hx.
  exists ({[id]} ∪ R), (remove_session id s'), (vs ++ [(x, upstreams s !! id)]).
  split; [done|]. split; [by apply removes_idle|]. split.
  - intros i. rewrite elem_of_union, elem_of_singleton, HR, elem_of_app, list_elem_of_singleton.
    assert (expired now s id) by (exists last; done).
    split; [intros [->|[? ?]]; auto|]. intros [[?| ->] ?]; auto.
  - intros y up. rewrite elem_of_app, Hvs, list_elem_of_singleton.
    setoid_rewrite elem_of_union. setoid_rewrite elem_of_singleton. split.
    + intros [(i & Hi & Hy & Hu)|[= -> ->]]; eauto.
    + intros (i & [->|Hi] & Hy & Hu); [right; congruence|left; eauto].
Qed.

Lemma close_victims_spec vs s s' ups ss :
  close_victims vs s = Ok (s', ups, ss) ->
  (exists st, s' = set_sstats st s)
  /\ ups = omap snd vs
  /\ Forall2 (fun v y => exists x, api_close_rx (fst v) = Ok x /\ y = api_stop x) vs ss.
Proof.
  revert s s' ups ss. induction vs as [|[x up] vs IH]; intros s s' ups ss; cbn.
  - intros [= <- <- <-]. split; [exists (sstats s); by destruct s|]. split; [done|constructor].
  - destruct (api_close_rx x) as [x'| |] eqn:Hx; cbn; [|done..].
    destruct (close_victims vs _) as [[[s1 ups1] ss1]| |] eqn:Hv; cbn; [|done..].
    intros [= <- <- <-]. destruct (IH _ _ _ _ Hv) as ([st ->] & -> & Hf).
    split; [by exists st|]. split; [by destruct up|]. constructor; [|done]. by exists x'.
Qed.

End Gc.

Section Steps.
Context {S : Type} {A : SessionApi S} {AO : SessionApiOk S} {Conn : Type}.

(** The server and the [OnTx] callbacks still to run, each with the client it
    was made for. *)
Record World := mkWorld {
  ws : Server S Conn;
  wcalls : list (bytes * bytes);
}.

Definition put (id : bytes) (x : S) (s : Server S Conn) : Server S Conn :=
  set_sess (<[id := x]> (sessions s)) (sessionOwners s) (txReady s) (firstReply s)
    (upstreams s) (lastActivity s) s.

(** The last critical section of [routeIncoming]. *)
Definition touch (now : Z) (id : bytes) (s : Server S Conn) : Server S Conn :=
  match sessions s !! id with
  | None => s
  | Some _ => set_sess (sessions s) (sessionOwners s) (txReady s) (firstReply s) (upstreams s)
                (<[id := now]> (lastActivity s)) s
  end.

Inductive exit_step : World -> World -> Prop :=
| e_rst w owner id :
    exit_step w (mkWorld (queueRST owner id (ws w)) (wcalls w))
| e_version w info owner id :
    exit_step w (mkWorld (queueVersionResponse info owner id (ws w)) (wcalls w))
| e_suppressed w now target :
    exit_step w (mkWorld (fst (isDialSuppressed now target (ws w))) (wcalls w))
| e_dial w d now target :
    exit_step w (mkWorld (fst (run_dial d now target (ws w))) (wcalls w))
| e_register w now id target owner conn :
    exit_step w (mkWorld (register now id target owner conn (ws w)) (wcalls w))
| e_failure w now target e :
    exit_step w (mkWorld (recordDialFailure now target e (ws w)) (wcalls w))
| e_success w target :
    exit_step w (mkWorld (clearDialFailure target (ws w)) (wcalls w))
| e_count w st :
    exit_step w (mkWorld (set_sstats st (ws w)) (wcalls w))
| e_process w timeout f x :
    sessions (ws w) !! SessionID f = Some x ->
    exit_step w (mkWorld (put (SessionID f) (api_process timeout f x) (ws w)) (wcalls w))
| e_touch w now id :
    exit_step w (mkWorld (touch now id (ws w)) (wcalls w))
| e_write w now id data x x' kick owner :
    sessions (ws w) !! id = Some x -> api_enqueue now data x = Some (x', kick) ->
    exit_step w (mkWorld (put id x' (ws w)) (if kick : bool then (id, owner) :: wcalls w else wcalls w))
| e_close w now id x owner :
    sessions (ws w) !! id = Some x ->
    exit_step w (mkWorld (put id (api_request_close now x) (ws w)) ((id, owner) :: wcalls w))
| e_stop w id x :
    sessions (ws w) !! id = Some x ->
    exit_step w (mkWorld (put id (api_stop x) (ws w)) (wcalls w))
| e_ontx w l1 id owner l2 :
    wcalls w = l1 ++ (id, owner) :: l2 ->
    exit_step w (mkWorld (OnTx id owner (ws w)) (l1 ++ l2))
| e_listen w owner :
    exit_step w (mkWorld (fst (activityFor owner (ws w))) (wcalls w))
| e_receive w ch :
    ch ∈ tokens (ws w) ->
    exit_step w (mkWorld (set_activity (activity (ws w)) (tokens (ws w) ∖ {[ch]}) (nextChan (ws w)) (ws w))
                         (wcalls w))
| e_drain w now order owner budget s' out urgent :
    valid_order owner (ws w) order -> drainAll now order owner budget (ws w) = (s', out, urgent) ->
    exit_step w (mkWorld s' (wcalls w))
| e_gc_done w now order :
    exit_step w (mkWorld (gcDoneSessions now order (ws w)) (wcalls w))
| e_gc_idle w now order s' ups ss :
    gcIdleSessions now order (ws w) = Ok (s', ups, ss) ->
    exit_step w (mkWorld s' (wcalls w)).

Definition exit_steps : relation World := rtc exit_step.
Definition world_init : World := mkWorld init_server [].

(** The six tables describe the same sessions. *)
Record tables_agree (s : Server S Conn) : Prop := {
  ta_ok : table_ok s;
  ta_owner : forall id, is_Some (sessionOwners s !! id) <-> is_Some (sessions s !! id);
  ta_upstream : forall id, is_Some (upstreams s !! id) <-> is_Some (sessions s !! id);
  ta_active : forall id, is_Some (lastActivity s !! id) <-> is_Some (sessions s !! id);
  ta_first : forall id, id ∈ firstReply s -> is_Some (sessions s !! id);
}.

(** Every pending session is marked or will be. *)
Definition all_marked (s : Server S Conn) (calls : list (bytes * bytes)) : Prop :=
  forall id x, sessions s !! id = Some x -> api_pending x = true ->
    id ∈ txReady s \/ exists owner, (id, owner) ∈ calls.

Definition world_inv (w : World) : Prop := tables_agree (ws w) /\ all_marked (ws w) (wcalls w).

(** Two servers with the same session tables. *)
Definition same_sessions (s s' : Server S Conn) : Prop :=
  sessions s' = sessions s /\ sessionOwners s' = sessionOwners s /\ upstreams s' = upstreams s
  /\ lastActivity s' = lastActivity s /\ firstReply s' = firstReply s /\ txReady s ⊆ txReady s'.

Lemma same_sessions_inv s s' calls : same_sessions s s' ->
  tables_agree s /\ all_marked s calls -> tables_agree s' /\ all_marked s' calls.
Proof.
  intros (E1 & E2 & E3 & E4 & E5 & E6) [[] Hm]. split.
  - constructor; unfold table_ok; rewrite ?E1, ?E2, ?E3, ?E4, ?E5; done.
  - intros id x. rewrite E1. intros Hx Hp. destruct (Hm id x Hx Hp); [left; set_solver|auto].
Qed.

Lemma same_kick owner s : same_sessions s (kick owner s).
Proof. unfold kick, activityFor. by destruct (activity s !! owner). Qed.

Lemma same_reject owner id s : same_sessions s (reject owner id s).
Proof. exact (same_kick owner _). Qed.

Lemma same_run_dial (d : dialler Conn) now target s : same_sessions s (fst (run_dial d now target s)).
Proof. destruct d; cbn; [done|]. by destruct (dialWithDNSCache _ _ _ _ _ _). Qed.

Lemma register_inv now id target owner conn (s : Server S Conn) calls :
  tables_agree s /\ all_marked s calls ->
  tables_agree (register now id target owner conn s) /\ all_marked (register now id target owner conn s) calls.
Proof.
  intros [[] Hm]. destruct (new_ok now id target false) as (Hok & Hid & Hp & _). split.
  - constructor; unfold table_ok; cbn.
    + intros i x [[<- <-]|[_ Hx]]%lookup_insert_Some; [done|by apply ta_ok0].
    + intros i. rewrite !lookup_insert_is_Some, ta_owner0. done.
    + intros i. rewrite !lookup_insert_is_Some, ta_upstream0. done.
    + intros i. rewrite !lookup_insert_is_Some, ta_active0. done.
    + intros i. rewrite lookup_insert_is_Some. intros [->%elem_of_singleton|Hi]%elem_of_union; [by left|].
      destruct (decide (id = i)); [by left|right]. auto.
  - intros i x. cbn. intros [[<- <-]|[_ Hx]]%lookup_insert_Some Hpx; [congruence|by apply (Hm i x)].
Qed.

Lemma put_inv id x x' s calls calls' :
  tables_agree s /\ all_marked s calls -> sessions s !! id = Some x ->
  api_ok x' /\ api_id x' = id ->
  (api_pending x' = true -> api_pending x = true \/ exists owner, (id, owner) ∈ calls') ->
  (forall c, c ∈ calls -> c ∈ calls') ->
  tables_agree (put id x' s) /\ all_marked (put id x' s) calls'.
Proof.
  intros [[] Hm] Hx Hok Hp Hc.
  assert (Hdom : forall i, is_Some (<[id := x']> (sessions s) !! i) <-> is_Some (sessions s !! i)).
  { intros i. rewrite lookup_insert_is_Some. split; [|destruct (decide (id = i)); tauto].
    intros [<-|[_ ?]]; [by exists x|done]. }
  split.
  - constructor; unfold table_ok; cbn; try (intros i; rewrite Hdom; auto).
    intros i y [[<- <-]|[_ Hy]]%lookup_insert_Some; [done|by apply ta_ok0].
  - intros i y. cbn. intros [[<- <-]|[_ Hy]]%lookup_insert_Some Hpy.
    + destruct (Hp Hpy) as [Hpx|]; [|auto]. destruct (Hm id x Hx Hpx) as [|[o Ho]]; eauto.
    + destruct (Hm i y Hy Hpy) as [|[o Ho]]; eauto.
Qed.

Lemma touch_inv id now s calls :
  tables_agree s /\ all_marked s calls ->
  tables_agree (touch now id s) /\ all_marked (touch now id s) calls.
Proof.
  unfold touch. destruct (sessions s !! id) as [x|] eqn:Hid; [|done].
  intros [[] Hm]. split; [|done]. constructor; cbn; try done.
  intros i. rewrite lookup_insert_is_Some, ta_active0. split; [intros [<-|[_ ?]]; [by exists x|done]|].
  destruct (decide (id = i)); tauto.
Qed.

(** [deliver] is [ProcessRx] and the renewal. *)
Lemma deliver_split now timeout f s :
  deliver now timeout f s
  = match sessions s !! SessionID f with
    | None => s
    | Some x => touch now (SessionID f) (put (SessionID f) (api_process timeout f x) s)
    end.
Proof.
  unfold deliver, touch. destruct (sessions s !! SessionID f) as [x|]; [|done]. cbn. by rewrite lookup_insert_eq.
Qed.

Lemma process_inv timeout f x s calls :
  tables_agree s /\ all_marked s calls -> sessions s !! SessionID f = Some x ->
  tables_agree (put (SessionID f) (api_process timeout f x) s)
  /\ all_marked (put (SessionID f) (api_process timeout f x) s) calls.
Proof.
  intros H Hx. destruct (ta_ok s (proj1 H) _ _ Hx) as [Hok Hid].
  destruct (process_ok timeout f x Hok) as (Hok' & Hid' & Hp').
  eapply put_inv; try done; [by rewrite Hid'|]. rewrite Hp'. by left.
Qed.

Lemma deliver_inv now timeout f s calls :
  tables_agree s /\ all_marked s calls ->
  tables_agree (deliver now timeout f s) /\ all_marked (deliver now timeout f s) calls.
Proof.
  intros H. rewrite deliver_split. destruct (sessions s !! SessionID f) as [x|] eqn:Hx; [|done].
  by apply touch_inv, process_inv.
Qed.

Lemma same_trans s1 s2 s3 : same_sessions s1 s2 -> same_sessions s2 s3 -> same_sessions s1 s3.
Proof.
  intros (A1&A2&A3&A4&A5&A6) (B1&B2&B3&B4&B5&B6). unfold same_sessions.
  repeat (split; [congruence|]). by etrans.
Qed.

Lemma same_suppressed now target s : same_sessions s (fst (isDialSuppressed now target s)).
Proof. unfold isDialSuppressed. destruct (dialFail s !! target); [case_bool|]; done. Qed.

Lemma same_failure_only now target e s : same_sessions s (recordDialFailure now target e s).
Proof. unfold recordDialFailure. by case_bool. Qed.

Lemma same_failure now target e s :
  same_sessions s (set_sstats (st_dial_fail (sstats (recordDialFailure now target e s)))
                     (recordDialFailure now target e s)).
Proof. unfold recordDialFailure. case_bool; done. Qed.

Lemma route_after_inv d info now timeout f owner ex known s calls :
  tables_agree s /\ all_marked s calls ->
  let s' := route_after d info now timeout f owner ex known s in
  tables_agree s' /\ all_marked s' calls.
Proof.
  intros H. unfold route_after. cbv zeta.
  case_bool; [eapply same_sessions_inv; [apply same_reject|done]|].
  case_bool; [|by apply deliver_inv].
  case_bool.
  { case_bool; (eapply same_sessions_inv; [|done]); [exact (same_kick owner _)|apply same_reject]. }
  pose proof (same_suppressed now (Target f) s) as Hs.
  destruct (isDialSuppressed now (Target f) s) as [s1 []]; cbn in Hs.
  { eapply same_sessions_inv; [|done]. eapply same_trans; [done|apply same_reject]. }
  unfold openSession. pose proof (same_run_dial d now (Target f) s1) as Hd.
  destruct (run_dial d now (Target f) s1) as [s2 [e|conn]]; cbn in Hd.
  - eapply same_sessions_inv; [|done]. do 2 (eapply same_trans; [done|]). apply same_failure.
  - apply deliver_inv. apply (same_sessions_inv (register now (SessionID f) (Target f) owner conn s2)); [done|].
    apply register_inv. eapply same_sessions_inv; [|done]. by eapply same_trans.
Qed.

Lemma drain_inv now order owner budget s s' out urgent calls :
  tables_agree s /\ all_marked s calls -> valid_order owner s order ->
  drainAll now order owner budget s = (s', out, urgent) ->
  tables_agree s' /\ all_marked s' calls.
Proof.
  intros [[] Hm] Hord Hd.
  destruct (srv_drainAll_spec _ _ _ _ _ _ _ _ ta_ok0 Hord Hd) as (parts & d & Hs' & -> & -> & H & Hin & _).
  cbn in H. destruct (sd_rest _ _ _ _ _ _ _ H) as (Eo & Eu & _). rewrite <- Hs' in *.
  assert (Hdom : forall id, is_Some (sessions s' !! id) <-> is_Some (sessions s !! id)).
  { intros id. destruct (decide (id ∈ map fst parts)) as [Hi|Hi].
    - apply list_elem_of_fmap in Hi as (p & -> & Hp).
      pose proof (sd_shares _ _ _ _ _ _ _ H) as Hsh. rewrite Forall_forall in Hsh.
      destruct (Hsh p Hp) as (x & x' & cap & H0 & H1 & _). rewrite <- Hs' in H1. rewrite H1. cbn in H0. rewrite H0.
      split; by eexists.
    - rewrite Hs', (sd_others _ _ _ _ _ _ _ H id Hi). done. }
  split; [constructor|].
  - intros id x' Hx'. destruct (decide (id ∈ map fst parts)) as [Hi|Hi].
    + apply list_elem_of_fmap in Hi as (p & -> & Hp).
      pose proof (sd_shares _ _ _ _ _ _ _ H) as Hsh. rewrite Forall_forall in Hsh.
      destruct (Hsh p Hp) as (x & y & cap & H0 & H1 & _ & Hdr & _). rewrite <- Hs' in H1.
      assert (x' = y) as -> by congruence. destruct (ta_ok0 _ _ H0) as [Hox Hid].
      destruct (drain_ok _ _ _ _ _ _ Hox Hdr) as (? & -> & _). done.
    + rewrite Hs', (sd_others _ _ _ _ _ _ _ H id Hi) in Hx'. by apply ta_ok0.
  - intros id. by rewrite Eo, Hdom.
  - intros id. by rewrite Eu, Hdom.
  - intros id. rewrite Hdom. pose proof (sd_active _ _ _ _ _ _ _ H id) as Ha. rewrite <- Hs' in Ha.
    rewrite Ha. destruct (decide (id ∈ map fst parts)) as [Hi|Hi]; [|apply ta_active0].
    split; [|by eexists]. intros _. apply list_elem_of_fmap in Hi as (p & -> & Hp).
    by apply (srv_valid_order_in _ _ _ _ Hord), Hin.
  - intros id. rewrite Hdom. destruct (sd_first _ _ _ _ _ _ _ H) as [Hf _]. rewrite <- Hs' in Hf.
    rewrite Hf. intros [Hi _]%elem_of_difference. by apply ta_first0.
  - intros id x Hx Hp. assert (exists x0, sessions s !! id = Some x0 /\ api_pending x0 = true) as (x0 & Hx0 & Hp0).
    { destruct (decide (id ∈ map fst parts)) as [Hi|Hi].
      - apply list_elem_of_fmap in Hi as (p & -> & Hpp).
        pose proof (sd_shares _ _ _ _ _ _ _ H) as Hsh. rewrite Forall_forall in Hsh.
        destruct (Hsh p Hpp) as (y & y' & cap & H0 & _ & _ & Hdr & Hne). exists y. split; [done|].
        destruct (ta_ok0 _ _ H0) as [Hoy _]. destruct (drain_ok _ _ _ _ _ _ Hoy Hdr) as (_ & _ & Hpe & _).
        by apply Hpe.
      - rewrite Hs', (sd_others _ _ _ _ _ _ _ H id Hi) in Hx. by exists x. }
    destruct (Hm id x0 Hx0 Hp0) as [Hr|]; [left|by right].
    by eapply drainAll_keeps.
Qed.

Lemma removes_tables R s s' : removes R s s' -> tables_agree s -> tables_agree s'.
Proof.
  intros [] []. constructor.
  - intros id x. rewrite rm_sessions0. case_decide; [done|]. apply ta_ok0.
  - intros id. rewrite rm_sessions0, rm_owners0. case_decide; [by rewrite !is_Some_alt|apply ta_owner0].
  - intros id. rewrite rm_sessions0, rm_upstreams0. case_decide; [by rewrite !is_Some_alt|apply ta_upstream0].
  - intros id. rewrite rm_sessions0, rm_active0. case_decide; [by rewrite !is_Some_alt|apply ta_active0].
  - intros id. rewrite rm_first0, rm_sessions0. intros [Hi Hn]%elem_of_difference.
    rewrite decide_False by done. by apply ta_first0.
Qed.

Lemma removes_inv R s s' calls :
  removes R s s' -> tables_agree s /\ all_marked s calls -> tables_agree s' /\ all_marked s' calls.
Proof.
  intros Hr [Hta Hm]. split; [by eapply removes_tables|]. destruct Hr.
  intros id x. rewrite rm_sessions0. case_decide; [done|]. intros Hx Hp.
  destruct (Hm id x Hx Hp); [left; rewrite rm_ready0; set_solver|auto].
Qed.

Lemma gc_activity_same s : same_sessions s (gc_activity s).
Proof. done. Qed.

Lemma exit_world_step_inv w w' : world_inv w -> exit_step w w' -> world_inv w'.
Proof.
  unfold world_inv. intros H Hst.
  destruct Hst as [w owner id|w info owner id|w now target|w d now target|w now id target owner conn
    |w now target e|w target|w st|w timeout f x Hx|w now id|w now id data x x' kick owner Hx He
    |w now id x owner Hx|w id x Hx|w l1 id owner l2 Hc|w owner|w ch Hch
    |w now order owner budget s' out urgent Hord Hd|w now order|w now order s' ups ss Hd]; cbn.
  - eapply same_sessions_inv; [|done]. exact (same_kick owner _).
  - eapply same_sessions_inv; [|done]. exact (same_kick owner _).
  - eapply same_sessions_inv; [|done]. apply same_suppressed.
  - eapply same_sessions_inv; [|done]. apply same_run_dial.
  - by apply register_inv.
  - eapply same_sessions_inv; [|done]. apply same_failure_only.
  - by eapply same_sessions_inv; [|done].
  - by eapply same_sessions_inv; [|done].
  - by apply process_inv.
  - by apply touch_inv.
  - destruct (ta_ok _ (proj1 H) _ _ Hx) as [Hok Hid].
    destruct (enqueue_ok now data x x' kick Hok He) as (Hok' & Hid' & Hk).
    eapply put_inv; [done..|by rewrite Hid'| |].
    + destruct kick; [right; exists owner; left|]. rewrite Hk by done. by left.
    + intros c Hc. destruct kick; [by right|done].
  - destruct (ta_ok _ (proj1 H) _ _ Hx) as [Hok Hid]. destruct (close_ok now x Hok) as [Hok' Hid'].
    eapply put_inv; [done..|by rewrite Hid'| |].
    + right. exists owner. left.
    + intros c Hc. by right.
  - destruct (ta_ok _ (proj1 H) _ _ Hx) as [Hok Hid]. destruct (stop_ok x Hok) as (Hok' & Hid' & Hp').
    eapply put_inv; [done..|by rewrite Hid'| |done]. rewrite Hp'. by left.
  - unfold OnTx. eapply same_sessions_inv; [apply same_kick|]. destruct H as [[] Hm].
    split; [by constructor|]. intros i x Hx Hp. cbn in *.
    destruct (Hm i x Hx Hp) as [|[o Ho]]; [left; set_solver|].
    rewrite Hc, elem_of_app, elem_of_cons in Ho. setoid_rewrite elem_of_app.
    destruct Ho as [|[[= -> ->]|]]; [eauto|left; set_solver|eauto].
  - eapply same_sessions_inv; [|done]. unfold activityFor. by destruct (activity (ws w) !! owner).
  - by eapply same_sessions_inv; [|done].
  - by eapply drain_inv.
  - unfold gcDoneSessions. eapply same_sessions_inv; [apply gc_activity_same|].
    destruct (gc_done_fold now order (ws w)) as (R & HR & _). by eapply removes_inv.
  - unfold gcIdleSessions in Hd. destruct (gc_idle_fold now order (ws w)) as (R & s1 & vs & He & HR & _).
    { intros i. by apply (ta_active _ (proj1 H)). }
    rewrite He in Hd. apply close_victims_spec in Hd as ([st ->] & _).
    by eapply removes_inv; [apply removes_stats|].
Qed.

Lemma exit_world_reach_inv w : exit_steps world_init w -> world_inv w.
Proof.
  intros H. remember world_init as w0 eqn:Hw.
  assert (Hi : world_inv w0).
  { subst. split; [|done]. constructor; unfold table_ok; cbn; try done; try set_solver.
    all: intros; rewrite !lookup_empty; done. }
  clear Hw. induction H as [|w0 w1 w Hst _ IH]; [done|]. apply IH. by eapply exit_world_step_inv.
Qed.

(** A call of [routeIncoming] is a run of these steps, whatever its look-up found. *)
Lemma route_steps d info now timeout f owner ex known s calls :
  exit_steps (mkWorld s calls) (mkWorld (route_after d info now timeout f owner ex known s) calls).
Proof.
  assert (Hrej : forall s, exit_steps (mkWorld s calls) (mkWorld (reject owner (SessionID f) s) calls)).
  { intros s1. eapply rtc_l; [apply (e_rst (mkWorld s1 calls) owner (SessionID f))|].
    apply rtc_once, (e_count (mkWorld _ calls)). }
  assert (Hdel : forall s, exit_steps (mkWorld s calls) (mkWorld (deliver now timeout f s) calls)).
  { intros s1. rewrite deliver_split. destruct (sessions s1 !! SessionID f) as [x|] eqn:Hx; [|done].
    eapply rtc_l; [by apply (e_process (mkWorld s1 calls) timeout f x)|].
    apply rtc_once, (e_touch (mkWorld _ calls)). }
  unfold route_after. cbv zeta. case_bool; [apply Hrej|]. case_bool; [|apply Hdel].
  case_bool; [case_bool; [apply rtc_once, (e_version (mkWorld s calls))|apply Hrej]|].
  pose proof (e_suppressed (mkWorld s calls) now (Target f)) as H1. cbn [ws wcalls] in H1.
  destruct (isDialSuppressed now (Target f) s) as [s1 []]; cbn [fst] in H1; (eapply rtc_l; [exact H1|]); [apply Hrej|].
  unfold openSession. pose proof (e_dial (mkWorld s1 calls) d now (Target f)) as H2. cbn [ws wcalls] in H2.
  destruct (run_dial d now (Target f) s1) as [s2 [e|conn]]; cbn [fst] in H2; (eapply rtc_l; [exact H2|]).
  - eapply rtc_l; [apply (e_failure (mkWorld s2 calls) now (Target f) e)|]. apply rtc_once, (e_count (mkWorld _ calls)).
  - eapply rtc_l; [apply (e_register (mkWorld s2 calls) now (SessionID f) (Target f) owner conn)|].
    eapply rtc_l; [apply (e_count (mkWorld _ calls))|].
    eapply rtc_l; [apply (e_success (mkWorld _ calls) (Target f))|]. apply Hdel.
Qed.

(** C13: the server's tables stay consistent under every interleaving, outdated
    look-ups of [routeIncoming] included.  A session is registered exactly if
    it has an owner, an upstream connection and an activity time, is filed
    under its own identifier, and, if it has something to send, is marked ready
    or about to be marked by a callback: no byte read from an upstream is
    stranded in the server. *)
Theorem exit_consistent (w : World) :
  exit_steps world_init w ->
  (forall id, is_Some (sessions (ws w) !! id) <-> is_Some (sessionOwners (ws w) !! id))
  /\ (forall id, is_Some (sessions (ws w) !! id) <-> is_Some (upstreams (ws w) !! id))
  /\ (forall id, is_Some (sessions (ws w) !! id) <-> is_Some (lastActivity (ws w) !! id))
  /\ (forall id, id ∈ firstReply (ws w) -> is_Some (sessions (ws w) !! id))
  /\ (forall id x, sessions (ws w) !! id = Some x -> api_id x = id
        /\ (api_pending x = true -> id ∈ txReady (ws w) \/ exists owner, (id, owner) ∈ wcalls w)).
Proof.
  intros [[] Hm]%exit_world_reach_inv. split; [by intros; rewrite ta_owner0|].
  split; [by intros; rewrite ta_upstream0|]. split; [by intros; rewrite ta_active0|].
  split; [done|]. intros id x Hx. split; [by apply ta_ok0|]. by apply (Hm id x).
Qed.

End Steps.
Arguments World S Conn : clear implicits.

(** ** Concrete inputs *)

Definition demo_owner : bytes := str "client-000000001".
Definition demo_other : bytes := str "client-000000002".
Definition demo_sid : bytes := str "session-00000001".
Definition demo_dial : dialler nat := DialProxy (fun target =>
  if bool_decide (target = str "bad:1") then inl (mkDialError (Some true) None None) else inr 7%nat).
Definition demo_syn : Frame := mkFrame demo_sid 0 FlagSYN (str "good:1") (str "hello").

Definition demo_world : World Session nat :=
  mkWorld (route_after demo_dial None 5 false demo_syn demo_owner false None init_server) [].

Lemma demo_world_reachable : exit_steps world_init demo_world.
Proof. exact (route_steps demo_dial None 5 false demo_syn demo_owner false None init_server []). Qed.

Lemma exit_consistent_witness :
  upstreams (ws demo_world) !! demo_sid = Some 7%nat /\ is_Some (sessionOwners (ws demo_world) !! demo_sid).
Proof.
  split; [vm_compute; reflexivity|].
  apply (proj1 (exit_consistent demo_world demo_world_reachable) demo_sid).
  apply (bool_decide_unpack _). vm_compute. exact I.
Defined.
