(* ===== verification/Oversized.v ===== *)
(** * An answer too large for the client

    [drainAll] tests its byte budget before each session, so the last session may
    pass it by its whole share ([ExitDrain.drainAll_bounds]).  Here that happens:
    with the budget of the handler and data that Zstandard does not shrink, the
    body of the answer is larger than what the client accepts. *)

From S2P Require Import Prelude GoStd Frame Crypto TestLib Session Stream RxLoop SessionTypes SessionApi.
From S2P Require Import Endpoints Carrier Poll Dns Exit ExitDrain ExitSteps.

(** What a session contributes at most to one answer: 2 MiB. *)
Definition share_bytes : Z := maxDrainFramesPerSession * MaxFramePayload.

Section Oversized.
Context (owner : bytes) (data : nat -> bytes).

(** A server with 25 downloads of one client.  Twelve of them have data waiting,
    the oldest first; the others wait for their servers. *)
Definition sid (i : nat) : bytes := be_put 16 (Z.of_nat i + 1).
#[local] Arguments sid : simpl never.

Definition download (i : nat) : Session :=
  mkSession (sid i) (str "files:443") (mkTx (data i) 1 false false false 0 (Z.of_nat i + 1)) New_rx.

Definition quiet (i : nat) : Session :=
  mkSession (sid i) (str "files:443") (mkTx [] 1 false false false 0 0) New_rx.

Definition session_at (i : nat) : Session := if (i <? 12)%nat then download i else quiet i.

Definition downloads : list nat := seq 0 25.
Definition waiting : list nat := seq 0 12.

Definition busy_server : Server Session unit :=
  mkServer (list_to_map (map (fun i => (sid i, session_at i)) downloads))
    (list_to_map (map (fun i => (sid i, owner)) downloads))
    (list_to_set (map sid waiting)) ∅
    (list_to_map (map (fun i => (sid i, tt)) downloads))
    (list_to_map (map (fun i => (sid i, Z.of_nat i + 1)) downloads))
    ∅ ∅ ∅ ∅ ∅ 0 ∅ zero_sstats.

Definition busy_order : list bytes := map sid waiting.

Lemma sids_nodup : NoDup (map sid downloads).
Proof. apply (bool_decide_unpack _). vm_compute. reflexivity. Qed.

Lemma sid_inj i j : (i < 25)%nat -> (j < 25)%nat -> sid i = sid j -> i = j.
Proof.
  intros Hi Hj E. pose proof sids_nodup as Hn.
  apply (NoDup_lookup _ i j (sid i) Hn); change (map ?f ?l) with (f <$> l); rewrite list_lookup_fmap.
  - unfold downloads. by rewrite lookup_seq_lt.
  - unfold downloads. rewrite lookup_seq_lt by done. change (Some (sid j) = Some (sid i)). by rewrite E.
Qed.

Lemma lookup_downloads {B} (f : nat -> B) i :
  (i < 25)%nat -> (list_to_map (map (fun i => (sid i, f i)) downloads) : gmap bytes B) !! sid i = Some (f i).
Proof.
  intros Hi. apply elem_of_list_to_map.
  - rewrite map_map. exact sids_nodup.
  - change (map ?f ?l) with (f <$> l). apply list_elem_of_fmap. exists i. split; [done|]. apply elem_of_seq. lia.
Qed.

(** ** One session *)

(** A buffer that fits into the frames allowed is drained completely. *)
Lemma drain_chunks_fits fuel id mp mf buf seq frames :
  (length buf <= fuel)%nat -> 0 < mp -> len buf <= (mf - len frames) * mp -> len frames <= mf ->
  fst (fst (drain_chunks fuel id mp mf buf seq frames)) = [].
Proof.
  revert buf seq frames. induction fuel as [|fuel IH]; intros buf seq frames Hf Hmp Hl Hm; cbn [drain_chunks].
  { cbn. destruct buf; [done|cbn in Hf; lia]. }
  destruct (Z.ltb_spec 0 (len buf)) as [Hb|Hb]; cbn [andb].
  2:{ cbn. apply len_zero. pose proof (len_nonneg buf). lia. }
  destruct (canAppend mf frames) eqn:Hc.
  2:{ apply canAppend_false in Hc as [_ Hc]. assert (mf - len frames = 0) as E by lia. rewrite E in Hl. lia. }
  assert (Hlt : len frames < mf).
  { assert (len frames <> mf) by (intros E; rewrite E, Z.sub_diag in Hl; lia). lia. }
  destruct (chunk_bounds mp buf Hb Hmp) as [Hch Hchm].
  apply IH; [rewrite length_drop; unfold len in *; lia|done| |rewrite len_app, len_cons, len_nil; lia].
  rewrite len_app, len_cons, len_nil. unfold chunk in *. destruct (Z.ltb_spec mp (len buf)); len_tac; nia.
Qed.

Lemma payload_bytes_concat fs : payload_bytes fs = len (concat (map Payload fs)).
Proof. induction fs as [|f fs IH]; [done|]. cbn. fold (payload_bytes fs). rewrite len_app. lia. Qed.

(** What a waiting download contributes. *)
Lemma download_drained (now cap : Z) i x' out :
  0 < len (data i) <= share_bytes -> cap = maxDrainFramesPerSession ->
  api_drain now MaxFramePayload cap (download i) = (x', out) ->
  txBuf (tx x') = [] /\ payload_bytes out = len (data i) /\ 0 < len out <= maxDrainFramesPerSession
  /\ Forall frame_wf out /\ Forall frame_fits out.
Proof.
  intros Hl -> Hd. change (DrainTxLimited now MaxFramePayload 8 (download i) = (x', out)) in Hd.
  unfold DrainTxLimited in Hd.
  assert (Hbuf : txBuf (tx x') = []).
  { apply (f_equal (fun p => txBuf (tx (fst p)))) in Hd. cbn [fst] in Hd. rewrite <- Hd.
    unfold drainTx. cbn [download tx synNeeded txBuf closeReq finSent negb andb].
    rewrite (proj2 (Z.eqb_neq _ _)) by lia. cbn [andb]. unfold drain_syn. cbn [download tx synNeeded andb txBuf txSeq].
    unfold eff_payload. rewrite (proj2 (Z.ltb_lt _ _)) by lia.
    change (if MaxFramePayload <=? 0 then len (data i) else MaxFramePayload) with MaxFramePayload.
    change (ID (download i)) with (sid i).
    destruct (drain_chunks _ _ _ _ _ _ _) as [[b sq] fs] eqn:Hc.
    pose proof (drain_chunks_fits (length (data i)) (sid i) MaxFramePayload 8 (data i) 1 []) as Hfit.
    rewrite Hc in Hfit. cbn [fst] in Hfit.
    destruct (drain_fin _ _ _ _ _ _) as [[[? ?] ?] ?]. cbn. apply Hfit; [lia|done| |unfold len; cbn; lia].
    change (len []) with 0. unfold share_bytes, maxDrainFramesPerSession in Hl. lia. }
  destruct (drainTx_spec now MaxFramePayload 8 (download i)) as (s1 & out1 & p0 & ch & fin & Hd1 & H); [done|].
  rewrite Hd in Hd1. injection Hd1 as <- <-.
  assert (Hpay : concat (map Payload out) = data i).
  { pose proof (dr_bytes _ _ _ _ _ _ _ _ _ H) as Hb. rewrite Hbuf, app_nil_r in Hb. cbn in Hb. rewrite <- Hb.
    rewrite (dr_out _ _ _ _ _ _ _ _ _ H), number_payloads. cbn [download tx synNeeded syn_part app].
    rewrite (dr_p0 _ _ _ _ _ _ _ _ _ H eq_refl). unfold data_part. rewrite map_app, map_map, concat_app.
    cbn [snd]. rewrite map_id. destruct fin; cbn; by rewrite app_nil_r. }
  split; [done|]. split; [by rewrite payload_bytes_concat, Hpay|]. split; [split|].
  - destruct out as [|f out]; [cbn in Hpay; rewrite <- Hpay in Hl; unfold len in Hl; cbn in Hl; lia|].
    rewrite len_cons. pose proof (len_nonneg out). lia.
  - by apply (dr_cap _ _ _ _ _ _ _ _ _ H).
  - assert (Hty : session_typed (download i)).
    { constructor; cbn; [done|lia|done|apply New_rx_typed]. }
    destruct (drainTx_typed now MaxFramePayload 8 (download i) x' out) as [_ Hall]; [done|done|done|].
    split; (eapply Forall_impl; [exact Hall|]); intros f (Hw & _ & Hm); [done|].
    destruct (decide (frame_fits f)) as [|Hn]; [done|]. apply Marshal_err in Hn as [er Her]; [|done].
    destruct Hm as [b Hb]; [cbn; vm_compute; discriminate|congruence].
Qed.

(** ** The drain *)

Definition sum (l : list Z) : Z := foldr Z.add 0 l.

Lemma drain_one_download now i (d : DrainSt Session unit) :
  sessions (dsv d) !! sid i = Some (download i) -> 0 < len (data i) <= share_bytes ->
  0 < dbytes d -> maxDrainFramesPerSession <= dremaining d ->
  let d' := drain_one now (sid i) d in
  exists x' out, dout d' = dout d ++ out /\ sessions (dsv d') = <[sid i := x']> (sessions (dsv d))
    /\ dbytes d' = dbytes d - len (data i) /\ dremaining d' = dremaining d - len out
    /\ txBuf (tx x') = [] /\ payload_bytes out = len (data i) /\ 0 < len out <= maxDrainFramesPerSession
    /\ Forall frame_wf out /\ Forall frame_fits out.
Proof.
  intros Hs Hl Hb Hr d'. unfold maxDrainFramesPerSession in Hr. subst d'. unfold drain_one.
  rewrite (proj2 (Z.leb_gt (dremaining d) 0)) by lia. rewrite (proj2 (Z.leb_gt (dbytes d) 0)) by lia.
  cbn [orb]. rewrite Hs.
  assert (Hc : (if dremaining d <? maxDrainFramesPerSession then dremaining d else maxDrainFramesPerSession)
    = maxDrainFramesPerSession) by (unfold maxDrainFramesPerSession; case_bool; [b2p; lia|done]).
  rewrite Hc. destruct (api_drain now MaxFramePayload maxDrainFramesPerSession (download i)) as [x' out] eqn:Hd.
  destruct (download_drained now _ i x' out Hl eq_refl Hd) as (H1 & H2 & H3 & H4 & H5).
  exists x', out. cbn. rewrite H2. done.
Qed.

(** All but the last of the downloads fit into the budget. *)
Lemma drain_downloads now is_ (d : DrainSt Session unit) :
  NoDup is_ -> Forall (fun i => (i < 25)%nat /\ sessions (dsv d) !! sid i = Some (download i)
                               /\ 0 < len (data i) <= share_bytes) is_ ->
  maxDrainFramesPerSession * len is_ <= dremaining d ->
  (forall i l, is_ = l ++ [i] -> sum (map (fun i => len (data i)) l) < dbytes d) ->
  let d' := foldl (fun d id => drain_one now id d) d (map sid is_) in
  exists out, dout d' = dout d ++ out
    /\ payload_bytes out = sum (map (fun i => len (data i)) is_)
    /\ (is_ <> [] -> 0 < len out) /\ len out <= maxDrainFramesPerSession * len is_
    /\ Forall frame_wf out /\ Forall frame_fits out
    /\ (forall i, i ∈ is_ -> exists x', sessions (dsv d') !! sid i = Some x' /\ txBuf (tx x') = [])
    /\ (forall id, id ∉ map sid is_ -> sessions (dsv d') !! id = sessions (dsv d) !! id).
Proof.
  revert d. induction is_ as [|i is_ IH]; intros d Hnd Hall Hrem Hbud; cbn [map foldl].
  { exists []. rewrite app_nil_r. split; [done|]. split; [done|]. split; [done|]. split; [unfold len; cbn; lia|].
    split; [done|]. split; [done|]. split; [|done]. intros i Hi. by apply elem_of_nil in Hi. }
  apply NoDup_cons in Hnd as [Hni Hnd]. apply Forall_cons in Hall as [(Hi & Hsi & Hli) Hall].
  rewrite len_cons in Hrem. unfold maxDrainFramesPerSession in Hrem.
  assert (Hpos : forall l, l `prefix_of` is_ -> 0 <= sum (map (fun i => len (data i)) l)).
  { intros l _. induction l as [|j l IHl]; cbn; [lia|]. pose proof (len_nonneg (data j)). unfold sum in *. lia. }
  assert (Hb0 : 0 < dbytes d).
  { destruct (exists_last (l := i :: is_)) as (l & j & E); [done|]. specialize (Hbud j l E).
    destruct l as [|k l]; [cbn in Hbud; lia|]. injection E as -> E. cbn in Hbud.
    assert (0 <= sum (map (fun i => len (data i)) l)) by (apply Hpos; by exists [j]).
    pose proof (len_nonneg (data k)). unfold sum in *. lia. }
  pose proof (len_nonneg is_).
  destruct (drain_one_download now i d Hsi Hli Hb0) as (x' & out & E1 & E2 & E3 & E4 & Hbuf & Hp & Ho & Hw & Hf);
    [unfold maxDrainFramesPerSession; lia|].
  destruct (IH (drain_one now (sid i) d) Hnd) as (outs & F1 & F2 & F3 & F4 & F5 & F6 & F7 & F8).
  - rewrite E2. eapply Forall_impl; [apply Forall_and; split; [exact Hall|apply Forall_forall; intros x Hx; exact Hx]|].
    intros j [(Hj & Hsj & Hlj) Hjin]. split; [done|]. split; [|done]. rewrite lookup_insert_ne; [done|].
    intros E. apply sid_inj in E; [|done|done]. by subst.
  - rewrite E4. unfold maxDrainFramesPerSession in *. lia.
  - intros j l E. rewrite E3. specialize (Hbud j (i :: l)). cbn in Hbud. rewrite E in Hbud. specialize (Hbud eq_refl).
    unfold sum in *. lia.
  - exists (out ++ outs). rewrite F1, E1, app_assoc. split; [done|].
    rewrite payload_bytes_app, Hp, F2, !len_app, len_cons. split; [done|].
    split; [intros _; pose proof (len_nonneg outs); lia|]. split; [unfold maxDrainFramesPerSession in *; lia|].
    split; [by apply Forall_app|]. split; [by apply Forall_app|]. split.
    + intros j [->|Hj]%elem_of_cons; [|by apply F7]. exists x'. split; [|done].
      rewrite F8, E2, lookup_insert_eq; [done|]. intros (k & E & Hk)%list_elem_of_fmap.
      rewrite Forall_forall in Hall. destruct (Hall k Hk) as (Hk25 & _). apply sid_inj in E; [|done|done]. by subst.
    + intros id [Hne Hin]%not_elem_of_cons. rewrite F8, E2 by done. by rewrite lookup_insert_ne.
Qed.

(** ** The server *)

Lemma busy_sessions i : (i < 12)%nat -> sessions busy_server !! sid i = Some (download i).
Proof.
  intros Hi. cbn [sessions busy_server]. rewrite (lookup_downloads session_at) by lia.
  unfold session_at. by rewrite (proj2 (Nat.ltb_lt _ _) Hi).
Qed.

(** The keys of the server's tables. *)
Lemma downloads_key {B} (f : nat -> B) id :
  is_Some ((list_to_map (map (fun i => (sid i, f i)) downloads) : gmap bytes B) !! id)
  <-> exists i, (i < 25)%nat /\ id = sid i.
Proof.
  split.
  - intros [x Hx]. apply elem_of_list_to_map_2 in Hx. change (map ?f ?l) with (f <$> l) in Hx.
    apply list_elem_of_fmap in Hx as (i & [= -> ->] & Hi). apply elem_of_seq in Hi. exists i. split; [lia|done].
  - intros (i & Hi & ->). rewrite lookup_downloads by done. by eexists.
Qed.

(** The state is one that the server's operations keep ([ExitSteps.world_inv]). *)
Lemma busy_inv : world_inv (mkWorld busy_server []).
Proof.
  assert (Hat : forall id x, sessions busy_server !! id = Some x ->
    exists i, (i < 25)%nat /\ id = sid i /\ x = session_at i).
  { intros id x Hx. destruct (proj1 (downloads_key session_at id) (mk_is_Some _ _ Hx)) as (i & Hi & ->).
    cbn [sessions busy_server] in Hx. rewrite lookup_downloads in Hx by done. injection Hx as <-. by exists i. }
  split; [constructor|].
  - intros id x (i & Hi & -> & ->)%Hat. unfold session_at. split.
    + destruct (i <? 12)%nat; done.
    + by destruct (i <? 12)%nat.
  - intros id. cbn [sessions sessionOwners busy_server ws]. by rewrite !downloads_key.
  - intros id. cbn [sessions upstreams busy_server ws]. by rewrite !downloads_key.
  - intros id. cbn [sessions lastActivity busy_server ws]. by rewrite !downloads_key.
  - intros id Hf. by apply elem_of_empty in Hf.
  - intros id x (i & Hi & -> & ->)%Hat Hp. unfold session_at in Hp. destruct (Nat.ltb_spec i 12) as [Hl|]; [|done].
    left. cbn [txReady busy_server ws]. rewrite elem_of_list_to_set. change (map ?f ?l) with (f <$> l).
    apply list_elem_of_fmap. exists i. split; [done|]. unfold waiting. apply elem_of_seq. lia.
Qed.

Lemma busy_cap : batch_cap busy_server = maxDrainFramesPerBatchBusy.
Proof.
  unfold batch_cap. cbn [sessions busy_server]. rewrite map_size_list_to_map.
  - reflexivity.
  - rewrite map_map. exact sids_nodup.
Qed.

Lemma busy_order_valid : valid_order owner busy_server busy_order.
Proof.
  assert (Hin : forall id, id ∈ busy_order <-> exists i, id = sid i /\ (i < 12)%nat).
  { intros id. unfold busy_order, waiting. change (map ?f ?l) with (f <$> l). rewrite list_elem_of_fmap.
    split; intros (i & -> & Hi); exists i; (split; [done|]).
    - apply elem_of_seq in Hi. lia.
    - apply elem_of_seq. lia. }
  split.
  - apply NoDup_Permutation; [|apply NoDup_elements|].
    + apply (bool_decide_unpack _). vm_compute. reflexivity.
    + intros id. rewrite elem_of_elements. unfold owned_ready, prune. cbn [txReady busy_server set_sess sessionOwners].
      rewrite !elem_of_filter, elem_of_list_to_set. fold busy_order. split; [|tauto].
      intros Hid. split; [|split; [|done]]; apply Hin in Hid as (i & -> & Hi).
      * rewrite (lookup_downloads (fun _ => owner)) by lia. done.
      * rewrite (lookup_downloads session_at) by lia. by eexists.
  - assert (Hs : forall l, (forall i, i ∈ l -> (i < 12)%nat) -> Sorted (fun i j => Z.of_nat i <= Z.of_nat j) l ->
      Sorted (older busy_server) (map sid l)).
    { induction l as [|i l IH]; intros Hl Hso; [constructor|]. apply Sorted_inv in Hso as [Hso Hhd]. cbn. constructor.
      - apply IH; [|done]. intros j Hj. apply Hl. by right.
      - destruct l as [|j l]; constructor. inversion Hhd; subst. unfold older, queue_age.
        rewrite (busy_sessions i), (busy_sessions j) by (apply Hl; rewrite ?elem_of_cons; auto).
        unfold from_option, api_queued_at, Session_api, FirstQueuedAt, download. cbn [tx firstQueuedAt]. lia. }
    apply Hs.
    + intros i Hi. unfold waiting in Hi. apply elem_of_seq in Hi. lia.
    + unfold waiting. cbn [seq]. repeat first [apply Sorted_cons|apply Sorted_nil|apply HdRel_cons|apply HdRel_nil]; lia.
Qed.

Hypothesis data_first : len (data 0) = share_bytes - 1.
Hypothesis data_rest : forall i, (0 < i < 12)%nat -> len (data i) = share_bytes.

Lemma data_size i : (i < 12)%nat -> 0 < len (data i) <= share_bytes.
Proof.
  intros Hi. destruct i as [|i].
  - rewrite data_first. split; [done|lia].
  - rewrite data_rest by lia. split; [done|lia].
Qed.

(** The answer: twelve shares but one byte, in at most 96 frames. *)
Lemma busy_drained now :
  exists s' out urgent,
    drainAll now busy_order owner maxResponseBytesPreEncode busy_server = (s', out, urgent)
    /\ payload_bytes out = 12 * share_bytes - 1 /\ 0 < len out <= 96
    /\ Forall frame_wf out /\ Forall frame_fits out
    /\ (forall i, (i < 12)%nat -> exists x', sessions s' !! sid i = Some x' /\ txBuf (tx x') = []).
Proof.
  unfold drainAll. cbn [pendingCtrl pendingRSTs busy_server]. rewrite !lookup_empty. cbn [default app].
  change (0 <? len []) with false. cbn [orb].
  assert (Hcap : batch_cap (set_pending ∅ ∅ busy_server) = maxDrainFramesPerBatchBusy) by exact busy_cap.
  change (mkServer _ _ _ _ _ _ _ _ _ _ _ _ _ _) with busy_server. rewrite Hcap.
  set (d := mkDrain (prune _) [] false _ _).
  destruct (drain_downloads now waiting d) as (out & H1 & H2 & H3 & H4 & H5 & H6 & H7 & _).
  - apply NoDup_seq.
  - apply Forall_forall. intros i Hi. unfold waiting in Hi. apply elem_of_seq in Hi. split; [lia|].
    split; [apply busy_sessions; lia|apply data_size; lia].
  - cbn. unfold maxDrainFramesPerSession, maxDrainFramesPerBatchBusy, len. cbn. lia.
  - intros i l E. change waiting with (seq 0 11 ++ [11%nat]) in E. apply app_inj_tail in E as [<- _].
    cbn [seq map sum foldr]. change (dbytes d) with maxResponseBytesPreEncode.
    rewrite data_first, !data_rest by lia. by vm_compute.
  - change (dout d ++ out) with out in H1. eexists _, out, _. unfold busy_order.
    split; [by rewrite H1|]. split.
    { rewrite H2. unfold waiting. cbn [seq map sum foldr]. rewrite data_first, !data_rest by lia. lia. }
    split; [split; [by apply H3|exact H4]|]. split; [done|]. split; [done|].
    intros i Hi. apply H7. unfold waiting. apply elem_of_seq. lia.
Qed.

(** ** The body *)

Lemma batch_wire_payload clientID fs :
  Forall frame_wf fs -> len clientID = ClientIDLen ->
  18 + 34 * len fs + payload_bytes fs <= len (batch_wire clientID fs).
Proof.
  intros Hw Hid. unfold batch_wire. rewrite !len_app, len_be_put, Hid. unfold ClientIDLen.
  enough (34 * len fs + payload_bytes fs <= len (concat (map (fun f => be_put 4 (len (wire f)) ++ wire f) fs))) by lia.
  induction Hw as [|f fs (Hf & _) _ IH]; [done|]. cbn [map concat payload_bytes foldr]. fold (payload_bytes fs).
  rewrite !len_app, len_be_put, len_wire, len_cons, Hf. unfold SessionIDLen. pose proof (len_nonneg (Target f)). lia.
Qed.

(** The length of a body whose plaintext is not compressed. *)
Lemma raw_body_len {L : CryptoLib} (c : Crypto) {AL : AeadLaws (aead c)} (nonce clientID : bytes) fs body :
  len nonce = NonceSize (aead c) -> EncodeBatch c (Some nonce) clientID fs = Ok body ->
  len fs <= 0xFFFF -> Forall frame_wf fs -> Forall frame_fits fs ->
  len (batch_wire clientID fs) <= len (zstd_EncodeAll (batch_wire clientID fs)) ->
  len body = b64_EncodedLen (NonceSize (aead c) + (1 + len (batch_wire clientID fs)) + Overhead (aead c)).
Proof.
  intros Hn He Hl Hw Hf Hz. rewrite EncodeBatch_ok in He by done. injection He as <-.
  rewrite len_b64_encode, len_app, seal_len, Hn by done. f_equal.
  enough (len (seal_input (z2b 0 :: batch_wire clientID fs)) = 1 + len (batch_wire clientID fs)) by lia.
  unfold seal_input. cbn [drop]. rewrite drop_0, !len_cons.
  destruct (_ <=? _); [|unfold len; rewrite length_insert; cbn; lia].
  rewrite (proj2 (Z.ltb_ge _ _)) by lia. unfold len. rewrite length_insert. cbn. lia.
Qed.

End Oversized.

(** C28: the overshoot of the byte budget loses an answer.  Let a client have 25
    downloads, twelve of them with data waiting, 2 MiB each but one byte, in a
    state that satisfies the server's invariant ([ExitSteps.world_inv]).  The
    drain of the handler stays below its budget of 22 MiB until the last of the
    twelve and takes all of them; if the batch does not compress, its body is
    longer than the 32 MiB that the client accepts; the client drops it, marks
    the deployment as failed, and the bytes are in no session of the server any
    more. *)
Theorem oversized_answer {L : CryptoLib} (c : Crypto) {AL : AeadLaws (aead c)} (owner nonce : bytes)
    (data : nat -> bytes) (now : Z) :
  len nonce = NonceSize (aead c) -> len owner = ClientIDLen ->
  len (data 0%nat) = share_bytes - 1 -> (forall i, (0 < i < 12)%nat -> len (data i) = share_bytes) ->
  world_inv (mkWorld (busy_server owner data) [])
  /\ valid_order owner (busy_server owner data) busy_order
  /\ exists s' out urgent,
    drainAll now busy_order owner maxResponseBytesPreEncode (busy_server owner data) = (s', out, urgent)
    /\ (len (batch_wire owner out) <= len (zstd_EncodeAll (batch_wire owner out)) ->
        exists body, EncodeBatch c (Some nonce) owner out = Ok body
        /\ maxRelayResponseBodyBytes < len body
        /\ forall cc (cl : Client Session) idx timeouts frames,
           handle_response cc now idx timeouts frames 200 body false cl
           = Ok (Finish (set_relays (markEndpointFailure now idx (relays cl)) cl) false (0 <? len frames)))
    /\ (forall i, (i < 12)%nat -> exists x', sessions s' !! sid i = Some x' /\ txBuf (tx x') = []).
Proof.
  intros Hn Hid H0 Hr. split; [apply busy_inv|]. split; [apply busy_order_valid|].
  destruct (busy_drained owner data H0 Hr now) as (s' & out & urgent & Hd & Hp & Hl & Hw & Hf & Hs).
  exists s', out, urgent. split; [done|]. split; [|done]. intros Hz.
  assert (Hlo : len out <= 0xFFFF) by lia.
  pose proof (EncodeBatch_ok c nonce owner out Hlo Hw Hf) as He.
  destruct (EncodeBatch c (Some nonce) owner out) as [body| |] eqn:Heb; [|done|done]. exists body. split; [done|].
  assert (Hbig : maxRelayResponseBodyBytes < len body).
  { rewrite (raw_body_len c nonce owner out body Hn Heb Hlo Hw Hf Hz).
    pose proof (batch_wire_payload owner out Hw Hid) as Hb. rewrite Hp in Hb.
    pose proof (@nonce_size_nonneg _ AL). pose proof (@overhead_pos _ AL).
    unfold maxRelayResponseBodyBytes, share_bytes, maxDrainFramesPerSession, MaxFramePayload, b64_EncodedLen in *.
    Z.to_euclidean_division_equations. lia. }
  split; [done|]. intros cc cl idx timeouts frames. unfold handle_response. change (200 =? 204) with false.
  rewrite (proj2 (Z.eqb_neq _ _)) by (unfold maxRelayResponseBodyBytes in Hbig; lia).
  cbn [orb]. change (200 =? 200) with true. cbn [negb]. by rewrite (proj2 (Z.ltb_lt _ _) Hbig).
Qed.

(** ** A library that stores *)

#[local] Instance StoreLib : CryptoLib := {|
  newGCM := fun _ => test_aead;
  zstd_EncodeAll := fun x => x;
  zstd_DecodeAll := Some;
  flate_ReadAll := fun _ => None;
|}.

Definition demo_data (i : nat) : bytes := zeros (if (i =? 0)%nat then share_bytes - 1 else share_bytes).

Lemma oversized_answer_witness :
  exists s' out urgent body,
    drainAll 9 busy_order test_client maxResponseBytesPreEncode (busy_server test_client demo_data) = (s', out, urgent)
    /\ EncodeBatch test_crypto (Some test_nonce) test_client out = Ok body
    /\ maxRelayResponseBodyBytes < len body.
Proof.
  destruct (oversized_answer test_crypto (AL := test_aead_laws) test_client test_nonce demo_data 9
    eq_refl eq_refl) as (_ & _ & s' & out & urgent & Hd & He & _).
  - unfold demo_data. by rewrite len_zeros.
  - intros [|i] Hi; [lia|]. unfold demo_data. by rewrite len_zeros.
  - destruct He as (body & He & Hb & _); [apply Z.le_refl|].
    exists s', out, urgent, body. split; [exact Hd|]. split; [exact He|exact Hb].
Defined.
