(* ===== verification/ExitProps.v ===== *)
(** * What the server promises

    The behaviour of [routeIncoming] on its branches, of the dial back-off and
    of the two collectors, the frame lemmas of the isolation of clients (the
    theorem is in [Routing]), and two places where the server does less than
    its comments say. *)

From S2P Require Import Prelude GoStd Frame Session SessionApi Endpoints Dns Version Exit ExitDrain ExitSteps.

Section Route.
Context {S : Type} {A : SessionApi S} {AO : SessionApiOk S} {Conn : Type}.
Implicit Types (s : Server S Conn) (d : dialler Conn) (id owner : bytes).

(** The reset [queueRST] makes, and what queuing a frame for a client does. *)
Definition rst_frame id : Frame := mkFrame id 0 FlagRST [] [].

Definition woken owner s : Prop := exists ch, activity s !! owner = Some ch /\ ch ∈ tokens s.

Lemma kick_woken owner s : woken owner (kick owner s).
Proof.
  unfold woken, kick, activityFor. destruct (activity s !! owner) as [ch|] eqn:Hc; cbn.
  - exists ch. split; [done|]. set_solver.
  - exists (nextChan s). rewrite lookup_insert_eq. split; [done|]. set_solver.
Qed.

Lemma kick_rest owner s :
  pendingRSTs (kick owner s) = pendingRSTs s /\ pendingCtrl (kick owner s) = pendingCtrl s
  /\ dialFail (kick owner s) = dialFail s /\ dns (kick owner s) = dns s
  /\ sstats (kick owner s) = sstats s.
Proof. unfold kick, activityFor. by destruct (activity s !! owner). Qed.

(** What [routeIncoming] does with a frame it refuses. *)
Record rejected owner id s s' : Prop := {
  rj_sessions : same_sessions s s' /\ txReady s' = txReady s;
  rj_queue : pendingRSTs s' = <[owner := default [] (pendingRSTs s !! owner) ++ [rst_frame id]]> (pendingRSTs s)
    /\ pendingCtrl s' = pendingCtrl s;
  rj_woken : woken owner s';
  rj_stats : st_rstSent (sstats s') = u64 (st_rstSent (sstats s) + 1);
  rj_dns : dns s' = dns s;
}.

Lemma reject_rejected owner id s : rejected owner id s (reject owner id s).
Proof.
  unfold reject, queueRST. cbv zeta.
  set (s1 := set_pending _ _ s). destruct (kick_rest owner s1) as (E1 & E2 & E3 & E4 & E5).
  constructor.
  - split; [exact (same_kick owner s1)|].
    cbn. unfold kick, activityFor. by destruct (activity s1 !! owner).
  - cbn. by rewrite E1, E2.
  - exact (kick_woken owner s1).
  - cbn. by rewrite E5.
  - cbn. by rewrite E4.
Qed.

(** Why a frame is refused. *)
Definition refused (now : Z) (f : Frame) owner s : Prop :=
  (is_Some (sessions s !! SessionID f)
     /\ exists o, sessionOwners s !! SessionID f = Some o /\ o <> owner)
  \/ (sessions s !! SessionID f = None /\ HasFlag f FlagSYN = false /\ IsProbePayload (Payload f) = false)
  \/ (sessions s !! SessionID f = None /\ HasFlag f FlagSYN = true
     /\ exists until, dialFail s !! Target f = Some until /\ now <= until).

Lemma suppressed_spec now target s :
  isDialSuppressed now target s
  = match dialFail s !! target with
    | Some until => if until <? now then (set_dialFail (delete target (dialFail s)) s, false) else (s, true)
    | None => (s, false)
    end.
Proof. done. Qed.

Lemma route_refused d info now timeout f owner s :
  refused now f owner s ->
  routeIncoming d info now timeout f owner s = reject owner (SessionID f) s.
Proof.
  intros [([x Hx] & o & Ho & Hne)|[(Hn & Hs & Hp)|(Hn & Hs & u & Hu & Hle)]];
    unfold routeIncoming, route_after.
  - rewrite Hx, Ho, (bool_decide_eq_true_2 (is_Some _)) by by eexists.
    by rewrite (bool_decide_eq_false_2 (o = owner)).
  - rewrite Hn, (bool_decide_eq_false_2 (is_Some None)) by by intros []. rewrite Hs, Hp.
    by destruct (sessionOwners s !! SessionID f).
  - rewrite Hn, (bool_decide_eq_false_2 (is_Some None)) by by intros []. rewrite Hs. cbn [negb].
    rewrite suppressed_spec, Hu, (proj2 (Z.ltb_ge _ _)) by done.
    by destruct (sessionOwners s !! SessionID f).
Qed.

(** C26: which frames are refused and what that does.  A frame for another
    client's session, a frame without SYN for an unknown session (the version
    probe excepted) and a SYN for a target that failed less than two seconds
    ago are answered by one reset, queued for the client that sent the frame,
    whose poll is woken; no session changes and nothing is dialled. *)
Theorem route_refuses d info now timeout f owner s :
  refused now f owner s ->
  rejected owner (SessionID f) s (routeIncoming d info now timeout f owner s)
  /\ (forall d', routeIncoming d' info now timeout f owner s = routeIncoming d info now timeout f owner s).
Proof.
  intros Hr. split; [rewrite route_refused by done; apply reject_rejected|].
  intros d'. by rewrite !route_refused.
Qed.

(** The state in which a SYN is dialled. *)
Definition unsuppressed (now : Z) (target : bytes) s : Server S Conn :=
  fst (isDialSuppressed now target s).

(** C24: opening a session.  A SYN for an unknown session whose target is not
    backed off is dialled.  If the dial succeeds, the session is registered for
    the sending client with its connection and processes the frame, the first
    reply is marked and the target's failure is forgotten; if it fails, no
    table changes, and the target is backed off for exactly two seconds when
    the error is a structural one.  Other sessions are not touched. *)
Theorem route_opens d info now timeout f owner s :
  tables_agree s -> sessions s !! SessionID f = None -> HasFlag f FlagSYN = true ->
  (forall until, dialFail s !! Target f = Some until -> until < now) ->
  let id := SessionID f in
  let s' := routeIncoming d info now timeout f owner s in
  match snd (run_dial d now (Target f) (unsuppressed now (Target f) s)) with
  | inr conn =>
      sessions s' = <[id := api_process timeout f (api_new now id (Target f) false)]> (sessions s)
      /\ sessionOwners s' = <[id := owner]> (sessionOwners s)
      /\ upstreams s' = <[id := conn]> (upstreams s)
      /\ lastActivity s' = <[id := now]> (lastActivity s)
      /\ firstReply s' = {[id]} ∪ firstReply s
      /\ dialFail s' !! Target f = None
  | inl e =>
      same_sessions s s'
      /\ dialFail s' !! Target f = (if isBackoffEligibleDialErr e then Some (now + dialFailureBackoff) else None)
  end
  /\ (forall t, t <> Target f -> dialFail s' !! t = dialFail s !! t).
Proof.
  intros Hta Hn Hs Hu id s'. unfold s', routeIncoming, route_after, unsuppressed.
  assert (Ho : sessionOwners s !! SessionID f = None).
  { apply eq_None_not_Some. rewrite (ta_owner _ Hta), Hn. by intros []. }
  rewrite Hn, Ho, (bool_decide_eq_false_2 (is_Some None)) by by intros []. rewrite Hs. cbn [negb].
  rewrite suppressed_spec.
  assert (Hsup : exists s1, match dialFail s !! Target f with
      | Some until => if until <? now then (set_dialFail (delete (Target f) (dialFail s)) s, false) else (s, true)
      | None => (s, false) end = (s1, false) /\ same_sessions s s1 /\ txReady s1 = txReady s
      /\ dialFail s1 !! Target f = None /\ (forall t, t <> Target f -> dialFail s1 !! t = dialFail s !! t)).
  { destruct (dialFail s !! Target f) as [u|] eqn:E; [|by exists s].
    rewrite (proj2 (Z.ltb_lt _ _)) by by apply Hu. eexists. split; [done|]. split; [done|]. split; [done|].
    cbn. rewrite lookup_delete_eq. split; [done|]. intros t Ht. by rewrite lookup_delete_ne. }
  destruct Hsup as (s1 & -> & Hss & _ & Hd1 & Hd2). cbn [fst].
  pose proof (same_run_dial d now (Target f) s1) as Hsr.
  unfold openSession. destruct (run_dial d now (Target f) s1) as [s2 r] eqn:Hdial. cbn [fst] in *.
  assert (Hdf : dialFail s2 = dialFail s1).
  { clear - Hdial. destruct d; cbn in Hdial; [by injection Hdial as <- _|].
    destruct (dialWithDNSCache _ _ _ _ _ _) as [c r0]. by injection Hdial as <- _. }
  destruct r as [e|conn]; cbn [snd].
  - unfold recordDialFailure. split; [|intros t Ht; case_bool; cbn; rewrite ?lookup_insert_ne by done; by rewrite Hdf, Hd2].
    split; [do 2 (eapply same_trans; [eassumption|]); apply same_failure|].
    case_bool; cbn; [by rewrite lookup_insert_eq|by rewrite Hdf].
  - unfold deliver. cbn. rewrite lookup_insert_eq. cbn.
    destruct Hss as (E1 & E2 & E3 & E4 & E5 & _), Hsr as (F1 & F2 & F3 & F4 & F5 & _).
    rewrite !insert_insert_eq, F1, F2, F3, F4, F5, E1, E2, E3, E4, E5, Hdf, lookup_delete_eq.
    split; [done|]. intros t Ht. rewrite lookup_delete_ne by done. auto.
Qed.

(** What a request of [owner] about session [id] leaves alone. *)
Definition others_same id owner s s' : Prop :=
  (forall i, i <> id -> sessions s' !! i = sessions s !! i /\ sessionOwners s' !! i = sessionOwners s !! i
     /\ upstreams s' !! i = upstreams s !! i /\ lastActivity s' !! i = lastActivity s !! i)
  /\ (forall o, o <> owner -> queued o s' = queued o s /\ activity s' !! o = activity s !! o).

#[local] Instance others_same_trans id owner : PreOrder (others_same id owner).
Proof.
  split; [by intros s; split|]. intros s1 s2 s3 [H1 H2] [H3 H4]. split.
  - intros i Hi. destruct (H1 i Hi) as (E1 & E2 & E3 & E4).
    destruct (H3 i Hi) as (F1 & F2 & F3 & F4). split_and!; congruence.
  - intros o Ho. destruct (H2 o Ho), (H4 o Ho). split; congruence.
Qed.

Lemma others_kick id owner s : others_same id owner s (kick owner s).
Proof.
  unfold kick, activityFor. destruct (activity s !! owner); [done|]. split; [done|].
  intros o Ho. split; [done|]. cbn. by rewrite lookup_insert_ne.
Qed.

Lemma others_reject id owner s : others_same id owner s (reject owner id s).
Proof.
  unfold reject, queueRST. cbv zeta. set (s1 := set_pending _ _ s).
  transitivity s1; [|exact (others_kick id owner s1)].
  split; [done|]. intros o Ho. unfold queued, s1. cbn. by rewrite lookup_insert_ne.
Qed.

Lemma others_version info id owner s : others_same id owner s (queueVersionResponse info owner id s).
Proof.
  unfold queueVersionResponse. cbv zeta. set (s1 := set_pending _ _ s).
  transitivity s1; [|exact (others_kick id owner s1)].
  split; [done|]. intros o Ho. unfold queued, s1. cbn. by rewrite lookup_insert_ne.
Qed.

Lemma others_register now id target owner conn s : others_same id owner s (register now id target owner conn s).
Proof. split; [|done]. intros i Hi. cbn. by rewrite !lookup_insert_ne. Qed.

End Route.

Section Collect.
Context {S : Type} {A : SessionApi S} {AO : SessionApiOk S} {Conn : Type}.
Implicit Types (s : Server S Conn) (id owner : bytes).

(** C33: the orphan collector.  Exactly the sessions without activity for ten
    minutes disappear, from every table; exactly their connections are closed
    and their sessions stopped; everything else is untouched. *)
Theorem gcIdle_collects now order s s' ups ss :
  tables_agree s -> (forall id, is_Some (lastActivity s !! id) -> id ∈ order) ->
  gcIdleSessions now order s = Ok (s', ups, ss) ->
  (forall id, expired now s id -> sessions s' !! id = None /\ upstreams s' !! id = None
      /\ lastActivity s' !! id = None /\ id ∉ txReady s' /\ id ∉ firstReply s')
  /\ (forall id, ~ expired now s id -> sessions s' !! id = sessions s !! id
      /\ sessionOwners s' !! id = sessionOwners s !! id /\ upstreams s' !! id = upstreams s !! id
      /\ lastActivity s' !! id = lastActivity s !! id)
  /\ (forall u, u ∈ ups <-> exists id, expired now s id /\ upstreams s !! id = Some u)
  /\ tables_agree s'.
Proof.
  intros Hta Hord Hd. unfold gcIdleSessions in Hd.
  destruct (gc_idle_fold now order s) as (R & s1 & vs & He & HR & HRi & Hvs).
  { intros i. by apply (ta_active _ Hta). }
  rewrite He in Hd. apply close_victims_spec in Hd as ([st ->] & -> & _).
  assert (Hin : forall id, id ∈ R <-> expired now s id).
  { intros id. rewrite HRi. split; [tauto|]. intros Hx. split; [|done].
    apply Hord. destruct Hx as (l & -> & _). by eexists. }
  pose proof (removes_tables R s s1 HR Hta) as Hta'.
  destruct HR. split; [|split; [|split; [|by destruct Hta'; constructor]]].
  - intros id Hx%Hin. cbn. rewrite rm_sessions, rm_upstreams, rm_active, rm_ready, rm_first, !decide_True by done.
    clear - Hx. set_solver.
  - intros id Hx. assert (Hn : id ∉ R) by by rewrite Hin.
    cbn. by rewrite rm_sessions, rm_owners, rm_upstreams, rm_active, !decide_False by done.
  - intros u. rewrite list_elem_of_omap. split.
    + intros ([x up] & Hv & Hu). apply Hvs in Hv as (id & Hid%Hin & _ & Hup). cbn in Hu. exists id. by rewrite Hup.
    + intros (id & Hx & Hu). destruct (ta_upstream _ Hta id) as [Hsx _].
      destruct Hsx as [x Hxx]; [by eexists|]. exists (x, upstreams s !! id). split; [|done].
      apply Hvs. exists id. by rewrite Hin.
Qed.

(** The wake channel a handler holds after the client's sessions are gone. *)
Lemma gc_done_activity now order s owner :
  (forall id o x, sessions s !! id = Some x -> sessionOwners s !! id = Some o -> o = owner ->
     id ∈ order /\ api_done now x = true) ->
  tables_agree s ->
  activity (gcDoneSessions now order s) !! owner = None
  /\ nextChan (gcDoneSessions now order s) = nextChan s
  /\ tokens (gcDoneSessions now order s) = tokens s.
Proof.
  intros Hall Hta. unfold gcDoneSessions.
  destruct (gc_done_fold now order s) as (R & [] & HR).
  set (s1 := foldl _ _ _) in *. destruct rm_rest as (_ & _ & Ea & Et & En & _).
  unfold gc_activity. cbn. rewrite Et, En. split; [|done].
  rewrite map_lookup_filter_None. right. intros ch _ Hact. cbn in Hact.
  unfold active_owners in Hact. rewrite elem_of_list_to_set in Hact.
  apply list_elem_of_fmap in Hact as ([id o] & Ho & Hin%elem_of_map_to_list). cbn in Ho. subst o.
  rewrite rm_owners in Hin. case_decide as Hid; [done|].
  destruct (ta_owner _ Hta id) as [Hs _]. destruct Hs as [x Hx]; [by eexists|].
  apply Hid, HR. destruct (Hall id owner x Hx Hin eq_refl). eauto.
Qed.

(** Waking the client's long poll.  The callback of a session puts a token
    in the channel registered for its owner, so a handler waiting on that
    channel wakes.  But when [gcDoneSessions] drops the channel of a client that
    has no session left while one of its long polls waits, later traffic for
    that client goes to a new channel: the waiting handler gets no token and
    sits until its window ends. *)
Theorem wake_channel s id owner ch :
  activity s !! owner = Some ch ->
  ch ∈ tokens (OnTx id owner s)
  /\ (forall now order, tables_agree s -> (ch < nextChan s)%nat -> ch ∉ tokens s ->
        (forall i o x, sessions s !! i = Some x -> sessionOwners s !! i = Some o -> o = owner ->
            i ∈ order /\ api_done now x = true) ->
        forall later, ch ∉ tokens (OnTx later owner (gcDoneSessions now order s))
          /\ later ∈ txReady (OnTx later owner (gcDoneSessions now order s))).
Proof.
  intros Hch. split.
  - unfold OnTx, kick, activityFor. cbn. rewrite Hch. cbn. set_solver.
  - intros now order Hta Hlt Hnt Hall later.
    destruct (gc_done_activity now order s owner Hall Hta) as (Ha & Hn & Ht).
    set (s2 := gcDoneSessions now order s) in *. clearbody s2.
    unfold OnTx, kick, activityFor. cbn. rewrite Ha. cbn. rewrite Hn, Ht. split; [|set_solver].
    intros [He%elem_of_singleton|]%elem_of_union; [lia|done].
Qed.

End Collect.

(** The client's farewell is ignored.  On shutdown the client sends one
    frame with the RST flag and sequence number 0 per session, so that the
    server releases the upstream connections immediately.  The server hands it
    to the session like any other frame: the session stays registered with its
    connection, its activity time is even renewed, and the receive loop drops
    the frame, since sequence number 0 was the SYN's. *)
Theorem shutdown_rst_ignored {Conn : Type} (d : dialler Conn) info now owner id
    (s : Server Session Conn) (x : Session) :
  sessions s !! id = Some x -> sessionOwners s !! id = Some owner ->
  rxClosed (rx x) = false -> len (rxInbox (rx x)) < rxInboxCap ->
  let s' := routeIncoming d info now false (rst_frame id) owner s in
  (exists x', sessions s' !! id = Some x' /\ rxInbox (rx x') = rxInbox (rx x) ++ [rst_frame id]
     /\ rxDone (rx x') = rxDone (rx x))
  /\ upstreams s' = upstreams s /\ lastActivity s' !! id = Some now
  /\ (forall r, rxClosed r = false -> 0 < rxSeq r -> deliverRx (rst_frame id) r = Ok (r, false)).
Proof.
  intros Hx Ho Hc Hl s'. assert (Hs' : s' = deliver now false (rst_frame id) s).
  { unfold s', routeIncoming, route_after. cbn [SessionID rst_frame]. rewrite Hx, Ho.
    rewrite (bool_decide_eq_true_2 (is_Some _)) by by eexists.
    by rewrite (bool_decide_eq_true_2 (owner = owner)). }
  rewrite Hs'. unfold deliver. cbn [SessionID rst_frame]. rewrite Hx. cbn.
  rewrite !lookup_insert_eq. split; [|split; [done|split; [done|]]].
  - eexists. split; [done|]. unfold ProcessRx. rewrite Hc, (proj2 (Z.ltb_lt _ _)) by done. done.
  - intros r Hr Hq. unfold deliverRx, deliver_locked. rewrite Hr. cbn [Seq rst_frame].
    by rewrite (proj2 (Z.ltb_lt _ _)).
Qed.

(** ** Concrete inputs *)

Definition demo_srv : Server Session nat := ws demo_world.
Definition demo_data : Frame := mkFrame demo_sid 1 0 [] (str "more").

Lemma demo_srv_agree : tables_agree demo_srv.
Proof. exact (proj1 (exit_world_reach_inv demo_world demo_world_reachable)). Qed.

Lemma route_refuses_witness :
  refused 6 demo_data demo_other demo_srv
  /\ rejected demo_other demo_sid demo_srv (routeIncoming demo_dial None 6 false demo_data demo_other demo_srv).
Proof.
  assert (H : refused 6 demo_data demo_other demo_srv).
  { left. split; [apply (bool_decide_unpack _); vm_compute; exact I|]. exists demo_owner.
    split; [vm_compute; reflexivity|discriminate]. }
  split; [exact H|]. exact (proj1 (route_refuses demo_dial None 6 false demo_data demo_other demo_srv H)).
Defined.

Definition demo_syn2 : Frame := mkFrame demo_other 0 FlagSYN (str "bad:1") [].

Lemma route_opens_witness :
  dialFail (routeIncoming demo_dial None 6 false demo_syn2 demo_other demo_srv) !! str "bad:1" = Some (6 + dialFailureBackoff).
Proof.
  pose proof (route_opens demo_dial None 6 false demo_syn2 demo_other demo_srv demo_srv_agree) as H.
  destruct H as [H _]; [vm_compute; reflexivity|vm_compute; reflexivity| |].
  - intros u Hu. assert (Hn : dialFail demo_srv !! str "bad:1" = None) by (vm_compute; reflexivity).
    cbn [Target demo_syn2] in Hu. rewrite Hn in Hu. discriminate Hu.
  - assert (E : snd (run_dial demo_dial 6 (Target demo_syn2) (unsuppressed 6 (Target demo_syn2) demo_srv))
      = inl (mkDialError (Some true) None None)) by (vm_compute; reflexivity).
    rewrite E in H. exact (proj2 H).
Defined.

Definition late : Z := 11 * Minute.
Definition demo_gc := gcIdleSessions late [demo_sid] demo_srv.

Lemma gcIdle_collects_witness :
  exists s' ups ss, demo_gc = Ok (s', ups, ss) /\ 7%nat ∈ ups /\ sessions s' !! demo_sid = None.
Proof.
  destruct demo_gc as [[[s' ups] ss]| |] eqn:Hd; [|vm_compute in Hd; discriminate Hd..].
  exists s', ups, ss. split; [reflexivity|].
  destruct (gcIdle_collects late [demo_sid] demo_srv s' ups ss demo_srv_agree) as (H1 & _ & H3 & _).
  - intros id [t Ht]. change (lastActivity demo_srv) with (<[demo_sid := 5]> (<[demo_sid := 5]> (∅ : gmap bytes Z))) in Ht.
    rewrite !lookup_insert_Some, lookup_empty in Ht. destruct Ht as [[<- _]|[_ [[<- _]|[_ ?]]]]; [left|left|discriminate].
  - exact Hd.
  - assert (Hx : expired late demo_srv demo_sid).
    { exists 5. split; [vm_compute; reflexivity|]. apply (bool_decide_unpack _). vm_compute. exact I. }
    split; [|apply (H1 demo_sid Hx)]. apply H3. exists demo_sid. split; [exact Hx|vm_compute; reflexivity].
Defined.

(** A client without sessions whose long poll waits on channel 0. *)
Definition demo_waiting : Server Session nat := fst (activityFor demo_owner init_server).

Lemma wake_channel_witness :
  0%nat ∉ tokens (OnTx demo_sid demo_owner (gcDoneSessions 5 [] demo_waiting))
  /\ 0%nat ∈ tokens (OnTx demo_sid demo_owner demo_waiting).
Proof.
  destruct (wake_channel demo_waiting demo_sid demo_owner 0%nat) as [H1 H2]; [vm_compute; reflexivity|].
  split; [|exact H1]. apply (H2 5 []).
  - exact (proj1 (exit_world_reach_inv (mkWorld demo_waiting []) (rtc_once _ _ (e_listen world_init demo_owner)))).
  - apply (bool_decide_unpack _). vm_compute. exact I.
  - intros Hin. apply elem_of_empty in Hin. exact Hin.
  - intros i o x Hx. change (sessions demo_waiting) with (∅ : gmap bytes Session) in Hx.
    rewrite lookup_empty in Hx. discriminate Hx.
Defined.

Lemma shutdown_rst_ignored_witness :
  lastActivity (routeIncoming demo_dial None 9 false (rst_frame demo_sid) demo_owner demo_srv) !! demo_sid = Some 9
  /\ upstreams (routeIncoming demo_dial None 9 false (rst_frame demo_sid) demo_owner demo_srv) = upstreams demo_srv.
Proof.
  destruct (shutdown_rst_ignored demo_dial None 9 demo_owner demo_sid demo_srv
    (default (New 0 [] [] false) (sessions demo_srv !! demo_sid))) as (_ & H1 & H2 & _);
    [vm_compute; reflexivity..|]. split; [exact H2|exact H1].
Defined.

(** The other client asks for what is ready: nothing of the first one's. *)
Definition demo_ready : Server Session nat :=
  OnTx demo_sid demo_owner (put demo_sid (fst (default (New 0 [] [] false, false)
    (EnqueueTx 8 (str "reply") (default (New 0 [] [] false) (sessions demo_srv !! demo_sid))))) demo_srv).

Lemma demo_ready_agree : tables_agree demo_ready.
Proof.
  eassert (Hst : exit_steps demo_world (mkWorld demo_ready [])).
  { eapply rtc_l; [eapply (e_write demo_world 8 demo_sid (str "reply")); vm_compute; reflexivity|].
    eapply rtc_once. exact (e_ontx (mkWorld _ _) [] demo_sid demo_owner [] eq_refl). }
  exact (proj1 (exit_world_reach_inv _ (transitivity demo_world_reachable Hst))).
Qed.

Definition demo_drained := drainAll 9 (some_order demo_owner demo_ready) demo_owner 100 demo_ready.

Lemma drainAll_isolation_witness :
  exists s' out urgent, demo_drained = (s', out, urgent) /\ map Payload out = [str "reply"]
    /\ queued demo_owner s' = [].
Proof.
  destruct demo_drained as [[s' out] urgent] eqn:Hd. exists s', out, urgent. split; [reflexivity|].
  split; [change out with (snd (fst (s', out, urgent))); rewrite <- Hd; vm_compute; reflexivity|].
  destruct (drainAll_isolation 9 (some_order demo_owner demo_ready) demo_owner 100 demo_ready s' out urgent
    (ta_ok _ demo_ready_agree) (srv_some_order_valid _ _) Hd) as (_ & H & _). exact H.
Defined.

Lemma drainAll_bounds_witness :
  exists s' out urgent, demo_drained = (s', out, urgent) /\ map Payload out = [str "reply"]
    /\ exists parts, out = queued demo_owner demo_ready ++ part_frames parts /\ NoDup (map fst parts).
Proof.
  destruct demo_drained as [[s' out] urgent] eqn:Hd. exists s', out, urgent. split; [reflexivity|].
  split; [change out with (snd (fst (s', out, urgent))); rewrite <- Hd; vm_compute; reflexivity|].
  destruct (drainAll_bounds 9 (some_order demo_owner demo_ready) demo_owner 100 demo_ready s' out urgent
    (ta_ok _ demo_ready_agree) (srv_some_order_valid _ _)) as (parts & H1 & H2 & _); [discriminate|exact Hd|].
  exists parts. split; [exact H1|exact H2].
Defined.
