(* ===== verification/Routing.v ===== *)
(** * internal/exit/exit.go: one call of [routeIncoming] among others

    [Exit.route_after] runs a call of [routeIncoming] to its end in one go.  In
    the code it gives up the mutex between its parts and blocks in the dial, and
    other handlers, pump goroutines and collectors run meanwhile.  [route_one] is
    the next part of a call that is under way, [routing] its runs in which the
    others change the server between any two parts in any way.  Alone, the parts
    make up [route_after] ([route_alone]), and each is a run of the steps of
    [ExitSteps] ([route_one_steps]). *)

From S2P Require Import Prelude GoStd Frame Session SessionApi Endpoints Dns Version Exit ExitDrain ExitSteps ExitProps.

Section Routing.
Context {S : Type} {A : SessionApi S} {AO : SessionApiOk S} {Conn : Type}.
Implicit Types (s : Server S Conn) (d : dialler Conn) (id owner : bytes).

(** Where the call is. *)
Inductive rpc :=
| RFound (exists_ : bool) (existingOwner : option bytes)  (* the look-up is done *)
| RReject | RProbe | RSuppress | RDial
| RDialled (r : dial_error + Conn)
| RFailed | RRegistered
| RProcess                                                (* about to call [ProcessRx] *)
| RTouch
| REnd.

Section Call.
Context (d : dialler Conn) (info : option bytes) (f : Frame) (owner : bytes).
Notation id := (SessionID f).

(** The next part of the call, at time [now].  [held] says whether the session
    that the call holds is still the one that is registered: if it has been
    replaced or removed, [ProcessRx] goes to a session that is in no table. *)
Definition route_one (now : Z) (timeout held : bool) (pc : rpc) (s : Server S Conn) : rpc * Server S Conn :=
  match pc with
  | RFound exists_ existingOwner =>
      let collision :=
        match existingOwner with Some o => exists_ && negb (bool_decide (o = owner)) | None => false end in
      (if collision then RReject
       else if exists_ then RProcess
       else if HasFlag f FlagSYN then RSuppress
       else if IsProbePayload (Payload f) then RProbe else RReject, s)
  | RReject => (REnd, reject owner id s)
  | RProbe => (REnd, queueVersionResponse info owner id s)
  | RSuppress =>
      let '(s, suppressed) := isDialSuppressed now (Target f) s in
      (if suppressed then RReject else RDial, s)
  | RDial => let '(s, r) := run_dial d now (Target f) s in (RDialled r, s)
  | RDialled (inl e) => (RFailed, recordDialFailure now (Target f) e s)
  | RFailed => (REnd, set_sstats (st_dial_fail (sstats s)) s)
  | RDialled (inr conn) => (RRegistered, register now id (Target f) owner conn s)
  | RRegistered => (RProcess, clearDialFailure (Target f) (set_sstats (st_dial_ok (sstats s)) s))
  | RProcess =>
      (RTouch, if held then
                 match sessions s !! id with
                 | Some x => put id (api_process timeout f x) s
                 | None => s
                 end
               else s)
  | RTouch => (REnd, touch now id s)
  | REnd => (REnd, s)
  end.

(** The call undisturbed, with an unchanged clock. *)
Fixpoint route_run (n : nat) (now : Z) (timeout : bool) (pc : rpc) (s : Server S Conn) : rpc * Server S Conn :=
  match n with
  | O => (pc, s)
  | Datatypes.S n => let '(pc, s) := route_one now timeout true pc s in route_run n now timeout pc s
  end.

Lemma route_run_end n now timeout s : route_run n now timeout REnd s = (REnd, s).
Proof. by induction n. Qed.

Lemma route_run_process n now timeout s : (2 <= n)%nat ->
  route_run n now timeout RProcess s = (REnd, deliver now timeout f s).
Proof.
  destruct n as [|[|n]]; [lia..|]. intros _. cbn [route_run route_one]. rewrite deliver_split, route_run_end.
  f_equal. destruct (sessions s !! id) eqn:E; [done|]. unfold touch. by rewrite E.
Qed.

(** Seven parts are enough, and they make up the whole. *)
Lemma route_alone now timeout ex known s :
  route_run 7 now timeout (RFound ex known) s = (REnd, route_after d info now timeout f owner ex known s).
Proof.
  unfold route_after. cbv zeta.
  assert (Hrej : forall n s1, route_run (1 + n) now timeout RReject s1 = (REnd, reject owner id s1)).
  { intros n s1. cbn [Nat.add route_run route_one]. apply route_run_end. }
  change (route_run 7 now timeout) with (route_run (1 + 6) now timeout). cbn [Nat.add route_run route_one].
  case_bool; [exact (Hrej 5%nat s)|]. destruct ex; cbn [negb]; [apply (route_run_process 6 now timeout); lia|].
  destruct (HasFlag f FlagSYN); cbn [negb].
  2:{ case_bool; [exact (route_run_end 5 now timeout _)|exact (Hrej 5%nat s)]. }
  cbn [route_run route_one]. destruct (isDialSuppressed now (Target f) s) as [s1 []]; [exact (Hrej 4%nat s1)|].
  unfold openSession. cbn [route_run route_one]. destruct (run_dial d now (Target f) s1) as [s2 [e|conn]].
  - cbn [route_run route_one]. exact (route_run_end 3 now timeout _).
  - cbn [route_run route_one]. apply (route_run_process 2 now timeout). lia.
Qed.

(** Each part is a run of critical sections. *)
Lemma route_one_steps now timeout held pc s calls :
  exit_steps (mkWorld s calls) (mkWorld (snd (route_one now timeout held pc s)) calls).
Proof.
  destruct pc as [ex known| | | | |[e|conn]| | | | |]; cbn [route_one snd]; try done.
  - eapply rtc_l; [apply (e_rst (mkWorld s calls) owner id)|]. apply rtc_once, (e_count (mkWorld _ calls)).
  - apply rtc_once, (e_version (mkWorld s calls)).
  - pose proof (e_suppressed (mkWorld s calls) now (Target f)) as H. cbn [ws wcalls] in H.
    destruct (isDialSuppressed now (Target f) s) as [s1 b]. by apply rtc_once.
  - pose proof (e_dial (mkWorld s calls) d now (Target f)) as H. cbn [ws wcalls] in H.
    destruct (run_dial d now (Target f) s) as [s1 r]. by apply rtc_once.
  - apply rtc_once, (e_failure (mkWorld s calls)).
  - apply rtc_once, (e_register (mkWorld s calls)).
  - apply rtc_once, (e_count (mkWorld s calls)).
  - eapply rtc_l; [apply (e_count (mkWorld s calls) (st_dial_ok (sstats s)))|].
    apply rtc_once, (e_success (mkWorld _ calls)).
  - destruct held; [|done]. destruct (sessions s !! id) as [x|] eqn:Hx; [|done].
    apply rtc_once. by apply (e_process (mkWorld s calls) timeout f x).
  - apply rtc_once, (e_touch (mkWorld s calls)).
Qed.

(** Runs of a call that looked its session up in state [s0]. *)
Inductive routing (s0 : Server S Conn) : rpc -> Server S Conn -> Prop :=
| rt_found : routing s0 (RFound (bool_decide (is_Some (sessions s0 !! id))) (sessionOwners s0 !! id)) s0
| rt_own now timeout held pc s pc' s' :
    routing s0 pc s -> route_one now timeout held pc s = (pc', s') -> routing s0 pc' s'
| rt_others pc s s' : routing s0 pc s -> routing s0 pc s'.

(** At the look-up the session was registered, for another client. *)
Definition foreign (s0 : Server S Conn) : Prop :=
  is_Some (sessions s0 !! id) /\ exists o, sessionOwners s0 !! id = Some o /\ o <> owner.

(** What the call has found out. *)
Definition pc_ok (s0 : Server S Conn) (pc : rpc) : Prop :=
  match pc with
  | RFound ex known => ex = bool_decide (is_Some (sessions s0 !! id)) /\ known = sessionOwners s0 !! id
  | RReject | REnd => True
  | RProbe => sessions s0 !! id = None
  | RSuppress | RDial | RDialled _ | RFailed | RRegistered => sessions s0 !! id = None /\ HasFlag f FlagSYN = true
  | RProcess | RTouch => ~ foreign s0
  end.

Lemma routing_ok s0 pc s : routing s0 pc s -> pc_ok s0 pc.
Proof.
  induction 1 as [|now timeout held pc s pc' s' _ IH E|]; [done| |done].
  assert (Hnone : sessions s0 !! id = None -> ~ foreign s0) by (intros E0 [[x Hx] _]; congruence).
  destruct pc as [ex known| | | | |[e|conn]| | | | |]; cbn in E, IH.
  - destruct IH as [-> ->]. injection E as <- <-. destruct (sessions s0 !! id) as [x|] eqn:Hx; cbn.
    + destruct (sessionOwners s0 !! id) as [o|] eqn:Ho; cbn.
      * destruct (bool_decide_reflect (o = owner)) as [->|]; cbn; [|done]. intros (_ & o & Ho' & Hne). congruence.
      * intros (_ & o & Ho' & _). congruence.
    + replace (match sessionOwners s0 !! id with Some _ => false | None => false end) with false
        by by destruct (sessionOwners s0 !! id).
      destruct (HasFlag f FlagSYN) eqn:Hs; cbn; [done|]. by case_bool.
  - by injection E as <- <-.
  - by injection E as <- <-.
  - destruct (isDialSuppressed now (Target f) s) as [s1 []]; by injection E as <- <-.
  - destruct (run_dial d now (Target f) s) as [s1 r]; by injection E as <- <-.
  - by injection E as <- <-.
  - by injection E as <- <-.
  - by injection E as <- <-.
  - injection E as <- <-. cbn. apply Hnone, IH.
  - by injection E as <- <-.
  - by injection E as <- <-.
  - by injection E as <- <-.
Qed.

(** No part touches what has to do with other clients and other sessions. *)
Lemma route_one_others now timeout held pc s : others_same id owner s (snd (route_one now timeout held pc s)).
Proof.
  destruct pc as [ex known| | | | |[e|conn]| | | | |]; cbn [route_one snd]; try done.
  - apply others_reject.
  - apply others_version.
  - unfold isDialSuppressed. destruct (dialFail s !! Target f); [case_bool|]; done.
  - destruct d; cbn; [done|]. by destruct (dialWithDNSCache _ _ _ _ _ _).
  - unfold recordDialFailure. by case_bool.
  - apply others_register.
  - destruct held; [|done]. destruct (sessions s !! id); [|done]. split; [|done].
    intros i Hi. cbn. by rewrite lookup_insert_ne.
  - unfold touch. destruct (sessions s !! id); [|done]. split; [|done].
    intros i Hi. cbn. by rewrite lookup_insert_ne.
Qed.

(** Only the registration sets an owner. *)
Lemma route_one_owners now timeout held pc s :
  (exists conn, pc = RDialled (inr conn)) \/ sessionOwners (snd (route_one now timeout held pc s)) = sessionOwners s.
Proof.
  destruct pc as [ex known| | | | |[e|conn]| | | | |]; cbn [route_one snd]; try (by right); try (left; by eexists); right.
  - destruct (reject_rejected owner id s) as [[(_ & E & _) _] _ _ _]. exact E.
  - exact (proj1 (proj2 (same_kick owner _))).
  - pose proof (same_suppressed now (Target f) s) as (_ & E & _). by destruct (isDialSuppressed _ _ _).
  - pose proof (same_run_dial d now (Target f) s) as (_ & E & _). by destruct (run_dial _ _ _ _).
  - unfold recordDialFailure. by case_bool.
  - destruct held; [|done]. by destruct (sessions s !! id).
  - unfold touch. by destruct (sessions s !! id).
Qed.

(** C15: a client cannot touch another client's sessions, but for one race.  Let
    a call of [routeIncoming] for a frame of client [owner] be under way, with its
    look-up done in state [s0] and any activity of others since.  Whatever its next
    part does, for a session of another client [o] that is registered now: the
    frames queued for [o] and its wake channel stay; the session, its owner, its
    connection and its activity time stay too, if the frame has another session
    identifier, or if the look-up already saw the session registered for another
    client (the frame is rejected); and the session changes hands only if the
    frame is a SYN, the look-up found nothing and the dial has succeeded
    meanwhile: then it is replaced.  The code does not look again. *)
Theorem route_isolated now timeout held s0 pc s pc' s' i o :
  routing s0 pc s -> route_one now timeout held pc s = (pc', s') ->
  is_Some (sessions s !! i) -> sessionOwners s !! i = Some o -> o <> owner ->
  (queued o s' = queued o s /\ activity s' !! o = activity s !! o)
  /\ (i <> id \/ foreign s0 ->
      sessions s' !! i = sessions s !! i /\ sessionOwners s' !! i = Some o
      /\ upstreams s' !! i = upstreams s !! i /\ lastActivity s' !! i = lastActivity s !! i)
  /\ (sessionOwners s' !! i <> Some o ->
      i = id /\ HasFlag f FlagSYN = true /\ sessions s0 !! id = None
      /\ exists conn, pc = RDialled (inr conn) /\ sessionOwners s' !! i = Some owner /\ upstreams s' !! i = Some conn).
Proof.
  intros Hr E Hx Ho Hne. pose proof (routing_ok s0 pc s Hr) as Hpc.
  assert (Es : s' = snd (route_one now timeout held pc s)) by by rewrite E.
  destruct (route_one_others now timeout held pc s) as [H1 H2]. rewrite <- Es in H1, H2.
  split; [by apply H2|]. split.
  - intros Hor. destruct (decide (i = id)) as [->|Hi]; [|destruct (H1 i Hi) as (-> & -> & -> & ->); done].
    destruct Hor as [|Hf]; [done|]. assert (Hs0 : sessions s0 !! id <> None) by (destruct Hf as [[y Hy] _]; congruence).
    destruct pc as [ex known| | | | |r| | | | |]; cbn in Hpc; try (by destruct Hs0, Hpc); try (by destruct Hs0).
    + cbn in Es. by subst s'.
    + destruct (reject_rejected owner id s) as [[(E1 & E2 & E3 & E4 & _) _] _ _ _]. cbn in Es. subst s'.
      by rewrite E1, E2, E3, E4.
    + cbn in Es. by subst s'.
  - intros Hch. destruct (route_one_owners now timeout held pc s) as [[conn ->]|Eo].
    2:{ rewrite <- Es in Eo. congruence. }
    assert (i = id) as ->.
    { destruct (decide (i = id)) as [|Hi]; [done|]. destruct (H1 i Hi) as (_ & Eo & _). congruence. }
    destruct Hpc as [Hs0 Hsyn]. do 3 (split; [done|]). exists conn. split; [done|].
    cbn in Es. subst s'. cbn. by rewrite !lookup_insert_eq.
Qed.

End Call.
End Routing.

(** ** Concrete runs *)

(** Another client's data frame for a registered session, while its handler is
    about to reject it. *)
Definition demo_reject : rpc :=
  fst (route_one demo_dial None demo_data demo_other 6 false true
    (RFound (bool_decide (is_Some (sessions demo_srv !! demo_sid))) (sessionOwners demo_srv !! demo_sid)) demo_srv).

Lemma demo_reject_routing : routing demo_dial None demo_data demo_other demo_srv demo_reject demo_srv.
Proof.
  eapply rt_own; [apply rt_found|]. instantiate (1 := true). instantiate (1 := false). instantiate (1 := 6).
  vm_compute. reflexivity.
Qed.

Lemma route_isolated_witness :
  let s' := snd (route_one demo_dial None demo_data demo_other 7 false true demo_reject demo_srv) in
  demo_reject = RReject
  /\ sessions s' !! demo_sid = sessions demo_srv !! demo_sid /\ sessionOwners s' !! demo_sid = Some demo_owner.
Proof.
  split; [vm_compute; reflexivity|].
  destruct (route_isolated demo_dial None demo_data demo_other 7 false true demo_srv demo_reject demo_srv
    REnd _ demo_sid demo_owner demo_reject_routing (surjective_pairing _)) as (_ & H & _).
  - apply (bool_decide_unpack _). vm_compute. exact I.
  - vm_compute. reflexivity.
  - discriminate.
  - destruct H as (H1 & H2 & _); [|split; [exact H1|exact H2]]. right. split.
    + apply (bool_decide_unpack _). vm_compute. exact I.
    + exists demo_owner. split; [vm_compute; reflexivity|discriminate].
Defined.

(** The race: the call of the other client found nothing, its dial succeeded, and
    the session that was registered meanwhile changes hands. *)
Example route_hijacks :
  let '(pc, s') := route_one (Conn := nat) demo_dial None demo_syn demo_other 7 false true (RDialled (inr 8%nat)) demo_srv in
  pc = RRegistered /\ sessionOwners demo_srv !! demo_sid = Some demo_owner
  /\ sessionOwners s' !! demo_sid = Some demo_other /\ upstreams s' !! demo_sid = Some 8%nat.
Proof. vm_compute. auto. Qed.
