(* ===== verification/Race.v ===== *)
(** * Two SYNs at once

    [routeIncoming] looks a session up in one critical section and registers it
    in another, after the dial.  A second request with the same SYN (a poll that
    is retried over another deployment while the first dial is pending) can look
    the session up in between.  This file compares that race with the two calls
    one after the other. *)

From S2P Require Import Prelude GoStd Frame Crypto TestLib Session SessionApi Dns Version Exit ExitDrain ExitSteps ExitProps.

Section Race.
Context {S : Type} {A : SessionApi S} {AO : SessionApiOk S} {Conn : Type}.
Implicit Types (s : Server S Conn) (id owner : bytes) (d : dialler Conn).

Lemma run_dial_tables d now target s : same_sessions s (fst (run_dial d now target s))
  /\ dialFail (fst (run_dial d now target s)) = dialFail s.
Proof.
  split; [apply same_run_dial|]. destruct d; cbn; [done|]. by destruct (dialWithDNSCache _ _ _ _ _ _).
Qed.

(** A call that found no session and whose dial succeeds registers one, whatever
    has been registered since. *)
Lemma route_after_opened d info now timeout f owner known s conn :
  HasFlag f FlagSYN = true -> snd (isDialSuppressed now (Target f) s) = false ->
  snd (run_dial d now (Target f) (unsuppressed now (Target f) s)) = inr conn ->
  let id := SessionID f in
  let s' := route_after d info now timeout f owner false known s in
  sessions s' = <[id := api_process timeout f (api_new now id (Target f) false)]> (sessions s)
  /\ sessionOwners s' = <[id := owner]> (sessionOwners s)
  /\ upstreams s' = <[id := conn]> (upstreams s)
  /\ dialFail s' !! Target f = None.
Proof.
  intros Hsyn Hsup Hd id s'. unfold s', route_after, unsuppressed in *.
  replace (match known with Some o => false && negb (bool_decide (o = owner)) | None => false end)
    with false by (by destruct known).
  rewrite Hsyn. cbn [negb]. pose proof (same_suppressed now (Target f) s) as (E1 & E2 & E3 & _ & _ & _).
  destruct (isDialSuppressed now (Target f) s) as [s1 b]. cbn [fst snd] in *. subst b. unfold openSession.
  destruct (run_dial_tables d now (Target f) s1) as [(F1 & F2 & F3 & _ & _ & _) _].
  destruct (run_dial d now (Target f) s1) as [s2 r]. cbn [fst snd] in *. subst r.
  unfold deliver. cbn. rewrite lookup_insert_eq. cbn. by rewrite insert_insert_eq, lookup_delete_eq, F1, F2, F3, E1, E2, E3.
Qed.

(** [gcIdleSessions] closes connections of the table only. *)
Lemma gcIdle_from_table now order s s' ups ss u :
  tables_agree s -> gcIdleSessions now order s = Ok (s', ups, ss) -> u ∈ ups -> exists id, upstreams s !! id = Some u.
Proof.
  intros Hta Hd Hu. unfold gcIdleSessions in Hd.
  destruct (gc_idle_fold now order s) as (R & s1 & vs & He & _ & _ & Hvs); [intros i; by apply (ta_active _ Hta)|].
  rewrite He in Hd. apply close_victims_spec in Hd as (_ & -> & _).
  apply list_elem_of_omap in Hu as ([x up] & Hv & Hu). apply Hvs in Hv as (id & _ & _ & Hup).
  exists id. by rewrite Hup.
Qed.

Lemma route_after_tables d info now timeout f owner ex known s :
  tables_agree s -> tables_agree (route_after d info now timeout f owner ex known s).
Proof.
  intros Hta. set (calls := map (fun id => (id, @nil Byte.byte)) (map fst (map_to_list (sessions s)))).
  destruct (route_after_inv d info now timeout f owner ex known s calls) as [H _]; [|exact H].
  split; [done|]. intros id x Hx _. right. exists []. unfold calls. apply (list_elem_of_fmap_2 (fun id => (id, []))).
  apply list_elem_of_fmap. exists (id, x). split; [done|]. by apply elem_of_map_to_list.
Qed.

(** C25: two requests bring the same SYN.  One after the other, the second frame
    goes to the session the first has opened, whose connection stays.  If the
    second request has looked the session up before the first has registered
    it, its dial replaces session and connection: the session knows the second
    frame only, and the first connection is in no table and is among none that
    the collector closes. *)
Theorem syn_race d1 d2 info now1 now2 t1 t2 f owner s conn1 conn2 :
  tables_agree s -> sessions s !! SessionID f = None -> HasFlag f FlagSYN = true ->
  (forall until, dialFail s !! Target f = Some until -> until < now1) ->
  snd (run_dial d1 now1 (Target f) (unsuppressed now1 (Target f) s)) = inr conn1 ->
  let id := SessionID f in
  let s1 := routeIncoming d1 info now1 t1 f owner s in
  snd (run_dial d2 now2 (Target f) s1) = inr conn2 ->
  let fresh now := api_new now id (Target f) false in
  let later := routeIncoming d2 info now2 t2 f owner s1 in
  let racing := route_after d2 info now2 t2 f owner (bool_decide (is_Some (sessions s !! id))) (sessionOwners s !! id) s1 in
  sessions later !! id = Some (api_process t2 f (api_process t1 f (fresh now1))) /\ upstreams later !! id = Some conn1
  /\ sessions racing !! id = Some (api_process t2 f (fresh now2)) /\ upstreams racing !! id = Some conn2
  /\ (conn1 <> conn2 -> (forall i, upstreams s !! i <> Some conn1) ->
       (forall i, upstreams racing !! i <> Some conn1)
       /\ forall now order s' ups ss, gcIdleSessions now order racing = Ok (s', ups, ss) -> conn1 ∉ ups).
Proof.
  intros Hta Hn Hsyn Hu Hd1 id s1 Hd2 fresh later racing.
  assert (Hsup : snd (isDialSuppressed now1 (Target f) s) = false).
  { rewrite suppressed_spec. destruct (dialFail s !! Target f) as [u|]; [|done].
    by rewrite (proj2 (Z.ltb_lt _ _)) by by apply Hu. }
  assert (Ho : sessionOwners s !! id = None).
  { apply eq_None_not_Some. unfold id. rewrite (ta_owner _ Hta), Hn. by intros []. }
  fold id in Hn. assert (Es1 : s1 = route_after d1 info now1 t1 f owner false None s).
  { unfold s1, routeIncoming. fold id. by rewrite Ho, Hn, (bool_decide_eq_false_2 (is_Some None)) by by intros []. }
  destruct (route_after_opened d1 info now1 t1 f owner None s conn1 Hsyn Hsup Hd1) as (S1 & O1 & U1 & D1).
  rewrite <- Es1 in S1, O1, U1, D1. clear Es1.
  assert (Hsup1 : isDialSuppressed now2 (Target f) s1 = (s1, false)) by by rewrite suppressed_spec, D1.
  assert (Eunsup : unsuppressed now2 (Target f) s1 = s1) by by unfold unsuppressed; rewrite Hsup1.
  destruct (route_after_opened d2 info now2 t2 f owner None s1 conn2 Hsyn) as (S2 & _ & U2 & _);
    [by rewrite Hsup1|by rewrite Eunsup|].
  assert (Er : racing = route_after d2 info now2 t2 f owner false None s1).
  { unfold racing. by rewrite Ho, Hn, (bool_decide_eq_false_2 (is_Some None)) by by intros []. }
  assert (Hl : sessions later !! id = Some (api_process t2 f (api_process t1 f (fresh now1))) /\ upstreams later = upstreams s1).
  { unfold later, routeIncoming, route_after. fold id in S1, O1 |- *. rewrite O1, S1, !lookup_insert_eq.
    rewrite !bool_decide_eq_true_2 by eauto. cbn. unfold deliver. fold id. rewrite S1, lookup_insert_eq. cbn.
    by rewrite lookup_insert_eq. }
  destruct Hl as [Hl1 Hl2]. split; [done|]. split; [by rewrite Hl2, U1, lookup_insert_eq|].
  rewrite Er, S2, U2, !lookup_insert_eq. split; [done|]. split; [done|]. intros Hne Hfresh.
  assert (Hno : forall i, <[id := conn2]> (upstreams s1) !! i <> Some conn1).
  { intros i. destruct (decide (id = i)) as [<-|Hi]; [rewrite lookup_insert_eq; congruence|].
    by rewrite U1, !lookup_insert_ne. }
  split; [exact Hno|]. intros now order s' ups ss Hg Hin.
  eapply gcIdle_from_table in Hg as [i Hi]; [|by do 2 apply route_after_tables|exact Hin].
  rewrite U2 in Hi. by apply (Hno i).
Qed.
End Race.

(** The SYN carries ["hello"]: it reaches two connections, 7 and 8, and 7 is
    forgotten. *)
Definition race_dial (conn : nat) : dialler nat := DialProxy (fun _ => inr conn).
Definition race_first : Server Session nat := routeIncoming (race_dial 7) None 6 false demo_syn demo_owner init_server.
Definition race_second : Server Session nat := route_after (race_dial 8) None 7 false demo_syn demo_owner false None race_first.

Lemma syn_race_witness :
  upstreams race_first !! demo_sid = Some 7%nat /\ upstreams race_second !! demo_sid = Some 8%nat
  /\ (forall i, upstreams race_second !! i <> Some 7%nat).
Proof.
  split; [vm_compute; reflexivity|].
  destruct (syn_race (race_dial 7) (race_dial 8) None 6 7 false false demo_syn demo_owner (init_server : Server Session nat) 7%nat 8%nat)
    as (_ & _ & _ & Hu & Hno).
  - exact (proj1 (exit_world_reach_inv (world_init : World Session nat) ltac:(apply rtc_refl))).
  - vm_compute; reflexivity.
  - vm_compute; reflexivity.
  - by intros u Hn; vm_compute in Hn.
  - reflexivity.
  - reflexivity.
  - destruct Hno as [Hno _]; [discriminate|intros i Hi; vm_compute in Hi; discriminate Hi|].
    split; [exact Hu|exact Hno].
Defined.
