(* ===== verification/Tunnel.v ===== *)
(** * internal/exit/exit.go: the HTTP handler of the tunnel

    [handleTunnel] decodes a batch, routes its frames (the SYNs in whatever
    order their goroutines ran, then the others in batch order), and serves the
    long poll.  A schedule tells how each wait ended: what the other goroutines
    did to the server meanwhile ([w_env]), whether the request was cancelled,
    the wake channel had a token or the timer fired, and the instant of it.  An
    exhausted schedule ([None]) means that the handler still waits.  [Gone] is
    a handler that returned without an answer, with the frames it had drained. *)

From S2P Require Import Prelude GoStd Frame Crypto Session SessionApi Endpoints Dns Version Exit ExitDrain ExitSteps.

Definition st_request (s : serverStats) : serverStats :=
  mkSStats (u64 (st_requests s + 1)) (st_framesIn s) (st_framesOut s) (st_bytesIn s) (st_bytesOut s)
    (st_sessionsOpen s) (st_sessionsClose s) (st_dialsOK s) (st_dialsFail s)
    (st_rstSent s) (st_decodeFailures s).
Definition st_decode_failure (s : serverStats) : serverStats :=
  mkSStats (st_requests s) (st_framesIn s) (st_framesOut s) (st_bytesIn s) (st_bytesOut s)
    (st_sessionsOpen s) (st_sessionsClose s) (st_dialsOK s) (st_dialsFail s)
    (st_rstSent s) (u64 (st_decodeFailures s + 1)).
Definition st_in (fs : list Frame) (s : serverStats) : serverStats :=
  mkSStats (st_requests s) (u64 (st_framesIn s + len fs)) (st_framesOut s)
    (u64 (st_bytesIn s + payload_bytes fs)) (st_bytesOut s)
    (st_sessionsOpen s) (st_sessionsClose s) (st_dialsOK s) (st_dialsFail s)
    (st_rstSent s) (st_decodeFailures s).
Definition st_out (fs : list Frame) (s : serverStats) : serverStats :=
  mkSStats (st_requests s) (st_framesIn s) (u64 (st_framesOut s + len fs))
    (st_bytesIn s) (u64 (st_bytesOut s + payload_bytes fs))
    (st_sessionsOpen s) (st_sessionsClose s) (st_dialsOK s) (st_dialsFail s)
    (st_rstSent s) (st_decodeFailures s).

Definition drainWindow (rxFrames : list Frame) : Z :=
  if 0 <? len rxFrames then ActiveDrainWindow else LongPollWindow.

Inductive event := CtxDone | Wake | Timeout.

Inductive response :=
| Status (code : Z)
| Written (body : bytes) (frames : list Frame)
| Gone (lost : list Frame).

Section Tunnel.
Context {L : CryptoLib} {S : Type} {A : SessionApi S} {Conn : Type}.
Context (crypto : Crypto) (order : bytes -> Server S Conn -> list bytes)
  (gc_order : Server S Conn -> list bytes).

Definition coalesceDuration (currentFrames : Z) (s : Server S Conn) : Z :=
  if (busySessionThreshold <=? Z.of_nat (size (sessions s)))
     && (currentFrames <? maxDrainFramesPerBatch / 2)
  then coalesceWindowBusy else coalesceWindow.

Record Wait := mkWait {
  w_env : Server S Conn -> Server S Conn;
  w_event : event;
  w_now : Z;
}.

(** A receive on the wake channel. *)
Definition receive (ch : nat) (s : Server S Conn) : Server S Conn :=
  set_activity (activity s) (tokens s ∖ {[ch]}) (nextChan s) s.

(** What the coalesce loop gives: the request was cancelled, or the batch to
    send and the instant. *)
Inductive coalesced :=
| Cancelled (s : Server S Conn) (lost : list Frame)
| Batch (s : Server S Conn) (now : Z) (txFrames : list Frame).

Fixpoint coalesce (owner : bytes) (ch : nat) (deadline : Z) (ws : list Wait) (now totalBytes : Z)
    (txFrames : list Frame) (s : Server S Conn) : option coalesced :=
  if After now deadline || (maxResponseBytesPreEncode <=? totalBytes)
  then Some (Batch s now txFrames) else
  match ws with
  | [] => None
  | w :: ws =>
      let s := w_env w s in
      match w_event w with
      | CtxDone => Some (Cancelled s txFrames)
      | Wake =>
          let s := receive ch s in
          let '(s, more, _) :=
            drainAll (w_now w) (order owner s) owner (maxResponseBytesPreEncode - totalBytes) s in
          coalesce owner ch deadline ws (w_now w) (totalBytes + payload_bytes more) (txFrames ++ more) s
      | Timeout => Some (Batch s (w_now w) txFrames)
      end
  end.

(** Encoding and writing the answer. *)
Definition answer (rand : option bytes) (owner : bytes) (now : Z) (txFrames : list Frame)
    (s : Server S Conn) : res Empty_set (Server S Conn * response) :=
  match EncodeBatch crypto rand owner txFrames with
  | Err _ => Ok (s, Status 500)
  | Panic => Panic
  | Ok respBody =>
      let s := set_sstats (st_out txFrames (sstats s)) s in
      Ok (gcDoneSessions now (gc_order s) s, Written respBody txFrames)
  end.

(** The empty answer; an error of the encoder leaves an empty body. *)
Definition answer_empty (rand : option bytes) (owner : bytes) : response :=
  match EncodeBatch crypto rand owner [] with Ok b => Written b [] | _ => Written [] [] end.

(** The long poll from instant [now]. *)
Fixpoint serve (rand : option bytes) (owner : bytes) (ch : nat) (deadline : Z) (ws : list Wait)
    (now : Z) (s : Server S Conn) : option (res Empty_set (Server S Conn * response)) :=
  let '(s, txFrames, urgent) :=
    drainAll now (order owner s) owner maxResponseBytesPreEncode s in
  if 0 <? len txFrames then
    let totalBytes := payload_bytes txFrames in
    if negb urgent && (coalesceMinFrames <? len txFrames) && (totalBytes <? maxResponseBytesPreEncode)
    then
      match coalesce owner ch (now + coalesceDuration (len txFrames) s) ws now totalBytes txFrames s with
      | None => None
      | Some (Cancelled s lost) => Some (Ok (s, Gone lost))
      | Some (Batch s now txFrames) => Some (answer rand owner now txFrames s)
      end
    else Some (answer rand owner now txFrames s)
  else if deadline - now <=? 0 then Some (Ok (s, answer_empty rand owner))
  else
    match ws with
    | [] => None
    | w :: ws =>
        let s := w_env w s in
        match w_event w with
        | CtxDone => Some (Ok (s, Gone []))
        | Wake => serve rand owner ch deadline ws (w_now w) (receive ch s)
        | Timeout => serve rand owner ch deadline ws (w_now w) s
        end
    end.

(** Routing the frames of a batch.  [syns] is the order in which the
    goroutines of the SYN frames ran. *)
Definition route_all (d : dialler Conn) (info : option bytes) (now : Z) (timeouts : Frame -> bool)
    (owner : bytes) (fs : list Frame) (s : Server S Conn) : Server S Conn :=
  foldl (fun s f => routeIncoming d info now (timeouts f) f owner s) s fs.

Definition is_syn (f : Frame) : bool := HasFlag f FlagSYN.

Definition route_batch (d : dialler Conn) (info : option bytes) (now : Z) (timeouts : Frame -> bool)
    (owner : bytes) (syns rxFrames : list Frame) (s : Server S Conn) : Server S Conn :=
  route_all d info now timeouts owner (List.filter (fun f => negb (is_syn f)) rxFrames)
    (route_all d info now timeouts owner syns s).

(** [body] is [None] if reading it failed; [syns] permutes the SYN frames. *)
Definition handleTunnel (d : dialler Conn) (info : option bytes) (timeouts : Frame -> bool)
    (rand : option bytes) (isPost : bool) (body : option bytes) (syns : list Frame -> list Frame)
    (ws : list Wait) (now : Z) (s : Server S Conn)
    : option (res Empty_set (Server S Conn * response)) :=
  if negb isPost then Some (Ok (s, Status 405)) else
  let s := set_sstats (st_request (sstats s)) s in
  match body with
  | None => Some (Ok (s, Status 400))
  | Some body =>
      match DecodeBatch crypto body with
      | Err _ => Some (Ok (set_sstats (st_decode_failure (sstats s)) s, Status 204))
      | Panic => Some Panic
      | Ok (clientID, rxFrames) =>
          let s := if 0 <? len rxFrames then set_sstats (st_in rxFrames (sstats s)) s else s in
          let s := route_batch d info now timeouts clientID
                     (syns (List.filter is_syn rxFrames)) rxFrames s in
          let '(s, wakeCh) := activityFor clientID s in
          serve rand clientID wakeCh (now + drainWindow rxFrames) ws now s
      end
  end.

End Tunnel.
Arguments Wait S Conn : clear implicits.
