(* ===== verification/TunnelProps.v ===== *)
(** * What the tunnel handler promises

    The frames of a batch find their sessions, data does not wait longer than
    it must, every poll ends, and the answer decodes to what was drained; a
    request that is cancelled while it coalesces loses what it had drained. *)

From S2P Require Import Prelude GoStd Frame Crypto TestLib Session SessionApi Endpoints Dns Version Exit ExitDrain ExitSteps.
From S2P Require Import ExitProps Tunnel.

#[local] Arguments drainAll : simpl never.

Section Routing.
Context {S : Type} {A : SessionApi S} {AO : SessionApiOk S} {Conn : Type}.
Implicit Types (s : Server S Conn) (owner id : bytes).

(** ** Routing *)

Definition owned owner id s : Prop :=
  is_Some (sessions s !! id) /\ sessionOwners s !! id = Some owner.

(** The state while the SYNs [rest] are still to be routed. *)
Record routing owner (ids : list bytes) (rest : list Frame) s0 s : Prop := {
  ro_tables : tables_agree s;
  ro_queues : pendingRSTs s = pendingRSTs s0 /\ pendingCtrl s = pendingCtrl s0;
  ro_dial : forall f, f ∈ rest -> dialFail s !! Target f = None;
  ro_owned : forall id, id ∈ ids ->
    owned owner id s \/ (sessions s !! id = None /\ exists f, f ∈ rest /\ SessionID f = id);
}.

Lemma deliver_queues now t f s :
  pendingRSTs (deliver now t f s) = pendingRSTs s /\ pendingCtrl (deliver now t f s) = pendingCtrl s
  /\ dialFail (deliver now t f s) = dialFail s /\ sessionOwners (deliver now t f s) = sessionOwners s
  /\ (forall id, is_Some (sessions (deliver now t f s) !! id) <-> is_Some (sessions s !! id)).
Proof.
  unfold deliver. destruct (sessions s !! SessionID f) as [x|] eqn:Hx; [|done].
  split_and!; try done. intros id. cbn. rewrite lookup_insert_is_Some.
  destruct (decide (SessionID f = id)) as [<-|]; [|tauto]. rewrite Hx. split; [by eexists|by left].
Qed.

Lemma owned_deliver now t f owner id s : owned owner id (deliver now t f s) <-> owned owner id s.
Proof. unfold owned. destruct (deliver_queues now t f s) as (_ & _ & _ & -> & ->). done. Qed.

Lemma route_owned (d : dialler Conn) info now t f owner s :
  owned owner (SessionID f) s -> routeIncoming d info now t f owner s = deliver now t f s.
Proof.
  intros [Hs Ho]. unfold routeIncoming, route_after. rewrite Ho.
  rewrite (bool_decide_eq_true_2 (is_Some _)) by done. by rewrite (bool_decide_eq_true_2 (owner = owner)).
Qed.

(** The second phase: every frame has a session of the client. *)
Lemma route_all_owned (d : dialler Conn) info now ts owner fs s :
  (forall f, f ∈ fs -> owned owner (SessionID f) s) ->
  route_all d info now ts owner fs s = foldl (fun s f => deliver now (ts f) f s) s fs
  /\ pendingRSTs (route_all d info now ts owner fs s) = pendingRSTs s
  /\ pendingCtrl (route_all d info now ts owner fs s) = pendingCtrl s
  /\ (forall id, owned owner id (route_all d info now ts owner fs s) <-> owned owner id s).
Proof.
  revert s. induction fs as [|f fs IH]; intros s H; cbn; [done|].
  rewrite route_owned by (apply H; left).
  destruct (IH (deliver now (ts f) f s)) as (E & Er & Ec & Ho).
  { intros g Hg. apply owned_deliver, H. by right. }
  destruct (deliver_queues now (ts f) f s) as (Qr & Qc & _).
  unfold route_all in *. split; [done|]. split; [congruence|]. split; [congruence|].
  intros id. rewrite Ho. apply owned_deliver.
Qed.

(** A dialler that reaches every target. *)
Definition reaches (d : dialler Conn) (target : bytes) : Prop :=
  forall now s, exists conn, snd (run_dial d now target s) = inr conn.

Lemma route_syn (d : dialler Conn) info now t f owner ids rest s0 s :
  routing owner ids (f :: rest) s0 s -> is_syn f = true -> reaches d (Target f) ->
  SessionID f ∈ ids ->
  routing owner ids rest s0 (routeIncoming d info now t f owner s).
Proof.
  intros [Hta [Hqr Hqc] Hdf Hown] Hsyn Hr Hid.
  assert (Hta' : tables_agree (routeIncoming d info now t f owner s)).
  { apply (route_after_inv d info now t f owner _ _ s
      (map (fun id => (id, id)) (map fst (map_to_list (sessions s))))).
    split; [done|]. intros id x Hx _. right. exists id.
    apply (list_elem_of_fmap_2 (fun id => (id, id))), (list_elem_of_fmap_2' fst _ (id, x)); [|done].
    by apply elem_of_map_to_list. }
  destruct (Hown _ Hid) as [Ho|[Hn _]].
  - rewrite route_owned in * by done. destruct (deliver_queues now t f s) as (Qr & Qc & Qd & _ & _).
    constructor; [done|split; congruence| |].
    + intros g Hg. rewrite Qd. apply Hdf. by right.
    + intros id Hi. rewrite owned_deliver. destruct (Hown id Hi) as [|[Hni (g & Hg & Hgi)]]; [by left|].
      apply elem_of_cons in Hg as [->|Hg]; [left; by rewrite <- Hgi|]. right.
      split; [|by exists g]. apply eq_None_not_Some.
      destruct (deliver_queues now t f s) as (_ & _ & _ & _ & ->). by rewrite Hni; intros [].
  - assert (Hnf : dialFail s !! Target f = None) by (apply Hdf; left).
    assert (Hno : sessionOwners s !! SessionID f = None).
    { apply eq_None_not_Some. rewrite (ta_owner _ Hta), Hn. by intros []. }
    revert Hta'. unfold routeIncoming, route_after.
    rewrite Hn, Hno, (bool_decide_eq_false_2 (is_Some None)) by by intros [].
    unfold is_syn in Hsyn. rewrite Hsyn. cbn [negb]. unfold isDialSuppressed. rewrite Hnf.
    unfold openSession. destruct (Hr now s) as [conn Hconn].
    pose proof (same_run_dial d now (Target f) s) as (F1 & F2 & _).
    assert (Hq : pendingRSTs (fst (run_dial d now (Target f) s)) = pendingRSTs s
      /\ pendingCtrl (fst (run_dial d now (Target f) s)) = pendingCtrl s
      /\ dialFail (fst (run_dial d now (Target f) s)) = dialFail s).
    { destruct d; cbn; [done|]. by destruct (dialWithDNSCache _ _ _ _ _ _). }
    destruct (run_dial d now (Target f) s) as [s2 r]. cbn [fst snd] in *. subst r.
    set (s3 := clearDialFailure _ _). intros Hta'.
    destruct (deliver_queues now t f s3) as (Qr & Qc & Qd & Qo & Qs). destruct Hq as (Q1 & Q2 & Q3).
    constructor; [done|rewrite Qr, Qc; cbn; split; congruence| |].
    + intros g Hg. rewrite Qd. cbn. rewrite Q3.
      destruct (decide (Target g = Target f)) as [->|]; [by rewrite lookup_delete_eq|].
      rewrite lookup_delete_ne by congruence. apply Hdf. by right.
    + intros id Hi. rewrite owned_deliver. destruct (decide (id = SessionID f)) as [->|Hne].
      { left. unfold owned. cbn. rewrite !lookup_insert_eq. split; [by eexists|done]. }
      assert (Hold : sessions s3 !! id = sessions s !! id /\ sessionOwners s3 !! id = sessionOwners s !! id).
      { cbn. rewrite !lookup_insert_ne, F1, F2 by congruence. done. }
      destruct Hold as [Hs3 Ho3].
      destruct (Hown id Hi) as [[? ?]|[Hni (g & Hg & Hgi)]]; [left; unfold owned; by rewrite Hs3, Ho3|].
      apply elem_of_cons in Hg as [->|Hg]; [congruence|]. right. split; [|by exists g].
      apply eq_None_not_Some. rewrite Qs, Hs3, Hni. by intros [].
Qed.

Lemma route_syns (d : dialler Conn) info now ts owner ids syns s0 s :
  (forall f, f ∈ syns -> is_syn f = true /\ reaches d (Target f) /\ SessionID f ∈ ids) ->
  routing owner ids syns s0 s ->
  routing owner ids [] s0 (route_all d info now ts owner syns s).
Proof.
  revert s. induction syns as [|f syns IH]; intros s Hall H; [done|]. cbn.
  destruct (Hall f) as (? & ? & ?); [left|].
  apply IH; [intros g Hg; apply Hall; by right|]. by eapply route_syn.
Qed.

(** C17: no frame of a batch is refused because of its place in it.  If every
    frame belongs to a session of the client or to one whose SYN is anywhere in
    the same batch, the targets can be dialled and are not backed off, then,
    in whatever order the SYN goroutines run, no reset is queued and afterwards
    every frame's session is registered for the client. *)
Theorem route_batch_accepts (d : dialler Conn) info now ts owner syns rxFrames s :
  tables_agree s -> syns ≡ₚ List.filter is_syn rxFrames ->
  (forall f, f ∈ rxFrames -> is_syn f = true -> reaches d (Target f) /\ dialFail s !! Target f = None) ->
  (forall f, f ∈ rxFrames -> owned owner (SessionID f) s
     \/ (sessions s !! SessionID f = None /\ exists g, g ∈ rxFrames /\ is_syn g = true /\ SessionID g = SessionID f)) ->
  let s' := route_batch d info now ts owner syns rxFrames s in
  (forall f, f ∈ rxFrames -> owned owner (SessionID f) s')
  /\ pendingRSTs s' = pendingRSTs s /\ pendingCtrl s' = pendingCtrl s.
Proof.
  intros Hta Hperm Hdial Hown s'.
  assert (Hin : forall f, f ∈ syns <-> f ∈ rxFrames /\ is_syn f = true).
  { intros f. rewrite Hperm, !list_elem_of_In, filter_In. done. }
  assert (H : routing owner (map SessionID rxFrames) syns s s).
  { constructor; [done|done| |].
    - intros f [Hf Hs]%Hin. by apply Hdial.
    - intros id (f & -> & Hf)%list_elem_of_fmap. destruct (Hown f Hf) as [|[Hn (g & Hg & Hs & Hi)]]; [by left|].
      right. split; [done|]. exists g. rewrite Hin. done. }
  apply (route_syns d info now ts) in H.
  2: { intros f [Hf Hs]%Hin. split; [done|]. split; [by apply Hdial|]. by apply list_elem_of_fmap_2. }
  destruct H as [_ [Hr Hc] _ Ho].
  set (s1 := route_all d info now ts owner syns s) in *.
  assert (Hall : forall f, f ∈ rxFrames -> owned owner (SessionID f) s1).
  { intros f Hf. destruct (Ho (SessionID f)) as [|[_ (g & Hg & _)]]; [by apply list_elem_of_fmap_2|done|].
    by apply elem_of_nil in Hg. }
  destruct (route_all_owned d info now ts owner (List.filter (fun f => negb (is_syn f)) rxFrames) s1)
    as (_ & Er & Ec & Hid).
  { intros f Hf. apply Hall. apply list_elem_of_In in Hf. apply filter_In in Hf as [Hf _].
    by apply list_elem_of_In. }
  unfold s', route_batch. fold s1. split; [|split; congruence].
  intros f Hf. by apply Hid, Hall.
Qed.

End Routing.

(** ** Serving *)

Section Serving.
Context {L : CryptoLib} {S : Type} {A : SessionApi S} {AO : SessionApiOk S} {Conn : Type}.
Context (crypto : Crypto) (order : bytes -> Server S Conn -> list bytes)
  (gc_order : Server S Conn -> list bytes).
Implicit Types (s : Server S Conn) (owner id : bytes) (ws : list (Wait S Conn)).

(** The condition under which a batch waits for more. *)
Definition coalesces (urgent : bool) (tx : list Frame) : bool :=
  negb urgent && (coalesceMinFrames <? len tx) && (payload_bytes tx <? maxResponseBytesPreEncode).

Lemma serve_unfold rand owner ch deadline ws now s :
  serve crypto order gc_order rand owner ch deadline ws now s
  = (let '(s1, tx, urgent) := drainAll now (order owner s) owner maxResponseBytesPreEncode s in
     if 0 <? len tx then
       if coalesces urgent tx then
         match coalesce order owner ch (now + coalesceDuration (len tx) s1) ws now (payload_bytes tx) tx s1 with
         | None => None
         | Some (Cancelled s2 lost) => Some (Ok (s2, Gone lost))
         | Some (Batch s2 now2 tx2) => Some (answer crypto gc_order rand owner now2 tx2 s2)
         end
       else Some (answer crypto gc_order rand owner now tx s1)
     else if deadline - now <=? 0 then Some (Ok (s1, answer_empty crypto rand owner))
     else match ws with
          | [] => None
          | w :: ws =>
              let s2 := w_env w s1 in
              match w_event w with
              | CtxDone => Some (Ok (s2, Gone []))
              | Wake => serve crypto order gc_order rand owner ch deadline ws (w_now w) (receive ch s2)
              | Timeout => serve crypto order gc_order rand owner ch deadline ws (w_now w) s2
              end
          end).
Proof. by destruct ws. Qed.

(** Interactive traffic does not wait.  If something is ready for the
    client when the handler looks, it does not wait for a wake-up: it answers
    at once with what it drained, unless that is a bulk batch (more than four
    frames, below the byte budget, no reset and no first reply in it), the only
    case in which it waits for more. *)
Theorem serve_prompt rand owner ch deadline ws now s id x :
  tables_agree s -> (forall s, valid_order owner s (order owner s)) ->
  id ∈ txReady s -> sessions s !! id = Some x -> api_pending x = true ->
  sessionOwners s !! id = Some owner ->
  exists s1 tx urgent,
    drainAll now (order owner s) owner maxResponseBytesPreEncode s = (s1, tx, urgent)
    /\ tx <> []
    /\ (urgent = true \/ len tx <= coalesceMinFrames \/ maxResponseBytesPreEncode <= payload_bytes tx ->
        serve crypto order gc_order rand owner ch deadline ws now s
        = Some (answer crypto gc_order rand owner now tx s1)).
Proof.
  intros Hta Hord Hr Hx Hp Ho.
  destruct (drainAll now (order owner s) owner maxResponseBytesPreEncode s) as [[s1 tx] urgent] eqn:Hd.
  exists s1, tx, urgent. split; [done|]. assert (Hne : tx <> []).
  { intros ->. destruct (drainAll_serves_owner now (order owner s) owner _ s s1 [] urgent id x
      (ta_ok _ Hta) (Hord s) Hd Hr Hx Hp) as [(f & Hf & _)|[Hl|Hb]]; [by rewrite Ho|by apply elem_of_nil in Hf|..].
    - pose proof (srv_batch_cap_pos s). pose proof (len_nonneg (queued owner s)). unfold len in Hl at 1. cbn in Hl. lia.
    - pose proof (payload_bytes_nonneg (queued owner s)). cbn in Hb. unfold maxResponseBytesPreEncode in Hb. lia. }
  split; [done|]. intros Hq. rewrite serve_unfold, Hd.
  rewrite (proj2 (Z.ltb_lt _ _)) by by apply len_pos.
  assert (Hc : coalesces urgent tx = false); [|by rewrite Hc].
  unfold coalesces. destruct Hq as [->|[Hl|Hb]]; [done| |].
  - rewrite (proj2 (Z.ltb_ge coalesceMinFrames _)) by done. by rewrite andb_false_r.
  - rewrite (proj2 (Z.ltb_ge (payload_bytes tx) _)) by done. by rewrite andb_false_r.
Qed.

(** The clocks of a schedule never go back. *)
Fixpoint clocks (now : Z) ws : Prop :=
  match ws with [] => True | w :: ws => now <= w_now w /\ clocks (w_now w) ws end.

Lemma clocks_in now ws w : clocks now ws -> w ∈ ws -> now <= w_now w.
Proof.
  revert now. induction ws as [|v ws IH]; intros now; cbn; [by intros _ ?%elem_of_nil|].
  intros [Hv Hc] [->|Hin]%elem_of_cons; [done|]. etransitivity; [exact Hv|by apply IH].
Qed.

Lemma coalesce_ends owner ch deadline ws now total tx s :
  clocks now ws -> (exists w, w ∈ ws /\ deadline < w_now w) ->
  coalesce order owner ch deadline ws now total tx s <> None.
Proof.
  revert now total tx s. induction ws as [|w ws IH]; intros now total tx s Hc (v & Hv & Hd).
  { by apply elem_of_nil in Hv. }
  cbn. case_bool; [done|]. destruct (w_event w); [done| |done].
  match goal with |- context [drainAll ?a ?b ?c ?d ?e] => destruct (drainAll a b c d e) as [[s1 more] u] end. destruct Hc as [Hw Hc].
  apply elem_of_cons in Hv as [->|Hv]; [|by apply IH; [|exists v]].
  destruct ws; cbn; unfold After; rewrite (proj2 (Z.ltb_lt _ _)) by done; done.
Qed.

Lemma coalesceDuration_le n s : coalesceDuration n s <= coalesceWindow.
Proof. unfold coalesceDuration. by case_bool. Qed.

(** One round of [serve] does not get stuck. *)
Lemma serve_step rand owner ch deadline ws now s :
  clocks now ws -> (exists w, w ∈ ws /\ now + coalesceWindow < w_now w) ->
  (deadline <= now \/ exists w ws', ws = w :: ws'
     /\ forall s', serve crypto order gc_order rand owner ch deadline ws' (w_now w) s' <> None) ->
  serve crypto order gc_order rand owner ch deadline ws now s <> None.
Proof.
  intros Hc (w & Hw & Hlt) Hrest. rewrite serve_unfold.
  match goal with |- context [drainAll ?a ?b ?c ?d ?e] => destruct (drainAll a b c d e) as [[s1 tx] urgent] end.
  case_bool; [case_bool; [|done]|].
  - pose proof (coalesceDuration_le (len tx) s1).
    pose proof (coalesce_ends owner ch (now + coalesceDuration (len tx) s1) ws now (payload_bytes tx) tx s1 Hc) as He.
    destruct (coalesce order owner ch _ ws now (payload_bytes tx) tx s1) as [[]|]; [done|done|].
    exfalso. apply He; [|done]. exists w. split; [done|]. lia.
  - case_bool; [done|]. b2p. destruct Hrest as [|(v & ws' & -> & Hs)]; [lia|].
    destruct (w_event v); [done|apply Hs..].
Qed.

(** C18: every poll ends.  Once the deadline has passed at one wake-up and more
    than the coalesce window after that at another, the handler has returned,
    whatever the other goroutines did in between; no schedule keeps it waiting
    longer. *)
Theorem serve_ends rand owner ch deadline now s ws1 w1 ws2 w2 ws3 :
  let ws := ws1 ++ w1 :: ws2 ++ w2 :: ws3 in
  clocks now ws -> deadline <= w_now w1 -> w_now w1 + coalesceWindow < w_now w2 ->
  serve crypto order gc_order rand owner ch deadline ws now s <> None.
Proof.
  intros ws. subst ws. revert now s. induction ws1 as [|w ws1 IH]; intros now s Hc Hd Hw.
  - pose proof Hc as [Hn Hc']. apply serve_step; [done| |right; eexists _, _; split; [done|]].
    + exists w2. split; [cbn; rewrite elem_of_cons, elem_of_app, elem_of_cons; auto|lia].
    + intros s'. apply serve_step; [done| |by left]. exists w2.
      split; [rewrite elem_of_app, elem_of_cons; auto|lia].
  - assert (now <= w_now w1).
    { apply (clocks_in _ _ _ Hc). cbn. rewrite elem_of_cons, elem_of_app, elem_of_cons. auto. }
    apply serve_step; [done| |right; eexists _, _; split; [done|]].
    + exists w2. split; [|lia]. cbn. rewrite elem_of_cons, elem_of_app, !elem_of_cons, elem_of_app, elem_of_cons. auto 7.
    + intros s'. apply IH; [by destruct Hc|done|done].
Qed.

(** A cancelled request loses data.  When the request is cancelled while
    the handler coalesces, the frames it had drained are in no session and in no
    answer: the handler returns with the server as the drain left it. *)
Theorem cancelled_poll_loses rand owner ch deadline w ws now s s1 tx :
  drainAll now (order owner s) owner maxResponseBytesPreEncode s = (s1, tx, false) ->
  coalesceMinFrames < len tx -> payload_bytes tx < maxResponseBytesPreEncode ->
  w_event w = CtxDone -> (forall s, w_env w s = s) ->
  serve crypto order gc_order rand owner ch deadline (w :: ws) now s = Some (Ok (s1, Gone tx)).
Proof.
  intros Hd Hl Hb Hev Henv. rewrite serve_unfold, Hd.
  unfold coalesceMinFrames in Hl. rewrite (proj2 (Z.ltb_lt _ _)) by lia.
  assert (Hc : coalesces false tx = true).
  { unfold coalesces, coalesceMinFrames. cbn [negb andb]. rewrite !(proj2 (Z.ltb_lt _ _)) by done. done. }
  rewrite Hc. cbn. unfold After.
  assert (Hpos : 0 < coalesceDuration (len tx) s1) by (unfold coalesceDuration; by case_bool).
  rewrite (proj2 (Z.ltb_ge _ _)) by lia. rewrite (proj2 (Z.leb_gt _ _)) by done. cbn.
  by rewrite Hev, Henv.
Qed.

(** ** Answers *)

Definition answered (rand : option bytes) owner (r : response) : Prop :=
  match r with
  | Written body fs => EncodeBatch crypto rand owner fs = Ok body \/ (fs = [] /\ body = [])
  | _ => True
  end.

Lemma answer_answered rand owner now tx s s' r :
  answer crypto gc_order rand owner now tx s = Ok (s', r) -> answered rand owner r.
Proof.
  unfold answer. destruct (EncodeBatch crypto rand owner tx) eqn:He; [| |done]; intros [= <- <-]; [|done].
  by left.
Qed.

Lemma serve_answered rand owner ch deadline ws now s s' r :
  serve crypto order gc_order rand owner ch deadline ws now s = Some (Ok (s', r)) -> answered rand owner r.
Proof.
  revert now s. induction ws as [|w ws IH]; intros now s; rewrite serve_unfold;
    match goal with |- context [drainAll ?a ?b ?c ?d ?e] => destruct (drainAll a b c d e) as [[s1 tx] urgent] end.
  all: case_bool; [case_bool; [|intros [= H]; by eapply answer_answered];
    destruct (coalesce order owner ch _ _ now (payload_bytes tx) tx s1) as [[]|];
    [by intros [= <- <-]|intros [= H]; by eapply answer_answered|done]|].
  all: case_bool; [intros [= <- <-]; unfold answer_empty; destruct (EncodeBatch crypto rand owner []) eqn:He;
    [left; done|right; done|right; done]|].
  - done.
  - destruct (w_event w); [by intros [= <- <-]|apply IH..].
Qed.

(** What the client reads is what was drained.  Every answer with a body
    decodes, under the client's key and without error, to exactly the frames
    the handler took out of the server, addressed to the client that asked. *)
Theorem serve_roundtrip {LO : CryptoLibOk L} {AL : AeadLaws (aead crypto)} nonce owner ch deadline ws now s s' body fs :
  len nonce = NonceSize (aead crypto) -> len owner = ClientIDLen -> Forall frame_wf fs ->
  serve crypto order gc_order (Some nonce) owner ch deadline ws now s = Some (Ok (s', Written body fs)) ->
  (0 < len body /\ DecodeBatch crypto body = Ok (owner, fs)) \/ (fs = [] /\ body = []).
Proof.
  intros Hn Ho Hwf [He|He]%serve_answered; [left|by right]. by eapply DecodeBatch_encoded.
Qed.

End Serving.

(** ** Concrete inputs *)

Definition demo_order (owner : bytes) (s : Server Session nat) : list bytes := some_order owner s.
Definition demo_gc_order (s : Server Session nat) : list bytes := map fst (map_to_list (sessions s)).

Definition demo_batch : list Frame := [demo_data; demo_syn].

Lemma demo_dial_reaches : reaches (S := Session) demo_dial (str "good:1").
Proof. intros now s. by exists 7%nat. Qed.

Lemma route_batch_accepts_witness :
  owned (S := Session) demo_owner demo_sid
    (route_batch demo_dial None 5 (fun _ => false) demo_owner [demo_syn] demo_batch init_server).
Proof.
  destruct (route_batch_accepts demo_dial None 5 (fun _ => false) demo_owner [demo_syn] demo_batch
    (init_server (S := Session))) as [H _].
  - exact (proj1 (exit_world_reach_inv world_init (rtc_refl _ _))).
  - vm_compute. reflexivity.
  - intros f [->|[->|H]%elem_of_cons]%elem_of_cons Hs; [vm_compute in Hs; discriminate Hs| |by apply elem_of_nil in H].
    split; [exact demo_dial_reaches|reflexivity].
  - intros f [->|[->|H]%elem_of_cons]%elem_of_cons; [right|right|by apply elem_of_nil in H];
      (split; [reflexivity|exists demo_syn; split; [right; left|by split]]).
  - apply (H demo_data). left.
Defined.

Lemma serve_prompt_witness :
  exists s1 tx urgent,
    serve test_crypto demo_order demo_gc_order (Some test_nonce) demo_owner 0 100 [] 9 demo_ready
      = Some (answer test_crypto demo_gc_order (Some test_nonce) demo_owner 9 tx s1)
    /\ drainAll 9 (demo_order demo_owner demo_ready) demo_owner maxResponseBytesPreEncode demo_ready = (s1, tx, urgent).
Proof.
  destruct (serve_prompt test_crypto demo_order demo_gc_order (Some test_nonce) demo_owner 0 100 [] 9 demo_ready
    demo_sid (default (New 0 [] [] false) (sessions demo_ready !! demo_sid)) demo_ready_agree)
    as (s1 & tx & urgent & Hd & _ & Hs).
  - intros s. apply srv_some_order_valid.
  - apply (bool_decide_unpack _). vm_compute. exact I.
  - vm_compute. reflexivity.
  - vm_compute. reflexivity.
  - vm_compute. reflexivity.
  - exists s1, tx, urgent. split; [|exact Hd]. apply Hs.
    left. change urgent with (snd (s1, tx, urgent)). rewrite <- Hd. vm_compute. reflexivity.
Defined.

Definition quiet (now : Z) : Wait Session nat := mkWait (fun s => s) Timeout now.

Lemma serve_ends_witness :
  serve test_crypto demo_order demo_gc_order (Some test_nonce) demo_owner 0 100
    [quiet 100; quiet (200 + coalesceWindow)] 9 demo_ready <> None.
Proof.
  apply (serve_ends test_crypto demo_order demo_gc_order (Some test_nonce) demo_owner 0 100 9 demo_ready
    [] (quiet 100) [] (quiet (200 + coalesceWindow)) []); vm_compute; repeat split; discriminate.
Defined.

(** Five sessions with a byte each, none of them new. *)
Definition demo_bulk : Server Session nat :=
  let id i := str "session-0000001" ++ [z2b (97 + Z.of_nat i)] in
  let add s i := set_sess (<[id i := fst (default (New 0 [] [] false, false) (EnqueueTx 3 (str "x") (New 2 (id i) [] false)))]>
                             (sessions s)) (<[id i := demo_owner]> (sessionOwners s)) ({[id i]} ∪ txReady s) ∅ ∅ ∅ s in
  foldl add init_server (seq 0 5).

(** Each of the five gets another byte. *)
Definition demo_more (s : Server Session nat) : Server Session nat :=
  foldl (fun s id => match sessions s !! id with
    | Some x => OnTx id demo_owner (put id (fst (default (x, false) (EnqueueTx 10 (str "x") x))) s)
    | None => s
    end) s (map fst (map_to_list (sessions s))).

(** The cap holds for one call of [drainAll], not for an answer: while the handler
    coalesces, each wake-up adds what another call gives. *)
Example answer_passes_cap :
  match serve test_crypto demo_order demo_gc_order (Some test_nonce) demo_owner 0 100
      (repeat (mkWait demo_more Wake 10) 9 ++ [quiet 20]) 9 demo_bulk with
  | Some (Ok (_, Written _ fs)) => (len fs, Z.of_nat (size (sessions demo_bulk)))
  | _ => (0, 0)
  end = (50, 5) /\ maxDrainFramesPerBatch = 48 /\ busySessionThreshold = 24.
Proof. split; [vm_compute; reflexivity|done]. Qed.

Lemma cancelled_poll_loses_witness :
  exists s1 tx, serve test_crypto demo_order demo_gc_order (Some test_nonce) demo_owner 0 100
    [mkWait (fun s => s) CtxDone 20] 9 demo_bulk = Some (Ok (s1, Gone tx)) /\ len tx = 5.
Proof.
  destruct (drainAll 9 (demo_order demo_owner demo_bulk) demo_owner maxResponseBytesPreEncode demo_bulk)
    as [[s1 tx] urgent] eqn:Hd.
  assert (Hl : map Payload tx = repeat (str "x") 5).
  { change tx with (snd (fst (s1, tx, urgent))). rewrite <- Hd. vm_compute. reflexivity. }
  assert (Hlen : len tx = 5) by (rewrite <- (len_map Payload tx), Hl; reflexivity).
  assert (Hb : payload_bytes tx = 5).
  { change tx with (snd (fst (s1, tx, urgent))). rewrite <- Hd. vm_compute. reflexivity. }
  assert (Hu : urgent = false).
  { change urgent with (snd (s1, tx, urgent)). rewrite <- Hd. vm_compute. reflexivity. }
  exists s1, tx. split; [|exact Hlen].
  apply cancelled_poll_loses; [rewrite Hd, Hu; reflexivity|rewrite Hlen; reflexivity|rewrite Hb; reflexivity
    |reflexivity|intros s; reflexivity].
Defined.

Definition demo_answer :=
  serve test_crypto demo_order demo_gc_order (Some test_nonce) demo_owner 0 100 [] 9 demo_ready.

Definition answer_frames (r : option (res Empty_set (Server Session nat * response))) : option (list Frame) :=
  match r with Some (Ok (_, Written _ fs)) => Some fs | _ => None end.

Lemma demo_answer_frames : answer_frames demo_answer = Some [mkFrame demo_sid 0 0 [] (str "reply")].
Proof. vm_compute. reflexivity. Qed.

Lemma serve_roundtrip_witness :
  exists s' body fs, demo_answer = Some (Ok (s', Written body fs))
    /\ ((0 < len body /\ DecodeBatch test_crypto body = Ok (demo_owner, fs)) \/ (fs = [] /\ body = [])).
Proof.
  pose proof demo_answer_frames as Hf.
  destruct demo_answer as [[[s' [c|body fs|lost]]| |]|] eqn:Hs; try discriminate Hf.
  exists s', body, fs. split; [reflexivity|].
  apply (serve_roundtrip test_crypto demo_order demo_gc_order (AL := test_aead_laws) test_nonce demo_owner 0 100 [] 9 demo_ready s' body fs);
    [vm_compute; reflexivity|vm_compute; reflexivity| |unfold demo_answer in Hs; exact Hs].
  injection Hf as ->. clear Hs. constructor; [by vm_compute|constructor].
Defined.
