(* ===== verification/Diagnose.v ===== *)
(** * internal/carrier/diagnose.go: the check at start-up

    [Diagnose] asks the first deployment for its version and sends a version
    probe through it to the server.  The two HTTP exchanges are arguments; the
    texts of the errors are the constructors of [diag_err].  [doGet] and [forward]
    are the two handlers of apps_script/Code.gs: the object that the first turns
    into text, with a [JSON.stringify] that is an argument with its laws, and what
    the second, [doPost], makes of the server's answer: Apps Script always answers
    with status 200.  The theorems run [Diagnose] against that script and the
    server's handler. *)

From S2P Require Import Prelude GoStd GoText Frame Crypto TestLib RelayBody Session SessionApi Endpoints Dns TestJson Version.
From S2P Require Import Exit ExitDrain ExitSteps ExitProps Tunnel TunnelProps.

Inductive diag_err :=
| NoRelayEndpoints
| BuildingGET
| CannotReachScript
| DeploymentNotFound (deployment : bytes)
| DeploymentNotPublic (deployment : bytes)
| ScriptOutdated (deployment : bytes)
| ScriptProtocolMismatch (protocol : Z)
| ScriptLegacyText (deployment : bytes)
| UnexpectedScriptResponse (deployment : bytes) (status : Z) (text : bytes)
| ProbeID
| EncodeProbe
| BuildingPOST
| ProbeFailed
| KeyRejected
| VPSUnreachable (status : Z)
| HTTPFromScript (status : Z) (text : bytes)
| UnexpectedHTTP (status : Z) (text : bytes)
| NonBatchReason (reason : relay_reason)
| NonBatch (text : bytes)
| NotDecrypted
| NoVersionInfo
| ServerProtocolMismatch (protocol : Z).

(** An HTTP exchange: the request cannot be built, fails, or brings a status
    and a body. *)
Inductive exchange :=
| RequestError
| DoError
| Got (status : Z) (body : bytes).

(** [snippet]: at most 120 bytes on one line. *)
Definition snippet_max : Z := 120.
Definition snippet (b : bytes) : bytes :=
  let t := TrimSpace b in
  let t := if snippet_max <? len t then take (Z.to_nat snippet_max) t else t in
  let out := map (fun c => if (b2z c <? 0x20) || (b2z c =? 0x7f) then z2b 32 else c) t in
  if snippet_max <? len b then out ++ str "..." else out.

(** [json.Unmarshal] of one member into a [scriptStatsResponse], by its tags. *)
Definition stats_member (st : option scriptStatsResponse) (m : bytes * json) : option scriptStatsResponse :=
  let key := map lower_ascii (fst m) in
  st ← st;
  if bool_decide (key = str "ok") then
    x ← un_bool (snd m) (stats_OK st);
    Some (mkStats x (stats_Date st) (stats_Count st) (stats_Version st) (stats_Protocol st))
  else if bool_decide (key = str "date") then
    x ← un_str (snd m) (stats_Date st);
    Some (mkStats (stats_OK st) x (stats_Count st) (stats_Version st) (stats_Protocol st))
  else if bool_decide (key = str "count") then
    x ← un_int (snd m) (stats_Count st);
    Some (mkStats (stats_OK st) (stats_Date st) x (stats_Version st) (stats_Protocol st))
  else if bool_decide (key = str "version") then
    x ← un_int (snd m) (stats_Version st);
    Some (mkStats (stats_OK st) (stats_Date st) (stats_Count st) x (stats_Protocol st))
  else if bool_decide (key = str "protocol") then
    x ← un_int (snd m) (stats_Protocol st);
    Some (mkStats (stats_OK st) (stats_Date st) (stats_Count st) (stats_Version st) x)
  else Some st.

Definition un_stats (j : json) : option scriptStatsResponse :=
  let zero := mkStats false [] 0 0 0 in
  match j with
  | JObject ms => foldl stats_member (Some zero) ms
  | JNull => Some zero
  | _ => None
  end.

Section Diagnose.
Context {L : CryptoLib} {J : JsonLib}.
Context (c_aead : Crypto) (clientID clientVersion : bytes).

(** Probe 1, from the response on; [None] lets the second probe run. *)
Definition check_script (scriptURL : bytes) (status : Z) (body : bytes) : option diag_err :=
  let getBody := take (Z.to_nat 4096) body in
  let key := shortScriptKey scriptURL in
  if status =? 404 then Some (DeploymentNotFound key) else
  if Contains (ToLower getBody) (str "<html") then Some (DeploymentNotPublic key) else
  let trimmed := TrimSpace getBody in
  let stats :=
    match trimmed with
    | c :: _ => if bool_decide (c = z2b 123)
                then match (j ← json_parse trimmed; un_stats j) with
                     | Some st => if stats_OK st then Some st else None
                     | None => None
                     end
                else None
    | [] => None
    end in
  match stats with
  | Some st =>
      if (stats_Version st =? 0) || (stats_Protocol st =? 0) then Some (ScriptOutdated key) else
      if negb (stats_Protocol st =? ProtocolVersion) then Some (ScriptProtocolMismatch (stats_Protocol st))
      else None
  | None =>
      if Contains getBody (str "GooseRelay") then Some (ScriptLegacyText key)
      else Some (UnexpectedScriptResponse key status (snippet getBody))
  end.

Definition probe_frame (probeID : bytes) : Frame :=
  mkFrame probeID 0 FlagACK [] (EncodeProbePayload clientVersion).

(** The loop over the frames of the answer. *)
Fixpoint find_version (fs : list Frame) : option VersionInfo :=
  match fs with
  | [] => None
  | f :: fs =>
      if negb (HasFlag f FlagRST) || (len (Payload f) =? 0) then find_version fs else
      match DecodeVersionInfo (Payload f) with
      | Some info => if negb (OK info) then find_version fs else Some info
      | None => find_version fs
      end
  end.

(** Probe 2, from the response on. *)
Definition check_answer (status : Z) (body : bytes) : res Empty_set (option diag_err) :=
  let respBody := take (Z.to_nat 65536) body in
  if negb (status =? 200) then
    if status =? 204 then Ok (Some KeyRejected) else
    if (status =? 500) || (status =? 502) || (status =? 503) || (status =? 504) then
      if Contains (ToLower respBody) (str "<html") then Ok (Some (VPSUnreachable status))
      else Ok (Some (HTTPFromScript status (snippet respBody)))
    else Ok (Some (UnexpectedHTTP status (snippet respBody)))
  else if isLikelyNonBatchRelayPayload respBody then
    match fst (classifyRelayErrorBody respBody) with
    | RUnknown => Ok (Some (NonBatch (snippet respBody)))
    | reason => Ok (Some (NonBatchReason reason))
    end
  else
    match DecodeBatch c_aead respBody with
    | Panic => Panic
    | Err _ => Ok (Some NotDecrypted)
    | Ok (_, rxFrames) =>
        match find_version rxFrames with
        | None => Ok (Some NoVersionInfo)
        | Some info =>
            if negb (Protocol info =? ProtocolVersion)
            then Ok (Some (ServerProtocolMismatch (Protocol info)))
            else Ok None
        end
    end.

(** [probeID] and [rand] are what [rand.Read] gives ([None] when it fails),
    [post] what comes back for the body that is posted. *)
Definition Diagnose (eps : list relayEndpoint) (get : exchange) (probeID rand : option bytes)
    (post : bytes -> exchange) : res Empty_set (option diag_err) :=
  match eps with
  | [] => Ok (Some NoRelayEndpoints)
  | ep :: _ =>
      match get with
      | RequestError => Ok (Some BuildingGET)
      | DoError => Ok (Some CannotReachScript)
      | Got status body =>
          match check_script (url ep) status body with
          | Some e => Ok (Some e)
          | None =>
              match probeID with
              | None => Ok (Some ProbeID)
              | Some probeID =>
                  match EncodeBatch c_aead rand clientID [probe_frame probeID] with
                  | Panic => Panic
                  | Err _ => Ok (Some EncodeProbe)
                  | Ok body =>
                      match post body with
                      | RequestError => Ok (Some BuildingPOST)
                      | DoError => Ok (Some ProbeFailed)
                      | Got status body => check_answer status body
                      end
                  end
              end
          end
      end
  end.

End Diagnose.

(** ** The script *)

(** [doGet] of apps_script/Code.gs without the parameter [legacy]: the object it
    prints, [date] being the day in California and [count] the number it has stored
    for that day ([None] if it has none). *)
Definition FORWARDER_VERSION : Z := 1.
Definition PROTOCOL_VERSION : Z := 1.
Definition doGet (date : bytes) (count : option Z) : json :=
  JObject [(str "ok", JBool true); (str "date", JString date); (str "count", json_int (default 0 count));
           (str "version", json_int FORWARDER_VERSION); (str "protocol", json_int PROTOCOL_VERSION)].

(** [doPost]: the text of the server's answer, whatever its status. *)
Definition forward (r : response) : exchange :=
  match r with
  | Status _ => Got 200 []
  | Written body _ => Got 200 body
  | Gone _ => Got 200 []
  end.

(** The strings and numbers of a tree. *)
Fixpoint json_tokens (j : json) : list bytes :=
  match j with
  | JNull | JBool _ => []
  | JNumber t => [t]
  | JString s => [s]
  | JArray l => concat (map json_tokens l)
  | JObject ms => concat (map (fun m => fst m :: json_tokens (snd m)) ms)
  end.

(** [JSON.stringify]: what it prints is JSON, so Go reads the same tree from it;
    the text of an object is enclosed in braces; and it prints a less-than sign
    only where a string has one. *)
Class Stringify (J : JsonLib) (JSON_stringify : json -> bytes) : Prop := {
  stringify_parse : forall j, Forall ascii (json_strings j) -> json_parse (JSON_stringify j) = Some j;
  stringify_object : forall ms, exists mid, JSON_stringify (JObject ms) = z2b 123 :: mid ++ [z2b 125];
  stringify_less : forall j, (forall t, t ∈ json_tokens j -> z2b 60 ∉ t) -> z2b 60 ∉ JSON_stringify j;
}.

(** The characters of a date: digits and hyphens. *)
Definition date_text (date : bytes) : Prop := Forall (fun c => b2z c = 45 \/ is_digit c) date.

Lemma date_ascii date : date_text date -> ascii date /\ z2b 60 ∉ date.
Proof.
  intros H. split.
  - eapply Forall_impl; [exact H|]. unfold is_digit. cbn. intros c [?|?]; lia.
  - intros Hin. unfold date_text in H. rewrite Forall_forall in H. specialize (H _ Hin). unfold is_digit in H.
    change (b2z (z2b 60)) with 60 in H. lia.
Qed.

Lemma ToLower_less l : z2b 60 ∉ l -> z2b 60 ∉ ToLower l.
Proof.
  assert (Hl : forall a, z2b 60 <> a -> z2b 60 <> lower_ascii a).
  { intros a Ha. unfold lower_ascii. destruct (_ && _) eqn:Hab; [|done].
    apply andb_true_iff in Hab as [H1%Z.leb_le H2%Z.leb_le]. intros E. apply (f_equal b2z) in E.
    rewrite !b2z_z2b in E. change (60 mod 256) with 60 in E. rewrite Z.mod_small in E by lia. lia. }
  remember (length l) as n eqn:Hn. revert l Hn. induction n as [n IH] using lt_wf_ind. intros [|a t] ->; [done|].
  intros [Ha Ht]%not_elem_of_cons.
  destruct t as [|b t]; cbn [ToLower]; [intros E%list_elem_of_singleton; by destruct (Hl a Ha)|].
  apply not_elem_of_cons in Ht as Hbt. destruct Hbt as [Hb Hbt].
  assert (Hrec : z2b 60 ∉ ToLower (b :: t)) by (apply (IH (length (b :: t))); [cbn; lia|done|done]).
  case_bool; [apply not_elem_of_cons; split; [done|]; by apply (IH (length t)); [cbn; lia|..]|].
  destruct t as [|c t]; [apply not_elem_of_cons; by split; [apply Hl|]|].
  case_bool; [|apply not_elem_of_cons; by split; [apply Hl|]].
  apply not_elem_of_cons. split; [done|]. apply not_elem_of_cons in Hbt as [_ Hct].
  by apply (IH (length t)); [cbn; lia|..].
Qed.

Lemma Contains_html l : z2b 60 ∉ l -> Contains (ToLower l) (str "<html") = false.
Proof.
  intros H%ToLower_less. destruct (Contains _ _) eqn:E; [|done]. apply Contains_spec in E as (pre & post & E).
  destruct H. rewrite E. apply elem_of_app. right. left.
Qed.

Section Script.
Context {J : JsonLib} {JO : JsonLibOk J} {JSON_stringify : json -> bytes} {JS : Stringify J JSON_stringify}.

Lemma un_stats_doGet date count : 0 <= default 0 count < 2 ^ 53 ->
  un_stats (doGet date count) = Some (mkStats true date (default 0 count) 1 1).
Proof.
  intros Hc. destruct (Atoi_json_int (default 0 count) ltac:(lia)) as (t & Et & Ht).
  unfold un_stats, doGet, FORWARDER_VERSION, PROTOCOL_VERSION. rewrite Et. cbn [foldl].
  unfold stats_member. cbn [fst snd mbind option_bind]. member_names.
  cbn [mbind option_bind un_bool un_int un_str stats_OK stats_Date stats_Count stats_Version stats_Protocol].
  by rewrite Ht.
Qed.

(** The first probe accepts what a deployment of this script answers. *)
Lemma check_script_current scriptURL date count :
  date_text date -> 0 <= default 0 count < 2 ^ 53 -> len (JSON_stringify (doGet date count)) <= 4096 ->
  check_script scriptURL 200 (JSON_stringify (doGet date count)) = None.
Proof.
  intros Hd Hc Hl. destruct (date_ascii date Hd) as [Ha Hlt].
  assert (Hasc : Forall ascii (json_strings (doGet date count))).
  { cbn -[str ascii]. unfold json_int. repeat case_bool; cbn -[str ascii].
    all: repeat (apply Forall_cons; split; [first [done|ascii_str]|]); done. }
  assert (Hless : z2b 60 ∉ JSON_stringify (doGet date count)).
  { apply stringify_less. intros t Ht.
    assert (Hn : z2b 60 ∉ z2b 45 :: Itoa (- default 0 count) /\ z2b 60 ∉ Itoa (default 0 count)).
    { split; [apply not_elem_of_cons; split; [done|]|]; apply Itoa_free; by vm_compute; intros []. }
    unfold doGet, json_int in Ht. cbn [json_tokens map concat fst snd app] in Ht. case_bool; cbn [json_tokens app] in Ht.
    all: repeat (apply elem_of_cons in Ht as [->|Ht]; [first [exact Hlt|apply Hn|apply (bool_decide_unpack _); vm_compute; exact I]|]).
    all: by apply elem_of_nil in Ht. }
  unfold check_script. rewrite take_ge by (unfold len in Hl; lia).
  rewrite (Contains_html _ Hless). cbn [Z.eqb Pos.eqb].
  assert (Et : TrimSpace (JSON_stringify (doGet date count)) = JSON_stringify (doGet date count)).
  { unfold doGet. destruct (stringify_object [(str "ok", JBool true); (str "date", JString date);
      (str "count", json_int (default 0 count)); (str "version", json_int FORWARDER_VERSION);
      (str "protocol", json_int PROTOCOL_VERSION)]) as [mid ->].
    unfold TrimSpace. rewrite trim_left_space_id by done. apply (trim_right_space_id (z2b 125) (z2b 123 :: mid)); done. }
  rewrite Et, (stringify_parse _ Hasc). cbn [mbind option_bind]. rewrite (un_stats_doGet date count Hc).
  unfold doGet. edestruct stringify_object as [mid ->]. by rewrite bool_decide_eq_true_2.
Qed.

End Script.

(** ** Against the server *)

Section Probe.
Context {L : CryptoLib} {J : JsonLib} {JO : JsonLibOk J}.
Context {S : Type} {A : SessionApi S} {AO : SessionApiOk S} {Conn : Type}.
Context (crypto : Crypto) (order : bytes -> Server S Conn -> list bytes)
  (gc_order : Server S Conn -> list bytes) (d : dialler Conn) (timeouts : Frame -> bool)
  (syns : list Frame -> list Frame).
Context (Horder : forall owner s, valid_order owner s (order owner s)) (Hsyns : forall l, syns l ≡ₚ l).
Implicit Types (s : Server S Conn) (owner : bytes).

(** A client the server does not know yet. *)
Definition unknown_client owner s : Prop :=
  owned_ready owner s = ∅ /\ pendingCtrl s !! owner = None /\ pendingRSTs s !! owner = None.

Lemma routeIncoming_probe info now t probeID version owner s :
  sessions s !! probeID = None ->
  routeIncoming d (Some info) now t (probe_frame version probeID) owner s
  = queueVersionResponse (Some info) owner probeID s.
Proof.
  intros Hn. unfold routeIncoming, route_after. cbn [SessionID probe_frame Payload]. rewrite Hn.
  rewrite bool_decide_eq_false_2 by by intros [].
  rewrite IsProbePayload_encoded. cbn [negb andb HasFlag Flags probe_frame].
  by destruct (sessionOwners s !! probeID).
Qed.

Lemma probe_served info now rand probeID version owner ws s :
  unknown_client owner s -> sessions s !! probeID = None -> 0 < len info ->
  let fs := [mkFrame probeID 0 FlagRST [] info] in
  exists s1, let s2 := route_batch d (Some info) now timeouts owner
                         (syns (List.filter is_syn [probe_frame version probeID]))
                         [probe_frame version probeID] s in
    let '(s3, ch) := activityFor owner s2 in
    serve crypto order gc_order rand owner ch (now + drainWindow [probe_frame version probeID]) ws now s3
    = Some (answer crypto gc_order rand owner now fs s1).
Proof.
  intros (Hr & Hc & Hp) Hn Hi fs.
  assert (Es : syns (List.filter is_syn [probe_frame version probeID]) = []).
  { apply Permutation_nil. symmetry. apply (Hsyns []). }
  rewrite Es. unfold route_batch, route_all. cbn [List.filter].
  change (is_syn (probe_frame version probeID)) with false. cbn [negb foldl].
  rewrite routeIncoming_probe by done. unfold queueVersionResponse.
  rewrite Hc. cbn [default app]. fold fs. set (s1 := set_pending _ _ s).
  assert (Hc1 : pendingCtrl s1 !! owner = Some fs) by apply lookup_insert_eq.
  assert (H1 : owned_ready owner s1 = ∅ /\ pendingRSTs s1 !! owner = None) by done.
  clearbody s1. destruct H1 as [Hr1 Hp1].
  assert (Hs2 : exists s2 ch, activityFor owner (kick owner s1) = (s2, ch)
    /\ owned_ready owner s2 = ∅ /\ pendingCtrl s2 !! owner = Some fs /\ pendingRSTs s2 !! owner = None).
  { unfold kick, activityFor. destruct (activity s1 !! owner) as [ch|] eqn:Ha; cbn [activity set_activity].
    - rewrite Ha. by do 2 eexists.
    - rewrite lookup_insert_eq. by do 2 eexists. }
  destruct Hs2 as (s2 & ch & -> & Hr2 & Hc2 & Hp2). clear Hc1 Hr1 Hp1.
  assert (Ho : order owner s2 = []).
  { apply Permutation_nil. destruct (Horder owner s2) as [Hperm _]. by rewrite Hr2, elements_empty in Hperm. }
  rewrite serve_unfold, Ho. unfold drainAll. rewrite Hc2, Hp2.
  cbn [default app len length foldl dsv dout durgent orb Z.of_nat Pos.of_succ_nat Z.ltb Z.compare].
  eexists. reflexivity.
Qed.

(** The server's answer to a probe. *)
Lemma probe_handled {LO : CryptoLibOk L} {AL : AeadLaws (aead crypto)}
    info now nonce nonce' probeID version owner body ws s :
  len nonce = NonceSize (aead crypto) -> len owner = ClientIDLen -> len probeID = SessionIDLen ->
  unknown_client owner s -> sessions s !! probeID = None -> 0 < len info ->
  EncodeBatch crypto (Some nonce) owner [probe_frame version probeID] = Ok body ->
  let fs := [mkFrame probeID 0 FlagRST [] info] in
  exists s1, handleTunnel crypto order gc_order d (Some info) timeouts (Some nonce') true (Some body)
      syns ws now s = Some (answer crypto gc_order (Some nonce') owner now fs s1).
Proof.
  intros Hn Ho Hid Hu Hs Hi He fs.
  destruct (DecodeBatch_encoded crypto nonce owner [probe_frame version probeID] body) as [_ Hd]; try done.
  { repeat constructor; done. }
  unfold handleTunnel. cbn [negb]. rewrite Hd. cbn [len length Z.of_nat Z.ltb Z.compare].
  match goal with |- context [route_batch _ _ _ _ _ _ _ ?s0] => set (s0' := s0) end.
  destruct (probe_served info now (Some nonce') probeID version owner ws s0' Hu Hs Hi) as [s1 H].
  exists s1. revert H. cbv zeta. destruct (activityFor owner _) as [s3 ch]. auto.
Qed.
(** What comes back for a body that is posted: the server's answer, as Code.gs
    passes it on, or as it is. *)
Definition answer_of (r : option (res Empty_set (Server S Conn * response))) (via : response -> exchange) : exchange :=
  match r with Some (Ok (_, r)) => via r | _ => DoError end.

Definition direct (r : response) : exchange :=
  match r with Status n => Got n [] | Written body _ => Got 200 body | Gone _ => DoError end.

Lemma check_answer_version probeID owner version info body :
  EncodeVersionInfo version MaxFramePayload [str "zstd"; str "raw_base64"] = Some info -> ascii version ->
  DecodeBatch crypto body = Ok (owner, [mkFrame probeID 0 FlagRST [] info]) ->
  len body <= 65536 -> isLikelyNonBatchRelayPayload body = false ->
  check_answer crypto 200 body = Ok None.
Proof.
  intros He Ha Hd Hl Hn. unfold check_answer. rewrite take_ge by (unfold len in Hl; lia).
  rewrite Hn, Hd. cbn [Z.eqb Pos.eqb negb find_version HasFlag Flags Payload].
  destruct (DecodeVersionInfo_encoded version MaxFramePayload [str "zstd"; str "raw_base64"] info) as [Hpos Hv];
    [done|repeat constructor; ascii_str|done|done|].
  change (negb (HasFlag _ FlagRST)) with false. rewrite (proj2 (Z.eqb_neq _ _)) by lia.
  rewrite Hv. done.
Qed.

(** C20: the start-up check accepts a working installation.  Let the first
    deployment run the script of this repository, [doGet] answering the GET with
    the day and the count it has (as text of at most 4096 bytes) and [doPost]
    forwarding to the server's handler; let client and server have the same key;
    and let the server not know the client yet.  Then [Diagnose] returns no error:
    the first probe reads the object and accepts its versions, the probe of the
    second is recognised, answered at once with the version, decrypted and
    accepted.  Excluded is an answer whose random nonce makes its base64 text start
    with [HTTP/] (one in 2^30): it is taken for an error page
    ([RelayBody.HTTP_nonce_batch_rejected]). *)
Theorem diagnose_ok {LO : CryptoLibOk L} {JSON_stringify} {JS : Stringify J JSON_stringify}
    hexKey nonce nonce' clientID clientVersion serverVersion probeID info ep eps date count ws now s :
  NewCryptoFromHexKey hexKey = Ok crypto -> len nonce = 12 -> len nonce' = 12 ->
  len clientID = ClientIDLen -> len probeID = SessionIDLen ->
  date_text date -> 0 <= default 0 count < 2 ^ 53 -> len (JSON_stringify (doGet date count)) <= 4096 ->
  unknown_client clientID s -> sessions s !! probeID = None ->
  EncodeVersionInfo serverVersion MaxFramePayload [str "zstd"; str "raw_base64"] = Some info ->
  ascii serverVersion -> len info <= 40000 -> len (EncodeProbePayload clientVersion) <= maxPayloadSize ->
  (forall rbody, EncodeBatch crypto (Some nonce') clientID [mkFrame probeID 0 FlagRST [] info] = Ok rbody ->
     HasPrefix rbody (str "HTTP/") = false) ->
  Diagnose crypto clientID clientVersion (ep :: eps) (Got 200 (JSON_stringify (doGet date count))) (Some probeID) (Some nonce)
    (fun b => answer_of (handleTunnel crypto order gc_order d (Some info) timeouts (Some nonce') true (Some b)
                           syns ws now s) forward)
  = Ok None.
Proof.
  intros Hk Hn Hn' Hid Hpid Hdate Hcount Htext Hu Hs Hv Ha Hlen Hplen Hhttp.
  pose proof (check_script_current (url ep) date count Hdate Hcount Htext) as Hscript.
  unfold Diagnose. rewrite Hscript.
  destruct (aead_of_key hexKey crypto Hk) as (AL & Hns & Hov). rewrite <- Hns in Hn, Hn'.
  destruct (batch_encodes crypto nonce clientID [probe_frame clientVersion probeID])
    as (body & He & Hd & _); try done; [repeat constructor; done..|]. rewrite He.
  set (fs := [mkFrame probeID 0 FlagRST [] info]) in *.
  destruct (batch_encodes crypto nonce' clientID fs) as (rbody & He' & Hd' & Hl'); try done.
  { repeat constructor; done. }
  { repeat constructor; [done|]. unfold maxPayloadSize. cbn [Payload]. lia. }
  destruct (probe_handled info now nonce nonce' probeID clientVersion clientID body ws s) as [s1 H]; try done.
  { by apply (DecodeVersionInfo_encoded serverVersion MaxFramePayload [str "zstd"; str "raw_base64"]);
      [|repeat constructor; ascii_str|..]. }
  rewrite H. unfold answer. fold fs. rewrite He'. cbn [answer_of forward].
  apply (check_answer_version probeID clientID serverVersion info); try done.
  - etransitivity; [exact Hl'|]. rewrite Hns, Hov. unfold batch_wire, fs. cbn [map concat].
    autorewrite with golen. cbn [SessionID Target Payload]. rewrite Hid, Hpid. unfold b64_EncodedLen, ClientIDLen, SessionIDLen.
    pose proof (len_nonneg info). Z.to_euclidean_division_equations. lia.
  - rewrite (nonbatch_test_on_batches crypto (Some nonce') clientID fs rbody He'). by apply Hhttp.
Qed.

(** A server that is its own relay ([relay_urls]) fails the first probe, with
    any key: its handler answers a GET with status 405 and no body. *)
Lemma diagnose_direct (crypto' : Crypto) clientID clientVersion info rand syns' ws now s ep eps probeID rand' post :
  Diagnose crypto' clientID clientVersion (ep :: eps)
    (answer_of (handleTunnel crypto order gc_order d info timeouts rand false None syns' ws now s) direct)
    probeID rand' post
  = Ok (Some (UnexpectedScriptResponse (shortScriptKey (url ep)) 405 [])).
Proof. done. Qed.

(** What another key makes of a batch. *)
Lemma DecodeBatch_other_key (c : Crypto) nonce owner fs body :
  EncodeBatch c (Some nonce) owner fs = Ok body -> len nonce = NonceSize (aead crypto) ->
  (forall pt, aead_Open (aead crypto) nonce (aead_Seal (aead c) nonce pt) = None) ->
  (forall pt, Overhead (aead crypto) <= len (aead_Seal (aead c) nonce pt)) ->
  0 <= NonceSize (aead crypto) -> 0 < len body ->
  DecodeBatch crypto body = Err (OpenErr OpenFailed).
Proof.
  unfold EncodeBatch. case_bool; [done|]. destruct (marshal_all fs); cbn -[len]; [|done..].
  intros [= <-] Hn Hopen Hov Hns Hpos. set (pt := seal_input _) in *.
  unfold DecodeBatch. rewrite (proj2 (Z.eqb_neq _ _)) by lia.
  rewrite trimmed_encode, b64_decode_encode. unfold Open.
  specialize (Hov pt). rewrite (proj2 (Z.ltb_ge _ _)) by (rewrite len_app; lia).
  rewrite <- Hn, (slice_at [] nonce (aead_Seal (aead c) nonce pt)); [|done|done|len_tac].
  cbn [res_bind]. rewrite slice_rest; [|done|len_tac]. cbn [res_bind]. by rewrite Hopen.
Qed.

(** C21: the start-up check never names a wrong key.  Let the server's key open
    nothing that the client's key seals.  Then the server answers the probe with
    status 204, which is what [Diagnose] looks for to name the key.  But with the
    script of this repository in between that status is lost: [doPost] turns every
    answer into status 200, an empty text decodes to no frames, and the user is told
    that the server is outdated.  And with the server as its own relay the first
    probe has already failed, with status 405. *)
Theorem diagnose_wrong_key {JSON_stringify} {JS : Stringify J JSON_stringify} (c : Crypto) nonce clientID clientVersion
    info probeID ep eps date count body ws now s rand :
  EncodeBatch c (Some nonce) clientID [probe_frame clientVersion probeID] = Ok body -> 0 < len body ->
  len nonce = NonceSize (aead crypto) ->
  (forall pt, aead_Open (aead crypto) nonce (aead_Seal (aead c) nonce pt) = None) ->
  (forall pt, Overhead (aead crypto) <= len (aead_Seal (aead c) nonce pt)) ->
  date_text date -> 0 <= default 0 count < 2 ^ 53 -> len (JSON_stringify (doGet date count)) <= 4096 ->
  let server isPost body := handleTunnel crypto order gc_order d info timeouts rand isPost body syns ws now s in
  let run get via := Diagnose c clientID clientVersion (ep :: eps) get (Some probeID) (Some nonce)
                       (fun b => answer_of (server true (Some b)) via) in
  (exists s', server true (Some body) = Some (Ok (s', Status 204)))
  /\ run (Got 200 (JSON_stringify (doGet date count))) forward = Ok (Some NoVersionInfo)
  /\ run (answer_of (server false None) direct) direct
     = Ok (Some (UnexpectedScriptResponse (shortScriptKey (url ep)) 405 [])).
Proof.
  intros He Hpos Hn Hopen Hov Hdate Hcount Htext server run.
  pose proof (check_script_current (url ep) date count Hdate Hcount Htext) as Hscript.
  assert (Hns : 0 <= NonceSize (aead crypto)) by (rewrite <- Hn; apply len_nonneg).
  pose proof (DecodeBatch_other_key c nonce clientID _ body He Hn Hopen Hov Hns Hpos) as Hd.
  assert (Hs : exists s', server true (Some body) = Some (Ok (s', Status 204))).
  { unfold server, handleTunnel. cbn [negb]. rewrite Hd. by eexists. }
  split; [done|]. split; [|apply diagnose_direct].
  unfold run, Diagnose. rewrite Hscript, He. by destruct Hs as [s' ->].
Qed.

End Probe.

(** ** Concrete inputs *)

#[export] Instance test_stringify : Stringify TestJson json_print.
Proof.
  constructor; [apply json_roundtrip|apply json_object_text|].
  intros j _. cbn. assert (Hb : forall p, z2b 60 ∉ pos_bits p ++ [z2b 125]).
  { induction p as [p IH|p IH|]; cbn [pos_bits app]; apply not_elem_of_cons; (split; [done|]); [done|done|apply not_elem_of_nil]. }
  apply not_elem_of_cons. by split.
Qed.

Definition demo_date : bytes := str "2026-05-04".
Lemma demo_date_text : date_text demo_date.
Proof. repeat (constructor; [by vm_compute; (left + right); split; discriminate || reflexivity|]). constructor. Qed.
Definition demo_script : bytes := json_print (doGet demo_date (Some 12)).
Definition demo_url : bytes := str "https://script.google.com/macros/s/AKfycb/exec".
Definition demo_ep : relayEndpoint := new_endpoint demo_url [].
Definition demo_probe : bytes := str "probe-id-0000001".
Definition demo_info : bytes := default [] (EncodeVersionInfo (str "v1.0") MaxFramePayload [str "zstd"; str "raw_base64"]).

Lemma demo_unknown : unknown_client (S := Session) (Conn := nat) test_client init_server.
Proof. split; [|by split]. apply (bool_decide_unpack _). vm_compute. exact I. Qed.

Lemma diagnose_ok_witness :
  Diagnose test_crypto test_client (str "v1.0") [demo_ep] (Got 200 demo_script) (Some demo_probe)
    (Some test_nonce)
    (fun b => answer_of (handleTunnel test_crypto demo_order demo_gc_order demo_dial (Some demo_info)
                           (fun _ => false) (Some test_nonce) true (Some b) (fun l => l) [] 9 init_server) forward)
  = Ok None.
Proof.
  apply (diagnose_ok test_crypto demo_order demo_gc_order demo_dial (fun _ => false) (fun l => l)
    (fun owner s => srv_some_order_valid owner s) (fun l => reflexivity l) test_key test_nonce test_nonce
    test_client (str "v1.0") (str "v1.0") demo_probe demo_info demo_ep [] demo_date (Some 12) [] 9 init_server).
  - exact test_crypto_key.
  - reflexivity.
  - reflexivity.
  - reflexivity.
  - reflexivity.
  - exact demo_date_text.
  - split; [discriminate|reflexivity].
  - vm_compute. discriminate.
  - exact demo_unknown.
  - reflexivity.
  - reflexivity.
  - apply (bool_decide_unpack _). vm_compute. exact I.
  - vm_compute. discriminate.
  - vm_compute. discriminate.
  - intros rbody H.
    assert (Hc : match EncodeBatch test_crypto (Some test_nonce) test_client [mkFrame demo_probe 0 FlagRST [] demo_info]
                 with Ok b => HasPrefix b (str "HTTP/") | _ => false end = false) by (vm_compute; reflexivity).
    rewrite H in Hc. exact Hc.
Defined.

(** A key that opens nothing. *)
Definition closed_crypto : Crypto := mkCrypto (mkAead 12 16 (fun nonce pt => pt ++ test_tag nonce) (fun _ _ => None)).

Lemma diagnose_wrong_key_witness :
  Diagnose test_crypto test_client (str "v1.0") [demo_ep] (Got 200 demo_script) (Some demo_probe)
    (Some test_nonce)
    (fun b => answer_of (handleTunnel closed_crypto demo_order demo_gc_order demo_dial (Some demo_info)
                           (fun _ => false) (Some test_nonce) true (Some b) (fun l => l) [] 9 init_server) forward)
  = Ok (Some NoVersionInfo).
Proof.
  destruct (EncodeBatch test_crypto (Some test_nonce) test_client [probe_frame (str "v1.0") demo_probe])
    as [body| |] eqn:He; [|vm_compute in He; discriminate He..].
  destruct (diagnose_wrong_key (JSON_stringify := json_print) (JS := test_stringify) closed_crypto demo_order demo_gc_order demo_dial (fun _ => false) (fun l => l)
    test_crypto test_nonce test_client (str "v1.0") (Some demo_info) demo_probe demo_ep [] demo_date (Some 12)
    body [] 9 init_server (Some test_nonce) He)
    as (_ & H & _).
  - assert (Hc : match EncodeBatch test_crypto (Some test_nonce) test_client [probe_frame (str "v1.0") demo_probe]
                 with Ok b => 0 <? len b | _ => false end = true) by (vm_compute; reflexivity).
    rewrite He in Hc. exact (proj1 (Z.ltb_lt _ _) Hc).
  - reflexivity.
  - reflexivity.
  - intros pt. cbn. rewrite len_app. change (len (test_tag test_nonce)) with 16. pose proof (len_nonneg pt). lia.
  - exact demo_date_text.
  - split; [discriminate|reflexivity].
  - vm_compute. discriminate.
  - exact H.
Defined.
