(* ===== verification/Stats.v ===== *)
(** * internal/carrier/stats.go, internal/exit/stats.go: the statistics lines

    The lines both programs log every minute, as texts: byte counts in a
    readable unit ([humanBytes]), the state of every endpoint
    ([endpointStatsLine]) and the daily counts per Google account
    ([accountStatsLine]).  Both endpoint lines roll the daily windows over,
    which changes the state.  Numbers printed with [%.1f] and [%.2f] are exact:
    the division is by a power of two and [fmt] rounds the decimal expansion
    half to even. *)

From S2P Require Import Prelude GoStd GoText Session SessionApi RelayBody Endpoints Carrier Dns Version Exit.

(** ** Numbers *)

(** Division rounded to the nearest integer, half to even. *)
Definition round_div (a b : Z) : Z :=
  let q := a / b in
  match 2 * (a mod b) ?= b with
  | Lt => q
  | Gt => q + 1
  | Eq => if Z.even q then q else q + 1
  end.

(** [float64(n)] of a uint64: 53 significant bits. *)
Definition float64 (n : Z) : Z :=
  if n <? 2 ^ 53 then n
  else let u := 2 ^ (Z.log2 n - 52) in round_div n u * u.

(** [%.<d>f] of [n/unit]: [d] digits after the point. *)
Fixpoint pad (k : nat) (l : bytes) : bytes :=
  match k with
  | O => l
  | S k => if (length l <=? k)%nat then z2b 48 :: pad k l else l
  end.

Definition fixed (d : nat) (n unit : Z) : bytes :=
  let p := 10 ^ Z.of_nat d in
  let q := round_div (n * p) unit in
  Itoa (q / p) ++ str "." ++ pad d (Itoa (q mod p)).

Definition humanBytes (n : Z) : bytes :=
  let k := 1024 in
  if n <? k then Itoa n ++ str "B"
  else if n <? k * k then fixed 1 (float64 n) k ++ str "KB"
  else if n <? k * k * k then fixed 1 (float64 n) (k * k) ++ str "MB"
  else fixed 2 (float64 n) (k * k * k) ++ str "GB".

(** The server's copy of it. *)
Definition srv_humanBytes (n : Z) : bytes := humanBytes n.

(** [d.Round(time.Second)] and the text of a duration of whole seconds. *)
Definition RoundSecond (d : Z) : Z :=
  let r := Z.rem d Second in
  if d <? 0 then if - r + - r <? Second then d - r else d - r - Second
  else if r + r <? Second then d - r else d + Second - r.

Definition duration_text (d : Z) : bytes :=
  let u := Z.abs d / Second in
  let h := u / 3600 in let m := u / 60 mod 60 in let s := u mod 60 in
  (if d <? 0 then str "-" else []) ++
  (if 0 <? h then Itoa h ++ str "h" else []) ++
  (if (0 <? h) || (0 <? m) then Itoa m ++ str "m" else []) ++ Itoa s ++ str "s".

(** ** The client *)

Section Lines.
Context (startOfDay : Z -> Z).

Definition touch_all (now : Z) (s : Endpoints) : Endpoints :=
  mkEps (map (fun ep => fst (touchDailyWindow startOfDay now ep)) (endpoints s)) (nextEndpoint s).

(** [now'] is the clock [time.Until] reads for this endpoint. *)
Definition endpoint_part (now now' : Z) (ep : relayEndpoint) : bytes :=
  let label := shortScriptKey (url ep) in
  let label := if bool_decide (account ep = []) then label else label ++ str "@" ++ account ep in
  let part := label ++ str " ok=" ++ Itoa (statsOK ep) ++ str " fail=" ++ Itoa (statsFail ep)
    ++ str " today=" ++ Itoa (dailyCount ep) in
  let part := if IsZero (scriptCountAt ep) then part else part ++ str " script=" ++ Itoa (scriptCount ep) in
  if After (blacklistedTill ep) now
  then part ++ str " bl=" ++ duration_text (RoundSecond (blacklistedTill ep - now'))
  else part.

Definition endpointStatsLine (now : Z) (clock : nat -> Z) (s : Endpoints) : Endpoints * bytes :=
  match endpoints s with
  | [] => (s, str "none")
  | _ =>
      let s := touch_all now s in
      (s, Join (imap (fun i ep => endpoint_part now (clock i) ep) (endpoints s)) (str " | "))
  end.

(** The totals of an account. *)
Record agg := mkAgg { today : Z; scriptCounts : gset Z }.

Definition account_one (totals : gmap bytes agg) (ep : relayEndpoint) : gmap bytes agg :=
  if bool_decide (account ep = []) then totals else
  let a := default (mkAgg 0 ∅) (totals !! account ep) in
  let cs := if IsZero (scriptCountAt ep) then scriptCounts a else {[scriptCount ep]} ∪ scriptCounts a in
  <[account ep := mkAgg (u64 (today a + dailyCount ep)) cs]> totals.

Definition account_totals (eps : list relayEndpoint) : gmap bytes agg := foldl account_one ∅ eps.

(** [sort.Strings]: byte by byte. *)
Fixpoint bytes_le (a b : bytes) : bool :=
  match a, b with
  | [], _ => true
  | _, [] => false
  | x :: a, y :: b => if b2z x <? b2z y then true else if b2z y <? b2z x then false else bytes_le a b
  end.

Definition sort_Strings (l : list bytes) : list bytes := merge_sort (fun a b => Is_true (bytes_le a b)) l.

(** The sum of the distinct counts, in uint64; the order of the set does not
    matter. *)
Definition sum64 (l : list Z) : Z := foldl (fun n v => u64 (n + v)) 0 l.

Definition account_part (totals : gmap bytes agg) (name : bytes) : bytes :=
  let a := default (mkAgg 0 ∅) (totals !! name) in
  let s := name ++ str " today=" ++ Itoa (today a) in
  if 0 <? Z.of_nat (size (scriptCounts a)) then s ++ str " script=" ++ Itoa (sum64 (elements (scriptCounts a))) else s.

Definition accountStatsLine (now : Z) (s : Endpoints) : Endpoints * bytes :=
  let touched := mkEps (map (fun ep => if bool_decide (account ep = []) then ep
                                       else fst (touchDailyWindow startOfDay now ep)) (endpoints s)) (nextEndpoint s) in
  let totals := account_totals (endpoints touched) in
  let names := sort_Strings (map fst (map_to_list totals)) in
  match names with
  | [] => (s, [])
  | _ => (touched, str " accounts=[" ++ Join (map (account_part totals) names) (str " | ") ++ str "]")
  end.

(** The three lines of the client. *)
Definition client_counts (active : Z) (st : clientStats) (healthy total : Z) : bytes :=
  str "[stats] active=" ++ Itoa active
  ++ str " sessions=" ++ Itoa (sessionsOpen st) ++ str "/" ++ Itoa (sessionsClose st)
  ++ str " frames=" ++ Itoa (framesOut st) ++ str "/" ++ Itoa (framesIn st)
  ++ str " bytes=" ++ humanBytes (bytesOut st) ++ str "/" ++ humanBytes (bytesIn st)
  ++ str " polls=" ++ Itoa (pollsOK st) ++ str "/" ++ Itoa (pollsFail st)
  ++ str " rst=" ++ Itoa (rstFromServer st)
  ++ str " endpoints=" ++ Itoa healthy ++ str "/" ++ Itoa total.

Definition logStats {S} (now1 now2 now3 : Z) (clock : nat -> Z) (c : Client S) : Client S * list bytes :=
  let '(healthy, total) := endpointHealthCounts now1 (relays c) in
  let '(eps, detail) := endpointStatsLine now2 clock (relays c) in
  let '(eps, summary) := accountStatsLine now3 eps in
  (set_relays eps c,
   [client_counts (Z.of_nat (size (Carrier.sessions c))) (cstats c) healthy total;
    str "[stats] endpoints: " ++ detail]
   ++ if bool_decide (summary = []) then [] else [str "[stats] " ++ TrimSpace summary]).

End Lines.

(** ** The server *)

Definition srv_logStats {S Conn} (goroutines : Z) (s : Server S Conn) : bytes :=
  let st := sstats s in
  str "[stats] goroutines=" ++ Itoa goroutines
  ++ str " active=" ++ Itoa (Z.of_nat (size (Exit.sessions s)))
  ++ str " clients=" ++ Itoa (Z.of_nat (size (Exit.activity s)))
  ++ str " sessions(open=" ++ Itoa (st_sessionsOpen st) ++ str " close=" ++ Itoa (st_sessionsClose st)
  ++ str ") frames(in=" ++ Itoa (st_framesIn st) ++ str " out=" ++ Itoa (st_framesOut st)
  ++ str ") bytes(in=" ++ srv_humanBytes (st_bytesIn st) ++ str " out=" ++ srv_humanBytes (st_bytesOut st)
  ++ str ") requests=" ++ Itoa (st_requests st)
  ++ str " dials(ok=" ++ Itoa (st_dialsOK st) ++ str " fail=" ++ Itoa (st_dialsFail st)
  ++ str ") rst_sent=" ++ Itoa (st_rstSent st) ++ str " decode_fail=" ++ Itoa (st_decodeFailures st).

(** ** Rounding *)

Lemma round_div_near a b : 0 < b -> 2 * Z.abs (round_div a b * b - a) <= b.
Proof.
  intros Hb. unfold round_div. pose proof (Z.div_mod a b ltac:(lia)) as E.
  pose proof (Z.mod_pos_bound a b Hb) as Hm.
  destruct (Z.compare_spec (2 * (a mod b)) b); [destruct (Z.even (a / b))|..]; lia.
Qed.

Lemma float64_near n : 0 <= n < 2 ^ 64 -> Z.abs (float64 n - n) <= 2 ^ 10.
Proof.
  intros Hn. unfold float64. destruct (Z.ltb_spec n (2 ^ 53)); [lia|].
  assert (Hl : 53 <= Z.log2 n <= 63).
  { split; [apply Z.log2_le_pow2; lia|]. cut (Z.log2 n < 64); [lia|]. apply Z.log2_lt_pow2; lia. }
  assert (Hu : 2 ^ (Z.log2 n - 52) <= 2 ^ 11) by (apply Z.pow_le_mono_r; lia).
  assert (Hp : 0 < 2 ^ (Z.log2 n - 52)) by (apply Z.pow_pos_nonneg; lia).
  pose proof (round_div_near n _ Hp). lia.
Qed.

(** The number [humanBytes] prints, in tenths or hundredths of its unit, is the
    nearest one (for gigabytes, up to the 53 bits of the float). *)
Lemma humanBytes_near n : 0 <= n < 2 ^ 64 ->
  humanBytes n = Itoa n ++ str "B" /\ n < 1024
  \/ exists d unit suffix q,
       humanBytes n = Itoa (q / 10 ^ Z.of_nat d) ++ str "." ++ pad d (Itoa (q mod 10 ^ Z.of_nat d)) ++ suffix
       /\ (d, unit, suffix) ∈ [(1%nat, 2 ^ 10, str "KB"); (1%nat, 2 ^ 20, str "MB"); (2%nat, 2 ^ 30, str "GB")]
       /\ unit <= n /\ 2 * Z.abs (q * unit - n * 10 ^ Z.of_nat d) <= unit + 10 ^ Z.of_nat d * 2 ^ 11.
Proof.
  intros Hn. pose proof (float64_near n Hn) as Hf.
  assert (Hfix : forall d unit, 0 < unit ->
    2 * Z.abs (round_div (float64 n * 10 ^ Z.of_nat d) unit * unit - n * 10 ^ Z.of_nat d)
      <= unit + 10 ^ Z.of_nat d * 2 ^ 11).
  { intros d unit Hu. pose proof (round_div_near (float64 n * 10 ^ Z.of_nat d) unit Hu).
    assert (0 < 10 ^ Z.of_nat d) by (apply Z.pow_pos_nonneg; lia). nia. }
  unfold humanBytes. destruct (Z.ltb_spec n 1024); [by left|right].
  destruct (Z.ltb_spec n (1024 * 1024)); [|destruct (Z.ltb_spec n (1024 * 1024 * 1024))];
    do 4 eexists; (split; [unfold fixed; rewrite <- !app_assoc; reflexivity|]);
    (split; [|split; [|by apply Hfix]]); try lia; rewrite !elem_of_cons; auto.
Qed.

Example humanBytes_mega : humanBytes 1572864 = str "1.5MB".
Proof. vm_compute. reflexivity. Qed.

(** Just below a unit the text is that of 1024 smaller ones. *)
Example humanBytes_edge : humanBytes (2 ^ 20 - 1) = str "1024.0KB".
Proof. vm_compute. reflexivity. Qed.

(** ** The order of the names *)

Definition name_le (a b : bytes) : Prop := bytes_le a b.

#[export] Instance name_le_dec : RelDecision name_le.
Proof. intros a b. unfold name_le. apply _. Defined.

Lemma name_le_cons x a y b :
  name_le (x :: a) (y :: b) <-> b2z x < b2z y \/ (b2z x = b2z y /\ name_le a b).
Proof.
  unfold name_le. cbn. destruct (Z.ltb_spec (b2z x) (b2z y)) as [Hl|Hl].
  { split; [by left|done]. }
  destruct (Z.ltb_spec (b2z y) (b2z x)) as [Hg|Hg]; split.
  - done.
  - intros [?|[? _]]; lia.
  - right. split; [lia|done].
  - intros [?|[_ ?]]; [lia|done].
Qed.

#[export] Instance name_le_total : Total name_le.
Proof.
  intros a. induction a as [|x a IH]; intros [|y b]; [by left|by left|by right|].
  rewrite !name_le_cons. destruct (IH b), (Z.lt_trichotomy (b2z x) (b2z y)); intuition.
Qed.

#[export] Instance name_le_antisymm : AntiSymm (=) name_le.
Proof.
  intros a. induction a as [|x a IH]; intros [|y b]; [done|by intros _ []|by intros []|].
  rewrite !name_le_cons. intros H1 H2. f_equal; [apply b2z_inj; lia|apply IH; intuition lia].
Qed.

#[export] Instance name_le_trans : Transitive name_le.
Proof.
  intros a. induction a as [|x a IH]; intros [|y b] [|z c]; [done..|].
  rewrite !name_le_cons. intros [H1|[H1 H1']] [H2|[H2 H2']]; [left; lia..|].
  right. split; [lia|]. by apply (IH b).
Qed.

Lemma sort_Strings_spec l : sort_Strings l ≡ₚ l /\ Sorted name_le (sort_Strings l).
Proof. split; [apply merge_sort_Permutation|apply (Sorted_merge_sort name_le)]. Qed.

Lemma sort_Strings_perm l k : l ≡ₚ k -> sort_Strings l = sort_Strings k.
Proof.
  intros H. destruct (sort_Strings_spec l) as [P1 S1], (sort_Strings_spec k) as [P2 S2].
  apply (Sorted_unique name_le); [done..|]. by rewrite P1, P2.
Qed.

(** ** The account line against its definition by sums *)

Definition zsum (l : list Z) : Z := foldr Z.add 0 l.

Lemma zsum_perm l k : l ≡ₚ k -> zsum l = zsum k.
Proof. unfold zsum. induction 1; cbn; lia. Qed.

Lemma zsum_app l k : zsum (l ++ k) = zsum l + zsum k.
Proof. unfold zsum. induction l; cbn; lia. Qed.

Lemma sum64_zsum l : sum64 l = u64 (zsum l).
Proof.
  unfold sum64. induction l as [|n l IH] using rev_ind; [done|].
  rewrite foldl_app, zsum_app. cbn. rewrite IH, Z.add_0_r. apply u64_add_l.
Qed.

Definition of_account (name : bytes) (eps : list relayEndpoint) : list relayEndpoint :=
  filter (fun ep => account ep = name) eps.
Definition reported (eps : list relayEndpoint) : list Z :=
  map scriptCount (filter (fun ep => IsZero (scriptCountAt ep) = false) eps).

(** The names, and the row of one account: the sum of the daily counts of its
    endpoints, and the sum of the distinct counts their scripts report. *)
Definition account_names (eps : list relayEndpoint) : list bytes :=
  remove_dups (filter (fun name => name <> []) (map account eps)).

Definition account_row (eps : list relayEndpoint) (name : bytes) : bytes :=
  let mine := of_account name eps in
  name ++ str " today=" ++ Itoa (u64 (zsum (map dailyCount mine))) ++
  match reported mine with
  | [] => []
  | cs => str " script=" ++ Itoa (u64 (zsum (remove_dups cs)))
  end.

Lemma account_names_in name eps : name ∈ account_names eps <-> name <> [] /\ name ∈ map account eps.
Proof. unfold account_names. by rewrite elem_of_remove_dups, list_elem_of_filter. Qed.

Lemma of_account_none name eps : name <> [] -> name ∉ account_names eps -> of_account name eps = [].
Proof.
  intros Hn Hin. destruct (of_account name eps) as [|ep l] eqn:E; [done|]. exfalso. apply Hin, account_names_in.
  split; [done|]. assert (He : ep ∈ of_account name eps) by (rewrite E; left).
  unfold of_account in He. apply list_elem_of_filter in He as [<- He]. by apply (list_elem_of_fmap_2 account).
Qed.

Lemma reported_snoc l ep :
  reported (l ++ [ep]) = reported l ++ (if IsZero (scriptCountAt ep) then [] else [scriptCount ep]).
Proof.
  unfold reported. rewrite filter_app, map_app. f_equal.
  destruct (IsZero (scriptCountAt ep)) eqn:E; [rewrite filter_cons_False by congruence|rewrite filter_cons_True by done];
    done.
Qed.

Definition account_sums (eps : list relayEndpoint) (name : bytes) : agg :=
  mkAgg (u64 (zsum (map dailyCount (of_account name eps)))) (list_to_set (reported (of_account name eps))).

Lemma account_totals_spec eps name :
  account_totals eps !! name
  = if bool_decide (name ∈ account_names eps) then Some (account_sums eps name) else None.
Proof.
  unfold account_totals. induction eps as [|ep eps IH] using rev_ind; [done|].
  rewrite foldl_app. cbn [foldl]. set (tot := foldl account_one ∅ eps) in *. unfold account_one.
  assert (Hin : name ∈ account_names (eps ++ [ep]) <-> name ∈ account_names eps \/ (name <> [] /\ name = account ep)).
  { rewrite !account_names_in, map_app, elem_of_app. cbn. rewrite list_elem_of_singleton. tauto. }
  rewrite (bool_decide_ext _ _ Hin). clear Hin.
  destruct (decide (account ep = [])) as [He|He].
  { rewrite (bool_decide_eq_true_2 _ He), IH.
    assert (H : name ∈ account_names eps -> account_sums (eps ++ [ep]) name = account_sums eps name).
    { intros [Hn _]%account_names_in. unfold account_sums, of_account. rewrite filter_app, filter_cons_False by congruence.
      by rewrite filter_nil, app_nil_r. }
    destruct (decide (name ∈ account_names eps)) as [Hi|Hi].
    - rewrite !bool_decide_eq_true_2, H by tauto. done.
    - rewrite !bool_decide_eq_false_2; [done|intros [?|[? ->]]; tauto|done]. }
  rewrite (bool_decide_eq_false_2 _ He). destruct (decide (name = account ep)) as [->|Hne].
  - rewrite lookup_insert_eq, bool_decide_eq_true_2 by (right; done). f_equal.
    replace (default (mkAgg 0 ∅) (tot !! account ep)) with (account_sums eps (account ep)).
    2: { rewrite IH. case_bool_decide as Hi; [done|]. cbn. unfold account_sums.
         by rewrite (of_account_none _ _ He Hi). }
    unfold account_sums, of_account. rewrite filter_app, filter_cons_True, filter_nil by done.
    rewrite map_app, zsum_app, reported_snoc. cbn [today scriptCounts]. f_equal.
    + rewrite u64_add_l. cbn. by rewrite Z.add_0_r.
    + case_bool; [by rewrite app_nil_r|]. rewrite list_to_set_app_L. cbn. by rewrite (right_id_L ∅ _), (comm_L (∪)).
  - rewrite lookup_insert_ne, IH by done. unfold account_sums, of_account.
    rewrite filter_app, filter_cons_False, filter_nil, app_nil_r by congruence.
    destruct (decide (name ∈ account_names eps));
      [rewrite !bool_decide_eq_true_2 by tauto|rewrite !bool_decide_eq_false_2 by tauto]; done.
Qed.

Lemma remove_dups_perm (l k : list Z) : (forall v, v ∈ l <-> v ∈ k) -> remove_dups l ≡ₚ remove_dups k.
Proof.
  intros H. apply NoDup_Permutation; [apply NoDup_remove_dups..|]. intros v. by rewrite !elem_of_remove_dups.
Qed.

Lemma elements_list_to_set (l : list Z) : elements (list_to_set l : gset Z) ≡ₚ remove_dups l.
Proof.
  apply NoDup_Permutation; [apply NoDup_elements|apply NoDup_remove_dups|]. intros v.
  by rewrite elem_of_elements, elem_of_list_to_set, elem_of_remove_dups.
Qed.

Lemma account_part_row eps name :
  name ∈ account_names eps -> account_part (account_totals eps) name = account_row eps name.
Proof.
  intros Hin. unfold account_part, account_row. rewrite account_totals_spec, bool_decide_eq_true_2 by done.
  change (default (mkAgg 0 ∅) (Some (account_sums eps name))) with (account_sums eps name).
  unfold account_sums. cbn [today scriptCounts].
  set (cs := reported (of_account name eps)). rewrite sum64_zsum, (zsum_perm _ _ (elements_list_to_set cs)).
  rewrite <- !app_assoc. do 3 f_equal. destruct cs as [|c cs]; [by rewrite app_nil_r|].
  rewrite (proj2 (Z.ltb_lt _ _)); [done|].
  assert (size (list_to_set (c :: cs) : gset Z) <> 0%nat); [|lia].
  apply size_non_empty_iff. set_solver.
Qed.

Lemma account_names_list eps : map fst (map_to_list (account_totals eps)) ≡ₚ account_names eps.
Proof.
  apply NoDup_Permutation; [apply NoDup_fst_map_to_list|apply NoDup_remove_dups|]. intros name.
  rewrite list_elem_of_fmap. pose proof (account_totals_spec eps name) as H. split.
  - intros ([n a] & -> & Hm%elem_of_map_to_list). cbn in *. rewrite Hm in H. by case_bool_decide.
  - intros Hi. rewrite bool_decide_eq_true_2 in H by done. exists (name, account_sums eps name).
    split; [done|]. by apply elem_of_map_to_list.
Qed.

(** The reference is indifferent to the order of the endpoints. *)
Lemma account_names_perm eps eps' : eps ≡ₚ eps' -> account_names eps ≡ₚ account_names eps'.
Proof.
  intros H. apply NoDup_Permutation; [apply NoDup_remove_dups..|]. intros name. rewrite !account_names_in.
  by rewrite (Permutation_map account H).
Qed.

Lemma account_row_perm eps eps' name : eps ≡ₚ eps' -> account_row eps name = account_row eps' name.
Proof.
  intros H. unfold account_row. set (l := of_account name eps). set (l' := of_account name eps').
  assert (Hl : l ≡ₚ l') by (unfold l, l', of_account; by rewrite H).
  rewrite (zsum_perm _ _ (Permutation_map dailyCount Hl)). do 4 f_equal.
  assert (Hr : reported l ≡ₚ reported l') by (unfold reported; by rewrite Hl).
  assert (Hd : remove_dups (reported l) ≡ₚ remove_dups (reported l')) by (apply remove_dups_perm; intros v; by rewrite Hr).
  apply zsum_perm in Hd. destruct (reported l) as [|c cs], (reported l') as [|c' cs']; [done|..].
  - by apply Permutation_nil_cons in Hr.
  - symmetry in Hr. by apply Permutation_nil_cons in Hr.
  - by rewrite Hd.
Qed.

Section Accounts.
Context (sod : Z -> Z).

(** The endpoints once their daily windows are rolled over; those without an
    account are left. *)
Definition rolled (now : Z) (eps : list relayEndpoint) : list relayEndpoint :=
  map (fun ep => if bool_decide (account ep = []) then ep else fst (touchDailyWindow sod now ep)) eps.

Lemma rolled_perm now eps eps' : eps ≡ₚ eps' -> rolled now eps ≡ₚ rolled now eps'.
Proof. apply Permutation_map. Qed.

Lemma account_line_rows now s :
  let eps := rolled now (endpoints s) in
  let names := sort_Strings (account_names eps) in
  snd (accountStatsLine sod now s)
  = if bool_decide (names = []) then []
    else str " accounts=[" ++ Join (map (account_row eps) names) (str " | ") ++ str "]".
Proof.
  cbv zeta. unfold accountStatsLine. cbn [endpoints]. fold (rolled now (endpoints s)).
  set (eps := rolled now (endpoints s)). rewrite (sort_Strings_perm _ _ (account_names_list eps)).
  assert (Hin : forall name, name ∈ sort_Strings (account_names eps) -> name ∈ account_names eps).
  { intros name. by rewrite (proj1 (sort_Strings_spec _)). }
  destruct (sort_Strings (account_names eps)) as [|n l]; [done|]. cbn [snd bool_decide decide].
  rewrite bool_decide_eq_false_2 by done. f_equal. f_equal. f_equal. apply map_ext_in. intros a Ha.
  apply account_part_row, Hin. by apply list_elem_of_In.
Qed.

(** C38: the account line of the statistics is what its comment says: the
    accounts in alphabetical order, each once, with the sum of the daily counts
    of its endpoints (in their current quota window) and the sum of the
    distinct counts their scripts report; it does not depend on the order of
    the endpoints; and for deployments that all report the same count it shows
    that count, not a multiple of it. *)
Theorem account_line (now : Z) (s : Endpoints) :
  let eps := rolled now (endpoints s) in
  let names := sort_Strings (account_names eps) in
  snd (accountStatsLine sod now s)
    = (if bool_decide (names = []) then []
       else str " accounts=[" ++ Join (map (account_row eps) names) (str " | ") ++ str "]")
  /\ Sorted name_le names /\ NoDup names
  /\ (forall s', endpoints s' ≡ₚ endpoints s -> snd (accountStatsLine sod now s') = snd (accountStatsLine sod now s))
  /\ (forall name c, (forall v, v ∈ reported (of_account name eps) -> v = c) ->
        reported (of_account name eps) <> [] -> 0 <= c < 2 ^ 64 ->
        account_row eps name = name ++ str " today=" ++ Itoa (u64 (zsum (map dailyCount (of_account name eps))))
          ++ str " script=" ++ Itoa c).
Proof.
  cbv zeta. split; [apply account_line_rows|]. split; [apply sort_Strings_spec|]. split; [|split].
  - rewrite (proj1 (sort_Strings_spec _)). apply NoDup_remove_dups.
  - intros s' Hp. rewrite !account_line_rows. pose proof (rolled_perm now _ _ Hp) as Hr.
    rewrite (sort_Strings_perm _ _ (account_names_perm _ _ Hr)).
    by rewrite (map_ext _ _ (fun name => account_row_perm _ _ name Hr)).
  - intros name c Hc Hne Hr. unfold account_row. set (cs := reported _) in *.
    assert (E : remove_dups cs ≡ₚ [c]).
    { apply NoDup_Permutation; [apply NoDup_remove_dups|apply NoDup_singleton|]. intros v.
      rewrite elem_of_remove_dups, list_elem_of_singleton. split; [apply Hc|]. intros ->.
      destruct cs as [|v cs]; [done|]. rewrite <- (Hc v); left. }
    apply zsum_perm in E. destruct cs as [|v cs]; [done|]. rewrite E. cbn [zsum foldr].
    by rewrite Z.add_0_r, (u64_small c).
Qed.

End Accounts.


(** Two deployments of one project and a third account. *)
Definition stats_ep (u a : bytes) (daily script at_ : Z) : relayEndpoint :=
  mkEp u a 0 0 0 0 daily 1000 script at_ false.
Definition demo_stats_eps : Endpoints :=
  mkEps [stats_ep (str "https://h/s/one/exec") (str "work") 7 40 5; stats_ep (str "https://h/s/two/exec") [] 9 0 0;
         stats_ep (str "https://h/s/three/exec") (str "home") 1 0 0; stats_ep (str "https://h/s/four/exec") (str "work") 5 40 6] 0.

Example demo_account_line :
  snd (accountStatsLine (FixedZone 0) 900 demo_stats_eps) = str " accounts=[home today=1 | work today=12 script=40]".
Proof. vm_compute. reflexivity. Qed.

Example demo_endpoint_line :
  snd (endpointStatsLine (FixedZone 0) 900 (fun _ => 901) (mkEps [mkEp (str "https://h/s/one/exec") (str "work") (90 * Second + 901) 1 3 1 7 1000 40 5 false] 0))
  = str "one@work ok=3 fail=1 today=7 script=40 bl=1m30s".
Proof. vm_compute. reflexivity. Qed.

Lemma account_line_witness :
  snd (accountStatsLine (FixedZone 0) 900 (mkEps (rev (endpoints demo_stats_eps)) 0))
    = str " accounts=[home today=1 | work today=12 script=40]"
  /\ account_row (rolled (FixedZone 0) 900 (endpoints demo_stats_eps)) (str "work")
    = str "work" ++ str " today=" ++ Itoa 12 ++ str " script=" ++ Itoa 40.
Proof.
  destruct (account_line (FixedZone 0) 900 demo_stats_eps) as (_ & _ & _ & Hp & Hc). split.
  - rewrite (Hp (mkEps (rev (endpoints demo_stats_eps)) 0)); [vm_compute; reflexivity|].
    symmetry. apply Permutation_rev.
  - apply (Hc (str "work") 40); [|vm_compute; discriminate|split; [discriminate|reflexivity]].
    intros v Hv.
    assert (E : reported (of_account (str "work") (rolled (FixedZone 0) 900 (endpoints demo_stats_eps))) = [40; 40])
      by (vm_compute; reflexivity).
    rewrite E, !elem_of_cons in Hv. destruct Hv as [->|[->|Hv]]; [done..|by apply elem_of_nil in Hv].
Defined.
