(* ===== verification/CmdMain.v ===== *)
(** * cmd/client and cmd/server: what the programs print

    The log writer of the client and the lines both programs print around their
    start.  [Printf] messages are given as texts; the time of day [ts] and the
    texts of errors are arguments.  Flags and signals are left out; what the
    client's [main] passes to the carrier is [ConfigProps.carrier_config], the
    order of what it does [Startup.client_main]. *)

From S2P Require Import Prelude GoStd GoText RelayBody Dns Config ConfigProps.

(** ** Texts *)

(** [strings.ToUpper], as [ToLower] for ASCII text: the two non-ASCII runes
    whose upper case is ASCII are U+0131 (dotless i) and U+017F (long s); the
    others stay non-ASCII, and are kept here as they are. *)
Definition upper_ascii (c : byte) : byte :=
  if (97 <=? b2z c) && (b2z c <=? 122) then z2b (b2z c - 32) else c.

Fixpoint ToUpper (l : bytes) : bytes :=
  match l with
  | [] => []
  | a :: t =>
      match t with
      | b :: t' =>
          if (b2z a =? 0xC4) && (b2z b =? 0xB1) then z2b 73 :: ToUpper t'
          else if (b2z a =? 0xC5) && (b2z b =? 0xBF) then z2b 83 :: ToUpper t'
          else upper_ascii a :: ToUpper t
      | [] => [upper_ascii a]
      end
  end.

(** [strings.Index] of a text of one byte. *)
Fixpoint IndexByte (l : bytes) (c : byte) : Z :=
  match l with
  | [] => -1
  | a :: t => if bool_decide (a = c) then 0 else let i := IndexByte t c in if i <? 0 then -1 else i + 1
  end.

(** [%d]. *)
Definition fmt_d (n : Z) : bytes := if n <? 0 then z2b 45 :: Itoa (- n) else Itoa n.

(** ** The log writer *)

Definition crlf : bytes := [z2b 13; z2b 10].
Definition newline : byte := z2b 10.
Definition esc (code : string) : bytes := z2b 27 :: str "[" ++ str code ++ str "m".

(** The module in brackets at the start, and the message after it. *)
Definition log_parts (raw : bytes) : bytes * bytes :=
  let '(module, msg) :=
    if HasPrefix raw (str "[") then
      let idx := IndexByte raw (z2b 93) in
      if 1 <? idx
      then (ToUpper (TrimSpace (take (Z.to_nat (idx - 1)) (drop 1 raw))), TrimSpace (drop (Z.to_nat (idx + 1)) raw))
      else (str "client", raw)
    else (str "client", raw) in
  (ToUpper module, msg).

Inductive level := INFO | WARN | ERROR.

Definition log_level (msg : bytes) : level :=
  let lower := ToLower msg in
  if Contains lower (str "fatal") || Contains lower (str "invalid") || Contains lower (str "required") then ERROR
  else if Contains lower (str "timeout") || Contains lower (str "non-ok") || Contains lower (str "failed")
          || Contains lower (str "shutting down") then WARN
  else INFO.

Definition level_name (l : level) : bytes :=
  match l with INFO => str "INFO" | WARN => str "WARN" | ERROR => str "ERROR" end.
Definition level_color (l : level) : bytes :=
  match l with INFO => esc "36" | WARN => esc "33" | ERROR => esc "31" end.

(** [clientLogWriter.Write]: the count it returns and what it writes. *)
Definition Write (useColor : bool) (ts p : bytes) : Z * bytes :=
  let raw := TrimRight p crlf in
  if bool_decide (raw = []) then (len p, p) else
  let '(module, msg) := log_parts raw in
  let level := log_level msg in
  let m := pad_right 7 module in
  let l := pad_right 7 (level_name level) in
  if negb useColor
  then (len p, ts ++ str "  " ++ m ++ str " " ++ l ++ str " " ++ msg ++ [newline])
  else (len p, ts ++ str "  " ++ esc "35" ++ m ++ esc "0" ++ str " " ++ level_color level ++ l ++ esc "0"
               ++ str " " ++ msg ++ [newline]).

(** [shouldUseColor]: the two variables, what [Stat] says of the output (whether
    it is a character device), and the platform. *)
Definition shouldUseColor (NO_COLOR FORCE_COLOR : bytes) (stat : option bool) (platform : bool) : bool :=
  if negb (bool_decide (NO_COLOR = [])) then false else
  if negb (bool_decide (FORCE_COLOR = [])) && negb (bool_decide (FORCE_COLOR = str "0")) then true else
  match stat with
  | None | Some false => false
  | Some true => platform
  end.

(** [log.Printf] with no flags: one call of [Write] with a line. *)
Definition log_line (useColor : bool) (ts msg : bytes) : bytes :=
  snd (Write useColor ts (match last msg with Some c => if bool_decide (c = newline) then msg else msg ++ [newline]
                          | None => [newline] end)).

(** ** The client *)

(** The client's own [shortScriptKey], which knows relay URLs too. *)
Fixpoint script_key_loop (parts : list bytes) : option bytes :=
  match parts with
  | p :: ((id :: _) as rest) =>
      if bool_decide (p = str "s")
      then Some (if 14 <? len id then take 6 id ++ str "..." ++ drop (length id - 6) id else id)
      else script_key_loop rest
  | _ => None
  end.

Definition shortScriptKey (scriptURL : bytes) : bytes :=
  let parts := Split (Trim scriptURL (str "/")) (z2b 47) in
  match script_key_loop parts with
  | Some k => k
  | None => match parts !! 2%nat with Some host => host | None => scriptURL end
  end.

Definition summarizeScriptURLs (scriptURLs : list bytes) : bytes :=
  if len scriptURLs =? 0 then str "(none)" else
  let maxShown := Z.min 3 (len scriptURLs) in
  let parts := map shortScriptKey (take (Z.to_nat maxShown) scriptURLs) in
  Join (parts ++ (if maxShown <? len scriptURLs then [str "+" ++ Itoa (len scriptURLs - maxShown) ++ str " more"] else []))
    (str ", ").

(** The messages of [main] before the carrier is built. *)
Definition client_startup (path : bytes) (cfg : ClientCfg) : list bytes :=
  [str "[client] GooseRelayVPN client starting";
   str "[client] config loaded from " ++ path;
   str "[client] SOCKS5 proxy: socks5://" ++ cc_ListenAddr cfg]
  ++ (if cc_UseFronting cfg then
        [str "[client] mode: fronting";
         match cc_SNIHosts cfg with
         | [sni] => str "[client] fronting via " ++ cc_GoogleIP cfg ++ str " (sni=" ++ sni ++ str ")"
         | hosts => str "[client] fronting via " ++ cc_GoogleIP cfg ++ str " (sni hosts: " ++ Join hosts (str ", ")
                      ++ str " — " ++ Itoa (len hosts) ++ str " throttle buckets)"
         end]
      else [str "[client] mode: direct relay_urls (fronting disabled)"])
  ++ [str "[client] relay endpoints: " ++ Itoa (len (cc_ScriptURLs cfg)) ++ str " ("
        ++ summarizeScriptURLs (cc_ScriptURLs cfg) ++ str ")"]
  ++ (if cc_DebugTiming cfg
      then [str "[client] debug_timing enabled — per-session TTFB and per-poll RTT will be logged"] else [])
  ++ (if 0 <? cc_CoalesceStepMs cfg
      then [str "[client] uplink coalescing: step=" ++ Itoa (cc_CoalesceStepMs cfg) ++ str "ms (internal safety cap "
              ++ fmt_d (cc_CoalesceMaxMs cfg) ++ str "ms; bursts of TX collapse into a single poll)"] else []).

(** The messages about the pre-flight check; [err] is the text of its error. *)
Definition preflight_messages (err : option bytes) : list bytes :=
  str "[client] running pre-flight check (Apps Script reachable, VPS reachable, key matches)…" ::
  match err with
  | None => [str "[client] pre-flight OK: relay healthy, AES key matches end-to-end"]
  | Some e => str "[client] pre-flight FAILED:" :: map (fun line => str "[client]   " ++ line) (Split e newline)
              ++ [str "[client] continuing anyway — the issue may be transient or recover on its own"]
  end.

Definition auth_message : bytes := str "[client] SOCKS5 auth enabled (RFC 1929 username/password required)".

Definition ready_messages (cfg : ClientCfg) : list bytes :=
  (str "[client] ready: local SOCKS5 is listening on " ++ cc_ListenAddr cfg)
  :: (if bool_decide (cc_SocksUser cfg = []) then [] else [auth_message]).

(** ** The server *)

Definition server_startup (cfg : ServerCfg) : list bytes :=
  let port := match SplitHostPort (sc_ListenAddr cfg) with Some (_, port) => port | None => [] end in
  [str "[exit] tunnel_key loaded (32 bytes)";
   str "[exit] healthz: curl http://YOUR.VPS.IP:" ++ port ++ str "/healthz   (should return HTTP 200)";
   str "[exit] tunnel : POST http://YOUR.VPS.IP:" ++ port ++ str "/tunnel    (this is the VPS_URL in Code.gs)"]
  ++ (if sc_DebugTiming cfg
      then [str "[exit] debug_timing enabled — per-session dial breakdown will be logged"] else [])
  ++ (if bool_decide (sc_UpstreamProxy cfg = []) then []
      else [str "[exit] upstream_proxy enabled — outbound connections routed via SOCKS5 " ++ sc_UpstreamProxy cfg]).

(** Why [ListenAndServe] failed. *)
Definition server_fatal (cfg : ServerCfg) (msg : bytes) : bytes :=
  let port := match SplitHostPort (sc_ListenAddr cfg) with Some (_, port) => port | None => [] end in
  if Contains msg (str "address already in use") then
    str "port " ++ port ++ str " is already in use — another goose-server may be running." ++ [newline]
    ++ str "  Check with: sudo lsof -i :" ++ port
  else if Contains msg (str "permission denied") then
    str "permission denied binding " ++ sc_ListenAddr cfg
    ++ str " — ports below 1024 require root, or pick a different server_port (e.g. 8443)"
  else str "listen: " ++ msg.

(** ** What the log shows *)

(** The bytes of a text that is made from another. *)
Lemma trim_runes_sub r2 r3 x l : x ∈ trim_runes r2 r3 l -> x ∈ l.
Proof. intros H. destruct (trim_runes_suffix r2 r3 l) as [p E]. rewrite E. apply elem_of_app. by right. Qed.

Lemma TrimSpace_sub x l : x ∈ TrimSpace l -> x ∈ l.
Proof.
  unfold TrimSpace, trim_right_space, trim_left_space.
  intros H%list_elem_of_In%in_rev%list_elem_of_In%trim_runes_sub%list_elem_of_In%in_rev%list_elem_of_In.
  by apply trim_runes_sub in H.
Qed.

Lemma upper_ascii_sub x a : upper_ascii a = x -> ~ 65 <= b2z x <= 90 -> a = x.
Proof.
  unfold upper_ascii. case_bool; [|done]. b2p. intros <- Hx. rewrite b2z_z2b in Hx.
  rewrite Z.mod_small in Hx by lia. lia.
Qed.

Lemma ToUpper_sub x l : ~ 65 <= b2z x <= 90 -> x ∈ ToUpper l -> x ∈ l.
Proof.
  intros Hx. remember (length l) as n eqn:Hn. revert l Hn.
  induction n as [n IH] using lt_wf_ind. intros l ->.
  assert (Hz : forall z t, 65 <= z <= 90 -> x ∈ z2b z :: ToUpper t -> x ∈ ToUpper t).
  { intros z t Hz [E|H]%elem_of_cons; [|done]. destruct Hx. rewrite E, b2z_z2b, Z.mod_small by lia. done. }
  destruct l as [|a [|b t]]; cbn [ToUpper]; [done| |].
  - intros [E|H%elem_of_nil]%elem_of_cons; [|done]. symmetry in E. apply upper_ascii_sub in E as ->; [left|done].
  - intros H. assert (Ht : x ∈ ToUpper t -> x ∈ a :: b :: t).
    { intros H1. do 2 right. apply (IH (length t)); [cbn; lia|done|done]. }
    repeat case_bool; [apply Hz in H; [auto|lia]..|].
    apply elem_of_cons in H as [E|H]; [symmetry in E; apply upper_ascii_sub in E as ->; [left|done]|].
    right. apply (IH (length (b :: t))); [cbn; lia|done|done].
Qed.

Lemma log_parts_sub x raw : x ∉ str "client" -> ~ 65 <= b2z x <= 90 ->
  (x ∈ fst (log_parts raw) -> x ∈ raw) /\ (x ∈ snd (log_parts raw) -> x ∈ raw).
Proof.
  intros Hc Hx. unfold log_parts. repeat case_bool; cbn [fst snd].
  - split.
    + intros H%ToUpper_sub%ToUpper_sub%TrimSpace_sub; [|done..].
      apply elem_of_take in H as (i & Hi & _). rewrite lookup_drop in Hi. by eapply list_elem_of_lookup_2.
    + intros H%TrimSpace_sub. apply list_elem_of_lookup in H as (i & Hi). rewrite lookup_drop in Hi.
      by eapply list_elem_of_lookup_2.
  - split; [|done]. by intros ?%ToUpper_sub.
  - split; [|done]. by intros ?%ToUpper_sub.
Qed.

(** A text without its colour sequences. *)
Fixpoint strip_colors (skip : bool) (l : bytes) : bytes :=
  match l with
  | [] => []
  | c :: t =>
      if skip then strip_colors (negb (bool_decide (c = z2b 109))) t
      else if bool_decide (c = z2b 27) then strip_colors true t
      else c :: strip_colors false t
  end.

Lemma strip_plain p q : z2b 27 ∉ p -> strip_colors false (p ++ q) = p ++ strip_colors false q.
Proof.
  induction p as [|c p IH]; [done|]. intros [Hc Hp]%not_elem_of_cons. cbn.
  rewrite bool_decide_eq_false_2 by congruence. by rewrite IH.
Qed.

Lemma strip_plain_all p : z2b 27 ∉ p -> strip_colors false p = p.
Proof. intros H. rewrite <- (app_nil_r p) at 1. rewrite strip_plain by done. by rewrite app_nil_r. Qed.

Lemma strip_level l q : strip_colors false (level_color l ++ q) = strip_colors false q.
Proof. by destruct l. Qed.

Lemma pad_right_sub x w s : x <> z2b 32 -> x ∈ pad_right w s -> x ∈ s.
Proof. intros Hx. unfold pad_right, spaces. by intros [H|[-> _]%elem_of_replicate]%elem_of_app. Qed.

Lemma not_level x l : x = newline \/ x = z2b 27 -> x ∉ pad_right 7 (level_name l).
Proof. intros [-> | ->]; destruct l; apply (bool_decide_unpack _); by vm_compute. Qed.

(** One record of the client's log is one line.  The writer accepts the
    record whole; what it writes ends with the only newline of the line, if the
    record holds none before its end; and the coloured line differs from the
    plain one in its colour sequences only. *)
Theorem log_record ts p :
  let raw := TrimRight p crlf in
  raw <> [] -> newline ∉ ts -> newline ∉ raw ->
  (forall color, fst (Write color ts p) = len p
     /\ exists line, snd (Write color ts p) = line ++ [newline] /\ newline ∉ line)
  /\ (z2b 27 ∉ ts -> z2b 27 ∉ raw -> strip_colors false (snd (Write true ts p)) = snd (Write false ts p)).
Proof.
  intros raw Hne Hts Hraw. unfold Write. fold raw. rewrite bool_decide_eq_false_2 by done.
  destruct (log_parts_sub newline raw) as [Hm Hg]; [apply (bool_decide_unpack _); by vm_compute|by vm_compute; intros []|].
  destruct (log_parts_sub (z2b 27) raw) as [Em Eg]; [apply (bool_decide_unpack _); by vm_compute|by vm_compute; intros []|].
  destruct (log_parts raw) as [module msg]. cbn [fst snd] in *. set (lv := log_level msg).
  assert (Hpad : forall x, x <> z2b 32 -> (x ∈ module -> x ∈ raw) -> x ∉ raw -> x ∉ pad_right 7 module).
  { intros x Hx H1 H2 H3%pad_right_sub; auto. }
  split.
  - intros color. destruct color; cbn [negb fst snd]; (split; [done|]); eexists.
    + rewrite !app_assoc. split; [reflexivity|]. rewrite !not_elem_of_app.
      repeat split; auto using not_level; try (apply (bool_decide_unpack _); by vm_compute);
        try (by apply Hpad); destruct lv; apply (bool_decide_unpack _); by vm_compute.
    + rewrite !app_assoc. split; [reflexivity|]. rewrite !not_elem_of_app.
      repeat split; auto using not_level; try (apply (bool_decide_unpack _); by vm_compute); by apply Hpad.
  - intros Ets Eraw. cbn [negb snd]. rewrite strip_plain by done. f_equal.
    rewrite strip_plain by (apply (bool_decide_unpack _); by vm_compute). f_equal.
    change (strip_colors false (esc "35" ++ ?q)) with (strip_colors false q).
    rewrite strip_plain by (by apply Hpad). f_equal.
    change (strip_colors false (esc "0" ++ ?q)) with (strip_colors false q).
    rewrite strip_plain by (apply (bool_decide_unpack _); by vm_compute). f_equal.
    rewrite strip_level, strip_plain by auto using not_level. f_equal.
    change (strip_colors false (esc "0" ++ ?q)) with (strip_colors false q).
    rewrite strip_plain by (apply (bool_decide_unpack _); by vm_compute). f_equal.
    apply strip_plain_all. rewrite not_elem_of_app. split; [auto|apply (bool_decide_unpack _); by vm_compute].
Qed.

(** ** Deployment IDs in the log *)

Lemma script_key_loop_carrier parts : short_key_loop parts = default (str "(unknown)") (script_key_loop parts).
Proof.
  induction parts as [|p [|id parts] IH]; [done..|]. cbn [short_key_loop script_key_loop] in *. by case_bool.
Qed.

Lemma script_url_parts id : plain_id id ->
  Split (Trim (buildScriptURL id) (str "/")) slash = url_parts ++ [id; str "exec"].
Proof.
  intros (Hne & _ & Hs). unfold buildScriptURL.
  assert (Htrim : Trim (str "https://script.google.com/macros/s/" ++ id ++ str "/exec") (str "/")
    = str "https://script.google.com/macros/s/" ++ id ++ str "/exec").
  { change (str "https://script.google.com/macros/s/") with (z2b 104 :: str "ttps://script.google.com/macros/s/").
    change (str "/exec") with (str "/exe" ++ [z2b 99]). cbn [app]. rewrite !app_assoc.
    apply Trim_ends; apply (bool_decide_unpack _); by vm_compute. }
  rewrite Htrim.
  change (str "https://script.google.com/macros/s/" ++ id ++ str "/exec")
    with (str "https:" ++ slash :: [] ++ slash :: str "script.google.com" ++ slash :: str "macros" ++ slash :: str "s"
          ++ slash :: id ++ slash :: str "exec").
  rewrite !Split_app by (apply (bool_decide_unpack _); vm_compute; exact I).
  rewrite Split_app by done. by rewrite Split_free by (apply (bool_decide_unpack _); by vm_compute).
Qed.

(** The log names a deployment by the ends of its ID.  For every ID the
    configuration accepts, the client's start-up line, the diagnosis and the
    statistics show the same six first and six last characters, and none of the
    38 or more between them. *)
Theorem deployment_label id :
  plain_id id -> validateDeploymentID id = None ->
  shortScriptKey (buildScriptURL id) = take 6 id ++ str "..." ++ drop (length id - 6) id
  /\ RelayBody.shortScriptKey (buildScriptURL id) = shortScriptKey (buildScriptURL id)
  /\ len (shortScriptKey (buildScriptURL id)) = 15 /\ 50 <= len id.
Proof.
  intros Hid Hv.
  assert (Hlen : 50 <= len id).
  { unfold validateDeploymentID in Hv. repeat (case_bool; [done|]). b2p. lia. }
  assert (E : script_key_loop (Split (Trim (buildScriptURL id) (str "/")) (z2b 47))
    = Some (take 6 id ++ str "..." ++ drop (length id - 6) id)).
  { change (z2b 47) with slash. rewrite script_url_parts by done. unfold url_parts. cbn [app script_key_loop].
    rewrite !bool_decide_eq_false_2 by discriminate. rewrite bool_decide_eq_true_2 by done.
    by rewrite (proj2 (Z.ltb_lt _ _)) by lia. }
  unfold shortScriptKey, RelayBody.shortScriptKey. rewrite script_key_loop_carrier, E. cbn [default].
  split; [done|]. split; [done|]. split; [|done].
  rewrite !len_app, len_take, len_drop. change (len (str "...")) with 3. unfold len in *. lia.
Qed.

(** ** Concrete records *)

Definition demo_raw : bytes := str "[exit] dial failed: timeout" ++ [newline].

Lemma log_record_witness :
  strip_colors false (snd (Write true (str "12:00:00") demo_raw))
  = str "12:00:00  EXIT    WARN    dial failed: timeout" ++ [newline].
Proof.
  destruct (log_record (str "12:00:00") demo_raw) as [_ H].
  - vm_compute. discriminate.
  - apply (bool_decide_unpack _). by vm_compute.
  - apply (bool_decide_unpack _). by vm_compute.
  - rewrite H; [vm_compute; reflexivity|apply (bool_decide_unpack _); by vm_compute..].
Defined.

(** The message that credentials are in use is classified as an error, for its
    word [required]. *)
Example auth_message_is_error :
  snd (Write false (str "12:00:00") auth_message)
  = str "12:00:00  CLIENT  ERROR   SOCKS5 auth enabled (RFC 1929 username/password required)" ++ [newline].
Proof. vm_compute. reflexivity. Qed.

Example demo_summary :
  summarizeScriptURLs [buildScriptURL demo_id; str "http://10.0.0.1:8443/tunnel"; buildScriptURL demo_id; []]
  = str "AKfycb...hijk_2, 10.0.0.1:8443, AKfycb...hijk_2, +1 more".
Proof. vm_compute. reflexivity. Qed.
