(* ===== verification/BenchDiff.v ===== *)
(** * bench/diff/main.go: the regression gate of the benchmarks

    [diff] compares the results of two benchmark runs and decides whether the
    second is a regression.  Numbers are float64, computed with the Standard
    Library's executable IEEE 754 arithmetic.  Reading and parsing the two files
    is the JSON library's: [results] is what [mustLoad] returns, each scenario
    still as text, and [un_map] decodes such a text; [ParseFloat] is [strconv]'s.
    The output is a list of lines and the exit code. *)

From Stdlib Require Import SpecFloat.
From S2P Require Import Prelude GoStd GoText Session SessionApi RelayBody Endpoints Carrier Dns Version Exit Stats.

(** ** float64 *)

Notation f64 := spec_float.
Definition fsub : f64 -> f64 -> f64 := SFsub 53 1024.
Definition fdiv : f64 -> f64 -> f64 := SFdiv 53 1024.
Definition fmul : f64 -> f64 -> f64 := SFmul 53 1024.
Definition f64_of_Z (n : Z) : f64 := binary_normalize 53 1024 n 0 false.
Definition f64_lt (a b : f64) : bool := SFltb a b.
Definition f64_le (a b : f64) : bool := SFleb a b.
Definition f64_eq (a b : f64) : bool := SFeqb a b.
Definition f64_zero : f64 := S754_zero false.

(** [%.<d>f], and [%+.<d>f] with [plus]. *)
Definition fmt_f64 (plus : bool) (d : nat) (x : f64) : bytes :=
  let sign (s : bool) := if s then str "-" else if plus then str "+" else [] in
  match x with
  | S754_nan => if plus then str "+NaN" else str "NaN"
  | S754_infinity s => if s then str "-Inf" else str "+Inf"
  | S754_zero s => sign s ++ fixed d 0 1
  | S754_finite s m e =>
      sign s ++ (if 0 <=? e then fixed d (Zpos m * 2 ^ e) 1 else fixed d (Zpos m) (2 ^ (- e)))
  end.

(** ** The metrics *)

Inductive direction := higherBetter | lowerBetter.

Record metric := mkMetric {
  scenario : bytes;
  field : bytes;
  dir : direction;
  unit : bytes;
  noiseFloor : f64;
}.

Definition trackedMetrics : list metric :=
  let up s := mkMetric (str s) (str "mb_per_sec") higherBetter (str "MB/s") f64_zero in
  let ttfb f := mkMetric (str "ttfb_p50_p95") (str f) lowerBetter (str "µs") f64_zero in
  let idle f := mkMetric (str "idle_overhead_15s") (str f) lowerBetter (str "%") (f64_of_Z 1) in
  [up "throughput_up_1MB_1session"%string; up "throughput_up_8MB_1session"%string;
   up "throughput_up_8MB_4sessions"%string; up "throughput_down_8MB_1session"%string;
   ttfb "p50_us"%string; ttfb "p95_us"%string; ttfb "p99_us"%string;
   mkMetric (str "sessions_per_sec") (str "per_sec") higherBetter (str "/s") f64_zero;
   idle "client_cpu_mean"%string; idle "server_cpu_mean"%string].

Record results := mkResults {
  Ref : bytes;
  Commit : bytes;
  HostText : bytes;              (* [fmt.Sprint] of the host *)
  Scenarios : gmap bytes bytes;  (* the raw text of each scenario *)
}.

(** A value in a decoded [map[string]any]. *)
Inductive any :=
| AFloat (x : f64)
| AInt (n : Z)
| AInt64 (n : Z)
| ANumber (text : bytes)
| AOther.

Definition percentDelta (baseline current : f64) : f64 :=
  if f64_eq baseline f64_zero then
    if f64_eq current f64_zero then f64_zero else S754_infinity false
  else fmul (fdiv (fsub current baseline) baseline) (f64_of_Z 100).

Definition mark_regression : bytes := str "✗ REGRESSION".
Definition mark_improvement : bytes := str "✓ improvement".

Definition classify (d : direction) (deltaPct threshold : f64) : bytes * bool :=
  match d with
  | higherBetter =>
      if f64_lt deltaPct (SFopp threshold) then (mark_regression, true)
      else if f64_lt threshold deltaPct then (mark_improvement, false) else ([], false)
  | lowerBetter =>
      if f64_lt threshold deltaPct then (mark_regression, true)
      else if f64_lt deltaPct (SFopp threshold) then (mark_improvement, false) else ([], false)
  end.

Definition shortCommit (c : bytes) : bytes := if 8 <? len c then take 8 c else c.

Section Diff.
Context (un_map : bytes -> option (gmap bytes any)) (ParseFloat : bytes -> option f64) (fmt_v : f64 -> bytes).

Definition extractField (raw name : bytes) : option f64 :=
  if len raw =? 0 then None else
  match un_map raw with
  | None => None
  | Some m =>
      match m !! name with
      | None => None
      | Some (AFloat x) => Some x
      | Some (AInt n) | Some (AInt64 n) => Some (f64_of_Z n)
      | Some (ANumber t) => ParseFloat t
      | Some AOther => None
      end
  end.

Definition formatVal (v : f64) (u : bytes) : bytes :=
  if bool_decide (u = str "MB/s") || bool_decide (u = str "%") then fmt_f64 false 2 v ++ str " " ++ u
  else if bool_decide (u = str "/s") then fmt_f64 false 1 v ++ str " " ++ u
  else if bool_decide (u = str "µs") then
    if f64_le (f64_of_Z 1000) v then fmt_f64 false 2 (fdiv v (f64_of_Z 1000)) ++ str " ms"
    else fmt_f64 false 0 v ++ str " " ++ u
  else fmt_v v ++ str " " ++ u.

(** [v] is the variable's value. *)
Definition envFloat (v : bytes) (fallback : f64) : f64 :=
  let v := TrimSpace v in
  if bool_decide (v = []) then fallback else default fallback (ParseFloat v).

Definition row (label b c delta : bytes) : bytes :=
  pad_right 44 label ++ str " " ++ pad_left 16 b ++ str " " ++ pad_left 16 c ++ str " " ++ delta.

(** One round of the loop: the line, if any, and whether [regressions] grows. *)
Definition diff_one (threshold : f64) (baseline current : results) (m : metric) : option bytes * bool :=
  let bRaw := Scenarios baseline !! scenario m in
  let cRaw := Scenarios current !! scenario m in
  let label := scenario m ++ str "." ++ field m in
  match bRaw, cRaw with
  | None, None => (None, false)
  | _, _ =>
      match extractField (default [] bRaw) (field m), extractField (default [] cRaw) (field m) with
      | None, None => (None, false)
      | None, Some cv => (Some (row label (str "—") (formatVal cv (unit m)) (pad_left 10 (str "(new)"))), false)
      | Some bv, None => (Some (row label (formatVal bv (unit m)) (str "—") (pad_left 10 (str "(missing)"))), true)
      | Some bv, Some cv =>
          let deltaPct := percentDelta bv cv in
          let belowFloor := f64_lt f64_zero (noiseFloor m) && f64_le bv (noiseFloor m) && f64_le cv (noiseFloor m) in
          let '(marker, regressed) :=
            if belowFloor then (str "(below noise floor)", false) else classify (dir m) deltaPct threshold in
          (Some (row label (formatVal bv (unit m)) (formatVal cv (unit m))
                   (pad_left 9 (fmt_f64 true 1 deltaPct) ++ str "% " ++ marker)), regressed)
      end
  end.

Definition diff_metrics (threshold : f64) (baseline current : results) (ms : list metric) : list bytes * Z :=
  foldl (fun acc m =>
    let '(line, regressed) := diff_one threshold baseline current m in
    (fst acc ++ option_list line, if regressed : bool then snd acc + 1 else snd acc)) ([], 0) ms.

(** [main] after both files are loaded: standard output and the exit code. *)
Definition diff_main (env : bytes) (baseline current : results) : list bytes * Z :=
  let threshold := envFloat env (f64_of_Z 10) in
  let header := pad_right 44 (str "METRIC") ++ str " " ++ pad_left 16 (str "BASELINE") ++ str " "
    ++ pad_left 16 (str "CURRENT") ++ str " " ++ pad_left 10 (str "Δ") ++ str " " in
  let '(rows, regressions) := diff_metrics threshold baseline current trackedMetrics in
  let out := [str "baseline: " ++ Ref baseline ++ str " (" ++ shortCommit (Commit baseline) ++ str ")";
     str "current : " ++ Ref current ++ str " (" ++ shortCommit (Commit current) ++ str ")";
     str "threshold: " ++ fmt_f64 false 1 threshold ++ str "% per-metric regression fails this run"; [];
     header; replicate (length header) (z2b 45)] ++ rows ++ [[]] in
  if 0 <? regressions
  then (out ++ [str "✗ " ++ Itoa regressions ++ str " metric(s) regressed by more than "
                ++ fmt_f64 false 1 threshold ++ str "% — failing"], 1)
  else (out ++ [str "✓ no regressions over threshold"], 0).

(** ** The verdict *)

(** The value a run has for a metric. *)
Definition value (r : results) (m : metric) : option f64 :=
  raw ← Scenarios r !! scenario m; extractField raw (field m).

(** A metric that got lost, or that is worse by more than the threshold and not
    noise. *)
Definition regressed (t : f64) (baseline current : results) (m : metric) : Prop :=
  match value baseline m, value current m with
  | Some bv, Some cv =>
      f64_lt f64_zero (noiseFloor m) && f64_le bv (noiseFloor m) && f64_le cv (noiseFloor m) = false
      /\ match dir m with
         | higherBetter => f64_lt (percentDelta bv cv) (SFopp t) = true
         | lowerBetter => f64_lt t (percentDelta bv cv) = true
         end
  | Some _, None => True
  | None, _ => False
  end.

Lemma diff_one_verdict t baseline current m :
  snd (diff_one t baseline current m) = true <-> regressed t baseline current m.
Proof.
  unfold diff_one, regressed, value.
  assert (Hnil : extractField [] (field m) = None) by done.
  destruct (Scenarios baseline !! scenario m) as [b|], (Scenarios current !! scenario m) as [c|];
    cbn [mbind option_bind default]; rewrite ?Hnil; cbn;
    try (destruct (extractField b (field m))); try (destruct (extractField c (field m))); cbn;
    try (by split); try tauto.
  case_bool; cbn; [intuition; discriminate|]. unfold classify.
  destruct (dir m); repeat case_bool; cbn; intuition; try discriminate; congruence.
Qed.

Lemma diff_metrics_count t baseline current ms :
  0 <= snd (diff_metrics t baseline current ms)
  /\ (0 < snd (diff_metrics t baseline current ms) <-> exists m, m ∈ ms /\ regressed t baseline current m).
Proof.
  unfold diff_metrics. induction ms as [|m ms IH] using rev_ind.
  { split; [done|]. cbn. split; [lia|]. intros (m & Hm%elem_of_nil & _). done. }
  rewrite foldl_app. cbn [foldl]. destruct IH as [IH0 IH]. pose proof (diff_one_verdict t baseline current m) as Hv.
  destruct (diff_one t baseline current m) as [line []]; cbn [snd] in *; (split; [lia|]).
  - split; [|lia]. intros _. exists m. split; [apply elem_of_app; right; left|]. by apply Hv.
  - rewrite IH. setoid_rewrite elem_of_app. setoid_rewrite list_elem_of_singleton. split.
    + intros (m' & Hm & Hr). eauto.
    + intros (m' & [Hm| ->] & Hr); [eauto|]. by apply Hv in Hr.
Qed.

(** The change of a number against itself is a zero, or no number. *)
Lemma percentDelta_self x : percentDelta x x = S754_nan \/ exists s, percentDelta x x = S754_zero s.
Proof.
  unfold percentDelta. destruct x as [s|s| |s m e]; try (by left); try (by right; exists false).
  - destruct s; by left.
  - right. assert (E : fsub (S754_finite s m e) (S754_finite s m e) = f64_zero).
    { unfold fsub, SFsub. by rewrite Z.sub_diag. }
    rewrite E. destruct s; by eexists.
Qed.

Lemma classify_self d x t : f64_lt t f64_zero = false -> snd (classify d (percentDelta x x) t) = false.
Proof.
  intros Ht. destruct (percentDelta_self x) as [->|[s ->]]; unfold classify, f64_lt, SFltb in *; cbn in *.
  - by destruct d, t.
  - destruct d, t as [|[]| |[]]; done.
Qed.

(** The verdict of the benchmark gate.  It fails (exit code 1) exactly when
    some tracked metric is lost or got worse, in its own direction, by more than
    the threshold without being noise; and a run compared with itself always
    passes, for every threshold that is not negative. *)
Theorem diff_verdict env baseline current :
  let t := envFloat env (f64_of_Z 10) in
  (snd (diff_main env baseline current) = 1
     <-> exists m, m ∈ trackedMetrics /\ regressed t baseline current m)
  /\ (snd (diff_main env baseline current) = 0
     <-> forall m, m ∈ trackedMetrics -> ~ regressed t baseline current m)
  /\ (f64_lt t f64_zero = false -> snd (diff_main env baseline baseline) = 0).
Proof.
  cbv zeta. set (t := envFloat env (f64_of_Z 10)).
  assert (Hcode : forall c, let n := snd (diff_metrics t baseline c trackedMetrics) in
    snd (diff_main env baseline c) = if 0 <? n then 1 else 0).
  { intros c. unfold diff_main. fold t. destruct (diff_metrics t baseline c trackedMetrics) as [rows n]. cbn.
    by case_bool. }
  rewrite !Hcode. destruct (diff_metrics_count t baseline current trackedMetrics) as [Hn0 Hn].
  split; [|split].
  - rewrite <- Hn. destruct (Z.ltb_spec 0 (snd (diff_metrics t baseline current trackedMetrics))); lia.
  - destruct (Z.ltb_spec 0 (snd (diff_metrics t baseline current trackedMetrics))) as [Hlt|Hle].
    + apply Hn in Hlt as (m & Hm & Hr). split; [done|]. intros H. by destruct (H m Hm).
    + split; [|done]. intros _ m Hm Hr. assert (0 < snd (diff_metrics t baseline current trackedMetrics)); [|lia].
      apply Hn. by exists m.
  - intros Ht. destruct (diff_metrics_count t baseline baseline trackedMetrics) as [_ Hs].
    rewrite (proj2 (Z.ltb_ge _ _)); [done|]. apply Z.nlt_ge. intros (m & _ & Hr)%Hs. unfold regressed in Hr.
    destruct (value baseline m) as [v|]; [|done]. destruct Hr as [_ Hr].
    pose proof (classify_self (dir m) v t Ht) as Hc. unfold classify in Hc.
    destruct (dir m); rewrite Hr in Hc; discriminate Hc.
Qed.

End Diff.

(** ** Two runs *)

(** Scenario texts are numbers here. *)
Definition demo_un_map (raw : bytes) : option (gmap bytes any) :=
  n ← Atoi raw; Some {[ str "per_sec" := AFloat (f64_of_Z n) ]}.
Definition demo_run (n : bytes) : results :=
  mkResults (str "main") (str "0123456789ab") (str "map[]") {[ str "sessions_per_sec" := n ]}.
Definition demo_diff (b c : bytes) : list bytes * Z :=
  diff_main demo_un_map (fun _ => None) (fun _ => []) [] (demo_run b) (demo_run c).

Example demo_diff_lines :
  drop 6 (fst (demo_diff (str "100") (str "80")))
  = [row (str "sessions_per_sec.per_sec") (str "100.0 /s") (str "80.0 /s") (str "    -20.0% ✗ REGRESSION"); [];
     str "✗ 1 metric(s) regressed by more than 10.0% — failing"].
Proof. vm_compute. reflexivity. Qed.

Lemma diff_verdict_witness :
  (exists m, m ∈ trackedMetrics
     /\ regressed demo_un_map (fun _ => None) (f64_of_Z 10) (demo_run (str "100")) (demo_run (str "80")) m)
  /\ snd (demo_diff (str "100") (str "100")) = 0.
Proof.
  destruct (diff_verdict demo_un_map (fun _ => None) (fun _ => []) [] (demo_run (str "100")) (demo_run (str "80")))
    as (H1 & _ & H3).
  split; [apply H1; vm_compute; reflexivity|]. apply H3. vm_compute. reflexivity.
Defined.
