(* ===== verification/Bench.v ===== *)
(** * bench/harness and bench/sink: the measurements

    The upload and the download scenario against the sink that answers them,
    and the statistics the harness reports.  A connection is what arrives on it
    before its end; what is written to it is a list of chunks.  Numbers are
    float64 as in [BenchDiff]; Go leaves the conversion of a float64 that is out
    of range of an integer to the implementation, [out_of_range] stands for it,
    and products and sums are rounded one by one, as on amd64.  Starting the
    processes, the clock, the sampling of the processor load and the JSON
    encoder are left out: a scenario's result is a list of fields. *)

From Stdlib Require Import SpecFloat.
From S2P Require Import Prelude GoStd GoText Config BenchDiff.

(** ** The sink *)

Definition sourceChunkSize : Z := 64 * 1024.
Definition ackByte : bytes := str "k".

(** [int64(x)] of a uint64. *)
Definition int64_of_u64 (x : Z) : Z := if x <? 2 ^ 63 then x else x - 2 ^ 64.

(** The header of both protocols: what it says, and what follows it. *)
Definition read_header (input : bytes) : option (Z * bytes) :=
  if len input <? 8 then None
  else Some (int64_of_u64 (be_get (take 8 input)), drop 8 input).

(** What the handler writes; [None] when it returns before it writes. *)
Definition handleSized (input : bytes) : option bytes :=
  '(n, rest) ← read_header input;
  if n <? 0 then None else
  if len rest <? n then None else Some ackByte.

(** The chunks of a loop that writes [remaining] zero bytes from a buffer of
    [size] bytes. *)
Fixpoint write_loop (fuel : nat) (size remaining : Z) : list bytes :=
  match fuel with
  | O => []
  | S fuel =>
      if 0 <? remaining then
        let n := Z.min size remaining in
        zeros n :: write_loop fuel size (remaining - n)
      else []
  end.

Definition handleSizedSource (input : bytes) : list bytes :=
  match read_header input with
  | None => []
  | Some (n, _) => if n <? 0 then [] else write_loop (Z.to_nat n) sourceChunkSize n
  end.

(** ** The scenarios *)

(** What [uploadOnce] writes: the length, then the payload. *)
Definition upload_writes (payload : Z) : list bytes :=
  be_put 8 (u64 payload) :: write_loop (Z.to_nat payload) (64 * 1024) payload.

(** [io.ReadFull(conn, ack)]. *)
Definition upload_acked (answer : bytes) : bool := 1 <=? len answer.

Inductive net_read := RRead (n : Z) | RFailed.

(** The read loop of [scenarioThroughputDown], over the results of the reads:
    what is left to read, and how the loop ended, if it did. *)
Fixpoint down_loop (reads : list net_read) (remaining : Z) : option (res bytes Z) :=
  if 0 <? remaining then
    match reads with
    | [] => None
    | RRead n :: reads =>
        if n =? 0 then Some (Err (str "source returned 0 bytes without error"))
        else down_loop reads (remaining - n)
    | RFailed :: _ => Some (Err (str "read"))
    end
  else Some (Ok remaining).

(** ** Statistics *)

(** [sort.Slice] by [<] on numbers: equal elements cannot be told apart. *)
Definition sort_int64 (l : list Z) : list Z := merge_sort Z.le l.

Definition percentile (samples : list Z) (p : Z) : res bytes Z :=
  if len samples =? 0 then Ok 0 else
  let sorted := sort_int64 samples in
  match sorted !! Z.to_nat (Z.quot (p * (len sorted - 1)) 100) with
  | Some x => Ok x
  | None => Panic
  end.

(** The sum wraps around; the division rounds towards zero. *)
Definition meanInt64 (samples : list Z) : Z :=
  if len samples =? 0 then 0 else Z.quot (foldl (fun s v => int64 (s + v)) 0 samples) (len samples).

Definition fadd : f64 -> f64 -> f64 := SFadd 53 1024.

Definition meanFloat (samples : list f64) : f64 :=
  if len samples =? 0 then f64_zero else fdiv (foldl fadd f64_zero samples) (f64_of_Z (len samples)).

Definition maxFloat (samples : list f64) : f64 :=
  match samples with
  | [] => f64_zero
  | m :: rest => foldl (fun m v => if f64_lt m v then v else m) m rest
  end.

(** [d.Seconds()] of a duration in nanoseconds. *)
Definition Seconds (d : Z) : f64 :=
  fadd (f64_of_Z (Z.quot d 1000000000)) (fdiv (f64_of_Z (Z.rem d 1000000000)) (f64_of_Z 1000000000)).

Section Floats.
Context (out_of_range : f64 -> Z).

(** [int(x)] *)
Definition int_of_f64 (x : f64) : Z :=
  let fit (z : Z) := if (- 2 ^ 63 <=? z) && (z <? 2 ^ 63) then z else out_of_range x in
  match x with
  | S754_zero _ => 0
  | S754_finite s m e =>
      let t := if 0 <=? e then Zpos m * 2 ^ e else Zpos m / 2 ^ (- e) in
      fit (if s then - t else t)
  | S754_infinity _ | S754_nan => out_of_range x
  end.

Definition round2 (v : f64) : f64 :=
  fdiv (f64_of_Z (int_of_f64 (fadd (fmul v (f64_of_Z 100)) (fdiv (f64_of_Z 1) (f64_of_Z 2))))) (f64_of_Z 100).

Definition bytesPerSecMB (n d : Z) : f64 :=
  if d <=? 0 then f64_zero
  else round2 (fdiv (fdiv (f64_of_Z n) (Seconds d)) (f64_of_Z (1024 * 1024))).

(** ** Results *)

Inductive scalar := NInt (n : Z) | NFloat (x : f64).
Definition fields := list (bytes * scalar).

Inductive scenario_run :=
| scenarioThroughputUp (payload : Z)
| scenarioThroughputUpConcurrent (payloadEach n : Z)
| scenarioThroughputDown (payload : Z)
| scenarioTTFB (n : Z)
| scenarioSessionsPerSec (d : Z)
| scenarioIdleOverhead (d sessions : Z).

(** What a scenario that succeeds has measured; each uses some of it. *)
Record measured := mkMeasured {
  dur : Z;
  samples : list Z;           (* microseconds *)
  ok : Z; fail : Z;
  clientCPU : list f64; serverCPU : list f64;
}.

Definition up_fields (key : string) (total d : Z) : fields :=
  [(str key, NInt total); (str "duration_ms", NInt (Z.quot d 1000000));
   (str "mb_per_sec", NFloat (bytesPerSecMB total d))].

Definition run_fields (s : scenario_run) (m : measured) : res bytes fields :=
  match s with
  | scenarioThroughputUp payload | scenarioThroughputDown payload => Ok (up_fields "bytes" payload (dur m))
  | scenarioThroughputUpConcurrent each n =>
      Ok ([(str "sessions", NInt n); (str "bytes_per_session", NInt each)]
          ++ up_fields "total_bytes" (int64 (each * n)) (dur m))
  | scenarioTTFB n =>
      let! p50 := percentile (samples m) 50 in
      let! p95 := percentile (samples m) 95 in
      let! p99 := percentile (samples m) 99 in
      Ok [(str "n", NInt n); (str "p50_us", NInt p50); (str "p95_us", NInt p95); (str "p99_us", NInt p99);
          (str "mean_us", NInt (meanInt64 (samples m)))]
  | scenarioSessionsPerSec _ =>
      let secs := Seconds (dur m) in
      let rate := if f64_lt f64_zero secs then fdiv (f64_of_Z (ok m)) secs else f64_zero in
      Ok [(str "ok", NInt (ok m)); (str "fail", NInt (fail m));
          (str "duration_ms", NInt (Z.quot (dur m) 1000000)); (str "per_sec", NFloat (round2 rate))]
  | scenarioIdleOverhead d sessions =>
      Ok [(str "sessions", NInt sessions); (str "duration_ms", NInt (Z.quot d 1000000));
          (str "samples", NInt (len (clientCPU m)));
          (str "client_cpu_mean", NFloat (round2 (meanFloat (clientCPU m))));
          (str "client_cpu_max", NFloat (round2 (maxFloat (clientCPU m))));
          (str "server_cpu_mean", NFloat (round2 (meanFloat (serverCPU m))));
          (str "server_cpu_max", NFloat (round2 (maxFloat (serverCPU m))))]
  end.

Definition allScenarios : list (bytes * scenario_run) :=
  [(str "throughput_up_1MB_1session", scenarioThroughputUp (1 * 1024 * 1024));
   (str "throughput_up_8MB_1session", scenarioThroughputUp (8 * 1024 * 1024));
   (str "throughput_up_8MB_4sessions", scenarioThroughputUpConcurrent (8 * 1024 * 1024) 4);
   (str "throughput_down_8MB_1session", scenarioThroughputDown (8 * 1024 * 1024));
   (str "ttfb_p50_p95", scenarioTTFB 50);
   (str "sessions_per_sec", scenarioSessionsPerSec (10 * 1000000000));
   (str "idle_overhead_15s", scenarioIdleOverhead (15 * 1000000000) 50)].

(** [--scenarios]: the names to run, all when it is empty. *)
Definition select_scenarios (only : bytes) : list (bytes * scenario_run) :=
  if bool_decide (only = []) then allScenarios
  else let want := map TrimSpace (Split only (z2b 44)) in
       List.filter (fun s => bool_decide (fst s ∈ want)) allScenarios.

(** The loop of [main] over the scenarios: [measure] is how a scenario went,
    [mustJSON] and [error_json] encode its result or its error. *)
Context (mustJSON : fields -> bytes) (error_json : bytes -> bytes).

Fixpoint run_scenarios (ss : list (bytes * scenario_run)) (measure : bytes -> measured + bytes)
    (out : gmap bytes bytes) : res bytes (gmap bytes bytes) :=
  match ss with
  | [] => Ok out
  | (name, s) :: ss =>
      match measure name with
      | inr err => run_scenarios ss measure (<[name := error_json err]> out)
      | inl m =>
          let! val := run_fields s m in
          run_scenarios ss measure (<[name := mustJSON val]> out)
      end
  end.

End Floats.

(** ** The transfers *)

Lemma int64_of_length n : 0 <= n < 2 ^ 63 -> int64_of_u64 (u64 n) = n.
Proof. intros H. rewrite u64_small by lia. unfold int64_of_u64. by rewrite (proj2 (Z.ltb_lt _ _)) by lia. Qed.

Lemma read_header_short input : len input < 8 -> read_header input = None.
Proof. intros H. unfold read_header. by rewrite (proj2 (Z.ltb_lt _ _)) by lia. Qed.

Lemma read_header_put n rest : 0 <= n < 2 ^ 63 -> read_header (be_put 8 (u64 n) ++ rest) = Some (n, rest).
Proof.
  intros Hn. unfold read_header. rewrite (proj2 (Z.ltb_ge _ _)) by len_tac.
  rewrite take_len_app, drop_len_app by (by rewrite len_be_put).
  rewrite be_get_put. change (8 * Z.of_nat 8) with 64. rewrite Z.mod_small by (apply u64_range).
  by rewrite int64_of_length.
Qed.

Lemma write_loop_spec fuel size remaining :
  0 < size -> remaining <= Z.of_nat fuel ->
  concat (write_loop fuel size remaining) = zeros remaining
  /\ Forall (fun c => 1 <= len c <= size) (write_loop fuel size remaining).
Proof.
  intros Hs. revert remaining. induction fuel as [|fuel IH]; intros r Hr; cbn [write_loop].
  { rewrite zeros_done by lia. by split. }
  destruct (Z.ltb_spec 0 r); [|rewrite zeros_done by lia; by split].
  destruct (IH (r - Z.min size r)) as [E F]; [lia|]. cbn. rewrite E. split.
  - unfold zeros. rewrite <- replicate_add. f_equal. lia.
  - constructor; [|done]. rewrite len_zeros. lia.
Qed.

Lemma upload_stream payload :
  concat (upload_writes payload) = be_put 8 (u64 payload) ++ zeros payload.
Proof.
  unfold upload_writes. cbn [concat]. f_equal. apply write_loop_spec; lia.
Qed.

(** The sink has acknowledged an upload exactly when all of it arrived. *)
Lemma handleSized_prefix payload input :
  0 <= payload < 2 ^ 63 -> input `prefix_of` concat (upload_writes payload) ->
  handleSized input = if len input =? 8 + payload then Some ackByte else None.
Proof.
  intros Hp. rewrite upload_stream. intros [rest E]. unfold handleSized.
  destruct (Z.ltb_spec (len input) 8) as [Hlt|Hge].
  { rewrite read_header_short by done. rewrite (proj2 (Z.eqb_neq _ _)) by lia. done. }
  assert (Hin : input = be_put 8 (u64 payload) ++ drop 8 input).
  { rewrite <- (take_drop 8 input) at 1. f_equal. apply (f_equal (take 8)) in E.
    rewrite take_len_app in E by (by rewrite len_be_put). rewrite E, take_app_le; [done|].
    unfold len in Hge. lia. }
  assert (Hle : len input <= 8 + payload).
  { apply (f_equal len) in E. rewrite !len_app, len_be_put, len_zeros in E. pose proof (len_nonneg rest). lia. }
  rewrite Hin at 1. rewrite read_header_put by done. cbn [mbind option_bind].
  rewrite (proj2 (Z.ltb_ge _ _)) by lia. rewrite len_drop.
  destruct (Z.eqb_spec (len input) (8 + payload)).
  - by rewrite (proj2 (Z.ltb_ge _ _)) by lia.
  - by rewrite (proj2 (Z.ltb_lt _ _)) by lia.
Qed.

Definition read_len (r : net_read) : Z := match r with RRead n => n | RFailed => 0 end.

(** Reads that get data, and all of it, end the loop. *)
Lemma down_loop_ok reads remaining :
  Forall (fun r => 0 < read_len r) reads -> foldr (fun r n => read_len r + n) 0 reads = remaining ->
  down_loop reads remaining = Some (Ok 0).
Proof.
  revert remaining. induction reads as [|r reads IH]; intros rem Hpos Hsum; cbn in Hsum; subst rem; [done|].
  inversion_clear Hpos as [|? ? Hr Hrs].
  assert (0 <= foldr (fun r n => read_len r + n) 0 reads).
  { clear IH Hr. induction Hrs; cbn; lia. }
  cbn [down_loop]. rewrite (proj2 (Z.ltb_lt _ _)) by lia. destruct r as [n|]; [|cbn in Hr; lia]. cbn [read_len] in *.
  rewrite (proj2 (Z.eqb_neq _ _)) by lia. apply IH; [done|lia].
Qed.

(** Nor can the loop end well with less. *)
Lemma down_loop_all reads remaining left_ :
  0 <= remaining -> down_loop reads remaining = Some (Ok left_) ->
  exists pre post, reads = pre ++ post /\ remaining <= foldr (fun r n => read_len r + n) 0 pre.
Proof.
  revert remaining. induction reads as [|r reads IH]; intros rem H0; cbn [down_loop].
  { destruct (Z.ltb_spec 0 rem); [done|]. intros _. exists [], []. split; [done|]. cbn. lia. }
  destruct (Z.ltb_spec 0 rem).
  2: { intros _. exists [], (r :: reads). split; [done|]. cbn. lia. }
  destruct r as [n|]; [|done]. destruct (Z.eqb_spec n 0); [done|]. intros H1.
  destruct (Z.ltb_spec (rem - n) 0).
  { exists [RRead n], reads. split; [done|]. cbn. lia. }
  destruct (IH (rem - n)) as (pre & post & -> & Hle); [lia|done|].
  exists (RRead n :: pre), post. split; [done|]. cbn. lia.
Qed.

(** The transfers that the benchmarks time are complete.  The sink
    acknowledges an upload exactly when the header and every byte of the payload
    arrived; for a download it writes exactly the bytes that the header asks
    for, in chunks of at most 64 KiB; and the harness's loop ends without an
    error when they come, however the network cuts them into reads, and only
    when they all came. *)
Theorem sink_transfers payload :
  0 <= payload < 2 ^ 63 ->
  (forall input, input `prefix_of` concat (upload_writes payload) ->
     (upload_acked (default [] (handleSized input)) = true <-> input = concat (upload_writes payload)))
  /\ (let source := handleSizedSource (be_put 8 (u64 payload)) in
      concat source = zeros payload /\ Forall (fun c => 1 <= len c <= 64 * 1024) source
      /\ forall cut, concat cut = concat source -> Forall (fun c => c <> []) cut ->
           down_loop (map (fun c => RRead (len c)) cut) payload = Some (Ok 0))
  /\ (forall reads left_, down_loop reads payload = Some (Ok left_) ->
      exists pre post, reads = pre ++ post /\ payload <= foldr (fun r n => read_len r + n) 0 pre).
Proof.
  intros Hp. split; [|split].
  - intros input Hpre. rewrite (handleSized_prefix payload) by done.
    assert (Hlen : len (concat (upload_writes payload)) = 8 + payload).
    { rewrite upload_stream, len_app, len_be_put, len_zeros. lia. }
    destruct (Z.eqb_spec (len input) (8 + payload)) as [E|E]; split; try done.
    + intros _. destruct Hpre as [rest Hr]. rewrite Hr in Hlen |- *. rewrite len_app in Hlen.
      rewrite (proj1 (len_zero rest)) by lia. by rewrite app_nil_r.
    + intros ->. congruence.
  - assert (E : handleSizedSource (be_put 8 (u64 payload)) = write_loop (Z.to_nat payload) sourceChunkSize payload).
    { unfold handleSizedSource. rewrite <- (app_nil_r (be_put 8 _)), read_header_put by done.
      by rewrite (proj2 (Z.ltb_ge _ _)) by lia. }
    rewrite E. destruct (write_loop_spec (Z.to_nat payload) sourceChunkSize payload) as [Ec Ef]; [done|lia|].
    cbv zeta. split; [done|]. split; [done|]. intros cut Hcut Hne. apply down_loop_ok.
    + apply Forall_map. eapply Forall_impl; [exact Hne|]. intros c Hc. by apply len_pos.
    + rewrite Ec in Hcut. apply (f_equal len) in Hcut. rewrite len_zeros, Z.max_r in Hcut by lia. rewrite <- Hcut.
      clear. induction cut as [|c cut IH]; [done|]. cbn in *. rewrite len_app. lia.
  - intros reads left_ H. eapply down_loop_all; [|exact H]. lia.
Qed.

(** ** The statistics *)

Lemma sort_int64_perm l : sort_int64 l ≡ₚ l.
Proof. apply merge_sort_Permutation. Qed.

#[local] Instance Zle_total : Total Z.le.
Proof. intros a b. lia. Qed.

Lemma sort_int64_sorted l : StronglySorted Z.le (sort_int64 l).
Proof. apply Sorted_StronglySorted; [intros a b c; lia|]. apply Sorted_merge_sort, _. Qed.

Definition count (p : Z -> bool) (l : list Z) : Z := len (List.filter p l).

Lemma count_perm p l k : l ≡ₚ k -> count p l = count p k.
Proof.
  unfold count. induction 1 as [|x l k _ IH|x y l|l k m _ IH1 _ IH2]; cbn; [done| |by destruct (p x), (p y)|lia].
  destruct (p x); len_tac.
Qed.

(** An element of a sorted list and its place. *)
Lemma sorted_place l i x : StronglySorted Z.le l -> l !! i = Some x ->
  count (fun y => y <? x) l <= Z.of_nat i < count (fun y => y <=? x) l.
Proof.
  unfold count. intros Hs. revert i. induction Hs as [|y l Hs IH Hy]; intros i Hi; [done|].
  destruct i as [|i]; cbn in Hi |- *.
  - injection Hi as ->. rewrite Z.ltb_irrefl, Z.leb_refl.
    assert (E : List.filter (fun y => y <? x) l = []).
    { clear IH Hs. induction Hy as [|z l Hz _ IH]; [done|]. cbn. by rewrite (proj2 (Z.ltb_ge _ _)) by lia. }
    rewrite E. unfold len. cbn. lia.
  - specialize (IH i Hi). assert (y <= x) by (eapply Forall_lookup_1 in Hy; eauto).
    rewrite (proj2 (Z.leb_le _ _)) by lia. destruct (y <? x); len_tac.
Qed.

(** The [p]-th percentile is one of the samples; at most [p] per cent of the
    others are smaller, and more than that are not larger. *)
Lemma percentile_spec samples p :
  samples <> [] -> 0 <= p <= 100 ->
  exists x, percentile samples p = Ok x /\ x ∈ samples
    /\ count (fun y => y <? x) samples <= p * (len samples - 1) / 100 < count (fun y => y <=? x) samples.
Proof.
  intros Hne Hp. unfold percentile. apply len_pos in Hne.
  rewrite (proj2 (Z.eqb_neq _ _)) by lia. cbv zeta.
  assert (Hlen : len (sort_int64 samples) = len samples).
  { unfold len. by rewrite (Permutation_length (sort_int64_perm samples)). }
  rewrite Hlen, Z.quot_div_nonneg by nia. set (i := p * (len samples - 1) / 100).
  assert (Hi : 0 <= i < len samples) by (split; [apply Z.div_pos; nia|apply Z.div_lt_upper_bound; nia]).
  destruct (lookup_lt_is_Some_2 (sort_int64 samples) (Z.to_nat i)) as [x Hx].
  { apply lt_len. rewrite Hlen. lia. }
  rewrite Hx. exists x. split; [done|]. split.
  - rewrite <- sort_int64_perm. by eapply list_elem_of_lookup_2.
  - rewrite <- !(count_perm _ _ _ (sort_int64_perm samples)).
    pose proof (sorted_place _ _ _ (sort_int64_sorted samples) Hx). lia.
Qed.

Lemma percentile_total samples p : 0 <= p <= 100 -> is_ok (percentile samples p) = true.
Proof.
  intros Hp. destruct (decide (samples = [])) as [->|Hne]; [done|].
  destruct (percentile_spec samples p Hne Hp) as (x & -> & _). done.
Qed.

(** ** From the harness to the comparison *)

Lemma run_fields_total oor s m : exists fs, run_fields oor s m = Ok fs.
Proof.
  assert (Hp : forall p, 0 <= p <= 100 -> exists x, percentile (samples m) p = Ok x).
  { intros p Hp. pose proof (percentile_total (samples m) p Hp). destruct (percentile _ _); [eauto|done..]. }
  destruct s; cbn [run_fields]; try by eexists.
  destruct (Hp 50) as [x ->]; [lia|]. destruct (Hp 95) as [y ->]; [lia|]. destruct (Hp 99) as [z ->]; [lia|].
  by eexists.
Qed.

Lemma run_scenarios_lookup oor mj ej ss measure out :
  NoDup (map fst ss) ->
  exists res, run_scenarios oor mj ej ss measure out = Ok res
    /\ (forall name s, (name, s) ∈ ss -> res !! name = Some
         (match measure name with
          | inr err => ej err
          | inl m => match run_fields oor s m with Ok fs => mj fs | _ => [] end
          end))
    /\ (forall name, name ∉ map fst ss -> res !! name = out !! name).
Proof.
  revert out. induction ss as [|[name s] ss IH]; intros out Hnd; cbn [run_scenarios].
  { exists out. split; [done|]. split; [|done]. by intros ? ? ?%elem_of_nil. }
  cbn in Hnd. apply NoDup_cons in Hnd as [Hn Hnd].
  assert (Hstep : forall v out', out' = <[name := v]> out ->
    v = match measure name with inr err => ej err
        | inl m => match run_fields oor s m with Ok fs => mj fs | _ => [] end end ->
    exists res, run_scenarios oor mj ej ss measure out' = Ok res
      /\ (forall n s', (n, s') ∈ (name, s) :: ss -> res !! n = Some
           (match measure n with inr err => ej err
            | inl m => match run_fields oor s' m with Ok fs => mj fs | _ => [] end end))
      /\ (forall n, n ∉ map fst ((name, s) :: ss) -> res !! n = out !! n)).
  { intros v out' -> Hv. destruct (IH (<[name := v]> out) Hnd) as (r & Hr & Hin & Hout). exists r.
    split; [exact Hr|]. split.
    - intros n s' [[= -> ->]|H]%elem_of_cons; [|by apply Hin]. rewrite (Hout name Hn), lookup_insert_eq. by rewrite Hv.
    - cbn. intros n [Hne Hnn]%not_elem_of_cons. rewrite (Hout n Hnn). by rewrite lookup_insert_ne. }
  destruct (measure name) as [m|err]; [|by eapply Hstep].
  destruct (run_fields_total oor s m) as [fs E]. rewrite E in *. by eapply Hstep.
Qed.

(** How the decoder reads a number that the harness wrote. *)
Definition decoded (n : scalar) : any := match n with NInt n => AFloat (f64_of_Z n) | NFloat x => AFloat x end.

Definition has_metric (m : metric) : bool :=
  existsb (fun s => bool_decide (fst s = scenario m)
    && match run_fields (fun _ => 0) (snd s) (mkMeasured 0 [] 0 0 [] []) with
       | Ok fs => existsb (fun f => bool_decide (fst f = field m)) fs
       | _ => false
       end) allScenarios.

Lemma tracked_measured : forallb has_metric trackedMetrics = true.
Proof. vm_compute. reflexivity. Qed.

(** Which fields a scenario has does not depend on what it measures. *)
Lemma run_fields_names oor oor' s m m' fs fs' :
  run_fields oor s m = Ok fs -> run_fields oor' s m' = Ok fs' -> map fst fs = map fst fs'.
Proof.
  destruct s; cbn [run_fields]; try (intros [= <-] [= <-]; reflexivity).
  repeat (destruct (percentile (samples m) _); [|done..]; cbn [res_bind]). intros [= <-].
  repeat (destruct (percentile (samples m') _); [|done..]; cbn [res_bind]). by intros [= <-].
Qed.

Section Compared.
Context (un_map : bytes -> option (gmap bytes any)) (ParseFloat : bytes -> option f64).
Context (out_of_range : f64 -> Z) (mustJSON : fields -> bytes) (error_json : bytes -> bytes).

(** The decoder reads what the encoder wrote. *)
Definition decodes : Prop := forall fs, mustJSON fs <> []
  /\ un_map (mustJSON fs) = Some (list_to_map (map (fun f => (fst f, decoded (snd f))) fs)).

(** The comparison sees what the harness measures.  After a run of all the
    scenarios that none of them failed, every metric the comparison tracks has a
    value, so that no metric of two such runs is skipped or reported as new or
    missing. *)
Theorem run_compared measure Ref Commit Host :
  decodes -> (forall name, exists m, measure name = inl m) ->
  exists out, run_scenarios out_of_range mustJSON error_json allScenarios measure ∅ = Ok out
    /\ forall m, m ∈ trackedMetrics ->
         exists v, value un_map ParseFloat (mkResults Ref Commit Host out) m = Some v.
Proof.
  intros Hd Hok.
  destruct (run_scenarios_lookup out_of_range mustJSON error_json allScenarios measure ∅) as (out & E & Hin & _).
  { by apply (bool_decide_unpack _); vm_compute. }
  exists out. split; [exact E|]. intros m Hm.
  pose proof tracked_measured as Hall. rewrite forallb_forall in Hall.
  specialize (Hall m (proj1 (list_elem_of_In _ _) Hm)). unfold has_metric in Hall.
  apply existsb_exists in Hall as ([name s] & Hs & [Hname Hf]%andb_true_iff). apply list_elem_of_In in Hs.
  apply bool_decide_eq_true in Hname. cbn [fst snd] in Hname, Hf. subst name.
  destruct (run_fields _ s _) as [fs0| |] eqn:E0; [|done..]. apply existsb_exists in Hf as ([k n0] & Hk & Hkf).
  apply bool_decide_eq_true in Hkf. cbn in Hkf. subst k.
  specialize (Hin _ _ Hs). destruct (Hok (scenario m)) as [w Hw]. rewrite Hw in Hin.
  destruct (run_fields_total out_of_range s w) as [fs Efs]. rewrite Efs in Hin.
  unfold value. cbn [Scenarios]. rewrite Hin. cbn [mbind option_bind].
  destruct (Hd fs) as [Hne Hun]. unfold extractField. rewrite (proj2 (Z.eqb_neq _ _)), Hun
    by (intros H0%len_zero; done).
  assert (Hf : field m ∈ map fst fs).
  { rewrite (run_fields_names _ _ _ _ _ _ _ Efs E0). apply list_elem_of_In, in_map_iff. by exists (field m, n0). }
  destruct ((list_to_map _ : gmap bytes any) !! field m) as [v|] eqn:El.
  - apply elem_of_list_to_map_2 in El. apply list_elem_of_fmap in El as ([k n] & [= _ ->] & _).
    destruct n; by eexists.
  - apply not_elem_of_list_to_map_2 in El. destruct El. rewrite <- list_fmap_compose. exact Hf.
Qed.

End Compared.

(** ** A small transfer *)

Lemma sink_transfers_witness :
  0 <= 3 < 2 ^ 63
  /\ upload_acked (default [] (handleSized (take 10 (concat (upload_writes 3))))) = false
  /\ concat (handleSizedSource (be_put 8 (u64 3))) = zeros 3
  /\ down_loop [RRead 1; RRead 2] 3 = Some (Ok 0).
Proof.
  assert (H3 : 0 <= 3 < 2 ^ 63) by lia.
  destruct (sink_transfers 3 H3) as (H1 & (H2 & _ & Hcut) & _). split; [done|]. split; [|split].
  - apply not_true_iff_false. rewrite H1; [vm_compute; discriminate|].
    exists (drop 10 (concat (upload_writes 3))). by rewrite take_drop.
  - exact H2.
  - apply (Hcut [zeros 1; zeros 2]); [by vm_compute|]. by repeat constructor.
Defined.

Example demo_percentiles :
  map (percentile [30; 10; 20; 40; 50]) [0; 50; 95; 99; 100] = [Ok 10; Ok 30; Ok 40; Ok 40; Ok 50].
Proof. vm_compute. reflexivity. Qed.

(** 8 MiB in two and a half seconds: 3.2 MB/s. *)
Example demo_throughput :
  fmt_f64 false 2 (bytesPerSecMB (fun _ => 0) (8 * 1024 * 1024) 2500000000) = str "3.20".
Proof. vm_compute. reflexivity. Qed.
