(* ===== verification/Link.v ===== *)
(** * One direction of the tunnel

    What sending and receiving through a table of sessions have in common,
    whichever program does which.  [tx_table] describes the senders: every
    session's state is what accepting [wr] and emitting the frames of the log
    leads to.  [rx_table] describes the receivers: each session, its receive
    goroutine and its reader hold a part of the stream of the log's frames.
    [sim] says that an operation changes sessions only in ways a relation
    allows, and removes some; the operations of both programs are shown to keep
    the side they do not work on.  [Upload] and [Download] put the two
    together. *)

From S2P Require Import Prelude GoStd Frame Crypto Session Stream RxLoop SessionApi Endpoints Dns.
From S2P Require Import Carrier CarrierSteps Version Exit ExitDrain ExitSteps.

(** ** The frames of a session *)

Definition frames_of (id : bytes) (fs : list Frame) : list Frame :=
  filter (fun f => SessionID f = id) fs.

Lemma frames_of_app id l k : frames_of id (l ++ k) = frames_of id l ++ frames_of id k.
Proof. apply filter_app. Qed.

Lemma in_frames_of id f l : f ∈ frames_of id l <-> f ∈ l /\ SessionID f = id.
Proof. unfold frames_of. rewrite list_elem_of_filter. tauto. Qed.

Lemma frames_of_all id l : (forall f, f ∈ l -> SessionID f = id) -> frames_of id l = l.
Proof.
  induction l as [|f l IH]; intros H; [done|]. unfold frames_of. rewrite filter_cons_True by (apply H; left).
  f_equal. apply IH. intros g Hg. apply H. by right.
Qed.

Lemma frames_of_none id l : (forall f, f ∈ l -> SessionID f <> id) -> frames_of id l = [].
Proof.
  intros H. destruct (frames_of id l) as [|f r] eqn:E; [done|]. exfalso.
  assert (Hf : f ∈ frames_of id l) by (rewrite E; left). apply in_frames_of in Hf as [Hf Hi]. by apply (H f).
Qed.

(** A batch made of shares holds of each session its share. *)
Lemma frames_of_shares id (parts : list (bytes * list Frame)) :
  NoDup (map fst parts) ->
  (forall i fs f, (i, fs) ∈ parts -> f ∈ fs -> SessionID f = i) ->
  (id ∉ map fst parts -> frames_of id (concat (map snd parts)) = [])
  /\ (forall fs, (id, fs) ∈ parts -> frames_of id (concat (map snd parts)) = fs).
Proof.
  intros Hnd Hid. split.
  - intros Hn. apply frames_of_none. intros f (fs & Hf & ([i fs'] & -> & Hp)%list_elem_of_fmap)%elem_of_concat Hi.
    apply Hn. rewrite <- Hi, (Hid i fs' f Hp Hf). by apply (list_elem_of_fmap_2 fst _ (i, fs')).
  - induction parts as [|[i fs0] parts IH]; intros fs Hp; [by apply elem_of_nil in Hp|].
    cbn in Hnd. apply NoDup_cons in Hnd as [Hni Hnd]. cbn [map concat snd]. rewrite frames_of_app.
    assert (Hid' : forall j gs f, (j, gs) ∈ parts -> f ∈ gs -> SessionID f = j).
    { intros j gs f Hj. apply Hid. by right. }
    apply elem_of_cons in Hp as [[= <- <-]|Hp].
    + rewrite frames_of_all by (intros f; apply Hid; left).
      rewrite frames_of_none; [apply app_nil_r|].
      intros f (gs & Hf & ([j gs'] & -> & Hj)%list_elem_of_fmap)%elem_of_concat Hfi.
      apply Hni. rewrite <- Hfi, (Hid' j gs' f Hj Hf). by apply (list_elem_of_fmap_2 fst _ (j, gs')).
    + rewrite (IH Hnd Hid' fs Hp), frames_of_none; [done|].
      intros f Hf Hfi. apply Hni. rewrite <- (Hid i fs0 f); [rewrite Hfi|left|done].
      by apply (list_elem_of_fmap_2 fst _ (id, fs)).
Qed.

(** What a session emits carries its identifier and is no reset. *)
Lemma tx_stream_frame id target syn s fs acc f :
  tx_stream id target syn s fs acc -> f ∈ fs ->
  SessionID f = id /\ HasFlag f FlagRST = false /\ (len id = SessionIDLen -> frame_wf f).
Proof.
  intros H. destruct (ts_frames _ _ _ _ _ _ H) as (p0 & ch & -> & _).
  intros [i Hi]%list_elem_of_lookup. apply number_lookup in Hi as (c & Hc & ->).
  apply list_elem_of_lookup_2 in Hc. split; [done|].
  assert (Hfl : HasFlag (mkFrame id (u64 (Z.of_nat i)) (fst (fst c)) (snd (fst c)) (snd c)) FlagRST = false
    /\ 0 <= fst (fst c) < 256).
  { rewrite !elem_of_app in Hc. destruct Hc as [Hc|[Hc|Hc]].
    - destruct (syn && _); cbn in Hc; [|by apply elem_of_nil in Hc]. by apply list_elem_of_singleton in Hc as ->.
    - unfold data_part in Hc. by apply list_elem_of_fmap in Hc as (p & -> & _).
    - destruct (finSent (tx s)); cbn in Hc; [|by apply elem_of_nil in Hc].
      by apply list_elem_of_singleton in Hc as ->. }
  split; [apply Hfl|]. intros Hl. split; [done|]. split; [apply u64_range|apply Hfl].
Qed.

(** A session never emits more frames than the bytes it accepted, its SYN and
    its FIN. *)
Lemma tx_stream_len id target syn x fs acc : tx_stream id target syn x fs acc -> len fs <= len acc + 2.
Proof.
  intros H. destruct (ts_frames _ _ _ _ _ _ H) as (p0 & ch & -> & <- & Hch & _).
  rewrite len_number, !len_app. unfold data_part. rewrite len_map.
  assert (len ch <= len (concat ch)).
  { clear H. induction Hch as [|p ch Hp _ IH]; [done|]. cbn. rewrite len_cons, len_app. lia. }
  pose proof (len_nonneg p0). pose proof (len_nonneg (txBuf (tx x))).
  destruct (syn && _), (finSent (tx x)); cbn; len_tac.
Qed.

Lemma tx_stream_no_target id target x fs acc f : tx_stream id target false x fs acc -> f ∈ fs -> Target f = [].
Proof.
  intros H. destruct (ts_frames _ _ _ _ _ _ H) as (p0 & ch & -> & _).
  intros [i Hi]%list_elem_of_lookup. apply number_lookup in Hi as (c & Hc & ->). cbn.
  apply list_elem_of_lookup_2 in Hc. cbn in Hc. rewrite !elem_of_app in Hc. destruct Hc as [Hc|Hc].
  - unfold data_part in Hc. by apply list_elem_of_fmap in Hc as (p & -> & _).
  - destruct (finSent (tx x)); cbn in Hc; [|by apply elem_of_nil in Hc]. by apply list_elem_of_singleton in Hc as ->.
Qed.

(** ** Operations that change sessions in a restricted way *)

Notation table := (gmap bytes Session).

Section Sim.
Context (R : bytes -> Session -> Session -> Prop) `{HR : !forall id, PreOrder (R id)}.
Implicit Types m : table.

Definition sim m m' : Prop :=
  forall id x', m' !! id = Some x' -> exists x, m !! id = Some x /\ R id x x'.

#[export] Instance sim_preorder : PreOrder sim.
Proof.
  split.
  - intros m id x Hx. by exists x.
  - intros m1 m2 m3 H1 H2 id x3 H3. destruct (H2 id x3 H3) as (x2 & Hx2 & E2).
    destruct (H1 id x2 Hx2) as (x1 & Hx1 & E1). exists x1. split; [done|]. by etransitivity.
Qed.

Lemma sim_delete id m : sim m (delete id m).
Proof. intros i x. intros [_ Hx]%lookup_delete_Some. by exists x. Qed.

Lemma sim_insert id x x' m : m !! id = Some x -> R id x x' -> sim m (<[id:=x']> m).
Proof. intros Hx HRx i y [[<- <-]|[_ Hy]]%lookup_insert_Some; [by exists x|by exists y]. Qed.

Lemma sim_alter id (g : Session -> Session) m : (forall x, R id x (g x)) -> sim m (alter g id m).
Proof.
  intros Hg i y. rewrite lookup_alter_Some. intros [(<- & x & Hx & ->)|[_ Hy]]; [by exists x|by exists y].
Qed.

Lemma sim_foldl {X Y : Type} (tab : X -> table) (g : X -> Y -> X) l a :
  (forall b a, sim (tab a) (tab (g a b))) -> sim (tab a) (tab (foldl g a l)).
Proof.
  intros Hg. revert a. induction l as [|b l IH]; intros a; [done|]. cbn. etransitivity; [apply Hg|apply IH].
Qed.

(** The client's operations. *)
Lemma sim_client_gc now order (c : Client Session) :
  sim (Carrier.sessions c) (Carrier.sessions (Carrier.gcDoneSessions now order c)).
Proof.
  unfold Carrier.gcDoneSessions. apply (sim_foldl Carrier.sessions). intros id c'. unfold gc_one.
  destruct (Carrier.sessions c' !! id); [|done]. case_bool; [|done]. apply sim_delete.
Qed.

Lemma sim_client_drain now order (c : Client Session) :
  (forall id x mp mf, R id x (fst (drainTx now mp mf x))) ->
  sim (Carrier.sessions c) (Carrier.sessions (fst (fst (Carrier.drainAll now order c)))).
Proof.
  intros HRd.
  assert (Hpass : forall syn d, sim (Carrier.sessions (dcl d)) (Carrier.sessions (dcl (drain_pass now syn order d)))).
  { intros syn d0. apply (sim_foldl (fun d => Carrier.sessions (dcl d))). intros id d. unfold Carrier.drain_one.
    case_bool; [done|]. destruct (Carrier.sessions (dcl d) !! id) as [x|] eqn:Hx; [|done].
    case_bool; [done|]. case_bool; [done|]. destruct (api_drain _ _ _ _) as [x' fs] eqn:Hd.
    assert (HRx : R id x x') by (change x' with (fst (x', fs)); rewrite <- Hd; apply HRd).
    case_bool; by eapply sim_insert. }
  unfold Carrier.drainAll. cbn.
  match goal with |- sim _ (Carrier.sessions (dcl (drain_pass _ _ _ ?d))) => transitivity (Carrier.sessions (dcl d)) end;
    [|apply Hpass].
  apply (Hpass true (Carrier.mkDrain (Carrier.prune c) [] [] (Carrier.batch_cap (Carrier.prune c)))).
Qed.

(** The server's. *)
Lemma sim_server_drain {Conn} now order owner budget (s : Server Session Conn) :
  (forall id x mp mf, R id x (fst (drainTx now mp mf x))) ->
  sim (Exit.sessions s) (Exit.sessions (fst (fst (Exit.drainAll now order owner budget s)))).
Proof.
  intros HRd. unfold Exit.drainAll. cbn.
  match goal with |- sim _ (Exit.sessions (dsv (foldl _ ?d _))) => set (d0 := d) end.
  change (sim (Exit.sessions (dsv d0)) (Exit.sessions (dsv (foldl (fun d id => Exit.drain_one now id d) d0 order)))).
  apply (sim_foldl (fun d => Exit.sessions (dsv d))). intros id d. unfold Exit.drain_one. case_bool; [done|].
  destruct (Exit.sessions (dsv d) !! id) as [x|] eqn:Hx; [|done].
  destruct (api_drain _ _ _ _) as [x' fs] eqn:Hd. eapply sim_insert; [exact Hx|].
  change x' with (fst (x', fs)). rewrite <- Hd. apply HRd.
Qed.

Lemma sim_gc_done {Conn} now order (s : Server Session Conn) :
  sim (Exit.sessions s) (Exit.sessions (Exit.gcDoneSessions now order s)).
Proof.
  unfold Exit.gcDoneSessions. apply (sim_foldl Exit.sessions). intros id s'. unfold gc_done_one.
  destruct (Exit.sessions s' !! id); [|done]. case_bool; [|done]. apply sim_delete.
Qed.

Lemma sim_gc_idle {Conn} now order (s s' : Server Session Conn) ups ss :
  gcIdleSessions now order s = Ok (s', ups, ss) -> sim (Exit.sessions s) (Exit.sessions s').
Proof.
  unfold gcIdleSessions. destruct (foldl _ _ _) as [s1 vs] eqn:Hf.
  intros ([st ->] & _)%close_victims_spec. cbn. change s1 with (fst (s1, vs)). rewrite <- Hf.
  apply (sim_foldl (fun p => Exit.sessions (fst p)) _ order (s, [])). intros id [s0 vs0]. unfold gc_idle_one. cbn.
  destruct (lastActivity s0 !! id); [|done]. case_bool; [done|].
  destruct (Exit.sessions s0 !! id); [apply sim_delete|done].
Qed.

End Sim.

(** The receive side stays; what was emitted and accepted stays. *)
Definition same_rx (id : bytes) (x x' : Session) : Prop := rx x' = rx x.
Definition tx_le (syn : bool) (id : bytes) (x x' : Session) : Prop :=
  forall target fs acc, tx_reach id target syn x fs acc -> tx_reach id target syn x' fs acc.

#[export] Instance same_rx_preorder id : PreOrder (same_rx id).
Proof. split; [done|]. unfold same_rx. intros x y z. congruence. Qed.
#[export] Instance tx_le_preorder syn id : PreOrder (tx_le syn id).
Proof. split; [by intros x target fs acc|]. intros x y z H1 H2 target fs acc H. auto. Qed.

Lemma drainTx_rx now mp mf s : rx (fst (drainTx now mp mf s)) = rx s.
Proof.
  unfold drainTx. case_bool; [done|]. destruct (drain_syn _ _ _) as [[[? ?] ?] ?].
  destruct (drain_chunks _ _ _ _ _ _ _) as [[? ?] ?]. by destruct (drain_fin _ _ _ _ _ _) as [[[? ?] ?] ?].
Qed.

(** A reset removes the session; any other frame only feeds its receiver. *)
Lemma routeRx_sim R `{HR : !forall id, PreOrder (R id)} now t f (c c' : Client Session) :
  routeRx now t f c = Ok c' ->
  (forall x, HasFlag f FlagRST = false -> R (SessionID f) x (with_rx x (ProcessRx t f (rx x)))) ->
  sim R (Carrier.sessions c) (Carrier.sessions c').
Proof.
  intros H HRp. unfold routeRx in H. destruct (Carrier.sessions c !! SessionID f) as [s|] eqn:Hs;
    [|by injection H as <-].
  destruct (HasFlag f FlagRST) eqn:Hrst.
  - unfold reset_session in H. destruct (api_close_rx s); cbn in H; [|done..]. injection H as <-. cbn.
    rewrite delete_insert_eq. apply sim_delete, _.
  - injection H as <-. cbn. eapply sim_insert; [apply _|exact Hs|by apply HRp].
Qed.

(** ** Senders *)

Section Senders.
Context (syn : bool).
Implicit Types (m : table) (log : list Frame) (wr : gmap bytes bytes).

(** [wr] is what the sessions ever opened accepted, [log] what they emitted. *)
Definition tx_entry m log wr id : Prop :=
  match wr !! id with
  | None => m !! id = None /\ frames_of id log = []
  | Some acc => len id = SessionIDLen /\ exists target s,
      tx_reach id target syn s (frames_of id log) acc
      /\ forall s', m !! id = Some s' -> s' = s
  end.

(** An identifier under which more than one session was opened: nothing is
    claimed of its stream, but its frames are still those of a session. *)
Definition mixed_entry m log wr id : Prop :=
  is_Some (wr !! id) /\ len id = SessionIDLen
  /\ (forall s, m !! id = Some s -> exists target fs acc, tx_reach id target syn s fs acc)
  /\ forall f, f ∈ frames_of id log ->
       frame_wf f /\ HasFlag f FlagRST = false /\ (syn = false -> Target f = []).

Definition tx_table (again : gset bytes) m log wr : Prop :=
  forall id, if decide (id ∈ again) then mixed_entry m log wr id else tx_entry m log wr id.

Lemma tx_table_entry again m log wr id : tx_table again m log wr -> id ∉ again -> tx_entry m log wr id.
Proof. intros H Hid. specialize (H id). by rewrite decide_False in H. Qed.

(** What both kinds of entries say. *)
Lemma tx_table_session again m log wr id s :
  tx_table again m log wr -> m !! id = Some s ->
  is_Some (wr !! id) /\ len id = SessionIDLen /\ exists target fs acc, tx_reach id target syn s fs acc.
Proof.
  intros H Hs. specialize (H id). destruct (decide _).
  - destruct H as (Hw & Hl & Hr & _). auto.
  - unfold tx_entry in H. destruct (wr !! id) as [acc|]; [|by destruct H; congruence].
    destruct H as (Hl & target & s0 & Hr & Hu). rewrite (Hu s Hs). split; [by eexists|]. eauto.
Qed.

Lemma tx_stream_mixed id target s fs acc f :
  tx_stream id target syn s fs acc -> f ∈ fs -> len id = SessionIDLen ->
  frame_wf f /\ HasFlag f FlagRST = false /\ (syn = false -> Target f = []).
Proof.
  intros H Hf Hl. destruct (tx_stream_frame _ _ _ _ _ _ f H Hf) as (_ & Hn & Hw). split; [auto|]. split; [done|].
  intros E. rewrite E in H. by eapply tx_stream_no_target.
Qed.

Lemma tx_table_frames again m log wr f : tx_table again m log wr -> f ∈ log ->
  is_Some (wr !! SessionID f) /\ frame_wf f /\ HasFlag f FlagRST = false /\ (syn = false -> Target f = []).
Proof.
  intros H Hf. assert (Hin : f ∈ frames_of (SessionID f) log) by (by apply in_frames_of).
  specialize (H (SessionID f)). destruct (decide _).
  - destruct H as (Hw & _ & _ & Hfr). auto.
  - unfold tx_entry in H. destruct (wr !! SessionID f) as [acc|].
    + destruct H as (Hl & target & s & Hr & _). split; [by eexists|].
      eapply tx_stream_mixed; [by apply tx_reach_stream|done|done].
    + destruct H as [_ E]. rewrite E in Hin. by apply elem_of_nil in Hin.
Qed.

Lemma tx_table_empty again : again = ∅ -> tx_table again ∅ [] ∅.
Proof. intros -> id. rewrite decide_False by set_solver. unfold tx_entry. by rewrite !lookup_empty. Qed.

Lemma tx_table_sim again m m' log wr :
  tx_table again m log wr -> sim (tx_le syn) m m' -> tx_table again m' log wr.
Proof.
  intros H Q id. specialize (H id). destruct (decide _).
  { destruct H as (Hw & Hl & Hr & Hf). split; [done|]. split; [done|]. split; [|done].
    intros s' Hs'. destruct (Q id s' Hs') as (s & Hs & Hq). destruct (Hr s Hs) as (target & fs & acc & Hre). eauto. }
  unfold tx_entry in *. destruct (wr !! id) as [acc|].
  - destruct H as (Hl & target & s & Hr & Hu). split; [done|].
    destruct (m' !! id) as [s'|] eqn:Hs'.
    + destruct (Q id s' Hs') as (s0 & Hs0 & Hq). rewrite (Hu s0 Hs0) in Hq.
      exists target, s'. split; [by apply Hq|]. congruence.
    + exists target, s. by split.
  - destruct H as [Hn Hf]. split; [|done]. destruct (m' !! id) as [s'|] eqn:Hs'; [|done].
    destruct (Q id s' Hs') as (s0 & Hs0 & _). congruence.
Qed.

(** An entry depends on its own identifier only. *)
Lemma tx_table_other again m m' log wr wr' id :
  tx_table again m log wr -> (forall i, i <> id -> m' !! i = m !! i /\ wr' !! i = wr !! i) ->
  (if decide (id ∈ again) then mixed_entry m' log wr' id else tx_entry m' log wr' id) ->
  tx_table again m' log wr'.
Proof.
  intros H Hi Hid i. destruct (decide (i = id)) as [->|Hne]; [done|]. destruct (Hi i Hne) as [E1 E2].
  specialize (H i). unfold mixed_entry, tx_entry in *. by rewrite E1, E2.
Qed.

(** The identifiers used more than once, after one more session. *)
Definition reopened (again : gset bytes) wr (id : bytes) : gset bytes :=
  match wr !! id with Some _ => {[id]} ∪ again | None => again end.

Lemma tx_table_open again m log wr id target s :
  tx_table again m log wr -> len id = SessionIDLen -> tx_reach id target syn s [] [] ->
  tx_table (reopened again wr id) (<[id := s]> m) log (<[id := []]> wr).
Proof.
  intros H Hl Hs i. specialize (H i) as Hi. destruct (decide (i = id)) as [->|Hne].
  - unfold reopened. destruct (wr !! id) as [acc|] eqn:Hw.
    + rewrite decide_True by set_solver. split; [rewrite lookup_insert_eq; by eexists|]. split; [done|]. split.
      * intros s'. rewrite lookup_insert_eq. intros [= <-]. eauto.
      * intros f [Hf <-]%in_frames_of. by destruct (tx_table_frames _ _ _ _ f H Hf).
    + destruct (decide _) as [Hin|Hin]; [destruct Hi as ([? [=]] & _); congruence|].
      unfold tx_entry in *. rewrite !lookup_insert_eq. rewrite Hw in Hi. destruct Hi as [_ ->]. split; [done|].
      exists target, s. split; [done|]. congruence.
  - assert (E' : i ∈ reopened again wr id <-> i ∈ again) by (unfold reopened; destruct (wr !! id); set_solver).
    unfold mixed_entry, tx_entry in *. rewrite !lookup_insert_ne by done.
    destruct (decide (i ∈ again)); [rewrite decide_True by tauto|rewrite decide_False by tauto]; done.
Qed.

Lemma tx_table_write again m log wr id s s' acc acc' :
  tx_table again m log wr -> m !! id = Some s -> wr !! id = Some acc ->
  (forall target fs a, tx_reach id target syn s fs a -> exists a', tx_reach id target syn s' fs a') ->
  (forall target fs, tx_reach id target syn s fs acc -> tx_reach id target syn s' fs acc') ->
  tx_table again (<[id := s']> m) log (<[id := acc']> wr).
Proof.
  intros H Hs Hacc Hany Hw. apply (tx_table_other again m _ log wr _ id); [done| |].
  { intros i Hi. by rewrite !lookup_insert_ne. }
  specialize (H id). destruct (decide _).
  - destruct H as (_ & Hl & Hr & Hf). split; [rewrite lookup_insert_eq; by eexists|]. split; [done|]. split; [|done].
    intros s0. rewrite lookup_insert_eq. intros [= <-]. destruct (Hr s Hs) as (target & fs & a & Hre).
    destruct (Hany _ _ _ Hre) as [a' Hre']. eauto.
  - unfold tx_entry in *. rewrite !lookup_insert_eq. rewrite Hacc in H.
    destruct H as (Hl & target & s0 & Hr & Hu). rewrite <- (Hu s Hs) in Hr. split; [done|].
    exists target, s'. split; [by apply Hw|]. congruence.
Qed.

(** A batch of shares is drained. *)
Lemma tx_table_drain again m m' log wr (parts : list (bytes * list Frame)) :
  tx_table again m log wr -> NoDup (map fst parts) ->
  (forall id fs, (id, fs) ∈ parts -> exists s s' now mp mf, m !! id = Some s /\ m' !! id = Some s'
     /\ drainTx now mp mf s = (s', fs)) ->
  (forall id, id ∉ map fst parts -> m' !! id = m !! id) ->
  tx_table again m' (log ++ concat (map snd parts)) wr.
Proof.
  intros H Hnd Hsh Hoth.
  assert (Hids : forall i fs f, (i, fs) ∈ parts -> f ∈ fs -> SessionID f = i
    /\ frame_wf f /\ HasFlag f FlagRST = false /\ (syn = false -> Target f = [])).
  { intros i fs f Hp Hf. destruct (Hsh i fs Hp) as (s & s' & now & mp & mf & Hs & Hs' & Hdr).
    destruct (tx_table_session _ _ _ _ _ _ H Hs) as (_ & Hl & target & gs & acc & Hr).
    pose proof (tx_drain _ _ _ _ _ _ _ _ _ _ _ Hr Hdr) as Hst%tx_reach_stream.
    assert (Hin : f ∈ gs ++ fs) by (apply elem_of_app; by right).
    split; [by destruct (tx_stream_frame _ _ _ _ _ _ f Hst Hin)|by eapply tx_stream_mixed]. }
  intros id. specialize (H id). unfold mixed_entry, tx_entry in *. rewrite frames_of_app.
  destruct (frames_of_shares id parts Hnd (fun i fs f Hp Hf => proj1 (Hids i fs f Hp Hf))) as [Hout Hin].
  destruct (decide (id ∈ map fst parts)) as [([i fs] & -> & Hp)%list_elem_of_fmap|Hi].
  2:{ by rewrite (Hout Hi), app_nil_r, (Hoth id Hi). }
  cbn [fst] in *. rewrite (Hin fs Hp). destruct (Hsh i fs Hp) as (s & s' & now & mp & mf & Hs & Hs' & Hdr).
  destruct (decide _).
  - destruct H as (Hw & Hl & Hr & Hf). split; [done|]. split; [done|]. split.
    + intros s0 Hs0. assert (s0 = s') as -> by congruence. destruct (Hr s Hs) as (target & gs & acc & Hre).
      exists target, (gs ++ fs), acc. by eapply tx_drain.
    + intros f [Hf'|Hf']%elem_of_app; [auto|]. by apply (Hids i fs).
  - destruct (wr !! i) as [acc|]; [|by destruct H; congruence].
    destruct H as (Hl & target & s0 & Hr & Hu). rewrite <- (Hu s Hs) in Hr. split; [done|].
    exists target, s'. split; [by eapply tx_drain|]. congruence.
Qed.

Lemma tx_table_ok again m log wr id s :
  tx_table again m log wr -> m !! id = Some s -> api_ok s /\ api_id s = id.
Proof.
  intros H Hs. destruct (tx_table_session _ _ _ _ _ _ H Hs) as (_ & _ & target & fs & acc & Hr).
  apply tx_reach_stream in Hr. split; [|apply (ts_id _ _ _ _ _ _ Hr)].
  cbn. unfold seq_in_range. rewrite (ts_seq _ _ _ _ _ _ Hr). apply u64_range.
Qed.

Lemma tx_table_frame again m log wr f : tx_table again m log wr -> f ∈ log ->
  frame_wf f /\ HasFlag f FlagRST = false /\ is_Some (wr !! SessionID f).
Proof. intros H Hf. by destruct (tx_table_frames _ _ _ _ f H Hf) as (? & ? & ? & _). Qed.

End Senders.

(** ** Receivers *)

(** One operation of the receive goroutine of session [x], or of its reader. *)
Definition pump_state (x : Session) (p : lstate * list bytes) : RxSys :=
  mkSys (rx x) (fst p) [] (snd p).

Inductive pump_step : RxSys -> RxSys -> Prop :=
| p_loop a b : loop_step a b -> pump_step a b
| p_write a p ps :
    RxChan (sr a) = p :: ps ->
    pump_step a (mkSys (set_chan ps (sr a)) (loop a) (callers a) (consumed a ++ [p])).

Lemma reassemble_inbox fuel f r ts : rxInbox (fst (reassemble fuel f r ts)) = rxInbox r.
Proof.
  revert f r ts. induction fuel as [|fuel IH]; intros f r ts; [done|]. cbn [reassemble].
  case_bool; [done|]. destruct (rxQueue r !! _); [|done]. by rewrite IH.
Qed.

Lemma deliver_locked_inbox f r : rxInbox (fst (deliver_locked f r)) = rxInbox r.
Proof. unfold deliver_locked. repeat case_bool; try done. apply reassemble_inbox. Qed.

(** Whether the frames [fs] account for what a receive system got and will
    get. *)
Definition rx_ok (log : list Frame) (id : bytes) (x : Session) (p : lstate * list bytes) : Prop :=
  forall fs, sent_wf fs -> (forall f, f ∈ frames_of id log -> f ∈ fs) ->
    callers_ok fs (pump_state x p) /\ loop_inv fs (pump_state x p).

Lemma rx_ok_log log more id x p : rx_ok log id x p -> rx_ok (log ++ more) id x p.
Proof.
  intros H fs Hwf Hin. apply H; [done|]. intros f Hf. apply Hin.
  rewrite frames_of_app, elem_of_app. by left.
Qed.

Lemma rx_ok_same log id x x' p : rx x' = rx x -> rx_ok log id x p -> rx_ok log id x' p.
Proof. intros E H fs Hwf Hin. unfold pump_state. rewrite E. by apply H. Qed.

Lemma rx_ok_new log id x : rx x = New_rx -> rx_ok log id x (LIdle, []).
Proof.
  intros E fs Hwf _. unfold pump_state. rewrite E. split; [apply callers_ok_init|apply (loop_inv_init fs)].
Qed.

Lemma rx_ok_stop log id x p : rx_ok log id x p -> rx_ok log id (with_rx x (Stop (rx x))) p.
Proof.
  intros H fs Hwf Hin. destruct (H fs Hwf Hin) as [Hc Hi]. split; [exact Hc|].
  by eapply loop_inv_same; [..|exact Hi].
Qed.

Lemma rx_ok_process log t f x p :
  f ∈ log -> rx_ok log (SessionID f) x p ->
  rx_ok log (SessionID f) (with_rx x (ProcessRx t f (rx x))) p.
Proof.
  intros Hf H fs Hwf Hin. destruct (H fs Hwf Hin) as [Hc Hi].
  assert (Hff : f ∈ fs) by (by apply Hin, in_frames_of).
  unfold pump_state. cbn. split.
  - intros g Hg. cbn in Hg. destruct Hg as [Hg|[Hg|Hg]]; [by apply elem_of_nil in Hg| |by apply Hc; right; right].
    assert (Hor : g ∈ rxInbox (rx x) ++ [f]).
    { unfold ProcessRx in Hg. repeat case_bool; cbn in Hg; set_solver. }
    apply elem_of_app in Hor as [Hor| ->%list_elem_of_singleton]; [apply Hc; by right; left|done].
  - unfold ProcessRx. repeat case_bool; try exact Hi; (eapply loop_inv_same; [..|exact Hi]; try done); cbn; congruence.
Qed.

Lemma pump_callers_ok fs a b : callers_ok fs a -> pump_step a b -> callers a = [] ->
  callers b = [] /\ callers_ok fs b.
Proof.
  intros Hc Hst Hn.
  assert (Hsub : callers b = [] /\ forall f, f ∈ rxInbox (sr b) \/ loop b = LGot f ->
    f ∈ rxInbox (sr a) \/ loop a = LGot f).
  { destruct Hst as [a b Hst|a p ps Hch]; [|done].
    destruct Hst as [a f q Hl Hq|a Hl Hd|a f Hl|a p ps ca Hl Hcc Hlen|a p ps ca Hl Hcc|a p ps ca Hl Hd|a ca Hl|a Hl].
    - split; [done|]. cbn. rewrite Hq. intros g [Hg|[= <-]]; left; [by right|left].
    - split; [done|]. cbn. intros g [|]; [by left|done].
    - unfold loop_deliver. destruct (deliver_locked f (sr a)) as [r out] eqn:Hd.
      assert (E : rxInbox r = rxInbox (sr a)) by (change r with (fst (r, out)); rewrite <- Hd; apply deliver_locked_inbox).
      destruct out as [[]|]; cbn; rewrite E; (split; [done|]); by intros g [Hg|Hg]; [by left|done].
    - split; [done|]. cbn. by intros g [Hg|Hg]; [by left|done].
    - split; [done|]. cbn. by intros g [Hg|Hg]; [by left|done].
    - unfold loop_close, close_RxChan. destruct ca, (RxChanClosed (sr a)); cbn;
        (split; [done|]); by intros g [Hg|Hg]; [by left|done].
    - unfold loop_sent, close_RxChan. destruct ca, (RxChanClosed (sr a)); cbn;
        (split; [done|]); by intros g [Hg|Hg]; [by left|done].
    - unfold loop_defer, loop_close, close_RxChan. destruct (rxClosed (sr a)), (RxChanClosed (sr a)) eqn:Hcc; cbn;
        rewrite ?Hcc; cbn; (split; [done|]); by intros g [Hg|Hg]; [by left|done]. }
  destruct Hsub as [Hb Hsub]. split; [done|]. intros f [Hf|Hf]; [rewrite Hb in Hf; by apply elem_of_nil in Hf|].
  apply Hc. right. by apply Hsub.
Qed.

Lemma rx_ok_pump log id x p a :
  rx_ok log id x p -> pump_step (pump_state x p) a ->
  rx_ok log id (with_rx x (sr a)) (loop a, consumed a).
Proof.
  intros H Hst fs Hwf Hin. destruct (H fs Hwf Hin) as [Hc Hi].
  destruct (pump_callers_ok fs _ _ Hc Hst eq_refl) as [Hn Hc'].
  assert (Hi' : loop_inv fs a).
  { destruct Hst as [a0 a Hst|a0 q ps Hch]; [by apply (loop_step_inv fs Hwf a0)|].
    apply (env_step_inv fs a0); [exact Hi|by apply e_read]. }
  assert (Ha : pump_state (with_rx x (sr a)) (loop a, consumed a) = a).
  { destruct a as [r l cs co]. cbn in Hn. by subst. }
  by rewrite Ha.
Qed.

Section Receivers.
Notation pumps := (gmap bytes (lstate * list bytes)).
Implicit Types (m : table) (log : list Frame) (pu : pumps).

Definition rx_table m pu log : Prop :=
  forall id x, m !! id = Some x -> exists p, pu !! id = Some p /\ rx_ok log id x p.

Lemma rx_table_empty pu log : rx_table ∅ pu log.
Proof. intros id x. by rewrite lookup_empty. Qed.

Lemma rx_table_log m pu log more : rx_table m pu log -> rx_table m pu (log ++ more).
Proof. intros H id x Hx. destruct (H id x Hx) as (p & Hp & Hr). exists p. split; [done|]. by apply rx_ok_log. Qed.

Lemma rx_table_sim m m' pu log : rx_table m pu log -> sim same_rx m m' -> rx_table m' pu log.
Proof.
  intros H K id x' Hx'. destruct (K id x' Hx') as (x & Hx & E).
  destruct (H id x Hx) as (p & Hp & Hr). exists p. split; [done|]. by eapply rx_ok_same.
Qed.

(** One session, and its goroutine and reader, change. *)
Lemma rx_table_set m pu log id x' p' :
  rx_table m pu log -> rx_ok log id x' p' -> rx_table (<[id := x']> m) (<[id := p']> pu) log.
Proof.
  intros H Hr i y [[<- <-]|[Hne Hy]]%lookup_insert_Some; [by exists p'; rewrite lookup_insert_eq|].
  rewrite lookup_insert_ne by done. by apply H.
Qed.

Lemma rx_table_put m pu log id x x' :
  rx_table m pu log -> m !! id = Some x -> (forall p, rx_ok log id x p -> rx_ok log id x' p) ->
  rx_table (<[id := x']> m) pu log.
Proof.
  intros H Hx Hr i y [[<- <-]|[Hne Hy]]%lookup_insert_Some; [|by apply H].
  destruct (H id x Hx) as (p & Hp & Hrp). exists p. split; [done|]. by apply Hr.
Qed.

(** The end of the link: what a receiver holds is a prefix of what the sender
    accepted. *)
Lemma link_prefix syn again m mt pu log wr id x :
  tx_table syn again mt log wr -> id ∉ again -> rx_table m pu log -> m !! id = Some x -> len (frames_of id log) < 2 ^ 64 ->
  exists l got, pu !! id = Some (l, got) /\ l <> LPanic
    /\ concat (got ++ RxChan (rx x)) `prefix_of` default [] (wr !! id).
Proof.
  intros Hc Hag Hs Hx Hlen. destruct (Hs id x Hx) as ([l got] & Hp & Hr). exists l, got. split; [done|].
  apply (tx_table_entry _ _ _ _ _ id) in Hc; [|done]. unfold tx_entry in Hc. destruct (wr !! id) as [acc|]; cbn [default from_option].
  - destruct Hc as (_ & target & s & Hre & _). apply tx_reach_stream in Hre.
    destruct (Hr _ (tx_stream_sent_wf _ _ _ _ _ _ Hre Hlen) (fun f Hf => Hf)) as [_ Hi].
    destruct (loop_inv_safe _ _ Hi) as (Hl & Hpre & _). split; [exact Hl|].
    rewrite <- (tx_stream_bytes _ _ _ _ _ _ Hre), <- concat_payloads.
    destruct Hpre as [rest E]. exists (concat rest ++ txBuf (tx s)). cbn in E.
    by rewrite E, concat_app, <- app_assoc.
  - destruct Hc as [_ E].
    assert (Hwf : sent_wf []) by (constructor; [intros i f; by rewrite lookup_nil..|done]).
    destruct (Hr [] Hwf) as [_ Hi]; [by rewrite E|].
    destruct (loop_inv_safe _ _ Hi) as (Hl & Hpre & _). split; [exact Hl|]. cbn in Hpre.
    apply prefix_nil_inv in Hpre. by rewrite Hpre.
Qed.

End Receivers.

(** ** Bodies *)

Lemma posted_body {L : CryptoLib} {LO : CryptoLibOk L} (crypto : Crypto) {AL : AeadLaws (aead crypto)}
    owner rand fs body :
  len owner = ClientIDLen -> Forall frame_wf fs ->
  (forall nonce, rand = Some nonce -> len nonce = NonceSize (aead crypto)) ->
  EncodeBatch crypto rand owner fs = Ok body -> DecodeBatch crypto body = Ok (owner, fs).
Proof.
  intros Hid Hwf Hr He. destruct rand as [nonce|].
  - apply (DecodeBatch_encoded crypto nonce owner fs body); auto.
  - unfold EncodeBatch in He. case_bool; [done|]. by destruct (marshal_all fs).
Qed.
