(* ===== verification/Upload.v ===== *)
(** * From the application to the upstream connection

    A client and the server it talks to, composed: [Net] is the client's
    session table, the bodies its polls posted, the server, and for each of the
    server's sessions its receive goroutine and what was written to the
    upstream connection.  Each step is one critical section, or one channel
    operation, of either program; they happen in any order.  A posted body may
    never arrive, or several times (the client retries), and its frames are
    routed in any order.  Other clients of the server may send it any frames of
    sessions of their own.  The theorem is what the tunnel is for: an upstream
    connection receives a prefix of what the application wrote.  A session that
    a collector of the server removed is not followed further. *)

From S2P Require Import Prelude GoStd Frame Crypto TestLib Session Stream RxLoop SessionApi Endpoints Dns.
From S2P Require Import Carrier CarrierSteps.
From S2P Require Import Version Exit ExitDrain ExitSteps Link.

Section Upload.
Context {L : CryptoLib} {Conn : Type}.
Context (crypto : Crypto) (clientID : bytes).

Record Net := mkNet {
  ncli : Client Session;
  batches : list (list Frame * option bytes);  (* drained frames, posted body *)
  nsrv : Server Session Conn;
  pumps : gmap bytes (lstate * list bytes);    (* [rxLoop], written upstream *)
  written : gmap bytes bytes;                  (* what each application wrote *)
}.

Definition net_init (e : Endpoints) : Net :=
  mkNet (mkClient ∅ ∅ ∅ e 0 zero_stats) [] init_server ∅ ∅.

Definition with_cli (c : Client Session) (n : Net) : Net :=
  mkNet c (batches n) (nsrv n) (pumps n) (written n).
Definition with_srv (s : Server Session Conn) (n : Net) : Net :=
  mkNet (ncli n) (batches n) s (pumps n) (written n).

(** The steps of the client. *)
Inductive client_step (n : Net) : Net -> Prop :=
| c_open now id target :
    written n !! id = None -> Exit.sessions (nsrv n) !! id = None -> len id = SessionIDLen ->
    client_step n (mkNet (NewSession now id target (ncli n)) (batches n) (nsrv n) (pumps n)
                         (<[id := []]> (written n)))
| c_write now id data s s' kick acc :
    Carrier.sessions (ncli n) !! id = Some s -> written n !! id = Some acc ->
    EnqueueInitialData now data s = Some (s', kick) ->
    client_step n (mkNet (update_session id (fun _ => s') (ncli n)) (batches n) (nsrv n) (pumps n)
                         (<[id := accepted s data acc]> (written n)))
| c_close now id :
    client_step n (with_cli (update_session id (fun s => fst (RequestClose now s)) (ncli n)) n)
| c_ontx id :
    client_step n (with_cli (Carrier.OnTx id (ncli n)) n)
| c_post now order rand c' out ids :
    (forall nonce, rand = Some nonce -> len nonce = NonceSize (aead crypto)) ->
    Carrier.valid_order (ncli n) order -> Carrier.drainAll now order (ncli n) = (c', out, ids) ->
    client_step n (mkNet c'
      (batches n ++ [(out, match EncodeBatch crypto rand clientID out with Ok b => Some b | _ => None end)])
      (nsrv n) (pumps n) (written n))
| c_release ids :
    client_step n (with_cli (releaseInFlight ids (ncli n)) n)
| c_receive now timeout f c' :
    routeRx now timeout f (ncli n) = Ok c' -> client_step n (with_cli c' n)
| c_rx id g :
    client_step n (with_cli (update_session id (fun x => with_rx x (g (rx x))) (ncli n)) n)
| c_gc now order :
    client_step n (with_cli (Carrier.gcDoneSessions now order (ncli n)) n).

(** The steps of the server, the critical sections of [routeIncoming] apart:
    [s_register] opens a session under any identifier, [s_process] hands over a
    frame of a body that was posted, [s_foreign] another client's frame, and
    [s_quiet] does not touch the sessions. *)
Inductive server_step (n : Net) : Net -> Prop :=
| s_register now id target owner conn :
    server_step n (mkNet (ncli n) (batches n) (register now id target owner conn (nsrv n))
      (<[id := (LIdle, [])]> (pumps n)) (written n))
| s_process fs body owner rx_ f timeout x :
    (fs, Some body) ∈ batches n -> DecodeBatch crypto body = Ok (owner, rx_) -> f ∈ rx_ ->
    Exit.sessions (nsrv n) !! SessionID f = Some x ->
    server_step n (with_srv (put (SessionID f) (with_rx x (ProcessRx timeout f (rx x))) (nsrv n)) n)
| s_foreign f timeout x :
    written n !! SessionID f = None -> Exit.sessions (nsrv n) !! SessionID f = Some x ->
    server_step n (with_srv (put (SessionID f) (with_rx x (ProcessRx timeout f (rx x))) (nsrv n)) n)
| s_quiet s' :
    Exit.sessions s' = Exit.sessions (nsrv n) -> server_step n (with_srv s' n)
| s_pump id x p a :
    Exit.sessions (nsrv n) !! id = Some x -> pumps n !! id = Some p ->
    pump_step (pump_state x p) a ->
    server_step n (mkNet (ncli n) (batches n) (put id (with_rx x (sr a)) (nsrv n))
                         (<[id := (loop a, consumed a)]> (pumps n)) (written n))
| s_stop id x :
    Exit.sessions (nsrv n) !! id = Some x ->
    server_step n (with_srv (put id (with_rx x (Stop (rx x))) (nsrv n)) n)
| s_read now id data x x' kick :
    Exit.sessions (nsrv n) !! id = Some x -> EnqueueTx now data x = Some (x', kick) ->
    server_step n (with_srv (put id x' (nsrv n)) n)
| s_close now id x :
    Exit.sessions (nsrv n) !! id = Some x ->
    server_step n (with_srv (put id (fst (RequestClose now x)) (nsrv n)) n)
| s_drain now order owner budget :
    server_step n (with_srv (fst (fst (Exit.drainAll now order owner budget (nsrv n)))) n)
| s_gc_done now order :
    server_step n (with_srv (Exit.gcDoneSessions now order (nsrv n)) n)
| s_gc_idle now order s' ups ss :
    gcIdleSessions now order (nsrv n) = Ok (s', ups, ss) -> server_step n (with_srv s' n).

Definition net_step (n n' : Net) : Prop := client_step n n' \/ server_step n n'.
Definition net_steps : relation Net := rtc net_step.

(** Everything the client's drains took, in order. *)
Definition sent (n : Net) : list Frame := concat (map fst (batches n)).

(** ** The invariant *)

Definition bodies_ok (bs : list (list Frame * option bytes)) : Prop :=
  forall fs body, (fs, Some body) ∈ bs -> DecodeBatch crypto body = Ok (clientID, fs).

(** The sessions of this client at the server. *)
Definition ours (m : gmap bytes Session) (wr : gmap bytes bytes) : gmap bytes Session :=
  filter (fun p => is_Some (wr !! p.1)) m.

Lemma ours_lookup m wr id x : ours m wr !! id = Some x <-> m !! id = Some x /\ is_Some (wr !! id).
Proof. unfold ours. by rewrite map_lookup_filter_Some. Qed.

Lemma sim_ours R m m' wr : sim R m m' -> sim R (ours m wr) (ours m' wr).
Proof.
  intros H id x' [Hx' Hw]%ours_lookup. destruct (H id x' Hx') as (x & Hx & HR).
  exists x. split; [by apply ours_lookup|done].
Qed.

Record net_ok (n : Net) : Prop := {
  no_tx : tx_table true ∅ (Carrier.sessions (ncli n)) (sent n) (written n);
  no_bodies : bodies_ok (batches n);
  no_rx : rx_table (ours (Exit.sessions (nsrv n)) (written n)) (pumps n) (sent n);
}.

Lemma sent_in n f : f ∈ sent n <-> exists fs b, (fs, b) ∈ batches n /\ f ∈ fs.
Proof.
  unfold sent. rewrite elem_of_concat. split.
  - intros (fs & Hf & ([fs' b] & -> & Hb)%list_elem_of_fmap). eauto.
  - intros (fs & b & Hb & Hf). exists fs. split; [done|]. by apply (list_elem_of_fmap_2 fst _ (fs, b)).
Qed.

(** A client operation that neither emits nor accepts, and a server operation
    that does not touch the receivers. *)
Lemma net_ok_cli n c' :
  net_ok n -> sim (tx_le true) (Carrier.sessions (ncli n)) (Carrier.sessions c') -> net_ok (with_cli c' n).
Proof. intros [] Hs. constructor; try done. by eapply tx_table_sim. Qed.

Lemma net_ok_srv n s' :
  net_ok n -> sim same_rx (Exit.sessions (nsrv n)) (Exit.sessions s') -> net_ok (with_srv s' n).
Proof. intros [] Hs. constructor; try done. eapply rx_table_sim; [done|]. by apply sim_ours. Qed.

(** One session of the server, and its goroutine and writer, change. *)
Lemma net_ok_set n id s' x' pu' :
  net_ok n -> Exit.sessions s' = <[id := x']> (Exit.sessions (nsrv n)) -> (forall i, i <> id -> pu' !! i = pumps n !! i) ->
  (is_Some (written n !! id) -> exists p, pu' !! id = Some p /\ rx_ok (sent n) id x' p) ->
  net_ok (mkNet (ncli n) (batches n) s' pu' (written n)).
Proof.
  intros [Hc Hb Hs] E Hpu Hx. constructor; cbn; try done. intros i y [Hy Hw]%ours_lookup. rewrite E in Hy.
  apply lookup_insert_Some in Hy as [[<- <-]|[Hne Hy]]; [by apply Hx|]. rewrite Hpu by done.
  apply Hs. by apply ours_lookup.
Qed.

Lemma net_ok_put n id x' :
  net_ok n -> (forall p, is_Some (written n !! id) -> pumps n !! id = Some p ->
    (forall y, Exit.sessions (nsrv n) !! id = Some y -> rx_ok (sent n) id y p) -> rx_ok (sent n) id x' p) ->
  is_Some (Exit.sessions (nsrv n) !! id) -> net_ok (with_srv (put id x' (nsrv n)) n).
Proof.
  intros Hn Hx [y Hy]. apply (net_ok_set n id _ x'); [done..|]. intros Hw.
  destruct (no_rx n Hn id y) as (p & Hp & Hr); [by apply ours_lookup|]. exists p. split; [done|].
  apply Hx; [done..|]. intros z Hz. by replace z with y by congruence.
Qed.

Lemma net_ok_write n id s' v :
  net_ok n -> (is_Some (written n !! id) \/ Exit.sessions (nsrv n) !! id = None) -> tx_table true ∅ (<[id := s']> (Carrier.sessions (ncli n))) (sent n) (<[id := v]> (written n)) ->
  forall c', Carrier.sessions c' = <[id := s']> (Carrier.sessions (ncli n)) ->
  net_ok (mkNet c' (batches n) (nsrv n) (pumps n) (<[id := v]> (written n))).
Proof.
  intros [Hc Hb Hs] Hor Ht c' Hc'. constructor; cbn; try done; [by rewrite Hc'|].
  intros i x [Hx Hw]%ours_lookup. apply Hs, ours_lookup. split; [done|].
  apply lookup_insert_is_Some in Hw as [<-|[_ Hw]]; [destruct Hor; [done|congruence]|done].
Qed.

Lemma client_post_ok {LO : CryptoLibOk L} {AL : AeadLaws (aead crypto)} n now order rand c' out ids :
  len clientID = ClientIDLen -> net_ok n ->
  (forall nonce, rand = Some nonce -> len nonce = NonceSize (aead crypto)) ->
  Carrier.valid_order (ncli n) order -> Carrier.drainAll now order (ncli n) = (c', out, ids) ->
  net_ok (mkNet c'
      (batches n ++ [(out, match EncodeBatch crypto rand clientID out with Ok b => Some b | _ => None end)])
      (nsrv n) (pumps n) (written n)).
Proof.
  intros Hid [Hc Hb Hs] Hr Hord Hd. set (n' := mkNet _ _ _ _ _).
  assert (E : sent n' = sent n ++ out).
  { unfold sent, n'. cbn. rewrite map_app, concat_app. cbn. by rewrite app_nil_r. }
  assert (Htab : Carrier.table_ok (ncli n)) by (intros i s; by eapply tx_table_ok).
  destruct (drainAll_shares now order (ncli n) c' out ids Htab Hord Hd)
    as (parts & Hout & -> & Hnd & _ & Hsh & _ & Hoth & _).
  assert (Hc' : tx_table true ∅ (Carrier.sessions c') (sent n ++ out) (written n)).
  { rewrite Hout. eapply tx_table_drain; [exact Hc|done| |done]. intros i fs Hp.
    destruct (Hsh i fs Hp) as (_ & _ & s & s' & cap & Hx & Hx' & _ & Hdr). by exists s, s', now, MaxFramePayload, cap. }
  constructor; rewrite ?E; try done; [|by apply rx_table_log].
  intros fs body [Hin|[= -> Heq]%list_elem_of_singleton]%elem_of_app; [by apply Hb|].
  destruct (EncodeBatch crypto rand clientID out) as [b| |] eqn:He; [|done..]. injection Heq as ->.
  apply (posted_body crypto clientID rand); try done. apply Forall_forall. intros f Hf.
  apply (tx_table_frame true _ _ _ _ f Hc'). apply elem_of_app. by right.
Qed.

Lemma client_step_ok {LO : CryptoLibOk L} {AL : AeadLaws (aead crypto)} n n' :
  len clientID = ClientIDLen -> net_ok n -> client_step n n' -> net_ok n'.
Proof.
  intros Hid Hn Hst. pose proof (no_tx n Hn) as Hc.
  destruct Hst as [now id target Hno Hns Hl|now id data s s' kick acc Hsess Hacc He|now id|id
    |now order rand c' out ids Hr Hord Hd|ids|now t f c' He|id g|now order].
  - eapply net_ok_write; [done|by right| |done].
    pose proof (tx_table_open true ∅ _ _ _ id target _ Hc Hl (tx_new id target true now)) as Ho.
    unfold reopened in Ho. by rewrite Hno in Ho.
  - apply (net_ok_write n id s'); [done|left; by exists acc| |by rewrite (update_session_insert id _ _ s Hsess)].
    eapply tx_table_write; [done..| |]; [intros target fs a Hre; eexists|intros target fs Hre]; by eapply tx_initial.
  - apply net_ok_cli; [done|]. apply sim_alter; [apply _|]. intros x target fs acc. apply tx_close.
  - by apply net_ok_cli.
  - by eapply client_post_ok.
  - apply net_ok_cli; [done|]. cbn. by destruct (CarrierSteps.release_fold ids (ncli n)) as [-> _].
  - apply net_ok_cli; [done|]. eapply routeRx_sim; [apply _|done|]. intros x _ target fs acc. by apply tx_rx.
  - apply net_ok_cli; [done|]. apply sim_alter; [apply _|]. intros x target fs acc. by apply tx_rx.
  - apply net_ok_cli; [done|]. apply sim_client_gc, _.
Qed.

(** A frame of this client that it sent, or another client's. *)
Lemma process_ok n f timeout x :
  net_ok n -> (is_Some (written n !! SessionID f) -> f ∈ sent n) -> Exit.sessions (nsrv n) !! SessionID f = Some x ->
  net_ok (with_srv (put (SessionID f) (with_rx x (ProcessRx timeout f (rx x))) (nsrv n)) n).
Proof.
  intros Hn Hf Hx. apply net_ok_put; [done| |by eexists]. intros p Hw _ Hr. apply rx_ok_process; auto.
Qed.

Lemma server_step_ok n n' : net_ok n -> server_step n n' -> net_ok n'.
Proof.
  intros Hn Hst.
  destruct Hst as [now id target owner conn|fs body owner rx_ f timeout x Hin Hd Hf Hx|f timeout x Hw Hx|s' E
    |id x p a Hx Hp Hst|id x Hx|now id data x x' kick Hx He|now id x Hx|now order owner budget
    |now order|now order s' ups ss He].
  - apply (net_ok_set n id _ (New now id target false)); [done|done|by intros i ?; rewrite lookup_insert_ne|].
    intros _. exists (LIdle, []). split; [by rewrite lookup_insert_eq|by apply rx_ok_new].
  - rewrite (no_bodies n Hn _ _ Hin) in Hd. injection Hd as <- <-.
    apply process_ok; [done| |done]. intros _. apply sent_in; eauto.
  - apply process_ok; [done| |done]. rewrite Hw. by intros [? [=]].
  - apply net_ok_srv; [done|]. by rewrite E.
  - apply (net_ok_set n id _ (with_rx x (sr a))); [done|done|by intros i ?; rewrite lookup_insert_ne|]. intros Hw.
    exists (loop a, consumed a). split; [by rewrite lookup_insert_eq|].
    destruct (no_rx n Hn id x) as (p' & Hp' & Hr); [by apply ours_lookup|].
    assert (p' = p) as -> by congruence. by eapply rx_ok_pump.
  - apply net_ok_put; [done| |by eexists]. intros p _ _ Hr. apply rx_ok_stop; auto.
  - apply net_ok_srv; [done|]. eapply sim_insert; [apply _|done|]. unfold EnqueueTx in He.
    repeat case_bool; [done|by injection He as <- _..].
  - apply net_ok_srv; [done|]. by eapply sim_insert; [apply _|done|].
  - apply net_ok_srv; [done|]. apply sim_server_drain; [apply _|]. intros i x mp mf. apply drainTx_rx.
  - apply net_ok_srv; [done|]. apply sim_gc_done, _.
  - apply net_ok_srv; [done|]. by eapply sim_gc_idle; [apply _|].
Qed.

Lemma net_init_ok e : net_ok (net_init e).
Proof.
  constructor; cbn; [by apply tx_table_empty|by intros fs body Hin%elem_of_nil|].
  by intros id x [Hx _]%ours_lookup.
Qed.

Lemma net_reach_ok {LO : CryptoLibOk L} {AL : AeadLaws (aead crypto)} e n :
  len clientID = ClientIDLen -> net_steps (net_init e) n -> net_ok n.
Proof.
  intros Hid H. remember (net_init e) as n0 eqn:E. assert (H0 : net_ok n0) by (subst; apply net_init_ok).
  clear E. induction H as [|n0 n1 n [Hst|Hst] _ IH]; [done|..]; apply IH.
  - by eapply client_step_ok.
  - by eapply server_step_ok.
Qed.

(** End-to-end integrity of uploads.  In every interleaving of client and
    server, however polls batch, retry, lose and reorder the bodies, and
    whatever other clients send: for every session of the client that is
    registered at the server, the bytes written to its upstream connection, and
    those waiting for it, are a prefix of what its application wrote (nothing
    lost in between, repeated, reordered or taken from another connection), and
    its receive goroutine has not panicked. *)
Theorem upload_integrity {LO : CryptoLibOk L} {AL : AeadLaws (aead crypto)} (e : Endpoints) (n : Net) id x acc :
  len clientID = ClientIDLen -> net_steps (net_init e) n -> written n !! id = Some acc ->
  Exit.sessions (nsrv n) !! id = Some x -> len (frames_of id (sent n)) < 2 ^ 64 ->
  exists l got, pumps n !! id = Some (l, got)
    /\ l <> LPanic /\ concat (got ++ RxChan (rx x)) `prefix_of` acc.
Proof.
  intros Hid Hn Hacc Hx Hlen. destruct (net_reach_ok e n Hid Hn) as [Hc _ Hs].
  destruct (link_prefix true ∅ _ _ _ _ _ id x Hc ltac:(set_solver) Hs) as (l & got & Hp & Hl & Hpre);
    [by apply ours_lookup|done|].
  rewrite Hacc in Hpre. by exists l, got.
Qed.

End Upload.
Arguments Net Conn : clear implicits.

(** ** A run *)

Definition demo_opened : Net nat :=
  mkNet (NewSession 5 demo_sid (str "good:1") (mkClient ∅ ∅ ∅ demo_eps 0 zero_stats)) [] init_server ∅
        (<[demo_sid := []]> ∅).

Definition demo_s : Session := New 5 demo_sid (str "good:1") true.
Definition demo_s' : Session := fst (default (demo_s, false) (EnqueueInitialData 6 (str "hello") demo_s)).

Definition demo_wrote : Net nat :=
  mkNet (update_session demo_sid (fun _ => demo_s') (ncli demo_opened)) [] init_server ∅ (<[demo_sid := str "hello"]> (written demo_opened)).

Definition demo_posted : Net nat :=
  let c := ncli demo_wrote in
  let '(c', out, _) := Carrier.drainAll 7 (Carrier.some_order c) c in
  mkNet c' [(out, match EncodeBatch test_crypto (Some test_nonce) test_client out with
                  | Ok b => Some b | _ => None end)]
    init_server ∅ (written demo_wrote).

Definition demo_frame : Frame := mkFrame demo_sid 0 FlagSYN (str "good:1") (str "hello").

Definition demo_registered : Net nat :=
  mkNet (ncli demo_posted) (batches demo_posted)
    (register 8 demo_sid (str "good:1") test_client 7%nat init_server) (<[demo_sid := (LIdle, [])]> ∅) (written demo_posted).
Definition demo_routed : Net nat :=
  mkNet (ncli demo_posted) (batches demo_posted)
    (route_after demo_dial None 8 false demo_frame test_client false None init_server)
    (<[demo_sid := (LIdle, [])]> ∅) (written demo_posted).

Definition demo_x (n : Net nat) : Session :=
  default (New 0 [] [] false) (Exit.sessions (nsrv n) !! demo_sid).
Definition demo_p (n : Net nat) : lstate * list bytes := default (LDone, []) (pumps n !! demo_sid).
Definition demo_pump (n : Net nat) (a : RxSys) : Net nat :=
  mkNet (ncli n) (batches n) (put demo_sid (with_rx (demo_x n) (sr a)) (nsrv n))
        (<[demo_sid := (loop a, consumed a)]> (pumps n)) (written n).

Definition demo_sys (n : Net nat) : RxSys := pump_state (demo_x n) (demo_p n).
Definition demo_taken : Net nat :=
  demo_pump demo_routed (let s := demo_sys demo_routed in set_loop (set_inbox [] (sr s)) (LGot demo_frame) s).
Definition demo_delivered : Net nat := demo_pump demo_taken (loop_deliver demo_frame (demo_sys demo_taken)).
Definition demo_sent : Net nat :=
  demo_pump demo_delivered (let s := demo_sys demo_delivered in
    set_loop (set_chan (RxChan (sr s) ++ [str "hello"]) (sr s)) (LSending [] false) s).
Definition demo_upstream : Net nat :=
  demo_pump demo_sent (let s := demo_sys demo_sent in
    mkSys (set_chan [] (sr s)) (loop s) (callers s) (consumed s ++ [str "hello"])).

Lemma demo_pump_step n a :
  Exit.sessions (nsrv n) !! demo_sid = Some (demo_x n) -> pumps n !! demo_sid = Some (demo_p n) ->
  pump_step (demo_sys n) a -> net_step test_crypto test_client n (demo_pump n a).
Proof. intros Hx Hp Hst. right. by apply (s_pump _ n demo_sid (demo_x n) (demo_p n) a). Qed.

Lemma demo_run_routed : net_steps test_crypto test_client (net_init demo_eps) demo_routed.
Proof.
  apply rtc_l with demo_opened.
  { left. exact (c_open test_crypto test_client (net_init demo_eps) 5 demo_sid (str "good:1") eq_refl eq_refl eq_refl). }
  apply rtc_l with demo_wrote.
  { left. refine (c_write test_crypto test_client demo_opened 6 demo_sid (str "hello") demo_s demo_s' true [] _ _ _);
      vm_compute; reflexivity. }
  apply rtc_l with demo_posted.
  { left. refine (c_post test_crypto test_client demo_wrote 7 _ (Some test_nonce) _ _ _ _ _ _);
      [by intros ? [= <-]|apply Carrier.some_order_valid|reflexivity]. }
  apply rtc_l with demo_registered.
  { right. exact (s_register test_crypto demo_posted 8 demo_sid (str "good:1") test_client 7%nat). }
  eapply rtc_l.
  { right. refine (s_process test_crypto demo_registered [demo_frame] _ test_client [demo_frame] demo_frame false _ _ _ _ _);
      [vm_compute; left|vm_compute; reflexivity|left|vm_compute; reflexivity]. }
  apply rtc_once. right. refine (s_quiet test_crypto (with_srv _ demo_registered) (nsrv demo_routed) _).
  vm_compute. reflexivity.
Qed.

Lemma demo_run : net_steps test_crypto test_client (net_init demo_eps) demo_upstream.
Proof.
  etransitivity; [exact demo_run_routed|].
  apply rtc_l with demo_taken.
  { apply demo_pump_step; [vm_compute; reflexivity..|]. apply p_loop, l_take; vm_compute; reflexivity. }
  apply rtc_l with demo_delivered.
  { apply demo_pump_step; [vm_compute; reflexivity..|]. apply p_loop, l_deliver. vm_compute. reflexivity. }
  apply rtc_l with demo_sent.
  { apply demo_pump_step; [vm_compute; reflexivity..|]. apply p_loop, l_send; vm_compute; reflexivity. }
  apply rtc_once, demo_pump_step; [vm_compute; reflexivity..|]. apply p_write. vm_compute. reflexivity.
Qed.

Lemma upload_integrity_witness :
  pumps demo_upstream !! demo_sid = Some (LSending [] false, [str "hello"])
  /\ exists l got, pumps demo_upstream !! demo_sid = Some (l, got) /\ l <> LPanic
    /\ concat (got ++ RxChan (rx (demo_x demo_upstream))) `prefix_of` str "hello".
Proof.
  split; [vm_compute; reflexivity|].
  apply (upload_integrity test_crypto test_client (AL := test_aead_laws) demo_eps demo_upstream demo_sid
    (demo_x demo_upstream) (str "hello") eq_refl demo_run); vm_compute; reflexivity.
Defined.
