(* ===== verification/Download.v ===== *)
(** * From the upstream connection to the application

    The other direction of [Upload].  [Net] is the server, the frames its
    handlers drained, the bodies they answered with, and the client with, for
    each of its sessions, the receive goroutine and what the application read.
    Any frames may arrive at the server, from this client or another; a body
    answers with any drained frames (a handler that coalesces drains more than
    once), may never arrive, or several times, and its frames are routed in any
    order.  A SYN may open a session whose identifier the server used before
    ([stale_syn_reopens]); what is sent under such an identifier, one of [again],
    is well formed but mixes two streams, and the theorem says nothing of it. *)

From S2P Require Import Prelude GoStd Frame Crypto TestLib Session Stream RxLoop SessionApi Endpoints Dns.
From S2P Require Import Carrier CarrierSteps.
From S2P Require Import Version Exit ExitDrain ExitSteps Link.

Section Download.
Context {L : CryptoLib} {Conn : Type}.
Context (crypto : Crypto).

Record Net := mkNet {
  ncli : Client Session;
  pumps : gmap bytes (lstate * list bytes);    (* [rxLoop], read by the application *)
  answers : list bytes;
  drained : list Frame;
  nsrv : Server Session Conn;
  received : gmap bytes bytes;                 (* what each upstream connection sent *)
  again : gset bytes;                          (* identifiers opened more than once *)
}.

Definition net_init (e : Endpoints) : Net :=
  mkNet (mkClient ∅ ∅ ∅ e 0 zero_stats) ∅ [] [] init_server ∅ ∅.

Definition with_cli (c : Client Session) (n : Net) : Net :=
  mkNet c (pumps n) (answers n) (drained n) (nsrv n) (received n) (again n).
Definition with_srv (s : Server Session Conn) (n : Net) : Net :=
  mkNet (ncli n) (pumps n) (answers n) (drained n) s (received n) (again n).

(** The steps of the client. *)
Inductive down_client_step (n : Net) : Net -> Prop :=
| d_open now id target :
    down_client_step n (mkNet (NewSession now id target (ncli n)) (<[id := (LIdle, [])]> (pumps n))
                              (answers n) (drained n) (nsrv n) (received n) (again n))
| d_write now id data s s' kick :
    Carrier.sessions (ncli n) !! id = Some s -> EnqueueInitialData now data s = Some (s', kick) ->
    down_client_step n (with_cli (update_session id (fun _ => s') (ncli n)) n)
| d_close now id :
    down_client_step n (with_cli (update_session id (fun s => fst (RequestClose now s)) (ncli n)) n)
| d_ontx id :
    down_client_step n (with_cli (Carrier.OnTx id (ncli n)) n)
| d_drain now order :
    down_client_step n (with_cli (fst (fst (Carrier.drainAll now order (ncli n)))) n)
| d_release ids :
    down_client_step n (with_cli (releaseInFlight ids (ncli n)) n)
| d_receive body owner rx_ f now timeout c' :
    body ∈ answers n -> DecodeBatch crypto body = Ok (owner, rx_) -> f ∈ rx_ ->
    routeRx now timeout f (ncli n) = Ok c' -> down_client_step n (with_cli c' n)
| d_pump id x p a :
    Carrier.sessions (ncli n) !! id = Some x -> pumps n !! id = Some p -> pump_step (pump_state x p) a ->
    down_client_step n (mkNet (update_session id (fun x => with_rx x (sr a)) (ncli n))
      (<[id := (loop a, consumed a)]> (pumps n)) (answers n) (drained n) (nsrv n) (received n) (again n))
| d_gc now order :
    down_client_step n (with_cli (Carrier.gcDoneSessions now order (ncli n)) n).

(** The steps of the server.  What its sessions receive is arbitrary; [v_quiet]
    touches neither the sessions nor the queues of resets. *)
Inductive down_server_step (n : Net) : Net -> Prop :=
| v_register now id target owner conn :
    len id = SessionIDLen ->
    down_server_step n (mkNet (ncli n) (pumps n) (answers n) (drained n)
      (register now id target owner conn (nsrv n)) (<[id := []]> (received n)) (reopened (again n) (received n) id))
| v_rst owner id :
    len id = SessionIDLen -> down_server_step n (with_srv (queueRST owner id (nsrv n)) n)
| v_version info owner id :
    len id = SessionIDLen -> down_server_step n (with_srv (queueVersionResponse info owner id (nsrv n)) n)
| v_quiet s' :
    Exit.sessions s' = Exit.sessions (nsrv n) -> pendingRSTs s' = pendingRSTs (nsrv n) ->
    pendingCtrl s' = pendingCtrl (nsrv n) -> down_server_step n (with_srv s' n)
| v_receive id x r :
    Exit.sessions (nsrv n) !! id = Some x ->
    down_server_step n (with_srv (put id (with_rx x r) (nsrv n)) n)
| v_read now id data x x' kick acc :
    Exit.sessions (nsrv n) !! id = Some x -> received n !! id = Some acc ->
    EnqueueTx now data x = Some (x', kick) ->
    down_server_step n (mkNet (ncli n) (pumps n) (answers n) (drained n) (put id x' (nsrv n))
      (<[id := if closeReq (tx x) then acc else acc ++ data]> (received n)) (again n))
| v_close now id x :
    Exit.sessions (nsrv n) !! id = Some x ->
    down_server_step n (with_srv (put id (fst (RequestClose now x)) (nsrv n)) n)
| v_drain now order owner budget s' out urgent :
    Exit.valid_order owner (nsrv n) order ->
    Exit.drainAll now order owner budget (nsrv n) = (s', out, urgent) ->
    down_server_step n (mkNet (ncli n) (pumps n) (answers n) (drained n ++ out) s' (received n) (again n))
| v_answer owner rand fs body :
    len owner = ClientIDLen -> (forall nonce, rand = Some nonce -> len nonce = NonceSize (aead crypto)) ->
    (forall f, f ∈ fs -> f ∈ drained n) -> EncodeBatch crypto rand owner fs = Ok body ->
    down_server_step n (mkNet (ncli n) (pumps n) (answers n ++ [body]) (drained n) (nsrv n) (received n) (again n))
| v_gc_done now order :
    down_server_step n (with_srv (Exit.gcDoneSessions now order (nsrv n)) n)
| v_gc_idle now order s' ups ss :
    gcIdleSessions now order (nsrv n) = Ok (s', ups, ss) -> down_server_step n (with_srv s' n).

Definition down_step (n n' : Net) : Prop := down_client_step n n' \/ down_server_step n n'.
Definition down_steps : relation Net := rtc down_step.

(** ** The queues of resets *)

Implicit Types s : Server Session Conn.

(** What is queued besides the sessions' frames is well formed and a reset. *)
Definition queued_ok s : Prop :=
  forall o f, f ∈ queued o s -> frame_wf f /\ HasFlag f FlagRST = true.

(** [s'] has nothing in its queues that [s] does not have, or that is fine. *)
Definition queues_from s s' : Prop :=
  forall o f, f ∈ queued o s' -> f ∈ queued o s \/ (frame_wf f /\ HasFlag f FlagRST = true).

Lemma queued_ok_from s s' : queued_ok s -> queues_from s s' -> queued_ok s'.
Proof. intros H Q o f Hf. destruct (Q o f Hf); [by apply (H o)|done]. Qed.

Lemma queues_from_same s s' :
  pendingRSTs s' = pendingRSTs s -> pendingCtrl s' = pendingCtrl s -> queues_from s s'.
Proof. intros Hr Hc o f. unfold queued. rewrite Hr, Hc. by left. Qed.

#[export] Instance queues_from_preorder : PreOrder queues_from.
Proof.
  split; [by intros s; apply queues_from_same|]. intros s1 s2 s3 H1 H2 o f Hf.
  destruct (H2 o f Hf) as [Hf2|]; [by apply H1|by right].
Qed.

Lemma kick_queues owner s : pendingRSTs (kick owner s) = pendingRSTs s /\ pendingCtrl (kick owner s) = pendingCtrl s.
Proof. unfold kick, activityFor. by destruct (activity s !! owner). Qed.

Lemma rst_queues owner id s : len id = SessionIDLen -> queues_from s (queueRST owner id s).
Proof.
  intros Hid o f. unfold queueRST, queued. cbn.
  match goal with |- context [kick owner ?s1] => destruct (kick_queues owner s1) as [-> ->] end. cbn.
  destruct (decide (o = owner)) as [->|Hne]; [|rewrite lookup_insert_ne by done; by left].
  rewrite lookup_insert_eq. cbn. rewrite app_assoc, elem_of_app.
  intros [Hf| ->%list_elem_of_singleton]; [by left|by right].
Qed.

Lemma version_queues info owner id s : len id = SessionIDLen -> queues_from s (queueVersionResponse info owner id s).
Proof.
  intros Hid o f. unfold queueVersionResponse, queued.
  match goal with |- context [kick owner ?s1] => destruct (kick_queues owner s1) as [-> ->] end. cbn.
  destruct (decide (o = owner)) as [->|Hne]; [|rewrite lookup_insert_ne by done; by left].
  rewrite lookup_insert_eq. cbn. rewrite !elem_of_app.
  intros [[Hf| ->%list_elem_of_singleton]|Hf]; [left; by left|by right|left; by right].
Qed.

Lemma gc_done_queues now order s : queues_from s (Exit.gcDoneSessions now order s).
Proof.
  destruct (gc_done_fold now order s) as (R & [] & _). destruct rm_rest as (Hr & Hc & _).
  by apply queues_from_same.
Qed.

Lemma gc_idle_queues now order s s' ups ss :
  gcIdleSessions now order s = Ok (s', ups, ss) -> queues_from s s'.
Proof.
  unfold gcIdleSessions. destruct (foldl _ _ _) as [s1 vs] eqn:Hf. intros ([st ->] & _)%close_victims_spec.
  transitivity s1; [|by apply queues_from_same].
  assert (Hone : forall id p, queues_from (fst p) (fst (gc_idle_one now id p))).
  { intros id [s0 vs0]. unfold gc_idle_one. destruct (lastActivity s0 !! id); [|done].
    case_bool; [done|]. destruct (Exit.sessions s0 !! id); by apply queues_from_same. }
  assert (Hfold : forall l p, queues_from (fst p) (fst (foldl (fun p id => gc_idle_one now id p) p l))).
  { induction l as [|id l IH]; intros p; [done|]. cbn. etransitivity; [apply (Hone id p)|apply IH]. }
  specialize (Hfold order (s, [])). by rewrite Hf in Hfold.
Qed.

(** ** The invariant *)

(** The frames that are no resets. *)
Definition data (fs : list Frame) : list Frame := filter (fun f => HasFlag f FlagRST = false) fs.

Lemma data_app l k : data (l ++ k) = data l ++ data k.
Proof. apply filter_app. Qed.

Lemma in_data f l : f ∈ data l <-> f ∈ l /\ HasFlag f FlagRST = false.
Proof. unfold data. rewrite list_elem_of_filter. tauto. Qed.

Lemma data_all l : (forall f, f ∈ l -> HasFlag f FlagRST = false) -> data l = l.
Proof.
  induction l as [|f l IH]; intros H; [done|]. unfold data. rewrite filter_cons_True by (apply H; left).
  f_equal. apply IH. intros g Hg. apply H. by right.
Qed.

Lemma data_none l : (forall f, f ∈ l -> HasFlag f FlagRST = true) -> data l = [].
Proof.
  intros H. destruct (data l) as [|f r] eqn:E; [done|]. exfalso.
  assert (Hf : f ∈ data l) by (rewrite E; left). apply in_data in Hf as [Hf Hn]. rewrite (H f Hf) in Hn. done.
Qed.

Record down_ok (n : Net) : Prop := {
  do_tx : tx_table false (again n) (Exit.sessions (nsrv n)) (data (drained n)) (received n);
  do_rx : rx_table (Carrier.sessions (ncli n)) (pumps n) (data (drained n));
  do_queued : queued_ok (nsrv n);
  do_drained : Forall frame_wf (drained n);
  do_fits : Forall frame_fits (data (drained n));
  do_answers : forall body, body ∈ answers n ->
    exists owner fs, DecodeBatch crypto body = Ok (owner, fs) /\ forall f, f ∈ fs -> f ∈ drained n;
}.

Lemma down_init_ok e : down_ok (net_init e).
Proof.
  constructor; cbn; [by apply tx_table_empty|apply rx_table_empty| |constructor|constructor|by intros ? ?%elem_of_nil].
  intros o f. unfold queued. cbn. rewrite !lookup_empty. by intros ?%elem_of_nil.
Qed.

Lemma down_ok_cli n c' :
  down_ok n -> sim same_rx (Carrier.sessions (ncli n)) (Carrier.sessions c') -> down_ok (with_cli c' n).
Proof. intros [] Hs. constructor; try done. by eapply rx_table_sim. Qed.

Lemma down_ok_srv n s' :
  down_ok n -> sim (tx_le false) (Exit.sessions (nsrv n)) (Exit.sessions s') -> queues_from (nsrv n) s' ->
  down_ok (with_srv s' n).
Proof. intros [] Hs Hq. constructor; try done; [by eapply tx_table_sim|by eapply queued_ok_from]. Qed.

Lemma down_client_ok n n' : down_ok n -> down_client_step n n' -> down_ok n'.
Proof.
  intros Hn Hst.
  destruct Hst as [now id target|now id data s s' kick Hs He|now id|id|now order|ids
    |body owner rx_ f now t c' Hb Hd Hf He|id x p a Hx Hp Hst|now order].
  - destruct Hn as [Ht Hr Hq Hw Hfi Ha]. constructor; try done. cbn. apply rx_table_set; [done|]. by apply rx_ok_new.
  - apply down_ok_cli; [done|]. rewrite (update_session_insert id _ _ s Hs).
    eapply sim_insert; [apply _|done|]. unfold EnqueueInitialData, EnqueueTx in He.
    repeat case_bool; first [done|by injection He as <- _].
  - apply down_ok_cli; [done|]. by apply sim_alter; [apply _|].
  - by apply down_ok_cli.
  - apply down_ok_cli; [done|]. apply sim_client_drain; [apply _|]. intros i x mp mf. apply drainTx_rx.
  - apply down_ok_cli; [done|]. by destruct (CarrierSteps.release_fold ids (ncli n)) as [-> _].
  - destruct (HasFlag f FlagRST) eqn:Hrst.
    { apply down_ok_cli; [done|]. eapply routeRx_sim; [apply _|done|]. by rewrite Hrst. }
    unfold routeRx in He. rewrite Hrst in He.
    destruct (Carrier.sessions (ncli n) !! SessionID f) as [x|] eqn:Hx; injection He as <-;
      [|by apply down_ok_cli].
    destruct Hn as [Ht Hr Hq Hw Hfi Ha]. constructor; try done. cbn. eapply rx_table_put; [done..|].
    intros p. apply rx_ok_process, in_data. split; [|done].
    destruct (Ha body Hb) as (o & fs & Hd' & Hin). rewrite Hd in Hd'. injection Hd' as -> ->. auto.
  - destruct Hn as [Ht Hr Hq Hw Hfi Ha]. constructor; try done. cbn [ncli pumps drained].
    rewrite (update_session_insert id _ _ x Hx). cbn. apply rx_table_set; [done|].
    destruct (Hr id x Hx) as (p' & Hp' & Hrx). assert (p' = p) as -> by congruence. by eapply rx_ok_pump.
  - apply down_ok_cli; [done|]. apply sim_client_gc, _.
Qed.

Lemma down_drain_ok n now order owner budget s' out urgent :
  down_ok n -> Exit.valid_order owner (nsrv n) order ->
  Exit.drainAll now order owner budget (nsrv n) = (s', out, urgent) ->
  down_ok (mkNet (ncli n) (pumps n) (answers n) (drained n ++ out) s' (received n) (again n)).
Proof.
  intros [Ht Hr Hq Hw Hfi Ha] Hord Hd.
  assert (Htab : ExitDrain.table_ok (nsrv n)) by (intros i x; by eapply tx_table_ok).
  destruct (drainAll_queues now order owner budget (nsrv n) s' out urgent Htab Hord Hd) as [Hq1 Hq2].
  destruct (srv_drainAll_spec now order owner budget (nsrv n) s' out urgent Htab Hord Hd)
    as (parts & d & -> & -> & _ & [] & _).
  rewrite Forall_forall in sd_shares.
  assert (Ht' : tx_table false (again n) (Exit.sessions (dsv d)) (data (drained n) ++ part_frames parts) (received n)).
  { eapply tx_table_drain; [exact Ht|done| |done]. intros id fs Hp.
    destruct (sd_shares _ Hp) as (x & x' & cap & Hx & Hx' & _ & Hdr & _). by exists x, x', now, Exit.MaxFramePayload, cap. }
  assert (Hpf : forall f, f ∈ part_frames parts -> frame_wf f /\ HasFlag f FlagRST = false).
  { intros f Hf. destruct (tx_table_frame _ _ _ _ _ f Ht') as (? & ? & _); [apply elem_of_app; by right|done]. }
  assert (Hdata : data (drained n ++ dout d) = data (drained n) ++ part_frames parts).
  { rewrite sd_out, !data_app, (data_none (queued owner (nsrv n))) by (intros f Hf; by apply (Hq owner f)).
    by rewrite (data_all (part_frames parts)) by (intros f Hf; by apply Hpf). }
  assert (Hfits : Forall frame_fits (part_frames parts)).
  { apply Forall_forall. intros f (fs & Hf & ([id gs] & -> & Hp)%list_elem_of_fmap)%elem_of_concat. cbn in Hf.
    destruct (sd_shares _ Hp) as (x & x' & cap & Hx & Hx' & Hcap & Hdr & _). cbn in *.
    destruct (Htab id x Hx) as [Hox Hidx].
    destruct (drain_ok _ _ _ _ _ _ Hox Hdr) as (_ & _ & _ & Hown & _ & Hsz & _). split.
    - destruct (tx_table_frames _ _ _ _ _ f Ht') as (_ & _ & _ & ->); [|done|by vm_compute].
      apply elem_of_app. right. apply elem_of_concat. exists gs. split; [done|].
      by apply (list_elem_of_fmap_2 snd _ (id, gs)).
    - etransitivity; [by apply Hsz|]. by vm_compute. }
  constructor; cbn [ncli pumps answers drained nsrv received]; rewrite ?Hdata; try done.
  - by apply rx_table_log.
  - intros o f Hf. destruct (decide (o = owner)) as [->|Hne]; [rewrite Hq1 in Hf; by apply elem_of_nil in Hf|].
    rewrite Hq2 in Hf by done. by apply (Hq o).
  - rewrite sd_out, !Forall_app. split; [done|]. split; apply Forall_forall; intros f Hf; [by apply (Hq owner f)|by apply Hpf].
  - by apply Forall_app.
  - intros body Hb. destruct (Ha body Hb) as (o & fs & Hdb & Hin). exists o, fs. split; [done|].
    intros f Hf. apply elem_of_app. left. auto.
Qed.

Lemma down_server_ok {LO : CryptoLibOk L} {AL : AeadLaws (aead crypto)} n n' :
  down_ok n -> down_server_step n n' -> down_ok n'.
Proof.
  intros Hn Hst.
  destruct Hst as [now id target owner conn Hl|owner id Hl|info owner id Hl|s' Es Er Ec|id x r Hx
    |now id data0 x x' kick acc Hx Hacc He
    |now id x Hx|now order owner budget s' out urgent Hord Hd|owner rand fs body Ho Hr Hin He
    |now order|now order s' ups ss He].
  - destruct Hn as [Ht Hr Hq Hw Hfi Ha]. constructor; try done. cbn.
    eapply tx_table_open; [done|done|]. apply (tx_new id target false).
  - apply down_ok_srv; [done| |by apply rst_queues].
    unfold queueRST. match goal with |- context [kick ?o ?s] => by destruct (same_kick o s) as [-> _] end.
  - apply down_ok_srv; [done| |by apply version_queues].
    unfold queueVersionResponse. match goal with |- context [kick ?o ?s] => by destruct (same_kick o s) as [-> _] end.
  - apply down_ok_srv; [done|by rewrite Es|by apply queues_from_same].
  - apply down_ok_srv; [done| |by apply queues_from_same].
    eapply sim_insert; [apply _|done|]. intros target fs acc. apply tx_rx.
  - destruct Hn as [Ht Hr Hq Hw Hfi Ha]. constructor; try done. cbn. eapply tx_table_write; [done|done|done| |].
    + intros target fs a Hre. eexists. by eapply tx_enqueue.
    + intros target fs Hre. by eapply tx_enqueue.
  - apply down_ok_srv; [done| |by apply queues_from_same].
    eapply sim_insert; [apply _|done|]. intros target fs acc. apply tx_close.
  - by eapply down_drain_ok.
  - destruct Hn as [Ht Hrx Hq Hw Hfi Ha]. constructor; try done. cbn.
    intros b [Hb| ->%list_elem_of_singleton]%elem_of_app; [by apply Ha|]. exists owner, fs. split; [|done].
    apply (posted_body crypto owner rand); try done. rewrite Forall_forall in Hw |- *. auto.
  - apply down_ok_srv; [done|apply sim_gc_done, _|apply gc_done_queues].
  - apply down_ok_srv; [done|by eapply sim_gc_idle; [apply _|]|by eapply gc_idle_queues].
Qed.

Lemma down_reach_ok {LO : CryptoLibOk L} {AL : AeadLaws (aead crypto)} e n :
  down_steps (net_init e) n -> down_ok n.
Proof.
  intros H. remember (net_init e) as n0 eqn:E. assert (H0 : down_ok n0) by (subst; apply down_init_ok).
  clear E. induction H as [|n0 n1 n [Hst|Hst] _ IH]; [done|..]; apply IH.
  - by eapply down_client_ok.
  - by eapply down_server_ok.
Qed.

(** End-to-end integrity of downloads.  In every interleaving of server and
    client, whatever frames arrive at the server and from whom, however
    handlers drain, coalesce and answer, and however the answers are lost,
    repeated and reordered: what the application read from a session that the
    server opened once, and what waits in its channel, is a prefix of what the
    upstream connection sent on that session, nothing when the server never
    opened it, and the receive goroutine has not panicked. *)
Theorem download_integrity {LO : CryptoLibOk L} {AL : AeadLaws (aead crypto)} (e : Endpoints) (n : Net) id x :
  down_steps (net_init e) n -> Carrier.sessions (ncli n) !! id = Some x -> id ∉ again n ->
  len (frames_of id (data (drained n))) < 2 ^ 64 ->
  exists l got, pumps n !! id = Some (l, got) /\ l <> LPanic
    /\ concat (got ++ RxChan (rx x)) `prefix_of` default [] (received n !! id).
Proof.
  intros Hn Hx Hag Hlen. destruct (down_reach_ok e n Hn) as [Ht Hr _ _ _ _].
  exact (link_prefix false _ _ _ _ _ _ id x Ht Hag Hr Hx Hlen).
Qed.

End Download.
Arguments Net Conn : clear implicits.

(** A SYN that arrives again after the server's collector removed the finished
    session (a client repeats a batch whose answer was lost) is dialled again:
    the server registers a second session under the identifier, whose frames
    are numbered from 0 anew. *)
Lemma stale_syn_reopens {Conn} (d : dialler Conn) info t f owner now now' order (s : Server Session Conn) x conn :
  Exit.sessions s !! SessionID f = Some x -> IsDone now x = true -> SessionID f ∈ order ->
  HasFlag f FlagSYN = true ->
  let s1 := Exit.gcDoneSessions now order s in
  snd (isDialSuppressed now' (Target f) s1) = false ->
  snd (run_dial d now' (Target f) (fst (isDialSuppressed now' (Target f) s1))) = inr conn ->
  let s2 := routeIncoming d info now' t f owner s1 in
  let y := New now' (SessionID f) (Target f) false in
  Exit.sessions s2 !! SessionID f = Some (with_rx y (ProcessRx t f (rx y)))
  /\ upstreams s2 !! SessionID f = Some conn.
Proof.
  intros Hx Hdone Hin Hsyn s1 Hsup Hdial s2 y.
  assert (Hgone : Exit.sessions s1 !! SessionID f = None /\ sessionOwners s1 !! SessionID f = None).
  { destruct (gc_done_fold now order s) as (R & H & HR).
    assert (HiR : SessionID f ∈ R) by (apply HR; split; [done|by exists x]).
    unfold s1, Exit.gcDoneSessions. cbn. rewrite (rm_sessions _ _ _ H), (rm_owners _ _ _ H).
    by rewrite !decide_True. }
  destruct Hgone as [Hg Hgo]. unfold s2, routeIncoming, route_after. rewrite Hg, Hgo, Hsyn.
  rewrite bool_decide_eq_false_2 by by intros []. cbn [negb].
  destruct (isDialSuppressed now' (Target f) s1) as [s3 sup]. cbn [fst snd] in Hsup, Hdial. subst sup.
  unfold openSession. destruct (run_dial d now' (Target f) s3) as [s4 r]. cbn [snd] in Hdial. subst r.
  unfold deliver. cbn. rewrite !lookup_insert_eq. cbn. by rewrite !lookup_insert_eq.
Qed.

(** ** A run *)

(** The client opens a session, the SYN is routed, the upstream sends, the
    frame is drained, answered, received, delivered and read. *)
Definition down_demo_syn : Frame := mkFrame demo_sid 0 FlagSYN (str "good:1") [].
Definition down_demo_data : Frame := mkFrame demo_sid 0 0 [] (str "reply").

Definition down_opened : Net nat :=
  mkNet (NewSession 5 demo_sid (str "good:1") (mkClient ∅ ∅ ∅ demo_eps 0 zero_stats))
    (<[demo_sid := (LIdle, [])]> ∅) [] [] init_server ∅ ∅.
Definition down_registered : Net nat :=
  mkNet (ncli down_opened) (pumps down_opened) [] []
    (register 8 demo_sid (str "good:1") test_client 7%nat init_server) (<[demo_sid := []]> ∅) ∅.
Definition down_routed : Net nat :=
  mkNet (ncli down_opened) (pumps down_opened) [] []
    (route_after demo_dial None 8 false down_demo_syn test_client false None init_server) (<[demo_sid := []]> ∅) ∅.
Definition down_srv_x : Session := default (New 0 [] [] false) (Exit.sessions (nsrv down_routed) !! demo_sid).
Definition down_srv_x' : Session := fst (default (down_srv_x, false) (EnqueueTx 9 (str "reply") down_srv_x)).
Definition down_read : Net nat :=
  mkNet (ncli down_opened) (pumps down_opened) [] [] (put demo_sid down_srv_x' (nsrv down_routed))
    (<[demo_sid := str "reply"]> (received down_routed)) ∅.
Definition down_ready : Net nat := with_srv (Exit.OnTx demo_sid test_client (nsrv down_read)) down_read.
Definition down_drained : Net nat :=
  let s := nsrv down_ready in
  let r := Exit.drainAll 10 (Exit.some_order test_client s) test_client 100 s in
  mkNet (ncli down_ready) (pumps down_ready) [] (snd (fst r)) (fst (fst r)) (received down_ready) ∅.
Definition down_body : bytes :=
  match EncodeBatch test_crypto (Some test_nonce) test_client [down_demo_data] with Ok b => b | _ => [] end.
Definition down_answered : Net nat :=
  mkNet (ncli down_drained) (pumps down_drained) [down_body] (drained down_drained) (nsrv down_drained)
    (received down_drained) ∅.
Definition down_received : Net nat :=
  with_cli (match routeRx 11 false down_demo_data (ncli down_answered) with Ok c => c | _ => ncli down_answered end)
    down_answered.

Definition down_x (n : Net nat) : Session := default (New 0 [] [] false) (Carrier.sessions (ncli n) !! demo_sid).
Definition down_p (n : Net nat) : lstate * list bytes := default (LDone, []) (pumps n !! demo_sid).
Definition down_sys (n : Net nat) : RxSys := pump_state (down_x n) (down_p n).
Definition down_pump (n : Net nat) (a : RxSys) : Net nat :=
  mkNet (update_session demo_sid (fun x => with_rx x (sr a)) (ncli n)) (<[demo_sid := (loop a, consumed a)]> (pumps n))
    (answers n) (drained n) (nsrv n) (received n) (again n).

Definition down_taken : Net nat :=
  down_pump down_received (let s := down_sys down_received in set_loop (set_inbox [] (sr s)) (LGot down_demo_data) s).
Definition down_delivered : Net nat := down_pump down_taken (loop_deliver down_demo_data (down_sys down_taken)).
Definition down_sent : Net nat :=
  down_pump down_delivered (let s := down_sys down_delivered in
    set_loop (set_chan (RxChan (sr s) ++ [str "reply"]) (sr s)) (LSending [] false) s).
Definition down_end : Net nat :=
  down_pump down_sent (let s := down_sys down_sent in
    mkSys (set_chan [] (sr s)) (loop s) (callers s) (consumed s ++ [str "reply"])).

Lemma down_pump_step n a :
  Carrier.sessions (ncli n) !! demo_sid = Some (down_x n) -> pumps n !! demo_sid = Some (down_p n) ->
  pump_step (down_sys n) a -> down_step test_crypto n (down_pump n a).
Proof. intros Hx Hp Hst. left. by apply (d_pump _ n demo_sid (down_x n) (down_p n) a). Qed.

Lemma down_run_server : down_steps test_crypto (net_init demo_eps) down_answered.
Proof.
  apply rtc_l with down_opened; [left; exact (d_open test_crypto (net_init demo_eps) 5 demo_sid (str "good:1"))|].
  apply rtc_l with down_registered.
  { right. exact (v_register test_crypto down_opened 8 demo_sid (str "good:1") test_client 7%nat eq_refl). }
  eapply rtc_l.
  { right. refine (v_receive test_crypto down_registered demo_sid (New 8 demo_sid (str "good:1") false)
      (ProcessRx false down_demo_syn New_rx) _). vm_compute. reflexivity. }
  apply rtc_l with down_routed.
  { right. refine (v_quiet test_crypto (with_srv _ down_registered) (nsrv down_routed) _ _ _); vm_compute; reflexivity. }
  apply rtc_l with down_read.
  { right. refine (v_read test_crypto down_routed 9 demo_sid (str "reply") down_srv_x down_srv_x' true [] _ _ _);
      vm_compute; reflexivity. }
  apply rtc_l with down_ready; [right; refine (v_quiet test_crypto down_read (nsrv down_ready) _ _ _); vm_compute; reflexivity|].
  apply rtc_l with down_drained.
  { right. exact (v_drain test_crypto down_ready 10 _ test_client 100 _ _ _ (srv_some_order_valid _ _)
      (eq_trans (surjective_pairing _) (f_equal (fun p => (p, _)) (surjective_pairing _)))). }
  apply rtc_once. right. refine (v_answer test_crypto down_drained test_client (Some test_nonce) [down_demo_data] _ _ _ _ _).
  - reflexivity.
  - by intros ? [= <-].
  - intros f ->%list_elem_of_singleton. vm_compute. left.
  - vm_compute. reflexivity.
Qed.

Lemma down_run : down_steps test_crypto (net_init demo_eps) down_end.
Proof.
  etransitivity; [exact down_run_server|]. apply rtc_l with down_received.
  { left. unfold down_received.
    refine (d_receive test_crypto down_answered down_body test_client [down_demo_data] down_demo_data 11 false _ _ _ _ _);
      [vm_compute; left|vm_compute; reflexivity|left|vm_compute; reflexivity]. }
  apply rtc_l with down_taken.
  { apply down_pump_step; [vm_compute; reflexivity..|]. apply p_loop, l_take; vm_compute; reflexivity. }
  apply rtc_l with down_delivered.
  { apply down_pump_step; [vm_compute; reflexivity..|]. apply p_loop, l_deliver. vm_compute. reflexivity. }
  apply rtc_l with down_sent.
  { apply down_pump_step; [vm_compute; reflexivity..|]. apply p_loop, l_send; vm_compute; reflexivity. }
  apply rtc_once, down_pump_step; [vm_compute; reflexivity..|]. apply p_write. vm_compute. reflexivity.
Qed.

Lemma download_integrity_witness :
  pumps down_end !! demo_sid = Some (LSending [] false, [str "reply"])
  /\ exists l got, pumps down_end !! demo_sid = Some (l, got) /\ l <> LPanic
    /\ concat (got ++ RxChan (rx (down_x down_end))) `prefix_of` default [] (received down_end !! demo_sid).
Proof.
  split; [vm_compute; reflexivity|].
  apply (download_integrity test_crypto (AL := test_aead_laws) demo_eps down_end demo_sid (down_x down_end) down_run);
    [vm_compute; reflexivity|apply not_elem_of_empty|vm_compute; reflexivity].
Defined.
