(* ===== verification/System.v ===== *)
(** * The whole system

    Any number of clients and their server.  [System] has for each client its
    session table, the applications that read from its sessions, the bodies its
    polls posted and what its applications wrote; the server, with its
    goroutines and what they wrote to the upstream connections; and the answers
    between them.  The network may lose, repeat, reorder and misdirect bodies
    and answers.  Nothing keeps the server from opening two sessions under one
    identifier, for a SYN that arrives again after the first was removed
    ([stale_syn_reopens]) or for two SYNs at once ([Race]); [again] holds the
    identifiers for which it has done so.

    [up_side] and [down_side] project a state to the two directions as one
    client sees them.  Every step of the system is a step of both, or invisible
    there, so what [Upload] and [Download] prove holds of the whole. *)

From S2P Require Import Prelude GoStd Frame Crypto TestLib Session Stream RxLoop SessionApi Endpoints Dns.
From S2P Require Import Carrier CarrierSteps Version Exit ExitDrain ExitSteps Link Upload Download.

Section System.
Context {L : CryptoLib} {Conn : Type}.
Context (crypto : Crypto).

Record Node := mkNode {
  cli : Client Session;
  apps : gmap bytes (lstate * list bytes);     (* [rxLoop], read by the application *)
  posts : list (list Frame * option bytes);    (* drained frames, posted body *)
  wrote : gmap bytes bytes;                    (* what each application wrote *)
}.

Record System := mkSystem {
  nodes : gmap bytes Node;                     (* by client identifier *)
  srv : Server Session Conn;
  conns : gmap bytes (lstate * list bytes);    (* [rxLoop], written upstream *)
  taken : list Frame;                          (* what the handlers drained *)
  bodies : list bytes;                         (* the answers *)
  got : gmap bytes bytes;                      (* what each upstream connection sent *)
  again : gset bytes;                          (* identifiers opened more than once *)
}.

Definition with_node (cid : bytes) (nd : Node) (t : System) : System :=
  mkSystem (<[cid := nd]> (nodes t)) (srv t) (conns t) (taken t) (bodies t) (got t) (again t).
Definition with_server (s : Server Session Conn) (t : System) : System :=
  mkSystem (nodes t) s (conns t) (taken t) (bodies t) (got t) (again t).
Definition node_cli (c : Client Session) (nd : Node) : Node := mkNode c (apps nd) (posts nd) (wrote nd).

(** ** The steps *)

(** A client by itself, given the answers. *)
Inductive node_step (cid : bytes) (answers : list bytes) (nd : Node) : Node -> Prop :=
| n_write now id data s s' kick acc :
    Carrier.sessions (cli nd) !! id = Some s -> wrote nd !! id = Some acc ->
    EnqueueInitialData now data s = Some (s', kick) ->
    node_step cid answers nd (mkNode (update_session id (fun _ => s') (cli nd)) (apps nd) (posts nd)
      (<[id := accepted s data acc]> (wrote nd)))
| n_close now id :
    node_step cid answers nd (node_cli (update_session id (fun s => fst (RequestClose now s)) (cli nd)) nd)
| n_ontx id :
    node_step cid answers nd (node_cli (Carrier.OnTx id (cli nd)) nd)
| n_post now order rand c' out ids :
    (forall nonce, rand = Some nonce -> len nonce = NonceSize (aead crypto)) ->
    Carrier.valid_order (cli nd) order -> Carrier.drainAll now order (cli nd) = (c', out, ids) ->
    node_step cid answers nd (mkNode c' (apps nd)
      (posts nd ++ [(out, match EncodeBatch crypto rand cid out with Ok b => Some b | _ => None end)]) (wrote nd))
| n_release ids :
    node_step cid answers nd (node_cli (releaseInFlight ids (cli nd)) nd)
| n_receive body owner rx_ f now timeout c' :
    body ∈ answers -> DecodeBatch crypto body = Ok (owner, rx_) -> f ∈ rx_ ->
    routeRx now timeout f (cli nd) = Ok c' -> node_step cid answers nd (node_cli c' nd)
| n_pump id x p a :
    Carrier.sessions (cli nd) !! id = Some x -> apps nd !! id = Some p -> pump_step (pump_state x p) a ->
    node_step cid answers nd (mkNode (update_session id (fun x => with_rx x (sr a)) (cli nd))
      (<[id := (loop a, consumed a)]> (apps nd)) (posts nd) (wrote nd))
| n_gc now order :
    node_step cid answers nd (node_cli (Carrier.gcDoneSessions now order (cli nd)) nd).

(** An identifier that was never drawn before. *)
Definition unused (id : bytes) (t : System) : Prop :=
  Exit.sessions (srv t) !! id = None
  /\ forall cid nd, nodes t !! cid = Some nd -> wrote nd !! id = None.

(** [f] is a frame of a body that the poll of client [cid] posted. *)
Definition from_body (t : System) (cid : bytes) (nd : Node) (fs : list Frame) (body owner : bytes)
    (rx_ : list Frame) (f : Frame) : Prop :=
  nodes t !! cid = Some nd /\ (fs, Some body) ∈ posts nd
  /\ DecodeBatch crypto body = Ok (owner, rx_) /\ f ∈ rx_.

(** Applications, polls, handlers, goroutines and collectors, one critical
    section at a time.  The handlers' calls of [routeIncoming] are the steps
    [y_register] to [y_dial]: since the look-up leaves no trace, they happen
    whatever it found, and however long ago. *)
Inductive sys_step (t : System) : System -> Prop :=
| y_open cid nd now id target :
    nodes t !! cid = Some nd -> unused id t -> len id = SessionIDLen ->
    sys_step t (with_node cid (mkNode (NewSession now id target (cli nd)) (<[id := (LIdle, [])]> (apps nd))
      (posts nd) (<[id := []]> (wrote nd))) t)
| y_node cid nd nd' :
    nodes t !! cid = Some nd -> node_step cid (bodies t) nd nd' -> sys_step t (with_node cid nd' t)
| y_register cid nd fs body owner rx_ f now conn :
    from_body t cid nd fs body owner rx_ f -> HasFlag f FlagSYN = true ->
    sys_step t (mkSystem (nodes t) (register now (SessionID f) (Target f) owner conn (srv t))
      (<[SessionID f := (LIdle, [])]> (conns t)) (taken t) (bodies t) (<[SessionID f := []]> (got t))
      (reopened (again t) (got t) (SessionID f)))
| y_process cid nd fs body owner rx_ f timeout x :
    from_body t cid nd fs body owner rx_ f -> Exit.sessions (srv t) !! SessionID f = Some x ->
    sys_step t (with_server (put (SessionID f) (with_rx x (ProcessRx timeout f (rx x))) (srv t)) t)
| y_touch now id : sys_step t (with_server (touch now id (srv t)) t)
| y_rst cid nd fs body owner rx_ f :
    from_body t cid nd fs body owner rx_ f ->
    sys_step t (with_server (queueRST owner (SessionID f) (srv t)) t)
| y_version cid nd fs body owner rx_ f info :
    from_body t cid nd fs body owner rx_ f ->
    sys_step t (with_server (queueVersionResponse info owner (SessionID f) (srv t)) t)
| y_dial df c st :
    sys_step t (with_server (set_sstats st (set_dns c (set_dialFail df (srv t)))) t)
| y_pump id x p a :
    Exit.sessions (srv t) !! id = Some x -> conns t !! id = Some p -> pump_step (pump_state x p) a ->
    sys_step t (mkSystem (nodes t) (put id (with_rx x (sr a)) (srv t))
      (<[id := (loop a, consumed a)]> (conns t)) (taken t) (bodies t) (got t) (again t))
| y_stop id x :
    Exit.sessions (srv t) !! id = Some x ->
    sys_step t (with_server (put id (with_rx x (Stop (rx x))) (srv t)) t)
| y_read now id data x x' kick acc :
    Exit.sessions (srv t) !! id = Some x -> got t !! id = Some acc -> EnqueueTx now data x = Some (x', kick) ->
    sys_step t (mkSystem (nodes t) (put id x' (srv t)) (conns t) (taken t) (bodies t)
      (<[id := if closeReq (tx x) then acc else acc ++ data]> (got t)) (again t))
| y_close now id x :
    Exit.sessions (srv t) !! id = Some x ->
    sys_step t (with_server (put id (fst (RequestClose now x)) (srv t)) t)
| y_ontx id owner : sys_step t (with_server (Exit.OnTx id owner (srv t)) t)
| y_wake a tk k : sys_step t (with_server (set_activity a tk k (srv t)) t)
| y_drain now order owner budget s' out urgent :
    Exit.valid_order owner (srv t) order ->
    Exit.drainAll now order owner budget (srv t) = (s', out, urgent) ->
    sys_step t (mkSystem (nodes t) s' (conns t) (taken t ++ out) (bodies t) (got t) (again t))
| y_answer owner rand fs body :
    len owner = ClientIDLen -> (forall nonce, rand = Some nonce -> len nonce = NonceSize (aead crypto)) ->
    (forall f, f ∈ fs -> f ∈ taken t) -> EncodeBatch crypto rand owner fs = Ok body ->
    sys_step t (mkSystem (nodes t) (srv t) (conns t) (taken t) (bodies t ++ [body]) (got t) (again t))
| y_gc_done now order : sys_step t (with_server (Exit.gcDoneSessions now order (srv t)) t)
| y_gc_idle now order s' ups ss :
    gcIdleSessions now order (srv t) = Ok (s', ups, ss) -> sys_step t (with_server s' t).

Definition sys_steps : relation System := rtc sys_step.

(** A call of [routeIncoming] for such a frame is a run of these steps, whatever
    its look-up found. *)
Lemma route_sys_steps t cid nd fs body owner rx_ f (d : dialler Conn) info now timeout ex known :
  from_body t cid nd fs body owner rx_ f ->
  exists t', sys_steps t t' /\ nodes t' = nodes t /\ taken t' = taken t /\ bodies t' = bodies t
    /\ srv t' = route_after d info now timeout f owner ex known (srv t).
Proof.
  intros Hb.
  assert (Hfrom : forall t1, nodes t1 = nodes t -> from_body t1 cid nd fs body owner rx_ f).
  { intros t1 E. unfold from_body. by rewrite E. }
  assert (Hany : forall t1 df c st, sys_step t1 (with_server (set_sstats st (set_dns c (set_dialFail df (srv t1)))) t1)).
  { intros. apply y_dial. }
  assert (Hrej : forall t1, nodes t1 = nodes t -> sys_steps t1 (with_server (reject owner (SessionID f) (srv t1)) t1)).
  { intros t1 E. eapply rtc_l; [by eapply y_rst, Hfrom|]. apply rtc_once.
    set (t2 := with_server _ t1). exact (Hany t2 (dialFail (srv t2)) (dns (srv t2)) (st_rst (sstats (srv t2)))). }
  assert (Hdel : forall t1, nodes t1 = nodes t -> sys_steps t1 (with_server (deliver now timeout f (srv t1)) t1)).
  { intros t1 E. rewrite deliver_split. destruct (Exit.sessions (srv t1) !! SessionID f) as [x|] eqn:Hx; [|by destruct t1].
    eapply rtc_l; [by eapply (y_process t1), Hx; apply Hfrom|]. apply rtc_once.
    set (t2 := with_server _ t1). exact (y_touch t2 now (SessionID f)). }
  assert (Hsup : forall t1, sys_step t1 (with_server (fst (isDialSuppressed now (Target f) (srv t1))) t1)).
  { intros t1. pose proof (Hany t1 (dialFail (fst (isDialSuppressed now (Target f) (srv t1)))) (dns (srv t1)) (sstats (srv t1))) as H.
    revert H. unfold isDialSuppressed. destruct (dialFail (srv t1) !! Target f); [case_bool|]; by destruct t1 as [? []]. }
  assert (Hdial : forall t1, sys_step t1 (with_server (fst (run_dial d now (Target f) (srv t1))) t1)).
  { intros t1. pose proof (Hany t1 (dialFail (srv t1)) (dns (fst (run_dial d now (Target f) (srv t1)))) (sstats (srv t1))) as H.
    revert H. destruct d; cbn; [by destruct t1 as [? []]|]. destruct (dialWithDNSCache _ _ _ _ _ _). by destruct t1 as [? []]. }
  assert (Hdone : forall t1, nodes t1 = nodes t -> taken t1 = taken t -> bodies t1 = bodies t -> forall s',
    sys_steps t t1 -> sys_steps t1 (with_server s' t1) -> exists t', sys_steps t t' /\ nodes t' = nodes t /\ taken t' = taken t
      /\ bodies t' = bodies t /\ srv t' = s').
  { intros t1 En Et Eb s' H1 H2. exists (with_server s' t1). split; [by etransitivity|done]. }
  unfold route_after. cbv zeta. case_bool; [by apply (Hdone t); [..|apply Hrej]|]. case_bool; [|by apply (Hdone t); [..|apply Hdel]].
  destruct (HasFlag f FlagSYN) eqn:Hsyn; cbn [negb].
  2:{ case_bool; [|by apply (Hdone t); [..|apply Hrej]]. apply (Hdone t); try done. by eapply rtc_once, y_version, Hfrom. }
  pose proof (Hsup t) as H1. destruct (isDialSuppressed now (Target f) (srv t)) as [s1 []]; cbn [fst] in H1.
  { apply (Hdone (with_server s1 t)); [done..|by apply rtc_once|by apply Hrej]. }
  unfold openSession. set (t1 := with_server s1 t) in *. pose proof (Hdial t1) as H2. cbn [srv t1 with_server] in H2.
  destruct (run_dial d now (Target f) s1) as [s2 [e|conn]]; cbn [fst] in H2.
  - apply (Hdone (with_server s2 t)); [done..|by eapply rtc_l, rtc_once|].
    pose proof (Hany (with_server s2 t) (dialFail (recordDialFailure now (Target f) e s2)) (dns s2)
      (st_dial_fail (sstats (recordDialFailure now (Target f) e s2)))) as H3.
    apply rtc_once. revert H3. unfold recordDialFailure. by case_bool; destruct s2.
  - set (t2 := mkSystem (nodes t) (register now (SessionID f) (Target f) owner conn s2) (<[SessionID f := (LIdle, [])]> (conns t))
      (taken t) (bodies t) (<[SessionID f := []]> (got t)) (reopened (again t) (got t) (SessionID f))).
    set (s3 := clearDialFailure (Target f) (set_sstats (st_dial_ok (sstats (srv t2))) (srv t2))).
    apply (Hdone (with_server s3 t2)); [done..| |by apply Hdel].
    eapply rtc_l; [exact H1|]. eapply rtc_l; [exact H2|].
    eapply rtc_l; [by apply (y_register (with_server s2 t1) cid nd fs body owner rx_ f now conn); [apply Hfrom|]|].
    apply rtc_once. exact (Hany t2 (dialFail s3) (dns s2) (sstats s3)).
Qed.

(** Clients that just started, each with its endpoints. *)
Definition start (e : Endpoints) : Node := mkNode (mkClient ∅ ∅ ∅ e 0 zero_stats) ∅ [] ∅.
Definition sys_init (es : gmap bytes Endpoints) : System := mkSystem (start <$> es) init_server ∅ [] [] ∅ ∅.

(** ** The two directions of one client *)

Definition up_side (nd : Node) (t : System) : Upload.Net Conn :=
  Upload.mkNet (cli nd) (posts nd) (srv t) (conns t) (wrote nd).
Definition down_side (nd : Node) (t : System) : Download.Net Conn :=
  Download.mkNet (cli nd) (apps nd) (bodies t) (taken t) (srv t) (got t) (again t).

Notation up_steps cid := (@Upload.net_steps L Conn crypto cid).
Notation down_steps := (@Download.down_steps L Conn crypto).

(** A client's own step. *)
Lemma node_up cid answers nd nd' t :
  node_step cid answers nd nd' -> up_steps cid (up_side nd t) (up_side nd' t).
Proof.
  intros Hst. apply rtc_once. left.
  destruct Hst as [now id data s s' kick acc Hs Hacc He|now id|id|now order rand c' out ids Hr Hord Hd|ids
    |body owner rx_ f now t0 c' Hb Hd Hf He|id x p a Hx Hp Hst|now order].
  - by apply (c_write crypto cid (up_side nd t) now id data s s' kick acc).
  - apply (c_close crypto cid (up_side nd t)).
  - apply (c_ontx crypto cid (up_side nd t)).
  - by apply (c_post crypto cid (up_side nd t) now order rand c' out ids).
  - apply (c_release crypto cid (up_side nd t)).
  - by apply (c_receive crypto cid (up_side nd t) now t0 f).
  - apply (c_rx crypto cid (up_side nd t) id (fun _ => sr a)).
  - apply (c_gc crypto cid (up_side nd t)).
Qed.

Lemma node_down cid nd nd' t :
  node_step cid (bodies t) nd nd' -> down_steps (down_side nd t) (down_side nd' t).
Proof.
  intros Hst. apply rtc_once. left.
  destruct Hst as [now id data s s' kick acc Hs Hacc He|now id|id|now order rand c' out ids Hr Hord Hd|ids
    |body owner rx_ f now t0 c' Hb Hd Hf He|id x p a Hx Hp Hst|now order].
  - by apply (d_write crypto (down_side nd t) now id data s s' kick).
  - apply (d_close crypto (down_side nd t)).
  - apply (d_ontx crypto (down_side nd t)).
  - replace c' with (fst (fst (Carrier.drainAll now order (cli nd)))) by (by rewrite Hd).
    apply (d_drain crypto (down_side nd t)).
  - apply (d_release crypto (down_side nd t)).
  - by apply (d_receive crypto (down_side nd t) body owner rx_ f now t0).
  - by apply (d_pump crypto (down_side nd t) id x p a).
  - apply (d_gc crypto (down_side nd t)).
Qed.

Context {LO : CryptoLibOk L} {AL : AeadLaws (aead crypto)}.

(** The server's sessions belong to the clients whose applications opened them. *)
Definition owned_by (ns : gmap bytes Node) (s : Server Session Conn) : Prop :=
  forall id, match Exit.sessions s !! id with
  | Some _ => exists cid nd, sessionOwners s !! id = Some cid /\ ns !! cid = Some nd /\ is_Some (wrote nd !! id)
  | None => sessionOwners s !! id = None
  end.

(** [s'] has sessions of [s], and those with their owners. *)
Definition drops (s s' : Server Session Conn) : Prop :=
  forall id, (Exit.sessions s' !! id = None /\ sessionOwners s' !! id = None)
    \/ ((is_Some (Exit.sessions s' !! id) <-> is_Some (Exit.sessions s !! id))
        /\ sessionOwners s' !! id = sessionOwners s !! id).

#[local] Instance drops_preorder : PreOrder drops.
Proof.
  split; [by intros s id; right|]. intros s1 s2 s3 H1 H2 id. destruct (H2 id) as [|[Hi Ho]]; [by left|].
  destruct (H1 id) as [[Hs Hn]|[Hi1 Ho1]]; [left|right].
  - rewrite Ho, Hn. split; [|done]. destruct (Exit.sessions s3 !! id); [|done].
    rewrite Hs in Hi. destruct (proj1 Hi) as [? [=]]. by eexists.
  - by rewrite Hi, Hi1, Ho, Ho1.
Qed.

Lemma owned_drops ns s s' : owned_by ns s -> drops s s' -> owned_by ns s'.
Proof.
  intros H Hd id. specialize (H id). destruct (Hd id) as [[-> ->]|[Hi ->]]; [done|].
  destruct (Exit.sessions s' !! id) as [x'|], (Exit.sessions s !! id) as [x|]; try done.
  - destruct (proj1 Hi) as [? [=]]. by eexists.
  - destruct (proj2 Hi) as [? [=]]. by eexists.
Qed.

Lemma drops_same (s s' : Server Session Conn) :
  Exit.sessions s' = Exit.sessions s -> sessionOwners s' = sessionOwners s -> drops s s'.
Proof. intros E1 E2 id. right. by rewrite E1, E2. Qed.

Lemma drops_put id x x' (s : Server Session Conn) : Exit.sessions s !! id = Some x -> drops s (put id x' s).
Proof.
  intros Hx i. right. cbn. split; [|done]. rewrite lookup_insert_is_Some.
  destruct (decide (id = i)) as [<-|]; [|naive_solver]. split; [intros _; by exists x|by left].
Qed.

Lemma drops_remove id (s : Server Session Conn) : drops s (remove_session id s).
Proof.
  intros i. cbn. destruct (decide (i = id)) as [->|Hne]; [left; by rewrite !lookup_delete_eq|right; by rewrite !lookup_delete_ne].
Qed.

Lemma drops_gc_done now order (s : Server Session Conn) : drops s (Exit.gcDoneSessions now order s).
Proof.
  destruct (gc_done_fold now order s) as (R & H & _). intros id. cbn. rewrite (rm_sessions _ _ _ H), (rm_owners _ _ _ H).
  destruct (decide (id ∈ R)); [by left|by right].
Qed.

Lemma drops_gc_idle now order (s s' : Server Session Conn) ups ss :
  gcIdleSessions now order s = Ok (s', ups, ss) -> drops s s'.
Proof.
  unfold gcIdleSessions. destruct (foldl _ _ _) as [s1 vs] eqn:Hf. intros ([st ->] & _)%close_victims_spec.
  transitivity s1; [|by apply drops_same].
  assert (Hone : forall id p, drops (fst p) (fst (gc_idle_one now id p))).
  { intros id [s0 vs0]. unfold gc_idle_one. destruct (lastActivity s0 !! id); [|done].
    case_bool; [done|]. destruct (Exit.sessions s0 !! id); [apply drops_remove|by apply drops_same]. }
  assert (Hfold : forall l p, drops (fst p) (fst (foldl (fun p id => gc_idle_one now id p) p l))).
  { induction l as [|id l IH]; intros p; [done|]. cbn. etransitivity; [apply (Hone id p)|apply IH]. }
  specialize (Hfold order (s, [])). by rewrite Hf in Hfold.
Qed.

Lemma drops_drain now order owner budget (s : Server Session Conn) :
  drops s (fst (fst (Exit.drainAll now order owner budget s))).
Proof.
  unfold Exit.drainAll. cbn. match goal with |- drops _ (dsv (foldl _ ?d _)) => set (d0 := d) end.
  change (drops (dsv d0) (dsv (foldl (fun d id => Exit.drain_one now id d) d0 order))).
  generalize d0. induction order as [|id l IH]; intros d; [done|]. cbn. etransitivity; [|apply IH].
  unfold Exit.drain_one. case_bool; [done|].
  destruct (Exit.sessions (dsv d) !! id) as [x|] eqn:Hx; [|by apply drops_same].
  destruct (api_drain _ _ _ _) as [x' fs]. exact (drops_put id x x' (dsv d) Hx).
Qed.

(** Both directions of every client are what they would be alone with the
    server, and no identifier is two clients'. *)
Record sys_ok (es : gmap bytes Endpoints) (t : System) : Prop := {
  so_sides : forall cid nd, nodes t !! cid = Some nd -> exists e, es !! cid = Some e
    /\ up_steps cid (Upload.net_init e) (up_side nd t) /\ down_steps (Download.net_init e) (down_side nd t);
  so_apart : forall c1 c2 nd1 nd2 id, nodes t !! c1 = Some nd1 -> nodes t !! c2 = Some nd2 ->
    is_Some (wrote nd1 !! id) -> is_Some (wrote nd2 !! id) -> c1 = c2;
  so_owned : owned_by (nodes t) (srv t);
}.

Section Reach.
Context (es : gmap bytes Endpoints) (Hes : map_Forall (fun cid _ => len cid = ClientIDLen) es).

Lemma sys_ok_up t cid nd : sys_ok es t -> nodes t !! cid = Some nd -> Upload.net_ok crypto cid (up_side nd t).
Proof.
  intros H Hnd. destruct (so_sides es t H cid nd Hnd) as (e & He & Hu & _).
  by apply (Upload.net_reach_ok crypto cid e); [apply (Hes cid e)|].
Qed.

Lemma sys_ok_down t cid nd : sys_ok es t -> nodes t !! cid = Some nd -> Download.down_ok crypto (down_side nd t).
Proof. intros H Hnd. destruct (so_sides es t H cid nd Hnd) as (e & _ & _ & Hd). by eapply Download.down_reach_ok. Qed.

(** The server, or the network between, moves. *)
Lemma sys_ok_server t t' :
  sys_ok es t -> nodes t' = nodes t ->
  (forall cid nd, nodes t !! cid = Some nd ->
     up_steps cid (up_side nd t) (up_side nd t') /\ down_steps (down_side nd t) (down_side nd t')) ->
  owned_by (nodes t) (srv t') -> sys_ok es t'.
Proof.
  intros [Hs Ha Hk] En Hst Hf. constructor; rewrite En; [|done|done]. intros cid nd Hnd.
  destruct (Hs cid nd Hnd) as (e & He & Hu & Hd). destruct (Hst cid nd Hnd) as [Hu' Hd'].
  exists e. split; [done|]. split; by etransitivity.
Qed.

(** A client moves. *)
Lemma sys_ok_node t cid nd nd' :
  sys_ok es t -> nodes t !! cid = Some nd ->
  up_steps cid (up_side nd t) (up_side nd' t) -> down_steps (down_side nd t) (down_side nd' t) ->
  (forall id, is_Some (wrote nd' !! id) -> is_Some (wrote nd !! id)
     \/ forall c nd2, nodes t !! c = Some nd2 -> wrote nd2 !! id = None) ->
  (forall id, is_Some (wrote nd !! id) -> is_Some (wrote nd' !! id)) ->
  sys_ok es (with_node cid nd' t).
Proof.
  intros [Hs Ha Hk] Hnd Hu Hd Hw Hw'. constructor; cbn [nodes srv with_node].
  - intros c nd2 [[<- <-]|[Hne Hnd2]]%lookup_insert_Some; [|by apply Hs].
    destruct (Hs cid nd Hnd) as (e & He & Hu' & Hd'). exists e. split; [done|]. split; by etransitivity.
  - intros c1 c2 nd1 nd2 id [[<- <-]|[Hn1 H1]]%lookup_insert_Some [[<- <-]|[Hn2 H2]]%lookup_insert_Some; [done|..].
    + intros [Hi|Hno]%Hw [x Hx]; [apply (Ha cid c2 nd nd2 id); try done; by exists x|].
      rewrite (Hno c2 nd2 H2) in Hx. done.
    + intros [x Hx] [Hi|Hno]%Hw; [apply (Ha c1 cid nd1 nd id); try done; by exists x|].
      rewrite (Hno c1 nd1 H1) in Hx. done.
    + intros ? ?. by eapply (Ha c1 c2).
  - intros id. specialize (Hk id). destruct (Exit.sessions (srv t) !! id); [|done].
    destruct Hk as (c & nd2 & Ho & Hnd2 & Hi). exists c. destruct (decide (c = cid)) as [->|Hne].
    + exists nd'. rewrite lookup_insert_eq. split; [done|]. split; [done|]. apply Hw'. by replace nd with nd2 by congruence.
    + exists nd2. by rewrite lookup_insert_ne.
Qed.

Lemma node_step_wrote cid answers nd nd' id :
  node_step cid answers nd nd' -> is_Some (wrote nd' !! id) <-> is_Some (wrote nd !! id).
Proof.
  intros Hst. destruct Hst as [now i d s s' kick acc Hs Hacc He| | | | | | |]; try done. cbn.
  rewrite lookup_insert_is_Some. destruct (decide (i = id)) as [->|Hne]; [|naive_solver].
  split; [intros _; by exists acc|by left].
Qed.

(** What a posted body holds. *)
Lemma posted_frames t cid nd fs body owner rx_ :
  sys_ok es t -> nodes t !! cid = Some nd -> (fs, Some body) ∈ posts nd -> DecodeBatch crypto body = Ok (owner, rx_) ->
  owner = cid /\ rx_ = fs
  /\ forall f, f ∈ fs -> frame_wf f /\ HasFlag f FlagRST = false /\ is_Some (wrote nd !! SessionID f).
Proof.
  intros H Hnd Hin Hd. destruct (sys_ok_up t cid nd H Hnd) as [Htx Hb _].
  rewrite (Hb fs body Hin) in Hd. injection Hd as <- <-. split; [done|]. split; [done|]. intros f Hf.
  apply (tx_table_frame true _ _ _ _ f Htx). apply Upload.sent_in. by exists fs, (Some body).
Qed.

Lemma sys_ok_srv t t' :
  sys_ok es t -> nodes t' = nodes t -> drops (srv t) (srv t') ->
  (forall nd, @Upload.server_step L Conn crypto (up_side nd t) (up_side nd t')
     \/ up_side nd t = up_side nd t') ->
  (forall nd, @Download.down_server_step L Conn crypto (down_side nd t) (down_side nd t')) ->
  sys_ok es t'.
Proof.
  intros H En Hf Hu Hd. apply (sys_ok_server t); [done|done| |by eapply owned_drops; [apply (so_owned es t)|]].
  intros cid nd _. split; [|by apply rtc_once; right].
  destruct (Hu nd) as [Hst| ->]; [by apply rtc_once; right|done].
Qed.

(** What [routeIncoming] does with a frame of a posted body. *)
Lemma from_body_frame t cid nd fs body owner rx_ f :
  sys_ok es t -> from_body t cid nd fs body owner rx_ f ->
  owner = cid /\ rx_ = fs /\ frame_wf f /\ is_Some (wrote nd !! SessionID f).
Proof.
  intros H (Hnd & Hin & Hd & Hf). destruct (posted_frames t cid nd fs body owner rx_ H Hnd Hin Hd) as (-> & -> & Hfs).
  by destruct (Hfs f Hf) as (? & _ & ?).
Qed.

Lemma owned_register ns (s : Server Session Conn) now id target cid nd conn :
  owned_by ns s -> ns !! cid = Some nd -> is_Some (wrote nd !! id) ->
  owned_by ns (register now id target cid conn s).
Proof.
  intros H Hnd Hw i. cbn. destruct (decide (i = id)) as [->|Hne]; [|rewrite !lookup_insert_ne by done; apply H].
  rewrite !lookup_insert_eq. by exists cid, nd.
Qed.

Lemma sys_register_ok t cid nd fs body owner rx_ f now conn :
  sys_ok es t -> from_body t cid nd fs body owner rx_ f ->
  sys_ok es (mkSystem (nodes t) (register now (SessionID f) (Target f) owner conn (srv t))
      (<[SessionID f := (LIdle, [])]> (conns t)) (taken t) (bodies t) (<[SessionID f := []]> (got t))
      (reopened (again t) (got t) (SessionID f))).
Proof.
  intros H Hb. destruct (from_body_frame _ _ _ _ _ _ _ _ H Hb) as (-> & -> & [Hl _] & Hw). destruct Hb as (Hnd & _).
  apply (sys_ok_server t); [done|done| |by eapply owned_register; [apply (so_owned es t)|..]].
  intros c nd2 _. split; apply rtc_once; right.
  - apply (s_register crypto (up_side nd2 t) now).
  - by apply (v_register crypto (down_side nd2 t) now).
Qed.

Lemma sys_process_ok t cid nd fs body owner rx_ f timeout x :
  sys_ok es t -> from_body t cid nd fs body owner rx_ f -> Exit.sessions (srv t) !! SessionID f = Some x ->
  sys_ok es (with_server (put (SessionID f) (with_rx x (ProcessRx timeout f (rx x))) (srv t)) t).
Proof.
  intros H Hb Hx. destruct (from_body_frame _ _ _ _ _ _ _ _ H Hb) as (-> & -> & _ & Hw).
  destruct Hb as (Hnd & Hin & Hd & Hf).
  apply (sys_ok_server t); [done|done| |eapply owned_drops; [by apply (so_owned es t)|by eapply drops_put]].
  intros c nd2 Hnd2. split; apply rtc_once; right; [|by apply (v_receive crypto (down_side nd2 t) _ x)].
  destruct (decide (c = cid)) as [->|Hne].
  - replace nd2 with nd by congruence. by apply (s_process crypto (up_side nd t) fs body cid fs f timeout x).
  - apply (s_foreign crypto (up_side nd2 t) f timeout x); [|done].
    cbn. destruct (wrote nd2 !! SessionID f) eqn:E; [|done]. destruct Hne.
    apply (so_apart es t H c cid nd2 nd (SessionID f)); done.
Qed.

(** Neither the sessions, nor their owners, nor the queues change. *)
Definition same_sess (s s' : Server Session Conn) : Prop :=
  Exit.sessions s' = Exit.sessions s /\ sessionOwners s' = sessionOwners s
  /\ pendingRSTs s' = pendingRSTs s /\ pendingCtrl s' = pendingCtrl s.

Lemma sys_quiet_ok t s' : sys_ok es t -> same_sess (srv t) s' -> sys_ok es (with_server s' t).
Proof.
  intros H (E1 & E2 & E3 & E4). apply (sys_ok_srv t); [done|done|by apply drops_same|..]; intros nd.
  - left. by apply (s_quiet crypto (up_side nd t)).
  - by apply (v_quiet crypto (down_side nd t)).
Qed.

Lemma drops_kept s s' : same_sessions s s' -> drops s s'.
Proof. intros (? & ? & _). by apply drops_same. Qed.

Lemma sys_step_ok t t' : sys_ok es t -> sys_step t t' -> sys_ok es t'.
Proof.
  intros H Hst.
  destruct Hst as [cid nd now id target Hnd [Hns Hun] Hl|cid nd nd' Hnd Hst
    |cid nd fs body owner rx_ f now conn Hb Hsyn|cid nd fs body owner rx_ f timeout x Hb Hx|now id
    |cid nd fs body owner rx_ f Hb|cid nd fs body owner rx_ f info Hb|df c st
    |id x p a Hx Hp Hst|id x Hx
    |now id data x x' kick acc Hx Hacc He|now id x Hx|id owner|a tk k|now order owner budget s' out urgent Hord Hd
    |owner rand fs body Ho Hr Hin He|now order|now order s' ups ss He].
  - apply (sys_ok_node t cid nd); try done.
    + apply rtc_once. left. by apply (c_open crypto cid (up_side nd t) now id target); [by apply (Hun cid)|..].
    + apply rtc_once. left. apply (d_open crypto (down_side nd t) now id target).
    + intros i. cbn. rewrite lookup_insert_is_Some. intros [<-|[_ Hi]]; auto.
    + intros i Hi. cbn. rewrite lookup_insert_is_Some. destruct (decide (id = i)); auto.
  - apply (sys_ok_node t cid nd); try done; [by eapply node_up|by eapply node_down|..];
      intros i; rewrite (node_step_wrote _ _ _ _ i Hst); auto.
  - by eapply sys_register_ok.
  - by eapply sys_process_ok.
  - assert (E : same_sess (srv t) (touch now id (srv t))).
    { unfold touch, same_sess. by destruct (Exit.sessions (srv t) !! id). }
    by apply sys_quiet_ok.
  - destruct (from_body_frame _ _ _ _ _ _ _ _ H Hb) as (_ & _ & [Hl _] & _).
    apply (sys_ok_srv t); [done|done|apply drops_kept; exact (same_kick owner _)|..]; intros nd2.
    + left. apply (s_quiet crypto (up_side nd2 t)). exact (proj1 (same_kick owner _)).
    + by apply (v_rst crypto (down_side nd2 t)).
  - destruct (from_body_frame _ _ _ _ _ _ _ _ H Hb) as (_ & _ & [Hl _] & _).
    apply (sys_ok_srv t); [done|done|apply drops_kept; exact (same_kick owner _)|..]; intros nd2.
    + left. apply (s_quiet crypto (up_side nd2 t)). exact (proj1 (same_kick owner _)).
    + by apply (v_version crypto (down_side nd2 t)).
  - by apply sys_quiet_ok.
  - apply (sys_ok_srv t); [done|done|by eapply drops_put|..]; intros nd.
    + left. by apply (s_pump crypto (up_side nd t) id x p a).
    + by apply (v_receive crypto (down_side nd t) id x).
  - apply (sys_ok_srv t); [done|done|by eapply drops_put|..]; intros nd.
    + left. by apply (s_stop crypto (up_side nd t) id x).
    + by apply (v_receive crypto (down_side nd t) id x).
  - apply (sys_ok_srv t); [done|done|by eapply drops_put|..]; intros nd.
    + left. by apply (s_read crypto (up_side nd t) now id data x x' kick).
    + by apply (v_read crypto (down_side nd t) now id data x x' kick acc).
  - apply (sys_ok_srv t); [done|done|by eapply drops_put|..]; intros nd.
    + left. by apply (s_close crypto (up_side nd t) now id x).
    + by apply (v_close crypto (down_side nd t) now id x).
  - apply sys_quiet_ok; [done|]. unfold Exit.OnTx, same_sess.
    match goal with |- context [kick ?o ?s] =>
      destruct (same_kick o s) as (-> & -> & _); destruct (kick_queues o s) as [-> ->] end. done.
  - by apply sys_quiet_ok.
  - apply (sys_ok_srv t); [done|done| |..].
    + cbn. change s' with (fst (fst (s', out, urgent))). rewrite <- Hd. apply drops_drain.
    + intros nd. left. cbn. replace s' with (fst (fst (Exit.drainAll now order owner budget (srv t)))) by (by rewrite Hd).
      apply (s_drain crypto (up_side nd t)).
    + intros nd. by apply (v_drain crypto (down_side nd t) now order owner budget s' out urgent).
  - apply (sys_ok_srv t); [done..|by apply drops_same| |]; intros nd; [by right|].
    by apply (v_answer crypto (down_side nd t) owner rand fs body).
  - apply (sys_ok_srv t); [done|done|apply drops_gc_done|..]; intros nd.
    + left. apply (s_gc_done crypto (up_side nd t)).
    + apply (v_gc_done crypto (down_side nd t)).
  - apply (sys_ok_srv t); [done|done|by eapply drops_gc_idle|..]; intros nd.
    + left. by apply (s_gc_idle crypto (up_side nd t) now order s' ups ss).
    + by apply (v_gc_idle crypto (down_side nd t) now order s' ups ss).
Qed.

Lemma sys_init_ok : sys_ok es (sys_init es).
Proof.
  constructor; cbn.
  - intros cid nd (e & <- & He)%lookup_fmap_Some. exists e. by repeat split.
  - intros c1 c2 nd1 nd2 id (e & <- & _)%lookup_fmap_Some _ [x Hx]. cbn in Hx. by rewrite lookup_empty in Hx.
  - done.
Qed.

Lemma sys_reach_ok t : sys_steps (sys_init es) t -> sys_ok es t.
Proof.
  intros H. remember (sys_init es) as t0 eqn:E. assert (H0 : sys_ok es t0) by (subst; apply sys_init_ok).
  clear E. induction H as [|t0 t1 t Hst _ IH]; [done|]. apply IH. by eapply sys_step_ok.
Qed.

End Reach.

(** ** Integrity *)

(** What a reader has is a prefix of what the other end accepted. *)
Definition faithful (m : gmap bytes Session) (pu : gmap bytes (lstate * list bytes)) (id acc : bytes) : Prop :=
  forall x, m !! id = Some x -> exists l have, pu !! id = Some (l, have) /\ l <> LPanic
    /\ concat (have ++ RxChan (rx x)) `prefix_of` acc.

Lemma faithful_link syn ag m mt pu log wr id :
  tx_table syn ag mt log wr -> id ∉ ag -> rx_table m pu log -> len (default [] (wr !! id)) + 2 < 2 ^ 64 ->
  faithful m pu id (default [] (wr !! id)).
Proof.
  intros Ht Hag Hr Hlen x Hx. apply (link_prefix syn ag m mt pu log wr id x); try done.
  apply (tx_table_entry _ _ _ _ _ id) in Ht; [|done]. unfold tx_entry in Ht. destruct (wr !! id) as [acc|].
  - destruct Ht as (_ & target & y & Hre%tx_reach_stream & _). apply tx_stream_len in Hre. cbn in Hlen. lia.
  - destruct Ht as [_ ->]. by vm_compute.
Qed.


End System.
Arguments System Conn : clear implicits.

(** ** A run *)

(** Two clients; an application of the first writes ["hello"], its upstream
    connection answers ["reply"], and both arrive. *)
Definition sys_other : bytes := str "client-id-000002".
Definition sys_es : gmap bytes Endpoints := <[sys_other := demo_eps]> {[test_client := demo_eps]}.

Definition sys_node (t : System nat) : Node := default (start demo_eps) (nodes t !! test_client).
Definition sys_opened : System nat :=
  with_node test_client (mkNode (Upload.ncli demo_opened) {[demo_sid := (LIdle, [])]} [] {[demo_sid := []]}) (sys_init sys_es).
Definition sys_wrote : System nat :=
  with_node test_client (mkNode (Upload.ncli demo_wrote) {[demo_sid := (LIdle, [])]} [] {[demo_sid := str "hello"]}) sys_opened.
Definition sys_posted : System nat :=
  with_node test_client (mkNode (Upload.ncli demo_posted) {[demo_sid := (LIdle, [])]} (batches demo_posted)
    {[demo_sid := str "hello"]}) sys_wrote.
Definition sys_registered : System nat :=
  mkSystem (nodes sys_posted) (Upload.nsrv demo_registered) {[demo_sid := (LIdle, [])]} [] [] {[demo_sid := []]} ∅.
Definition sys_routed : System nat :=
  mkSystem (nodes sys_posted) (Upload.nsrv demo_routed) {[demo_sid := (LIdle, [])]} [] [] {[demo_sid := []]} ∅.

(** One step of the server's goroutine or writer, and one of the client's. *)
Definition sys_x (t : System nat) : Session := default (New 0 [] [] false) (Exit.sessions (srv t) !! demo_sid).
Definition sys_at (t : System nat) : RxSys := pump_state (sys_x t) (default (LDone, []) (conns t !! demo_sid)).
Definition sys_up (t : System nat) (a : RxSys) : System nat :=
  mkSystem (nodes t) (put demo_sid (with_rx (sys_x t) (sr a)) (srv t)) (<[demo_sid := (loop a, consumed a)]> (conns t))
    (taken t) (bodies t) (got t) (again t).
Definition app_x (t : System nat) : Session :=
  default (New 0 [] [] false) (Carrier.sessions (cli (sys_node t)) !! demo_sid).
Definition app_at (t : System nat) : RxSys := pump_state (app_x t) (default (LDone, []) (apps (sys_node t) !! demo_sid)).
Definition sys_down (t : System nat) (a : RxSys) : System nat :=
  let nd := sys_node t in
  with_node test_client (mkNode (update_session demo_sid (fun x => with_rx x (sr a)) (cli nd))
    (<[demo_sid := (loop a, consumed a)]> (apps nd)) (posts nd) (wrote nd)) t.

(** The goroutine takes a frame, delivers its payload, and the reader reads. *)
Definition take1 (f : Frame) (a : RxSys) : RxSys := set_loop (set_inbox [] (sr a)) (LGot f) a.
Definition send1 (p : bytes) (a : RxSys) : RxSys := set_loop (set_chan (RxChan (sr a) ++ [p]) (sr a)) (LSending [] false) a.
Definition read1 (p : bytes) (a : RxSys) : RxSys := mkSys (set_chan [] (sr a)) (loop a) (callers a) (consumed a ++ [p]).

Definition sys_u1 : System nat := sys_up sys_routed (take1 demo_frame (sys_at sys_routed)).
Definition sys_u2 : System nat := sys_up sys_u1 (loop_deliver demo_frame (sys_at sys_u1)).
Definition sys_u3 : System nat := sys_up sys_u2 (send1 (str "hello") (sys_at sys_u2)).
Definition sys_u4 : System nat := sys_up sys_u3 (read1 (str "hello") (sys_at sys_u3)).
Definition sys_u5 : System nat := Eval vm_compute in sys_u4.

Definition sys_replied : System nat :=
  mkSystem (nodes sys_u5) (put demo_sid (fst (default (sys_x sys_u5, false) (EnqueueTx 9 (str "reply") (sys_x sys_u5)))) (srv sys_u5))
    (conns sys_u5) [] [] {[demo_sid := str "reply"]} ∅.
Definition sys_ready : System nat := with_server (Exit.OnTx demo_sid test_client (srv sys_replied)) sys_replied.
Definition sys_drain (t : System nat) : System nat :=
  let '(s', out, _) := Exit.drainAll 10 (Exit.some_order test_client (srv t)) test_client 100 (srv t) in
  mkSystem (nodes t) s' (conns t) (taken t ++ out) (bodies t) (got t) (again t).
Definition sys_drained : System nat := sys_drain sys_ready.
Definition sys_answered : System nat :=
  mkSystem (nodes sys_drained) (srv sys_drained) (conns sys_drained) (taken sys_drained) [down_body] (got sys_drained) (again sys_drained).
Definition sys_received : System nat :=
  let nd := sys_node sys_answered in
  with_node test_client (node_cli (match routeRx 11 false down_demo_data (cli nd) with Ok c => c | _ => cli nd end) nd) sys_answered.
Definition sys_frozen : System nat := Eval vm_compute in sys_received.
Definition sys_d1 : System nat := sys_down sys_frozen (take1 down_demo_data (app_at sys_frozen)).
Definition sys_d2 : System nat := sys_down sys_d1 (loop_deliver down_demo_data (app_at sys_d1)).
Definition sys_d3 : System nat := sys_down sys_d2 (send1 (str "reply") (app_at sys_d2)).
Definition sys_d4 : System nat := sys_down sys_d3 (read1 (str "reply") (app_at sys_d3)).

Notation sstep := (sys_step test_crypto).
Notation ssteps := (sys_steps test_crypto).

Lemma sys_up_step t a :
  Exit.sessions (srv t) !! demo_sid = Some (sys_x t) ->
  conns t !! demo_sid = Some (default (LDone, []) (conns t !! demo_sid)) ->
  pump_step (sys_at t) a -> sstep t (sys_up t a).
Proof. intros Hx Hp Hst. by apply (y_pump test_crypto t demo_sid (sys_x t) (default (LDone, []) (conns t !! demo_sid)) a). Qed.

Lemma sys_down_step t a :
  nodes t !! test_client = Some (sys_node t) -> Carrier.sessions (cli (sys_node t)) !! demo_sid = Some (app_x t) ->
  apps (sys_node t) !! demo_sid = Some (default (LDone, []) (apps (sys_node t) !! demo_sid)) ->
  pump_step (app_at t) a -> sstep t (sys_down t a).
Proof.
  intros Hnd Hx Hp Hst. apply (y_node test_crypto t test_client (sys_node t)); [done|].
  by apply (n_pump test_crypto test_client (bodies t) (sys_node t) demo_sid (app_x t)
    (default (LDone, []) (apps (sys_node t) !! demo_sid)) a).
Qed.

Lemma sys_drain_step t : sstep t (sys_drain t).
Proof.
  unfold sys_drain. destruct (Exit.drainAll _ _ _ _ _) as [[s' out] urgent] eqn:Hd.
  eapply y_drain; [apply srv_some_order_valid|exact Hd].
Qed.

Lemma sys_run_routed : ssteps (sys_init sys_es) sys_routed.
Proof.
  apply rtc_l with sys_opened.
  { refine (y_open test_crypto _ test_client (start demo_eps) 5 demo_sid (str "good:1") _ _ _); [reflexivity| |reflexivity].
    split; [reflexivity|]. intros c nd (e & <- & _)%lookup_fmap_Some. reflexivity. }
  apply rtc_l with sys_wrote.
  { refine (y_node test_crypto _ test_client (sys_node sys_opened) _ _ _); [reflexivity|].
    refine (n_write test_crypto test_client _ (sys_node sys_opened) 6 demo_sid (str "hello") demo_s demo_s' true [] _ _ _);
      vm_compute; reflexivity. }
  apply rtc_l with sys_posted.
  { refine (y_node test_crypto _ test_client (sys_node sys_wrote) _ _ _); [reflexivity|].
    refine (n_post test_crypto test_client _ (sys_node sys_wrote) 7 _ (Some test_nonce) _ _ _ _ _ _);
      [by intros ? [= <-]|apply Carrier.some_order_valid|reflexivity]. }
  apply rtc_l with sys_registered.
  { refine (y_register test_crypto sys_posted test_client (sys_node sys_posted) [demo_frame] _ test_client [demo_frame]
      demo_frame 8 7%nat _ _); [|reflexivity]. split; [reflexivity|].
    split; [vm_compute; left|]. split; [vm_compute; reflexivity|left]. }
  eapply rtc_l.
  { refine (y_process test_crypto sys_registered test_client (sys_node sys_posted) [demo_frame] _ test_client [demo_frame]
      demo_frame false _ _ _); [|vm_compute; reflexivity]. split; [reflexivity|].
    split; [vm_compute; left|]. split; [vm_compute; reflexivity|left]. }
  eapply rtc_l; [apply (y_touch test_crypto _ 8 demo_sid)|]. apply rtc_once.
  match goal with |- sys_step _ ?t1 _ =>
    replace sys_routed with (with_server (set_sstats (sstats (srv sys_routed)) (set_dns (dns (srv sys_routed))
      (set_dialFail (dialFail (srv sys_routed)) (srv t1)))) t1) by (vm_compute; reflexivity) end.
  apply y_dial.
Qed.

Lemma sys_run : ssteps (sys_init sys_es) sys_d4.
Proof.
  etransitivity; [exact sys_run_routed|].
  apply rtc_l with sys_u1; [apply sys_up_step; [vm_compute; reflexivity..|apply p_loop, l_take; vm_compute; reflexivity]|].
  apply rtc_l with sys_u2; [apply sys_up_step; [vm_compute; reflexivity..|apply p_loop, l_deliver; vm_compute; reflexivity]|].
  apply rtc_l with sys_u3; [apply sys_up_step; [vm_compute; reflexivity..|apply p_loop, l_send; vm_compute; reflexivity]|].
  apply rtc_l with sys_u4; [apply sys_up_step; [vm_compute; reflexivity..|apply p_write; vm_compute; reflexivity]|].
  replace sys_u4 with sys_u5 by (vm_compute; reflexivity).
  apply rtc_l with sys_replied.
  { refine (y_read test_crypto sys_u5 9 demo_sid (str "reply") (sys_x sys_u5) _ true [] _ _ _); vm_compute; reflexivity. }
  apply rtc_l with sys_ready; [exact (y_ontx test_crypto sys_replied demo_sid test_client)|].
  apply rtc_l with sys_drained; [apply sys_drain_step|].
  apply rtc_l with sys_answered.
  { refine (y_answer test_crypto sys_drained test_client (Some test_nonce) [down_demo_data] _ _ _ _ _);
      [reflexivity|by intros ? [= <-]|intros f ->%list_elem_of_singleton; vm_compute; left|vm_compute; reflexivity]. }
  apply rtc_l with sys_received.
  { refine (y_node test_crypto _ test_client (sys_node sys_answered) _ _ _); [vm_compute; reflexivity|].
    refine (n_receive test_crypto test_client _ _ down_body test_client [down_demo_data] down_demo_data 11 false _ _ _ _ _);
      [vm_compute; left|vm_compute; reflexivity|left|vm_compute; reflexivity]. }
  replace sys_received with sys_frozen by (vm_compute; reflexivity).
  apply rtc_l with sys_d1; [apply sys_down_step; [vm_compute; reflexivity..|apply p_loop, l_take; vm_compute; reflexivity]|].
  apply rtc_l with sys_d2; [apply sys_down_step; [vm_compute; reflexivity..|apply p_loop, l_deliver; vm_compute; reflexivity]|].
  apply rtc_l with sys_d3; [apply sys_down_step; [vm_compute; reflexivity..|apply p_loop, l_send; vm_compute; reflexivity]|].
  apply rtc_once. apply sys_down_step; [vm_compute; reflexivity..|apply p_write; vm_compute; reflexivity].
Qed.

