(* ===== verification/Orderly.v ===== *)
(** * Frames in order

    Sessions are drained by many polls at a time, each posts a body of its own,
    and the server's handlers route them concurrently: the [SYN] frames of a body
    in goroutines of their own, the others one after the other when those are
    done.  What keeps the frames of a session in order is [inFlight]: a session
    that a poll has drained is left alone until that poll has ended.  Here the
    polls are those whose request is answered at the first attempt: it is routed
    once and completely before the poll ends.  Then frames are routed in the
    order of their sequence numbers, the SYN first, however the polls, handlers
    and goroutines are interleaved, and receivers never have to queue one. *)

From S2P Require Import Prelude GoStd Frame Crypto TestLib Session Stream RxLoop SessionApi Endpoints.
From S2P Require Import Carrier CarrierSteps Version Exit ExitDrain ExitSteps Tunnel Link Upload Download System.

Section Orderly.
Context {L : CryptoLib}.
Context (crypto : Crypto) (cid : bytes).

(** A poll whose request is under way: the sessions it holds, and the frames the
    handler has still to route. *)
Record Request := mkRequest {
  r_ids : list bytes;
  r_syns : list Frame;
  r_rest : list Frame;
}.

(** The client, its requests, and the frames routed so far. *)
Record Flow := mkFlow {
  f_node : Node;
  f_reqs : list Request;
  f_routed : list Frame;
}.

Inductive flow_step (w : Flow) : Flow -> Prop :=
(** An application opens a session, under a new identifier. *)
| fl_open now id target :
    wrote (f_node w) !! id = None -> len id = SessionIDLen ->
    let nd := f_node w in
    flow_step w (mkFlow (mkNode (NewSession now id target (cli nd)) (<[id := (LIdle, [])]> (apps nd)) (posts nd)
      (<[id := []]> (wrote nd))) (f_reqs w) (f_routed w))
(** Anything but a drain or the end of a poll. *)
| fl_local answers nd' :
    node_step crypto cid answers (f_node w) nd' ->
    posts nd' = posts (f_node w) -> inFlight (cli nd') = inFlight (cli (f_node w)) ->
    flow_step w (mkFlow nd' (f_reqs w) (f_routed w))
(** A poll drains and posts; the handler decodes the body, and sorts it. *)
| fl_post now order rand c' out ids body owner rxFrames syns :
    (forall nonce, rand = Some nonce -> len nonce = NonceSize (aead crypto)) ->
    Carrier.valid_order (cli (f_node w)) order -> Carrier.drainAll now order (cli (f_node w)) = (c', out, ids) ->
    EncodeBatch crypto rand cid out = Ok body -> DecodeBatch crypto body = Ok (owner, rxFrames) ->
    syns ≡ₚ List.filter is_syn rxFrames ->
    let nd := f_node w in
    flow_step w (mkFlow (mkNode c' (apps nd) (posts nd ++ [(out, Some body)]) (wrote nd))
      (mkRequest ids syns (List.filter (fun f => negb (is_syn f)) rxFrames) :: f_reqs w) (f_routed w))
(** A goroutine of a SYN runs. *)
| fl_syn p1 ids s1 f s2 rest p2 :
    f_reqs w = p1 ++ mkRequest ids (s1 ++ f :: s2) rest :: p2 ->
    flow_step w (mkFlow (f_node w) (p1 ++ mkRequest ids (s1 ++ s2) rest :: p2) (f_routed w ++ [f]))
(** The handler routes the next of the other frames. *)
| fl_rest p1 ids f rest p2 :
    f_reqs w = p1 ++ mkRequest ids [] (f :: rest) :: p2 ->
    flow_step w (mkFlow (f_node w) (p1 ++ mkRequest ids [] rest :: p2) (f_routed w ++ [f]))
(** The poll of an answered request ends. *)
| fl_end p1 ids p2 :
    f_reqs w = p1 ++ mkRequest ids [] [] :: p2 ->
    flow_step w (mkFlow (node_cli (releaseInFlight ids (cli (f_node w))) (f_node w)) (p1 ++ p2) (f_routed w)).

Definition flow_steps : relation Flow := rtc flow_step.
Definition flow_init (e : Endpoints) : Flow := mkFlow (start e) [] [].

(** ** The invariant *)

Definition req_frames (r : Request) : list Frame := r_syns r ++ r_rest r.
Definition drained_log (w : Flow) : list Frame := concat (map fst (posts (f_node w))).

Record flow_ok (w : Flow) : Prop := {
  fo_up : tx_table true ∅ (Carrier.sessions (cli (f_node w))) (drained_log w) (wrote (f_node w));
  fo_ids : NoDup (concat (map r_ids (f_reqs w)));
  fo_flight : forall id, id ∈ inFlight (cli (f_node w)) <-> id ∈ concat (map r_ids (f_reqs w));
  fo_own : forall r f, r ∈ f_reqs w -> f ∈ req_frames r -> SessionID f ∈ r_ids r;
  fo_kinds : forall r, r ∈ f_reqs w -> (forall f, f ∈ r_syns r -> is_syn f = true)
      /\ (forall f, f ∈ r_rest r -> is_syn f = false);
  fo_order : forall id, frames_of id (drained_log w)
      = frames_of id (f_routed w) ++ frames_of id (concat (map req_frames (f_reqs w)));
}.

(** The SYN comes first in what a session emits. *)
Lemma stream_syn id target x fs acc i f :
  tx_stream id target true x fs acc -> fs !! i = Some f -> is_syn f = true -> i = 0%nat.
Proof.
  intros H Hi Hs. destruct (ts_frames _ _ _ _ _ _ H) as (p0 & ch & -> & _).
  apply number_lookup in Hi as (c & Hc & ->). unfold is_syn, HasFlag in Hs. cbn in Hs.
  apply lookup_app_Some in Hc as [Hc|[_ Hc]].
  - unfold syn_part in Hc. destruct (true && _) in Hc; [|by rewrite lookup_nil in Hc]. by destruct i as [|[|i]].
  - exfalso. apply list_elem_of_lookup_2 in Hc. apply elem_of_app in Hc as [Hc|Hc].
    + apply data_part_flags in Hc. by rewrite Hc in Hs.
    + destruct (finSent (tx x)); cbn in Hc; [|by apply elem_of_nil in Hc].
      apply list_elem_of_singleton in Hc as ->. by vm_compute in Hs.
Qed.

Lemma log_syn m log wr id i f :
  tx_table true ∅ m log wr -> frames_of id log !! i = Some f -> is_syn f = true -> i = 0%nat.
Proof.
  intros H Hi Hs. pose proof (tx_table_entry _ _ _ _ _ id H (not_elem_of_empty _)) as Ht. unfold tx_entry in Ht.
  destruct (wr !! id) as [acc|].
  - destruct Ht as (_ & target & x & Hre%tx_reach_stream & _). by eapply stream_syn.
  - destruct Ht as [_ E]. by rewrite E, lookup_nil in Hi.
Qed.

(** ** What a handler has to route *)

Lemma frames_of_filter id (p : Frame -> bool) l : frames_of id (List.filter p l) = List.filter p (frames_of id l).
Proof.
  induction l as [|f l IH]; [done|]. unfold frames_of in *. cbn [List.filter]. rewrite (filter_cons _ f l).
  destruct (p f) eqn:Hp; [rewrite filter_cons|]; destruct (decide (SessionID f = id)); cbn; rewrite ?Hp, IH; done.
Qed.

Lemma filter_all_false (p : Frame -> bool) l : (forall f, f ∈ l -> p f = false) ->
  List.filter p l = [] /\ List.filter (fun f => negb (p f)) l = l.
Proof.
  induction l as [|f l IH]; intros H; [done|]. cbn. rewrite (H f) by left. cbn.
  destruct IH as [-> ->]; [|done]. intros g Hg. apply H. by right.
Qed.

(** A list with at most one SYN, in front, is what the handler makes of it. *)
Lemma syn_split l syns :
  (forall i f, l !! i = Some f -> is_syn f = true -> i = 0%nat) -> syns ≡ₚ List.filter is_syn l ->
  syns ++ List.filter (fun f => negb (is_syn f)) l = l.
Proof.
  intros H Hs. destruct l as [|f l]; [cbn in *; by apply Permutation_nil_r in Hs as ->|].
  assert (Ht : forall g, g ∈ l -> is_syn g = false).
  { intros g [i Hi]%list_elem_of_lookup. destruct (is_syn g) eqn:Hg; [|done]. by specialize (H (S i) g Hi Hg). }
  destruct (filter_all_false is_syn l Ht) as [E1 E2]. cbn in *. rewrite E1 in Hs. rewrite E2.
  destruct (is_syn f); cbn; [by apply Permutation_singleton_r in Hs as ->|by apply Permutation_nil_r in Hs as ->].
Qed.

Section Requests.
Context (w : Flow) (p1 : list Request) (r : Request) (p2 : list Request).
Context (Hw : flow_ok w) (E : f_reqs w = p1 ++ r :: p2).

(** Only one request has frames of a session. *)
Lemma others_none id r0 f :
  id ∈ r_ids r -> r0 ∈ p1 ++ p2 -> f ∈ req_frames r0 -> SessionID f <> id.
Proof.
  intros Hid Hr0 Hf <-.
  assert (Hin : SessionID f ∈ r_ids r0).
  { apply (fo_own w Hw); [|done]. rewrite E. set_solver. }
  pose proof (fo_ids w Hw) as Hnd. rewrite E, map_app, concat_app in Hnd. cbn in Hnd.
  apply NoDup_app in Hnd as (_ & H1 & Hnd). apply NoDup_app in Hnd as (_ & H2 & _).
  assert (Hc : forall p, r0 ∈ p -> SessionID f ∈ concat (map r_ids p)).
  { intros p Hp. apply elem_of_concat. exists (r_ids r0). split; [done|]. by apply list_elem_of_fmap_2. }
  apply elem_of_app in Hr0 as [Hr0|Hr0].
  - apply (H1 (SessionID f)); [by apply Hc|]. apply elem_of_app. by left.
  - apply (H2 (SessionID f)); [done|by apply Hc].
Qed.

Lemma requests_middle id r' :
  id ∈ r_ids r -> frames_of id (concat (map req_frames (p1 ++ r' :: p2))) = frames_of id (req_frames r').
Proof.
  intros Hid. rewrite map_app, concat_app. cbn. rewrite !frames_of_app.
  assert (Hn : forall p, (forall r0, r0 ∈ p -> r0 ∈ p1 ++ p2) -> frames_of id (concat (map req_frames p)) = []).
  { intros p Hp. apply frames_of_none. intros f (fs & Hf & (r0 & -> & Hr0)%list_elem_of_fmap)%elem_of_concat.
    by apply (others_none id r0 f Hid); [apply Hp|]. }
  rewrite (Hn p1), (Hn p2), app_nil_r; [done|set_solver..].
Qed.

(** The handler routes a frame, the first that it has of its session. *)
Lemma routed_order f r' :
  SessionID f ∈ r_ids r ->
  (forall id, frames_of id (req_frames r) = frames_of id [f] ++ frames_of id (req_frames r')) ->
  forall id, frames_of id (drained_log w)
    = frames_of id (f_routed w ++ [f]) ++ frames_of id (concat (map req_frames (p1 ++ r' :: p2))).
Proof.
  intros Hf Hr id. rewrite (fo_order w Hw id), E, frames_of_app, <- app_assoc. f_equal.
  destruct (decide (id = SessionID f)) as [->|Hne].
  - by rewrite !requests_middle, Hr.
  - specialize (Hr id). rewrite (frames_of_none id [f]) in Hr |- * by (intros g ->%list_elem_of_singleton; congruence).
    rewrite !map_app, !concat_app, !frames_of_app. cbn [map concat]. by rewrite !frames_of_app, Hr.
Qed.

End Requests.

(** ** It is kept *)

Context {LO : CryptoLibOk L} {AL : AeadLaws (aead crypto)} (Hcid : len cid = ClientIDLen).

(** The client is one that [Upload] speaks of, whatever its server does. *)
Definition no_server : System unit := sys_init ∅.
Definition reaches_node (e : Endpoints) (nd : Node) : Prop :=
  Upload.net_steps crypto cid (Upload.net_init e) (up_side nd no_server).

Lemma reach_tx e nd : reaches_node e nd ->
  tx_table true ∅ (Carrier.sessions (cli nd)) (concat (map fst (posts nd))) (wrote nd).
Proof. intros H. apply (no_tx crypto cid _ (Upload.net_reach_ok crypto cid e _ Hcid H)). Qed.

Lemma reach_step e answers nd nd' : reaches_node e nd -> node_step crypto cid answers nd nd' -> reaches_node e nd'.
Proof. intros H Hst. unfold reaches_node. etransitivity; [exact H|]. by eapply node_up. Qed.

Lemma reach_decode e nd out body : reaches_node e nd -> (out, Some body) ∈ posts nd ->
  DecodeBatch crypto body = Ok (cid, out).
Proof. intros H Hin. by apply (no_bodies crypto cid _ (Upload.net_reach_ok crypto cid e _ Hcid H)). Qed.

(** A step that changes neither the requests nor the log. *)
Lemma flow_ok_local e w nd' :
  flow_ok w -> reaches_node e nd' -> posts nd' = posts (f_node w) ->
  inFlight (cli nd') = inFlight (cli (f_node w)) -> flow_ok (mkFlow nd' (f_reqs w) (f_routed w)).
Proof.
  intros [Hu Hi Hf Ho Hk Hl] Hr Hp Hfl. constructor; try done; unfold drained_log; cbn; rewrite ?Hp, ?Hfl; try done.
  rewrite <- Hp. by eapply reach_tx.
Qed.

(** A frame leaves its request. *)
Lemma flow_ok_routed w p1 r r' f p2 :
  flow_ok w -> f_reqs w = p1 ++ r :: p2 -> r_ids r' = r_ids r -> f ∈ req_frames r ->
  (forall g, g ∈ r_syns r' -> g ∈ r_syns r) -> (forall g, g ∈ r_rest r' -> g ∈ r_rest r) ->
  (forall id, frames_of id (req_frames r) = frames_of id [f] ++ frames_of id (req_frames r')) ->
  flow_ok (mkFlow (f_node w) (p1 ++ r' :: p2) (f_routed w ++ [f])).
Proof.
  intros Hw E Hids Hf Hs Hr Hsplit. assert (Hin : r ∈ f_reqs w) by (rewrite E; set_solver).
  assert (Eids : concat (map r_ids (p1 ++ r' :: p2)) = concat (map r_ids (f_reqs w))).
  { rewrite E, !map_app, !concat_app. cbn. by rewrite Hids. }
  assert (Hor : forall r0, r0 ∈ p1 ++ r' :: p2 -> r0 = r' \/ r0 ∈ f_reqs w) by (intros r0; rewrite E; set_solver).
  constructor; cbn [f_node f_reqs f_routed]; rewrite ?Eids; try apply Hw.
  - intros r0 g [->|Hr0]%Hor Hg; [|by apply (fo_own w Hw)]. rewrite Hids. apply (fo_own w Hw r); [done|].
    unfold req_frames in *. set_solver.
  - intros r0 [->|Hr0]%Hor; [|by apply (fo_kinds w Hw)]. destruct (fo_kinds w Hw r Hin). split; auto.
  - apply (routed_order w p1 r p2 Hw E); [by apply (fo_own w Hw r)|done].
Qed.

Lemma flow_ok_syn w p1 ids s1 f s2 rest p2 :
  flow_ok w -> f_reqs w = p1 ++ mkRequest ids (s1 ++ f :: s2) rest :: p2 ->
  flow_ok (mkFlow (f_node w) (p1 ++ mkRequest ids (s1 ++ s2) rest :: p2) (f_routed w ++ [f])).
Proof.
  intros Hw E. set (r := mkRequest ids (s1 ++ f :: s2) rest) in E.
  assert (Hin : r ∈ f_reqs w) by (rewrite E; set_solver). destruct (fo_kinds w Hw r Hin) as [Hsy _].
  assert (Hf : f ∈ req_frames r) by (unfold req_frames, r; cbn; set_solver).
  apply (flow_ok_routed w p1 r _ f p2 Hw E); [done|done|cbn; set_solver|done|].
  intros id. unfold req_frames. cbn [r_syns r_rest r]. rewrite <- !app_assoc. cbn [app].
  change (f :: s2 ++ rest) with ([f] ++ s2 ++ rest). rewrite !frames_of_app, !app_assoc. do 2 f_equal.
  destruct (decide (SessionID f = id)) as [<-|Hne].
  2: { rewrite (frames_of_none id [f]); [by rewrite app_nil_r|]. by intros g ->%list_elem_of_singleton. }
  rewrite (frames_of_all _ [f]) by (by intros g ->%list_elem_of_singleton).
  destruct (frames_of (SessionID f) s1) as [|g l] eqn:Hg; [done|exfalso].
  pose proof (fo_order w Hw (SessionID f)) as Ho.
  rewrite E, (requests_middle w p1 r p2 Hw E) in Ho by (by apply (fo_own w Hw r)).
  unfold req_frames in Ho. cbn [r_syns r_rest r] in Ho. rewrite <- app_assoc, !frames_of_app, Hg in Ho. cbn [app] in Ho.
  change (f :: s2) with ([f] ++ s2) in Ho.
  rewrite frames_of_app, (frames_of_all _ [f]) in Ho by (by intros g' ->%list_elem_of_singleton).
  assert (Hlk : frames_of (SessionID f) (drained_log w)
    !! (length (frames_of (SessionID f) (f_routed w)) + (S (length l)))%nat = Some f).
  { rewrite Ho, lookup_app_r by lia. rewrite Nat.add_comm, Nat.add_sub. rewrite <- ?app_assoc. cbn. by apply list_lookup_middle. }
  apply (log_syn _ _ _ _ _ _ (fo_up w Hw)) in Hlk; [lia|]. apply Hsy. cbn. set_solver.
Qed.

Lemma flow_ok_post e w now order rand c' out ids body owner rxFrames syns :
  flow_ok w -> reaches_node e (f_node w) ->
  (forall nonce, rand = Some nonce -> len nonce = NonceSize (aead crypto)) ->
  Carrier.valid_order (cli (f_node w)) order -> Carrier.drainAll now order (cli (f_node w)) = (c', out, ids) ->
  EncodeBatch crypto rand cid out = Ok body -> DecodeBatch crypto body = Ok (owner, rxFrames) ->
  syns ≡ₚ List.filter is_syn rxFrames ->
  let nd' := mkNode c' (apps (f_node w)) (posts (f_node w) ++ [(out, Some body)]) (wrote (f_node w)) in
  let r := mkRequest ids syns (List.filter (fun f => negb (is_syn f)) rxFrames) in
  reaches_node e nd' /\ flow_ok (mkFlow nd' (r :: f_reqs w) (f_routed w)).
Proof.
  intros Hw Hr Hn Hord Hd He Hdec Hs nd' r.
  assert (Hr' : reaches_node e nd').
  { eapply (reach_step e []); [exact Hr|]. unfold nd'. replace (Some body) with
      (match EncodeBatch crypto rand cid out with Ok b => Some b | _ => None end) by (by rewrite He).
    by apply n_post with now order ids. }
  split; [done|].
  assert (Hb : (out, Some body) ∈ posts nd') by (cbn; set_solver).
  rewrite (reach_decode e nd' out body Hr' Hb) in Hdec. injection Hdec as <- <-.
  pose proof (reach_tx e nd' Hr') as Htx. pose proof (fo_up w Hw) as Htx0.
  assert (Htab : Carrier.table_ok (cli (f_node w))) by (intros i x; by eapply tx_table_ok).
  destruct (drainAll_shares now order _ c' out ids Htab Hord Hd)
    as (parts & _ & Eids & Hnd & _ & Hsh & Hown & _ & Hfl & _).
  assert (Hlog : forall id, frames_of id (drained_log (mkFlow nd' (r :: f_reqs w) (f_routed w)))
    = frames_of id (drained_log w) ++ frames_of id out).
  { intros id. unfold drained_log. cbn [f_node posts nd']. rewrite map_app, concat_app, frames_of_app. cbn. by rewrite app_nil_r. }
  assert (Hfree : forall id, id ∈ ids -> id ∉ concat (map r_ids (f_reqs w))).
  { intros id Hid Hc. apply (fo_flight w Hw) in Hc. rewrite Eids in Hid.
    apply list_elem_of_fmap in Hid as ([i fs] & -> & Hp). by destruct (Hsh i fs Hp). }
  constructor; cbn [f_node f_reqs f_routed map concat]; try done.
  - apply NoDup_app. split; [done|]. split; [done|apply (fo_ids w Hw)].
  - intros id. cbn [cli nd' r_ids r]. rewrite Hfl, elem_of_union, elem_of_list_to_set, elem_of_app, (fo_flight w Hw). tauto.
  - intros r0 f [->|Hr0]%elem_of_cons Hf; [|by apply (fo_own w Hw)]. apply Hown.
    unfold req_frames in Hf. cbn in Hf. rewrite Hs in Hf. rewrite elem_of_app, !list_elem_of_In, !filter_In in Hf.
    rewrite list_elem_of_In. tauto.
  - intros r0 [->|Hr0]%elem_of_cons; [|by apply (fo_kinds w Hw)]. cbn. split; intros f Hf.
    + rewrite Hs in Hf. by apply list_elem_of_In, filter_In in Hf as [_ ?].
    + apply list_elem_of_In, filter_In in Hf as [_ ?]. by apply negb_true_iff.
  - intros id. rewrite Hlog, (fo_order w Hw id), frames_of_app, <- app_assoc. f_equal.
    unfold req_frames at 2. cbn [r_syns r_rest r]. rewrite (frames_of_app id syns), frames_of_filter, syn_split.
    + destruct (decide (id ∈ ids)) as [Hid|Hid].
      * rewrite (frames_of_none id (concat (map req_frames (f_reqs w)))); [by rewrite app_nil_r|].
        intros f (fs & Hf & (r0 & -> & Hr0)%list_elem_of_fmap)%elem_of_concat <-. apply (Hfree _ Hid).
        apply elem_of_concat. exists (r_ids r0). split; [by apply (fo_own w Hw)|by apply list_elem_of_fmap_2].
      * rewrite (frames_of_none id out); [by rewrite app_nil_r|]. intros f Hf <-. by destruct (Hown f Hf).
    + intros k f Hk Hsy. assert (Hlk : frames_of id (drained_log (mkFlow nd' (r :: f_reqs w) (f_routed w)))
        !! (length (frames_of id (drained_log w)) + k)%nat = Some f).
      { rewrite Hlog, lookup_app_r by lia. by rewrite Nat.add_comm, Nat.add_sub. }
      apply (log_syn _ _ _ _ _ _ Htx) in Hlk; [lia|done].
    + rewrite <- frames_of_filter. unfold frames_of. by rewrite Hs.
Qed.

Lemma flow_step_ok e w w' :
  flow_ok w -> reaches_node e (f_node w) -> flow_step w w' -> flow_ok w' /\ reaches_node e (f_node w').
Proof.
  intros Hw Hr Hst.
  destruct Hst as [now id target Hno Hl nd|answers nd' Hst Hp Hfl|now order rand c' out ids body owner rxFrames syns
      Hn Hord Hd He Hdec Hs nd|p1 ids s1 f s2 rest p2 E|p1 ids f rest p2 E|p1 ids p2 E].
  - assert (Hr' : reaches_node e (mkNode (NewSession now id target (cli nd)) (<[id := (LIdle, [])]> (apps nd)) (posts nd)
      (<[id := []]> (wrote nd)))).
    { unfold reaches_node. etransitivity; [exact Hr|]. apply rtc_once. left.
      by apply (c_open crypto cid (up_side nd no_server) now id target). }
    split; [|done]. by eapply flow_ok_local.
  - assert (Hr' : reaches_node e nd') by (by eapply reach_step). split; [|done]. by eapply flow_ok_local.
  - destruct (flow_ok_post e w now order rand c' out ids body owner rxFrames syns) as [? ?]; try done.
  - split; [by apply flow_ok_syn|done].
  - split; [|done]. apply (flow_ok_routed w p1 _ _ f p2 Hw E); try done.
    + unfold req_frames. cbn. left.
    + intros g Hg. cbn in *. by right.
    + intros id. unfold req_frames. cbn [r_syns r_rest app]. by rewrite <- frames_of_app.
  - assert (Hr' : reaches_node e (node_cli (releaseInFlight ids (cli (f_node w))) (f_node w))).
    { eapply (reach_step e []); [exact Hr|apply n_release]. }
    split; [|done]. destruct (CarrierSteps.release_fold ids (cli (f_node w))) as (_ & Hf & _).
    pose proof (fo_ids w Hw) as Hnd. rewrite E, map_app, concat_app in Hnd. cbn in Hnd.
    assert (Hin : forall r, r ∈ p1 ++ p2 -> r ∈ f_reqs w) by (intros r; rewrite E; set_solver).
    constructor; cbn [f_node f_reqs f_routed].
    + by eapply reach_tx.
    + rewrite map_app, concat_app. apply NoDup_app in Hnd as (H1 & H2 & (_ & _ & H3)%NoDup_app).
      apply NoDup_app. split; [done|]. split; [|done]. intros i Hi Hi2. apply (H2 i Hi), elem_of_app. by right.
    + intros id. cbn [cli node_cli]. rewrite Hf, (fo_flight w Hw), E, !map_app, !concat_app. cbn.
      apply NoDup_app in Hnd as (H1 & H2 & (H3 & H4 & H5)%NoDup_app). rewrite !elem_of_app. split; [tauto|].
      intros [Hi|Hi]; (split; [tauto|]); intros Hc; [by apply (H2 id Hi), elem_of_app; left|by apply (H4 id Hc)].
    + intros r f Hr0. by apply (fo_own w Hw), Hin.
    + intros r Hr0. by apply (fo_kinds w Hw), Hin.
    + intros id. etransitivity; [apply (fo_order w Hw id)|]. by rewrite E, !map_app, !concat_app.
Qed.

Lemma flow_reach_ok e w : flow_steps (flow_init e) w -> flow_ok w.
Proof.
  intros H. remember (flow_init e) as w0 eqn:E.
  assert (H0 : flow_ok w0 /\ reaches_node e (f_node w0)).
  { subst. split; [|apply rtc_refl]. constructor; cbn; try done; [constructor|..].
    all: set_solver. }
  clear E. induction H as [|w0 w1 w Hst _ IH]; [apply H0|]. destruct H0. apply IH. by eapply flow_step_ok.
Qed.

(** What a session has emitted starts with its SYN. *)
Lemma stream_head id target x fs acc f :
  tx_stream id target true x fs acc -> fs !! 0%nat = Some f -> is_syn f = true.
Proof.
  intros [(p0 & ch & -> & _ & _ & _ & Hch) Hsyn _ _ _] Hi. destruct (synNeeded (tx x)).
  - destruct (Hsyn eq_refl) as [_ Hf]. rewrite Hf, (Hch eq_refl) in Hi. done.
  - by injection Hi as <-.
Qed.

Lemma log_stream m log wr id : tx_table true ∅ m log wr ->
  exists target x acc, tx_stream id target true x (frames_of id log) acc.
Proof.
  intros H. pose proof (tx_table_entry _ _ _ _ _ id H (not_elem_of_empty _)) as Ht. unfold tx_entry in Ht.
  destruct (wr !! id) as [acc|].
  - destruct Ht as (_ & target & x & Hre%tx_reach_stream & _). eauto.
  - destruct Ht as [_ ->]. exists [], (New 0 id [] true), []. apply tx_reach_stream. constructor.
Qed.

(** A receiver that is handed the first frames of a stream in order queues none. *)
Lemma feed_in_order fs pre : sent_wf fs -> pre `prefix_of` fs ->
  exists r, feed pre New_rx = Ok r /\ rxQueue r = ∅ /\ RxChan r = payloads pre /\ rxSeq r = len pre.
Proof.
  intros Hwf [post E]. destruct (feed_New fs Hwf pre) as (k & r & Hf & Hr); [rewrite E; set_solver|].
  destruct Hr as [[Hs Hle Harr Hmiss Hq] Hch _ _ _ _].
  assert (Hpos : forall i f, fs !! i = Some f -> f ∈ pre <-> (i < length pre)%nat).
  { intros i f Hi. split.
    - intros [j Hj]%list_elem_of_lookup. pose proof (lookup_lt_Some _ _ _ Hj).
      assert (Hj' : fs !! j = Some f) by (rewrite E; by apply lookup_app_l_Some).
      pose proof (sw_seq fs Hwf _ _ Hi). pose proof (sw_seq fs Hwf _ _ Hj'). lia.
    - intros Hlt. rewrite E, lookup_app_l in Hi by done. by eapply list_elem_of_lookup_2. }
  assert (k = length pre) as ->.
  { apply Nat.le_antisymm.
    - destruct k as [|k]; [lia|]. destruct (lookup_lt_is_Some_2 fs k) as [f Hk]; [lia|].
      apply (Hpos k f Hk), (Harr k); [lia|done].
    - destruct (decide (k < length pre)%nat) as [Hlt|]; [|lia].
      destruct (lookup_lt_is_Some_2 fs k) as [f Hk]; [rewrite E, length_app; lia|].
      destruct (Hmiss f Hk). by apply (Hpos k f Hk). }
  exists r. split; [done|]. rewrite Hch, E, take_app_length. split; [|done].
  apply map_eq. intros z. rewrite lookup_empty. apply option_eq. intros f. rewrite Hq. split; [|done].
  intros (Hin & <- & Hlt). assert (Hfs : f ∈ fs) by (rewrite E; set_solver).
  apply list_elem_of_lookup in Hfs as [i Hi]. apply (Hpos i f Hi) in Hin. rewrite (sw_seq fs Hwf _ _ Hi) in Hlt. lia.
Qed.

(** C3: However the client's polls, the server's handlers and the goroutines of
    the SYN frames are interleaved, if every request is answered at its first
    attempt then the frames of a session are routed in the order in which they
    were drained, one by one from the first: the frame routed in place [k] has
    the sequence number [k], it is the SYN exactly if [k = 0], a receiver that is
    handed them queues none and has exactly their payloads, and once the session
    is no longer in flight all that was drained is routed. *)
Theorem frames_in_order e w id :
  flow_steps (flow_init e) w -> len (frames_of id (drained_log w)) < 2 ^ 64 ->
  frames_of id (f_routed w) `prefix_of` frames_of id (drained_log w)
  /\ (forall k f, frames_of id (f_routed w) !! k = Some f -> Seq f = Z.of_nat k /\ (is_syn f = true <-> k = 0%nat))
  /\ (exists r, feed (frames_of id (f_routed w)) New_rx = Ok r /\ rxQueue r = ∅
        /\ RxChan r = payloads (frames_of id (f_routed w)) /\ rxSeq r = len (frames_of id (f_routed w)))
  /\ (id ∉ inFlight (cli (f_node w)) -> frames_of id (f_routed w) = frames_of id (drained_log w)).
Proof.
  intros H Hlen. pose proof (flow_reach_ok e w H) as Hw.
  destruct (log_stream _ _ _ id (fo_up w Hw)) as (target & x & acc & Hst).
  pose proof (tx_stream_sent_wf _ _ _ _ _ _ Hst Hlen) as Hwf. pose proof (fo_order w Hw id) as Ho.
  assert (Hpre : frames_of id (f_routed w) `prefix_of` frames_of id (drained_log w)) by (rewrite Ho; by eexists).
  split; [done|]. split; [|split; [by eapply feed_in_order|]].
  - intros k f Hk. apply (lookup_app_l_Some _ (frames_of id (concat (map req_frames (f_reqs w))))) in Hk.
    rewrite <- Ho in Hk. split; [by apply (sw_seq _ Hwf)|]. split; [by eapply stream_syn|].
    intros ->. by eapply stream_head.
  - intros Hn. rewrite Ho, (frames_of_none id (concat _)), app_nil_r; [done|].
    intros f (fs & Hf & (r0 & -> & Hr0)%list_elem_of_fmap)%elem_of_concat <-. apply Hn, (fo_flight w Hw), elem_of_concat.
    exists (r_ids r0). split; [by apply (fo_own w Hw)|by apply list_elem_of_fmap_2].
Qed.

End Orderly.

(** ** A run *)

(** ["hello"] is written and posted with the SYN, ["you"] after that and is
    left alone until the first poll has ended. *)
Notation demo_flow_steps := (flow_steps test_crypto test_client).

Definition flow_write (now : Z) (data : bytes) (w : Flow) : Flow :=
  let nd := f_node w in
  let s := default (New 0 [] [] false) (Carrier.sessions (cli nd) !! demo_sid) in
  let s' := fst (default (s, false) (EnqueueInitialData now data s)) in
  mkFlow (mkNode (update_session demo_sid (fun _ => s') (cli nd)) (apps nd) (posts nd)
    (<[demo_sid := accepted s data (default [] (wrote nd !! demo_sid))]> (wrote nd))) (f_reqs w) (f_routed w).

Definition flow_post (now : Z) (w : Flow) : Flow :=
  let nd := f_node w in
  let '(c', out, ids) := Carrier.drainAll now (Carrier.some_order (cli nd)) (cli nd) in
  let body := match EncodeBatch test_crypto (Some test_nonce) test_client out with Ok b => b | _ => [] end in
  mkFlow (mkNode c' (apps nd) (posts nd ++ [(out, Some body)]) (wrote nd))
    (mkRequest ids (List.filter is_syn out) (List.filter (fun f => negb (is_syn f)) out) :: f_reqs w) (f_routed w).

Definition flow_opened : Flow :=
  let nd := start demo_eps in
  mkFlow (mkNode (NewSession 5 demo_sid (str "good:1") (cli nd)) (<[demo_sid := (LIdle, [])]> (apps nd)) (posts nd)
    (<[demo_sid := []]> (wrote nd))) [] [].
Definition flow_held : Flow := flow_write 8 (str "you") (flow_post 7 (flow_write 6 (str "hello") flow_opened)).
Definition flow_at : Flow := Eval vm_compute in flow_held.
Definition flow_freed : Flow :=
  mkFlow (node_cli (releaseInFlight [demo_sid] (cli (f_node flow_at))) (f_node flow_at)) [] [demo_frame].
Definition flow_again : Flow := Eval vm_compute in flow_post 9 flow_freed.
Definition you_frame : Frame := mkFrame demo_sid 1 0 [] (str "you").
Definition flow_body (out : list Frame) : bytes :=
  match EncodeBatch test_crypto (Some test_nonce) test_client out with Ok b => b | _ => [] end.
Definition flow_body1 : bytes := Eval vm_compute in flow_body [demo_frame].
Definition flow_body2 : bytes := Eval vm_compute in flow_body [you_frame].
Definition flow_done : Flow := mkFlow (f_node flow_again) [mkRequest [demo_sid] [] []] [demo_frame; you_frame].

Lemma flow_write_step now data w s s' kick acc :
  Carrier.sessions (cli (f_node w)) !! demo_sid = Some s -> wrote (f_node w) !! demo_sid = Some acc ->
  EnqueueInitialData now data s = Some (s', kick) ->
  flow_step test_crypto test_client w (flow_write now data w).
Proof.
  intros Hs Hacc He. unfold flow_write. rewrite Hs, Hacc. cbn [from_option]. unfold id. rewrite He.
  apply (fl_local test_crypto test_client w []); [|done..].
  by apply (n_write test_crypto test_client [] (f_node w) now demo_sid data s s' kick acc).
Qed.

Lemma flow_post_step now w out body :
  snd (fst (Carrier.drainAll now (Carrier.some_order (cli (f_node w))) (cli (f_node w)))) = out ->
  EncodeBatch test_crypto (Some test_nonce) test_client out = Ok body ->
  DecodeBatch test_crypto body = Ok (test_client, out) ->
  flow_step test_crypto test_client w (flow_post now w).
Proof.
  intros Ho He Hd. unfold flow_post. destruct (Carrier.drainAll _ _ _) as [[c' out'] ids] eqn:E. cbn in Ho. subst out'.
  rewrite He. eapply fl_post; [|apply Carrier.some_order_valid|exact E|exact He|exact Hd|done]. by intros ? [= <-].
Qed.

Lemma flow_run : demo_flow_steps (flow_init demo_eps) flow_done.
Proof.
  apply rtc_l with flow_opened.
  { by apply (fl_open test_crypto test_client (flow_init demo_eps) 5 demo_sid (str "good:1")). }
  apply rtc_l with (flow_write 6 (str "hello") flow_opened).
  { eapply flow_write_step; [vm_compute; reflexivity|vm_compute; reflexivity..]. }
  eapply rtc_l; [apply (flow_post_step 7 _ [demo_frame] flow_body1); vm_compute; reflexivity|].
  apply rtc_l with flow_held.
  { eapply flow_write_step; [vm_compute; reflexivity|vm_compute; reflexivity..]. }
  replace flow_held with flow_at by (vm_compute; reflexivity).
  eapply rtc_l; [exact (fl_syn test_crypto test_client flow_at [] [demo_sid] [] demo_frame [] [] [] eq_refl)|].
  eapply rtc_l; [exact (fl_end test_crypto test_client
    (mkFlow (f_node flow_at) [mkRequest [demo_sid] [] []] [demo_frame]) [] [demo_sid] [] eq_refl)|].
  cbn [f_node f_routed app]. change (mkFlow _ _ _) with flow_freed.
  eapply rtc_l; [apply (flow_post_step 9 _ [you_frame] flow_body2); vm_compute; reflexivity|].
  replace (flow_post 9 flow_freed) with flow_again by (vm_compute; reflexivity).
  apply rtc_once. exact (fl_rest test_crypto test_client flow_again [] [demo_sid] you_frame [] [] eq_refl).
Qed.

Lemma frames_in_order_witness :
  Carrier.drainAll 9 [demo_sid] (cli (f_node flow_at)) = (cli (f_node flow_at), [], [])
  /\ f_routed flow_done = [demo_frame; you_frame]
  /\ frames_of demo_sid (f_routed flow_done) `prefix_of` frames_of demo_sid (drained_log flow_done).
Proof.
  split; [vm_compute; reflexivity|]. split; [reflexivity|].
  apply (frames_in_order test_crypto test_client (AL := test_aead_laws) eq_refl demo_eps flow_done demo_sid flow_run).
  vm_compute. reflexivity.
Defined.
