(* ===== verification/SocksServer.v ===== *)
(** * internal/socks/server.go: the SOCKS listener

    What [Serve] hands to the go-socks5 library, which is not part of the
    repository: the dial function, the refusal of UDP associations, the resolver
    and the authentication.  The socket options that an accepted connection gets
    (quickack_linux.go, quickack_other.go) are two flags. *)

From S2P Require Import Prelude GoStd Frame Crypto Session SessionApi Conn Endpoints Carrier Config ConfigProps CmdMain.

(** ** Accepting *)

Record socket := mkSocket { sk_tcp : bool; sk_nodelay : bool; sk_quickack : bool }.

(** [syscalls] tells whether [SyscallConn] and [Setsockopt] work. *)
Definition setQuickAck (linux syscalls : bool) (c : socket) : socket :=
  if linux then
    if sk_tcp c then if syscalls then mkSocket (sk_tcp c) (sk_nodelay c) true else c
    else c
  else c.

Definition SetNoDelay (c : socket) : socket := mkSocket (sk_tcp c) true (sk_quickack c).

(** [noDelayListener.Accept]; [None] is an error of the listener. *)
Definition Accept (linux syscalls : bool) (accepted : option socket) : option socket :=
  c ← accepted;
  let c := if sk_tcp c then SetNoDelay c else c in
  Some (setQuickAck linux syscalls c).

(** ** The options *)

(** The reply codes of RFC 1928. *)
Definition RepCommandNotSupported : Z := 7.

(** [noopResolver.Resolve]: the address is nil, and there is no error. *)
Definition Resolve (host : bytes) : res Empty_set (option bytes) := Ok None.

(** [WithAssociateHandle]: the reply that is sent, and the error. *)
Definition associate : Z * bytes := (RepCommandNotSupported, str "UDP associate not supported").

Record socks_options (C : Type) := mkOptions {
  o_dial : bytes -> C -> C * VirtualConn;
  o_associate : Z * bytes;
  o_resolver : bytes -> res Empty_set (option bytes);
  (** The authenticators; [None] is the default of the library. *)
  o_auth : option (list (gmap bytes bytes));
}.
Arguments mkOptions {C} _ _ _ _.
Arguments o_dial {C} _ _ _.
Arguments o_associate {C} _.
Arguments o_resolver {C} _ _.
Arguments o_auth {C} _.

(** [factory] runs on what the carrier keeps. *)
Definition Serve {C : Type} (user pass : bytes) (factory : bytes -> C -> C * Session) : socks_options C :=
  mkOptions (fun addr c => let '(c, s) := factory addr c in (c, NewVirtualConn s))
    associate Resolve
    (if bool_decide (user = []) then None else Some [{[user := pass]}]).

(** The factory of cmd/client, with the identifier that [crypto/rand] gives. *)
Definition session_factory (now : Z) (id : bytes) (target : bytes) (c : Client Session) : Client Session * Session :=
  (NewSession now id target c, New now id target true).

(** ** What is asked of a client of the proxy *)

Lemma auth_message_iff cfg :
  auth_message ∈ ready_messages cfg <-> cc_SocksUser cfg <> [].
Proof.
  unfold ready_messages. rewrite elem_of_cons. case_bool_decide as Hu.
  - split; [|done]. intros [H|H%elem_of_nil]; [|done]. apply (f_equal (take 14)) in H. vm_compute in H. discriminate H.
  - rewrite list_elem_of_singleton. tauto.
Qed.

(** The configuration decides who may use the proxy.  After [LoadClient] the
    credentials are both set or both empty; with them, the one pair of the file,
    without surrounding white space, is accepted, and the log says so; without,
    everyone is. *)
Theorem loaded_auth {C : Type} (url_Parse : bytes -> option URL) f cfg (factory : bytes -> C -> C * Session) :
  LoadClient url_Parse f = Ok cfg ->
  let user := cc_SocksUser cfg in let pass := cc_SocksPass cfg in
  o_auth (Serve user pass factory)
  = (if bool_decide (auth_message ∈ ready_messages cfg) then Some [{[user := pass]}] else None)
  /\ (auth_message ∈ ready_messages cfg -> user <> [] /\ pass <> []).
Proof.
  intros Hc%LoadClient_inv user pass. destruct Hc as [_ _ _ _ Hs _ _]. unfold Serve. cbn [o_auth].
  rewrite (bool_decide_ext _ _ (auth_message_iff cfg)). fold user.
  split; [repeat case_bool_decide; tauto|]. intros Hu%auth_message_iff. split; [done|].
  intros Hp. by apply Hu, Hs.
Qed.

(** Without the configuration's check, a user name alone would be enough: the
    password is then empty. *)
Lemma user_without_password {C : Type} user (factory : bytes -> C -> C * Session) :
  user <> [] -> o_auth (Serve user [] factory) = Some [{[user := []]}].
Proof. intros Hu. unfold Serve. cbn. by rewrite bool_decide_eq_false_2. Qed.

(** ** A connection through the proxy *)

(** A new session's first frame. *)
Lemma new_session_syn now now' id addr mp cap :
  mkFrame id 0 FlagSYN addr [] ∈ snd (DrainTxLimited now' mp cap (New now id addr true)).
Proof.
  unfold DrainTxLimited.
  destruct (drainTx_spec now' mp cap (New now id addr true)) as (s' & out & p0 & ch & fin & -> & Hd); [cbn; lia|].
  pose proof (dr_bytes _ _ _ _ _ _ _ _ _ Hd) as Hb. cbn in Hb. apply app_eq_nil in Hb as [-> _].
  cbn [snd]. rewrite (dr_out _ _ _ _ _ _ _ _ _ Hd). left.
Qed.

(** Whoever asks the proxy for [addr] gets a connection over a session of that
    target: it is in the client's table, ready to be sent, and a poll that drains
    it sends the [SYN] with the target as it was given; a poll leaves it out only
    if its batch is full, and then it stays ready. *)
Theorem socks_connect now id user pass addr (c : Client Session) c' v :
  o_dial (Serve user pass (session_factory now id)) addr c = (c', v) ->
  Carrier.table_ok c -> id ∉ inFlight c ->
  Carrier.sessions c' !! id = Some (vsess v) /\ SessTarget (vsess v) = addr /\ readBuf v = []
  /\ forall now' order c2 out ids,
       Carrier.valid_order c' order -> Carrier.drainAll now' order c' = (c2, out, ids) ->
       mkFrame id 0 FlagSYN addr [] ∈ out \/ (len out = Carrier.batch_cap c' /\ id ∈ Carrier.txReady c2).
Proof.
  unfold Serve, session_factory. cbn. intros [= <- <-] Hok Hfl. cbn [vsess].
  split; [by apply lookup_insert_eq|]. split; [done|]. split; [done|]. intros now' order c2 out ids Hord Hd.
  set (c' := NewSession now id addr c) in *.
  assert (Hok' : Carrier.table_ok c').
  { intros i x. unfold c'. cbn. intros [[<- <-]|[_ Hx]]%lookup_insert_Some; [|by apply Hok].
    split; [unfold seq_in_range; cbn; lia|done]. }
  destruct (drainAll_ready now' order c' c2 out ids id (New now id addr true) Hok' Hord Hd) as [Hin|Hfull]; try done.
  - cbn. set_solver.
  - by apply lookup_insert_eq.
  - left. destruct (drainAll_shares now' order c' c2 out ids Hok' Hord Hd) as (parts & -> & -> & _ & _ & Hsh & _).
    apply list_elem_of_fmap in Hin as ([i fs] & -> & Hp). cbn in *.
    destruct (Hsh i fs Hp) as (_ & _ & x & x' & cap & Hx & _ & _ & Hdr).
    assert (x = New now i addr true) as ->.
    { cut (Some x = Some (New now i addr true)); [congruence|]. rewrite <- Hx. by apply lookup_insert_eq. }
    apply elem_of_concat. exists fs. split; [|by apply list_elem_of_fmap; exists (i, fs)].
    pose proof (new_session_syn now now' i addr MaxFramePayload cap) as H.
    change (DrainTxLimited now' MaxFramePayload cap (New now i addr true) = (x', fs)) in Hdr. by rewrite Hdr in H.
  - by right.
Qed.
