(* ===== verification/Startup.v ===== *)
(** * Starting the server, and the loops beside the handlers

    [New] and [dialFunc] of internal/exit/exit.go, the routes of
    [ListenAndServe], and the loops that run until their context ends:
    [runIdleGCLoop], and [Run] and [runScriptStatsLoop] of internal/carrier.  The
    proxy package is an argument; a loop runs over what its [select] received. *)

From S2P Require Import Prelude GoStd GoText Frame Crypto TestJson Session SessionApi Endpoints Dns Version.
From S2P Require Import Exit ExitDrain ExitSteps Tunnel Config ConfigProps CmdMain.

(** ** Construction *)

(** [exit.Config] and what cmd/server puts into it. *)
Record exit_config := mkExitConfig {
  x_ListenAddr : bytes; x_AESKeyHex : bytes; x_DebugTiming : bool; x_UpstreamProxy : bytes; x_Version : bytes;
}.

Definition server_config (version : bytes) (c : ServerCfg) : exit_config :=
  mkExitConfig (sc_ListenAddr c) (sc_AESKeyHex c) (sc_DebugTiming c) (sc_UpstreamProxy c) version.

(** What [proxy.SOCKS5] returns: a dialer for a proxy, and whether it is a
    [ContextDialer]. *)
Record proxy_dialer := mkProxyDialer { pd_proxy : bytes; pd_context : bool }.

(** The call a dial function ends in. *)
Inductive dial_call :=
| NetDialTimeout (network address : bytes) (timeout : Z)
| ProxyDial (d : proxy_dialer) (network address : bytes)
| ProxyDialContext (d : proxy_dialer) (network address : bytes) (timeout : Z).

Section Start.
Context {L : CryptoLib} {S : Type} {A : SessionApi S} {Conn : Type}.
Context (proxy_SOCKS5 : bytes -> option proxy_dialer).

Definition dialFunc (proxyAddr network address : bytes) (timeout : Z) : dial_call :=
  if len proxyAddr =? 0 then NetDialTimeout network address timeout else
  match proxy_SOCKS5 proxyAddr with
  | None => NetDialTimeout network address timeout
  | Some d =>
      if negb (pd_context d) then ProxyDial d (str "tcp") address
      else ProxyDialContext d (str "tcp") address timeout
  end.

(** The fields of [Server] that never change. *)
Record server_const := mkServerConst {
  x_cfg : exit_config;
  x_aead : Crypto;
  x_dial : bytes -> bytes -> Z -> dial_call;
}.

Definition New (cfg : exit_config) : res crypto_err (server_const * Server S Conn) :=
  let! aead := NewCryptoFromHexKey (x_AESKeyHex cfg) in
  Ok (mkServerConst cfg aead (dialFunc (x_UpstreamProxy cfg)), init_server).

(** How [openSession] dials: [perform] is the network. *)
Definition server_dialler (perform : dial_call -> dial_error + Conn) (lookup : bytes -> option (list bytes))
    (isIP : bytes -> bool) (k : server_const) : dialler Conn :=
  let dial target := perform (x_dial k (str "tcp") target (15 * Second)) in
  if negb (len (x_UpstreamProxy (x_cfg k)) =? 0) then DialProxy dial else DialDirect dial lookup isIP.

(** ** The routes *)

(** Patterns without a trailing slash match one path each. *)
Inductive endpoint := Tunnel_ | Healthz | NotFound.
Definition mux (path : bytes) : endpoint :=
  if bool_decide (path = str "/tunnel") then Tunnel_
  else if bool_decide (path = str "/healthz") then Healthz
  else NotFound.

(** The answer of /healthz: [json.Marshal] sorts the keys of a map. *)
Definition healthz {J : JsonLib} (version : bytes) : Z * bytes * bytes :=
  (200, str "application/json",
   json_print (JObject [(str "ok", JBool true); (str "protocol", json_int ProtocolVersion);
                        (str "version", JString version)])).

(** ** The loops *)

(** What the [select] of a ticker loop received. *)
Inductive tick := Tick (now : Z) (order : list bytes) | Done.

Definition idleGCInterval : Z := 60 * Second.

(** [None]: the loop still runs.  The connections it has closed are kept. *)
Fixpoint runIdleGCLoop (events : list tick) (s : Server S Conn) : res Empty_set (Server S Conn * list Conn * bool) :=
  match events with
  | [] => Ok (s, [], false)
  | Done :: _ => Ok (s, [], true)
  | Tick now order :: events =>
      let! r := gcIdleSessions now order s in
      let '(s, ups, _) := r in
      let! r := runIdleGCLoop events s in
      let '(s, ups', ended) := r in
      Ok (s, ups ++ ups', ended)
  end.

End Start.

(** ** The client's goroutines *)

(** What [Run] starts, and waits for. *)
Inductive goroutine := WorkerLoop | StatsLoop | ScriptStatsLoop.
Definition Run (cc : Poll.ClientConst) : list goroutine :=
  repeat WorkerLoop (Z.to_nat (Poll.numWorkers cc)) ++ [StatsLoop; ScriptStatsLoop].

(** The script statistics: first after [scriptStatsInitialDelay], then at every
    tick, each endpoint is asked until the context ends. *)
Inductive stats_event := StatsDue (now : Z) (gets : list stats_get) | StatsDone.
Definition scriptStatsInterval : Z := 30 * Minute.
Definition scriptStatsInitialDelay : Z := 15 * Second.

Fixpoint runScriptStatsLoop (json_stats : bytes -> option scriptStatsResponse) (startOfDay : Z -> Z) (events : list stats_event) (s : Endpoints) : Endpoints * bool :=
  match events with
  | [] => (s, false)
  | StatsDone :: _ => (s, true)
  | StatsDue now gets :: events =>
      runScriptStatsLoop json_stats startOfDay events (pollScriptStats json_stats startOfDay now 0 gets s)
  end.

(** ** The two programs *)

(** What [main] does after the command line: lines of the log, goroutines, the
    final resets, and the end of the context that all share. *)
Inductive main_event :=
| Log (line : bytes)
| Fatal (line : bytes)
| SpawnCarrier
| SpawnSocks
| ShutdownCall
| Cancel.

(** [loaded], [created] and [diagnosed] are the results of [LoadClient],
    [carrier.New] and [Diagnose], with the text of an error; [signal]: one of
    the two signals came. *)
Definition client_main (path : bytes) (loaded : bytes + ClientCfg) (created diagnosed : option bytes) (signal : bool)
    : list main_event :=
  match loaded with
  | inl e => [Fatal e]
  | inr cfg =>
      map Log (client_startup path cfg) ++
      match created with
      | Some e => [Fatal (str "carrier: " ++ e)]
      | None =>
          map Log (preflight_messages diagnosed) ++ [SpawnCarrier; SpawnSocks] ++
          (if signal
           then [Log (str "[client] shutting down — notifying server of active sessions"); ShutdownCall; Cancel]
           else [])
      end
  end.

(** [stopped]: the error [ListenAndServe] returned, if it has. *)
Definition server_main (loaded : bytes + ServerCfg) (created stopped : option bytes) : list main_event :=
  match loaded with
  | inl e => [Fatal e]
  | inr cfg =>
      match created with
      | Some e => [Fatal (str "exit: " ++ e)]
      | None => map Log (server_startup cfg) ++ match stopped with Some e => [Fatal (server_fatal cfg e)] | None => [] end
      end
  end.

(** ** Starting *)

Lemma elem_of_logs e ls : e ∈ map Log ls -> exists l, e = Log l.
Proof. intros (l & -> & _)%list_elem_of_fmap. by exists l. Qed.

(** The proxy is open exactly if the configuration loads and the carrier is
    created, whatever the pre-flight check says; the farewell comes before the
    context ends, and only after a signal. *)
Theorem client_main_serves path loaded created diagnosed signal :
  let es := client_main path loaded created diagnosed signal in
  (SpawnSocks ∈ es <-> (exists cfg, loaded = inr cfg) /\ created = None)
  /\ (ShutdownCall ∈ es <-> SpawnSocks ∈ es /\ signal = true)
  /\ (Cancel ∈ es -> exists pre, es = pre ++ [ShutdownCall; Cancel] /\ SpawnCarrier ∈ pre).
Proof.
  intros es. assert (Hlog : forall e ls, e ∈ map Log ls -> exists l, e = Log l) by apply elem_of_logs.
  unfold es, client_main. destruct loaded as [e|cfg].
  { rewrite !list_elem_of_singleton. split; [split; [done|by intros [[? ?] _]]|]. split; [split; [done|by intros [? _]]|done]. }
  destruct created as [e|].
  { assert (Hn : forall x, (forall l, x <> Log l) -> (forall l, x <> Fatal l) ->
      x ∉ map Log (client_startup path cfg) ++ [Fatal (str "carrier: " ++ e)]).
    { intros x H1 H2 [(l & ->)%Hlog|H%list_elem_of_singleton]%elem_of_app; [by eapply H1|by eapply H2]. }
    split; [split; [intros H; by apply Hn in H|by intros [_ ?]]|].
    split; [split; [intros H; by apply Hn in H|intros [H _]; by apply Hn in H]|intros H; by apply Hn in H]. }
  assert (Hn : forall x, (forall l, x <> Log l) -> forall k,
    x ∈ map Log (client_startup path cfg) ++ map Log (preflight_messages diagnosed) ++ k <-> x ∈ k).
  { intros x H1 k. rewrite !elem_of_app. split; [|tauto].
    intros [(l & ->)%Hlog|[(l & ->)%Hlog|?]]; [by destruct (H1 l)..|done]. }
  rewrite !Hn by done. destruct signal; cbn [app].
  - split; [split; [eauto|intros _; set_solver]|]. split; [split; [set_solver|set_solver]|].
    intros _. exists (map Log (client_startup path cfg) ++ map Log (preflight_messages diagnosed) ++
      [SpawnCarrier; SpawnSocks; Log (str "[client] shutting down — notifying server of active sessions")]).
    split; [by rewrite <- !app_assoc|]. set_solver.
  - split; [split; [eauto|intros _; set_solver]|]. split; [split; [set_solver|by intros [_ ?]]|]. set_solver.
Qed.

Section StartProps.
Context {L : CryptoLib} {S : Type} {A : SessionApi S} {Conn : Type}.
Context (proxy_SOCKS5 : bytes -> option proxy_dialer).

Lemma LoadServer_key (url_Parse : bytes -> option URL) g c : LoadServer url_Parse g = Ok c ->
  exists k, NewCryptoFromHexKey (sc_AESKeyHex c) = Ok k.
Proof.
  unfold LoadServer. destruct (parseLegacyListenAddr _) as [h p].
  destruct (listen_port _ _) as [port| |]; cbn -[firstNonEmpty]; [|done..].
  destruct (check_key _ _) as [key| |] eqn:Hk'; cbn -[firstNonEmpty]; [|done..].
  destruct (upstream_proxy _ _) as [up| |]; cbn; [|done..]. intros [= <-]. by eapply key_crypto.
Qed.

(** A server file that loads starts the server, with the key of the file.  If
    it names an upstream proxy, every target is handed to the proxy by the name
    the client gave, nothing is resolved here, and no connection is direct;
    otherwise every connection is. *)
Theorem server_starts (url_Parse : bytes -> option URL) g c version perform lookup isIP now target (s : Server S Conn) :
  LoadServer url_Parse g = Ok c ->
  exists k, New (S := S) (Conn := Conn) proxy_SOCKS5 (server_config version c) = Ok (k, init_server)
    /\ NewCryptoFromHexKey (sc_AESKeyHex c) = Ok (x_aead k)
    /\ (sc_UpstreamProxy c <> [] -> forall d, proxy_SOCKS5 (sc_UpstreamProxy c) = Some d ->
          run_dial (server_dialler perform lookup isIP k) now target s
          = (s, perform (if pd_context d then ProxyDialContext d (str "tcp") target (15 * Second)
                         else ProxyDial d (str "tcp") target)))
    /\ (sc_UpstreamProxy c = [] ->
          server_dialler perform lookup isIP k
          = DialDirect (fun addr => perform (NetDialTimeout (str "tcp") addr (15 * Second))) lookup isIP).
Proof.
  intros Hl. destruct (LoadServer_key _ _ _ Hl) as [a Ha]. unfold New, server_config. cbn [x_AESKeyHex]. rewrite Ha.
  cbn [res_bind]. eexists. split; [reflexivity|]. split; [done|]. unfold server_dialler, dialFunc. cbn. split.
  - intros Hp d Hd. rewrite (proj2 (Z.eqb_neq _ _)) by by rewrite len_zero. cbn. rewrite Hd. by destruct (pd_context d).
  - by intros ->.
Qed.

(** ** Sessions that nobody uses *)

Notation World := (ExitSteps.World S Conn).
Context {AO : SessionApiOk S}.

(** The server runs from [w0] on, its collector ticks at least once a minute, at
    [t] last ([t0] before the first tick), and no step touches the activity of
    session [id], except by removing it. *)
Inductive abandoned (id : bytes) (t0 : Z) (w0 : World) : Z -> World -> Prop :=
| ab_start : abandoned id t0 w0 t0 w0
| ab_step t w w' :
    abandoned id t0 w0 t w -> exit_step w w' ->
    lastActivity (ws w') !! id = lastActivity (ws w) !! id \/ lastActivity (ws w') !! id = None ->
    abandoned id t0 w0 t w'
| ab_tick t w now order s' ups ended :
    abandoned id t0 w0 t w -> t < now <= t + idleGCInterval ->
    (forall i, is_Some (lastActivity (ws w) !! i) -> i ∈ order) ->
    runIdleGCLoop [Tick now order] (ws w) = Ok (s', ups, ended) ->
    abandoned id t0 w0 now (mkWorld s' (wcalls w)).

Lemma tick_inv now order (s s' : Server S Conn) ups ended :
  runIdleGCLoop [Tick now order] s = Ok (s', ups, ended) -> exists ss, gcIdleSessions now order s = Ok (s', ups, ss).
Proof.
  cbn. destruct (gcIdleSessions now order s) as [[[s1 ups1] ss]| |]; cbn; [|done..].
  intros [= <- <- _]. exists ss. by rewrite app_nil_r.
Qed.

Lemma abandoned_steps id t0 w0 t w : abandoned id t0 w0 t w -> exit_steps w0 w.
Proof.
  induction 1 as [|t w w' _ IH Hst _|t w now order s' ups ended _ IH _ _ Hg]; [done|..]; (eapply rtc_r; [exact IH|]).
  - done.
  - apply tick_inv in Hg as [ss Hg]. by eapply e_gc_idle.
Qed.

Lemma gcIdle_activity now order (s s' : Server S Conn) ups ss id :
  (forall i, is_Some (lastActivity s !! i) -> is_Some (sessions s !! i)) ->
  (forall i, is_Some (lastActivity s !! i) -> i ∈ order) ->
  gcIdleSessions now order s = Ok (s', ups, ss) ->
  lastActivity s' !! id = None \/ (lastActivity s' !! id = lastActivity s !! id /\ ~ expired now s id).
Proof.
  intros Hdom Hord Hg. unfold gcIdleSessions in Hg.
  destruct (gc_idle_fold now order s Hdom) as (R & s1 & vs & He & HR & HRi & _).
  rewrite He in Hg. apply close_victims_spec in Hg as ([st ->] & _). cbn.
  rewrite (rm_active _ _ _ HR). destruct (decide (id ∈ R)) as [Hin|Hn]; [by left|right]. split; [done|].
  intros Hx. apply Hn, HRi. split; [|done]. apply Hord. destruct Hx as (last & -> & _). by eexists.
Qed.

(** C34: a session without activity since [l] does not outlive the first tick that
    comes ten minutes after [l]: eleven minutes after [l] at the latest it is in
    no table. *)
Theorem abandoned_collected id t0 w0 t w l :
  exit_steps world_init w0 -> lastActivity (ws w0) !! id = Some l -> t0 < l + idleSessionTimeout ->
  abandoned id t0 w0 t w -> l + idleSessionTimeout <= t ->
  sessions (ws w) !! id = None /\ upstreams (ws w) !! id = None /\ sessionOwners (ws w) !! id = None.
Proof.
  intros Hr Hl Ht0 Hab Ht.
  assert (Hagree : forall t w, abandoned id t0 w0 t w -> tables_agree (ws w)).
  { intros t' w' H. apply exit_world_reach_inv. etransitivity; [exact Hr|]. by eapply abandoned_steps. }
  assert (H : (lastActivity (ws w) !! id = None \/ lastActivity (ws w) !! id = Some l)
    /\ (l + idleSessionTimeout <= t -> lastActivity (ws w) !! id = None)).
  { clear Ht. induction Hab as [|t w w' Hab IH Hst Hact|t w now order s' ups ended Hab IH Hn Hord Hg].
    - split; [by right|lia].
    - destruct IH as [H1 H2], Hact as [->| ->]; auto.
    - destruct IH as [H1 H2]. apply tick_inv in Hg as [ss Hg]. cbn.
      destruct (gcIdle_activity now order _ _ _ _ id (fun i => proj1 (ta_active _ (Hagree _ _ Hab) i)) Hord Hg)
        as [Hx|[Hx Hne]]; [auto|]. rewrite Hx. split; [done|]. intros Hle.
      destruct H1 as [H1|H1]; [done|]. destruct Hne. exists l. split; [done|lia]. }
  destruct H as [_ H]. specialize (H Ht). pose proof (Hagree _ _ Hab) as Ha.
  assert (Hs : sessions (ws w) !! id = None).
  { apply eq_None_not_Some. rewrite <- (ta_active _ Ha), H. by intros []. }
  split; [done|]. split; apply eq_None_not_Some; rewrite ?(ta_upstream _ Ha), ?(ta_owner _ Ha), Hs; by intros [].
Qed.

End StartProps.

(** ** A run *)

Definition lone_tick : Z := 5 + idleSessionTimeout.

Lemma abandoned_collected_witness :
  exists w, abandoned demo_sid (lone_tick - 1) demo_world lone_tick w
    /\ sessions (ws w) !! demo_sid = None /\ upstreams (ws w) !! demo_sid = None
    /\ sessionOwners (ws w) !! demo_sid = None.
Proof.
  destruct (runIdleGCLoop [Tick lone_tick [demo_sid]] (ws demo_world)) as [[[s' ups] ended]| |] eqn:E;
    [|vm_compute in E; discriminate E..].
  assert (H : abandoned demo_sid (lone_tick - 1) demo_world lone_tick (mkWorld s' (wcalls demo_world))).
  { apply (ab_tick demo_sid (lone_tick - 1) demo_world (lone_tick - 1) demo_world lone_tick [demo_sid] s' ups ended
      (ab_start demo_sid (lone_tick - 1) demo_world)); [unfold idleGCInterval, Second; lia| |exact E].
    intros i [x Hi]. change (lastActivity (ws demo_world)) with (<[demo_sid := 5]> (<[demo_sid := 5]> (∅ : gmap bytes Z))) in Hi.
    rewrite !lookup_insert_Some, lookup_empty in Hi. set_solver. }
  exists (mkWorld s' (wcalls demo_world)). split; [exact H|].
  apply (abandoned_collected demo_sid (lone_tick - 1) demo_world lone_tick (mkWorld s' (wcalls demo_world)) 5
    demo_world_reachable); [vm_compute; reflexivity|unfold lone_tick; lia|exact H|unfold lone_tick; lia].
Defined.
