(* ===== verification/FrontedClients.v ===== *)
(** * internal/carrier/fronting.go: the fronted clients

    One HTTP client per SNI host: where it dials, what its TLS handshake says and
    which cache of session tickets it uses; the connections that warm these
    caches.  The TLS and HTTP/2 libraries are configured here, not modelled; a
    cache is its number. *)

From S2P Require Import Prelude GoStd GoText Dns Session Carrier Fronting Config ConfigProps.

Record FrontingConfig := mkFronting { GoogleIP : bytes; SNIHosts : list bytes }.

(** [tls.VersionTLS13] *)
Definition VersionTLS13 : Z := 0x0304.
Definition alpn : list bytes := [str "h2"; str "http/1.1"].

(** What [http2.ConfigureTransports] leaves to set. *)
Record h2_settings := mkH2 { ReadIdleTimeout : Z; PingTimeout : Z; MaxReadFrameSize : Z }.

Record http_client := mkHttpClient {
  DialContext : bytes -> bytes -> bytes * bytes;
  ServerName : bytes;
  MinVersion : Z;
  ClientSessionCache : nat;
  NextProtos : list bytes;
  MaxIdleConnsPerHost : Z;
  http2_ : option h2_settings;
  Timeout : Z;
}.

(** [h2]: [ConfigureTransports] succeeded. *)
Definition newFrontedClient (googleIP sniHost : bytes) (pollTimeout : Z) (sessionCache : nat) (h2 : bool) : http_client :=
  mkHttpClient
    (fun network addr => if negb (len googleIP =? 0) then (str "tcp", googleIP) else (network, addr))
    sniHost VersionTLS13 sessionCache alpn (workersPerEndpoint * 2)
    (if h2 then Some (mkH2 (30 * Second) (15 * Second) (Z.shiftl 1 20)) else None)
    pollTimeout.

(** A connection of [prewarmFrontedClients]. *)
Record prewarm := mkPrewarm {
  pw_network : bytes; pw_addr : bytes; pw_ServerName : bytes; pw_MinVersion : Z;
  pw_cache : option nat; pw_NextProtos : list bytes;
}.

Definition prewarmFrontedClients (googleIP : bytes) (sniHosts : list bytes) (caches : gmap bytes nat) : list prewarm :=
  map (fun sni =>
    mkPrewarm (str "tcp") (if len googleIP =? 0 then JoinHostPort sni (str "443") else googleIP) sni VersionTLS13
      (caches !! sni) alpn) sniHosts.

(** [caches]: one for each host name; the next cache has the next number. *)
Definition new_caches (hosts : list bytes) : gmap bytes nat :=
  foldl (fun caches sni => match caches !! sni with Some _ => caches | None => <[sni := size caches]> caches end) ∅ hosts.

(** [samples]: what the probes of the hosts got, in their order. *)
Definition NewFrontedClients (cfg : FrontingConfig) (pollTimeout : Z) (probeURL : bytes) (h2 : bytes -> bool)
    (samples : list (list sample)) : option (list http_client * list prewarm) :=
  let hosts := if len (SNIHosts cfg) =? 0 then [str "www.google.com"] else SNIHosts cfg in
  let caches := new_caches hosts in
  let clients := map (fun sni =>
    newFrontedClient (GoogleIP cfg) sni pollTimeout (default 0%nat (caches !! sni)) (h2 sni)) hosts in
  '(hosts, clients) ← filterFrontedClientsByProbe hosts clients probeURL samples;
  Some (clients, prewarmFrontedClients (GoogleIP cfg) hosts caches).

(** ** The caches *)

(** Every host has a cache, and no two share one. *)
Definition caches_ok (caches : gmap bytes nat) : Prop :=
  forall sni i, caches !! sni = Some i -> (i < size caches)%nat /\ forall sni', caches !! sni' = Some i -> sni' = sni.

Lemma new_caches_spec hosts :
  caches_ok (new_caches hosts) /\ forall sni, is_Some (new_caches hosts !! sni) <-> sni ∈ hosts.
Proof.
  unfold new_caches. induction hosts as [|h hosts IH] using rev_ind.
  { cbn. split; [intros sni i Hi; by rewrite lookup_empty in Hi|]. intros sni. rewrite lookup_empty, elem_of_nil. by split; [intros []|]. }
  rewrite foldl_app. cbn. destruct IH as [Hok Hin]. set (m := foldl _ ∅ hosts) in *.
  destruct (m !! h) as [i|] eqn:Hh.
  - split; [done|]. intros sni. rewrite elem_of_app, list_elem_of_singleton, Hin. split; [tauto|].
    intros [?| ->]; [done|]. apply Hin. by exists i.
  - split.
    + intros sni i Hi. rewrite map_size_insert_None by done.
      apply lookup_insert_Some in Hi as [[<- <-]|[Hne Hi]].
      * split; [lia|]. intros sni' [[-> _]|[_ H]]%lookup_insert_Some; [done|]. apply Hok in H as [H _]. lia.
      * destruct (Hok sni i Hi) as [Hlt Hu]. split; [lia|].
        intros sni' [[-> <-]|[_ H]]%lookup_insert_Some; [lia|by apply Hu].
    + intros sni. rewrite lookup_insert_is_Some, elem_of_app, list_elem_of_singleton, Hin.
      destruct (decide (h = sni)) as [->|]; [tauto|]. split; [tauto|]. intros [?| ->]; [by right|done].
Qed.

(** ** The choice *)

(** The kept clients are those of the kept hosts. *)
Lemma filter_by_probe_map {C} (mk : bytes -> C) hosts probeURL samples :
  hosts <> [] -> length samples = length hosts ->
  exists hs, filterFrontedClientsByProbe hosts (map mk hosts) probeURL samples = Some (hs, map mk hs)
    /\ hs <> [] /\ forall h, h ∈ hs -> h ∈ hosts.
Proof.
  intros Hne Hlen. destruct (filter_pairs hosts (map mk hosts) probeURL samples) as (hs & cs & -> & Hhs & Hl & Hp);
    [done|by rewrite length_map|done|].
  assert (Hat : forall i h c, hs !! i = Some h -> cs !! i = Some c -> c = mk h /\ h ∈ hosts).
  { intros i h c Hi Hci. destruct (Hp i h c Hi Hci) as (j & Hj & Hcj).
    rewrite list_lookup_fmap, Hj in Hcj. injection Hcj as <-. split; [done|]. by eapply list_elem_of_lookup_2. }
  exists hs. split; [|split; [done|]].
  - do 2 f_equal. apply list_eq. intros i. rewrite list_lookup_fmap. destruct (hs !! i) as [h|] eqn:Hi; cbn.
    + destruct (lookup_lt_is_Some_2 cs i) as [c Hc]; [rewrite <- Hl; by eapply lookup_lt_Some|].
      rewrite Hc. by destruct (Hat i h c Hi Hc) as [-> _].
    + apply lookup_ge_None. rewrite <- Hl. by apply lookup_ge_None.
  - intros h [i Hi]%list_elem_of_lookup. destruct (lookup_lt_is_Some_2 cs i) as [c Hc]; [rewrite <- Hl; by eapply lookup_lt_Some|].
    by destruct (Hat i h c Hi Hc).
Qed.

(** Domain fronting, as it is configured: there is a client, and whatever host
    a request names, a client dials the front ([google_host]) and names its own
    SNI host in the handshake, one of the configured ones, over TLS 1.3.  The
    clients of one host share a cache of session tickets, those of two hosts do
    not, and each client's cache is warmed by a connection to the same address
    with the same name, cache and protocols. *)
Theorem fronted_clients cfg pollTimeout probeURL h2 samples :
  let hosts := if len (SNIHosts cfg) =? 0 then [str "www.google.com"] else SNIHosts cfg in
  length samples = length hosts ->
  exists clients warm, NewFrontedClients cfg pollTimeout probeURL h2 samples = Some (clients, warm)
  /\ clients <> []
  /\ (forall c, c ∈ clients -> ServerName c ∈ hosts /\ MinVersion c = VersionTLS13
        /\ forall network addr, DialContext c network addr
             = if bool_decide (GoogleIP cfg = []) then (network, addr) else (str "tcp", GoogleIP cfg))
  /\ (forall c c', c ∈ clients -> c' ∈ clients -> ServerName c = ServerName c' <-> ClientSessionCache c = ClientSessionCache c')
  /\ Forall2 (fun c w => pw_ServerName w = ServerName c /\ pw_cache w = Some (ClientSessionCache c)
        /\ pw_NextProtos w = NextProtos c /\ pw_MinVersion w = MinVersion c
        /\ (pw_network w, pw_addr w) = DialContext c (str "tcp") (JoinHostPort (ServerName c) (str "443"))) clients warm.
Proof.
  intros hosts Hlen. unfold NewFrontedClients. fold hosts.
  assert (Hne : hosts <> []).
  { unfold hosts. destruct (Z.eqb_spec (len (SNIHosts cfg)) 0); [done|]. by rewrite <- len_zero. }
  destruct (new_caches_spec hosts) as [Hok Hin]. set (caches := new_caches hosts) in *.
  set (mk := fun sni => newFrontedClient _ _ _ _ _).
  destruct (filter_by_probe_map mk hosts probeURL samples Hne Hlen) as (hs & -> & Hhs & Hsub). cbn.
  exists (map mk hs), (prewarmFrontedClients (GoogleIP cfg) hs caches). split; [done|].
  assert (Hc : forall h, h ∈ hs -> exists i, caches !! h = Some i) by (intros h Hh; apply Hin, Hsub, Hh).
  split; [by destruct hs|]. split; [|split].
  - intros c (h & -> & Hh)%list_elem_of_fmap. cbn. split; [by apply Hsub|]. split; [done|].
    intros network addr. destruct (Z.eqb_spec (len (GoogleIP cfg)) 0) as [Hg|Hg]; rewrite len_zero in Hg;
      [by rewrite bool_decide_eq_true_2|by rewrite bool_decide_eq_false_2].
  - intros c c' (h & -> & Hh)%list_elem_of_fmap (h' & -> & Hh')%list_elem_of_fmap. cbn.
    destruct (Hc h Hh) as [i Hi], (Hc h' Hh') as [i' Hi']. rewrite Hi, Hi'. cbn.
    split; [intros ->; congruence|]. intros ->. by apply (Hok h' i').
  - unfold prewarmFrontedClients. clear Hhs Hsub. induction hs as [|h hs IH]; [constructor|]. cbn. constructor.
    + destruct (Hc h) as [i Hi]; [left|]. cbn. rewrite Hi. cbn. do 4 (split; [done|]).
      destruct (len (GoogleIP cfg) =? 0); done.
    + apply IH. intros h' Hh'. apply Hc. by right.
Qed.

(** ** What a configuration comes to *)

Definition carrier_fronting (c : ClientCfg) : FrontingConfig := mkFronting (cc_GoogleIP c) (cc_SNIHosts c).

Lemma parseSNIHosts_nonempty raw : parseSNIHosts raw <> [].
Proof.
  unfold parseSNIHosts. destruct raw as [j|]; [|done]. destruct (un_string j) as [s|]; [by case_bool|].
  destruct (un_array j) as [arr|]; cbn; [|done]. destruct (mapM un_string arr) as [l|]; cbn; [|done].
  destruct (Z.eqb_spec (len (List.filter (fun h => negb (len h =? 0)) (map TrimSpace l))) 0); [done|].
  by rewrite <- len_zero.
Qed.

Lemma loaded_front (url_Parse : bytes -> option URL) f c : LoadClient url_Parse f = Ok c ->
  if cc_UseFronting c then cc_GoogleIP c <> [] /\ cc_SNIHosts c <> [] else cc_GoogleIP c = [] /\ cc_SNIHosts c = [].
Proof.
  unfold LoadClient. destruct (listen_port _ _) as [port| |]; cbn -[load_endpoints]; [|done..].
  destruct (relay_urls _ _) as [relays| |]; cbn -[load_endpoints]; [|done..].
  destruct (check_key _ _) as [key| |]; cbn -[load_endpoints]; [|done..].
  destruct (load_endpoints f (dedupeStrings relays)) as [[[[ip sni] urls] accounts]| |] eqn:He; cbn; [|done..].
  destruct (Bool.eqb _ _); cbn; [|done]. do 2 (case_bool; [done|]). intros [= <-]. cbn.
  unfold load_endpoints in He. destruct (len (dedupeStrings relays) =? 0); cbn [negb] in He.
  - destruct (parseScriptKeys _) as [entries| |]; cbn in He; [|done..]. destruct (len entries =? 0); [done|].
    destruct (deployments entries 0 ∅) as [ds| |]; cbn in He; [|done..]. injection He as <- <- _ _.
    split; [|apply parseSNIHosts_nonempty]. unfold JoinHostPort. destruct (has_byte _ _); [done|]. by intros [_ ?]%app_eq_nil.
  - by injection He as <- <- _ _.
Qed.

(** C40: what the configuration says about fronting, and what the clients do.
    With script keys, every client dials the Google front, whatever host is
    asked for, names one of the configured SNI hosts in a TLS 1.3 handshake, and
    is warmed by such a connection.  With [relay_urls], which are documented to
    disable fronting, there is one client: it dials the relay, but its handshake
    names, and expects the certificate of, www.google.com, and the start dials
    www.google.com. *)
Theorem loaded_fronting (url_Parse : bytes -> option URL) f c pollTimeout probeURL h2 samples :
  LoadClient url_Parse f = Ok c ->
  length samples = length (if cc_UseFronting c then cc_SNIHosts c else default_sni) ->
  exists clients warm, NewFrontedClients (carrier_fronting c) pollTimeout probeURL h2 samples = Some (clients, warm)
  /\ clients <> []
  /\ if cc_UseFronting c then
       (forall hc, hc ∈ clients -> ServerName hc ∈ cc_SNIHosts c /\ MinVersion hc = VersionTLS13
          /\ forall network addr, DialContext hc network addr = (str "tcp", cc_GoogleIP c))
       /\ Forall2 (fun hc w => (pw_network w, pw_addr w) = (str "tcp", cc_GoogleIP c)
            /\ pw_ServerName w = ServerName hc /\ pw_cache w = Some (ClientSessionCache hc)) clients warm
     else
       (forall hc, hc ∈ clients -> ServerName hc = str "www.google.com"
          /\ forall network addr, DialContext hc network addr = (network, addr))
       /\ warm <> [] /\ forall w, w ∈ warm -> pw_addr w = str "www.google.com:443".
Proof.
  intros Hl Hlen. pose proof (loaded_front _ _ _ Hl) as Hf.
  destruct (fronted_clients (carrier_fronting c) pollTimeout probeURL h2 samples) as (clients & warm & E & Hne & Hc & _ & Hw).
  { cbn. destruct (cc_UseFronting c); destruct Hf as [Hg Hs].
    - by rewrite (proj2 (Z.eqb_neq _ _)) by by rewrite len_zero.
    - by rewrite Hs. }
  exists clients, warm. split; [exact E|]. split; [done|]. cbn in Hc, Hw.
  destruct (cc_UseFronting c); destruct Hf as [Hg Hs].
  - rewrite (proj2 (Z.eqb_neq _ _)) in Hc by by rewrite len_zero. rewrite bool_decide_eq_false_2 in Hc by done.
    split; [done|]. apply Forall2_same_length_lookup_2; [by eapply Forall2_length|]. intros i hc w Hi Hj.
    destruct (Forall2_lookup_lr _ _ _ _ _ _ Hw Hi Hj) as (H1 & H2 & _ & _ & H5).
    split; [|done]. rewrite H5. apply Hc. by eapply list_elem_of_lookup_2.
  - rewrite Hs, Hg in *. change (len [] =? 0) with true in Hc. rewrite bool_decide_eq_true_2 in Hc by done.
    assert (Hsn : forall hc, hc ∈ clients -> ServerName hc = str "www.google.com").
    { intros hc (H1 & _)%Hc. by apply list_elem_of_singleton in H1. }
    split; [intros hc Hin; split; [by apply Hsn|]; by apply Hc|]. split.
    { intros ->. by apply Forall2_nil_inv_r in Hw. }
    intros w Hin. apply list_elem_of_lookup in Hin as [i Hi].
    destruct (Forall2_lookup_r _ _ _ _ _ Hw Hi) as (hc & Hhc & _ & _ & _ & _ & H5).
    apply list_elem_of_lookup_2 in Hhc. rewrite (Hsn hc Hhc) in H5. destruct (Hc hc Hhc) as (_ & _ & Hdial).
    rewrite Hdial in H5. by injection H5.
Qed.

(** Three hosts, the second of which does not answer. *)
Definition demo_fronting : FrontingConfig :=
  mkFronting (str "216.239.38.120:443") [str "www.google.com"; str "mail.google.com"; str "www.google.com"].
Definition demo_samples : list (list sample) :=
  let ok := Answer 200 frontedProbeOKBody 40 in [[ok; ok]; [DoErr; DoErr]; [ok; ok]].

Lemma fronted_clients_witness :
  exists clients warm,
    NewFrontedClients demo_fronting (120 * Second) (str "https://script.google.com/") (fun _ => true) demo_samples
    = Some (clients, warm)
  /\ map ServerName clients = [str "www.google.com"; str "www.google.com"]
  /\ (forall c, c ∈ clients -> DialContext c (str "tcp") (str "script.google.com:443") = (str "tcp", str "216.239.38.120:443")).
Proof.
  destruct (fronted_clients demo_fronting (120 * Second) (str "https://script.google.com/") (fun _ => true) demo_samples eq_refl)
    as (clients & warm & E & _ & Hd & _).
  exists clients, warm. split; [exact E|]. split.
  - assert (Hn : option_map (fun p => map ServerName (fst p))
        (NewFrontedClients demo_fronting (120 * Second) (str "https://script.google.com/") (fun _ => true) demo_samples)
      = Some [str "www.google.com"; str "www.google.com"]) by (vm_compute; reflexivity).
    rewrite E in Hn. cbn in Hn. congruence.
  - intros c Hc. apply (Hd c Hc).
Defined.

(** A direct relay. *)
Definition direct_url : bytes -> option URL := fun v => Some (mkURL (str "https") (str "relay.example") v).
Definition direct_file : clientFile :=
  mkClientFile [] 0 [] None None [str "https://relay.example/tunnel"] demo_key false [] [] 0 0.
Definition direct_cfg : ClientCfg :=
  mkClientCfg (str "127.0.0.1:1080") [] [] [str "https://relay.example/tunnel"] [[]] false demo_key false [] [] 0 0 0.

Lemma loaded_fronting_witness :
  exists clients warm,
    NewFrontedClients (carrier_fronting direct_cfg) (120 * Second) (str "https://relay.example/tunnel") (fun _ => true) [[]]
    = Some (clients, warm)
  /\ clients <> []
  /\ forall hc, hc ∈ clients -> ServerName hc = str "www.google.com"
       /\ DialContext hc (str "tcp") (str "relay.example:443") = (str "tcp", str "relay.example:443").
Proof.
  assert (Hl : LoadClient direct_url direct_file = Ok direct_cfg) by (vm_compute; reflexivity).
  destruct (loaded_fronting direct_url direct_file direct_cfg (120 * Second) (str "https://relay.example/tunnel")
    (fun _ => true) [[]] Hl eq_refl) as (clients & warm & E & Hne & Hc & _).
  exists clients, warm. split; [exact E|]. split; [exact Hne|].
  intros hc Hin. destruct (Hc hc Hin) as [H1 H2]. split; [exact H1|apply H2].
Defined.
