(* ===== verification/HarnessRun.v ===== *)
(** * bench/harness and bench/sink: the run

    The configuration files the harness writes, the order in which it starts and
    checks its children, the loops that wait and those that measure, and the
    listeners of the sink.  A loop runs over what each of its turns met; [None]
    means that it still runs.  Pipes, the command line, [ps] and the texts of
    errors are left out. *)

From S2P Require Import Prelude GoStd GoText TestJson Crypto TestLib Dns Session Version Config ConfigProps ConfigFile BenchDiff Bench.

(** ** Configuration *)

Definition socksPort : Z := 11080.
Definition serverPort : Z := 18443.
Definition loopback : bytes := str "127.0.0.1".

(** [hex.EncodeToString] of the random bytes. *)
Definition hex_digit (n : Z) : byte := z2b (if n <? 10 then 48 + n else 87 + n).
Definition mustHexKey (random : bytes) : bytes :=
  concat (map (fun b => [hex_digit (b2z b / 16); hex_digit (b2z b mod 16)]) random).

Definition relay_url : bytes := str "http://127.0.0.1:" ++ Itoa serverPort ++ str "/tunnel".

(** The two values, the keys of the maps in order. *)
Definition server_config_json (tunnelKey : bytes) : json :=
  JObject [(str "server_host", JString loopback); (str "server_port", json_int serverPort);
           (str "tunnel_key", JString tunnelKey)].
Definition client_config_json (tunnelKey : bytes) : json :=
  JObject [(str "debug_timing", JBool false); (str "relay_urls", JArray [JString relay_url]);
           (str "socks_host", JString loopback); (str "socks_port", json_int socksPort);
           (str "tunnel_key", JString tunnelKey)].

Definition newline_ : byte := z2b 10.

Section Configs.
Context (MarshalIndent : json -> bytes).

Definition writeJSON (v : json) : file := Content (MarshalIndent v ++ [newline_]).

(** The client's and the server's file. *)
Definition writeConfigs (tunnelKey : bytes) : file * file :=
  (writeJSON (client_config_json tunnelKey), writeJSON (server_config_json tunnelKey)).

End Configs.

(** ** Waiting *)

(** A turn of [waitTCP]: the time at its start, whether the dial succeeded, and
    whether the context ended before the pause. *)
Record wait_turn := mkWaitTurn { wt_now : Z; wt_dialled : bool; wt_cancelled : bool }.
Inductive wait_result := Ready | TimedOut | Cancelled.

Fixpoint waitTCP (deadline : Z) (turns : list wait_turn) : option wait_result :=
  match turns with
  | [] => None
  | t :: turns =>
      if deadline <? wt_now t then Some TimedOut
      else if wt_dialled t then Some Ready
      else if wt_cancelled t then Some Cancelled
      else waitTCP deadline turns
  end.

(** A turn of [preflight]: what came of the echo. *)
Inductive echo_result := EDialErr | EWriteErr | EReadErr | EEcho (b : byte).
Record flight_turn := mkFlight { ft_now : Z; ft_echo : echo_result; ft_cancelled : bool }.

Fixpoint preflight (deadline : Z) (turns : list flight_turn) : option wait_result :=
  match turns with
  | [] => None
  | t :: turns =>
      if ft_now t <? deadline then
        match ft_echo t with
        | EEcho b => if bool_decide (b = z2b 88) then Some Ready
                     else if ft_cancelled t then Some Cancelled else preflight deadline turns
        | _ => if ft_cancelled t then Some Cancelled else preflight deadline turns
        end
      else Some TimedOut
  end.

(** ** The children *)

Inductive child := SinkProc | ServerProc | ClientProc.

(** What [main] does in order, the scenarios between the last two steps, which
    do not end it; [log.Fatalf] after a step that fails ends the
    process at once, without the deferred calls. *)
Inductive stage := MakeDir | WriteConfigs | Start (p : child) | Wait (p : child) | Dialer | Preflight | WriteResults.
Definition stages : list stage :=
  [MakeDir; WriteConfigs; Start SinkProc; Wait SinkProc; Start ServerProc; Wait ServerProc;
   Start ClientProc; Wait ClientProc; Dialer; Preflight; WriteResults].

(** What runs, and whether the directory exists. *)
Record children := mkChildren { running : list child; tmpDir : bool }.

Definition stage_done (s : stage) (c : children) : children :=
  match s with
  | MakeDir => mkChildren (running c) true
  | Start p => mkChildren (p :: running c) (tmpDir c)
  | _ => c
  end.

(** [killProcess] for each deferred call, and [RemoveAll]. *)
Definition deferred (c : children) : children := mkChildren [] false.

(** [results] says of each step whether it succeeded; the answer tells where
    [Fatalf] struck, and what is left when the process has ended. *)
Fixpoint harness_main (ss : list stage) (results : list bool) (c : children) : option (option stage * children) :=
  match ss with
  | [] => Some (None, deferred c)
  | s :: ss =>
      match results with
      | [] => None
      | true :: results => harness_main ss results (stage_done s c)
      | false :: _ => Some (Some s, c)
      end
  end.

(** [killProcess]: the interrupt is enough, or [Kill] follows after three
    seconds; a process that was not started is left alone. *)
Inductive kill_call := Interrupt | Kill_ | Wait_.
Definition killProcess (started exits_in_time : bool) : list kill_call :=
  if negb started then [] else
  if exits_in_time then [Interrupt; Wait_] else [Interrupt; Kill_; Wait_].

(** ** The measuring loops *)

(** [scenarioTTFB]: [n] connections, each with its round trip. *)
Inductive ttfb_turn := TDial | TWrite | TRead | TSample (us : Z).
Fixpoint ttfb_loop (n : nat) (turns : list ttfb_turn) (samples : list Z) : option (list Z + ttfb_turn) :=
  match n with
  | O => Some (inl samples)
  | Datatypes.S n =>
      match turns with
      | [] => None
      | TSample us :: turns => ttfb_loop n turns (samples ++ [us])
      | t :: _ => Some (inr t)
      end
  end.

(** [scenarioSessionsPerSec]: the time before each attempt, and how it went. *)
Inductive quick_turn := QDial | QRead | QOk.
Fixpoint quick_loop (end_ : Z) (turns : list (Z * quick_turn)) (ok fail : Z) : option (Z * Z) :=
  match turns with
  | [] => None
  | (now, t) :: turns =>
      if now <? end_ then
        match t with
        | QDial | QRead => quick_loop end_ turns ok (fail + 1)
        | QOk => quick_loop end_ turns (ok + 1) fail
        end
      else Some (ok, fail)
  end.

(** [scenarioIdleOverhead] after its connections are open. *)
Inductive idle_turn := ICancelled | ISample (client server : f64).
Fixpoint idle_loop (end_ : Z) (turns : list (Z * idle_turn)) (client server : list f64) : option (option (list f64 * list f64)) :=
  match turns with
  | [] => None
  | (now, t) :: turns =>
      if now <? end_ then
        match t with
        | ICancelled => Some None
        | ISample c s => idle_loop end_ turns (client ++ [c]) (server ++ [s])
        end
      else Some (Some (client, server))
  end.

(** [scenarioThroughputUpConcurrent]: the uploads that still run, each with what
    it will come to ([None]: no error), and the errors in the channel, which has
    room for [n]. *)
Record uploads := mkUploads { up_running : list (option bytes); up_errs : list bytes }.

Inductive upload_step (n : nat) : uploads -> uploads -> Prop :=
| us_done l1 l2 errs : upload_step n (mkUploads (l1 ++ None :: l2) errs) (mkUploads (l1 ++ l2) errs)
| us_failed l1 e l2 errs :
    (length errs < n)%nat ->
    upload_step n (mkUploads (l1 ++ Some e :: l2) errs) (mkUploads (l1 ++ l2) (errs ++ [e])).

(** After [wg.Wait]: the error that was sent first, if any. *)
Definition first_error (errs : list bytes) : option bytes := head errs.

(** ** The sink *)

Definition sink_listeners : list (Z * bytes) :=
  [(9101, str "echo"); (9102, str "sized"); (9103, str "source"); (9104, str "quick")].

Definition sink_addr (port : Z) : bytes := str "127.0.0.1:" ++ Itoa port.
Definition sinkEcho : bytes := str "127.0.0.1:9101".
Definition sinkSized : bytes := str "127.0.0.1:9102".
Definition sinkSource : bytes := str "127.0.0.1:9103".
Definition sinkQuick : bytes := str "127.0.0.1:9104".

(** What a handler writes for what it has read. *)
Definition handleEcho (input : bytes) : bytes := input.
Definition handleQuick : bytes := ackByte.

Definition sink_handler (name : bytes) (input : bytes) : bytes :=
  if bool_decide (name = str "echo") then handleEcho input
  else if bool_decide (name = str "sized") then default [] (handleSized input)
  else if bool_decide (name = str "source") then concat (handleSizedSource input)
  else handleQuick.

(** [serve]: the connections that get a handler. *)
Inductive accepted := AConn (n : nat) | AError | AClosed.
Fixpoint sink_serve (events : list accepted) : list nat * bool :=
  match events with
  | [] => ([], false)
  | AConn n :: events => let '(l, ended) := sink_serve events in (n :: l, ended)
  | AError :: events => sink_serve events
  | AClosed :: _ => ([], true)
  end.

(** ** What the files say *)

Lemma hex_digit_val n : 0 <= n < 16 -> hex_val (hex_digit n) = Some n /\ graph_byte (hex_digit n).
Proof.
  intros Hn. unfold hex_digit, hex_val, graph_byte, ascii_space.
  assert (n < 10 \/ 10 <= n) as [H|H] by lia.
  - rewrite (proj2 (Z.ltb_lt n 10)) by done. rewrite b2z_z2b, Z.mod_small by lia.
    rewrite (proj2 (Z.leb_le 48 _)), (proj2 (Z.leb_le _ 57)) by lia. cbn. split; [f_equal; lia|]. split; [lia|].
    repeat case_bool; b2p; try done; lia.
  - rewrite (proj2 (Z.ltb_ge n 10)) by done. rewrite b2z_z2b, Z.mod_small by lia.
    rewrite (proj2 (Z.leb_le 48 _)), (proj2 (Z.leb_gt _ 57)), (proj2 (Z.leb_le 97 _)), (proj2 (Z.leb_le _ 102)) by lia. cbn.
    split; [f_equal; lia|]. split; [lia|]. repeat case_bool; b2p; try done; lia.
Qed.

Lemma mustHexKey_spec random :
  hex_decode (mustHexKey random) = Some random /\ len (mustHexKey random) = 2 * len random
  /\ Forall graph_byte (mustHexKey random).
Proof.
  induction random as [|b l (H1 & H2 & H3)]; [by cbn|]. unfold mustHexKey in *. cbn [map concat app].
  pose proof (b2z_range b) as Hb.
  destruct (hex_digit_val (b2z b / 16)) as [E1 G1];
    [split; [apply Z.div_pos|apply Z.div_lt_upper_bound]; lia|].
  destruct (hex_digit_val (b2z b mod 16)) as [E2 G2]; [apply Z.mod_pos_bound; lia|].
  cbn [hex_decode]. rewrite E1, E2, H1. cbn. split; [|split; [rewrite !len_cons, H2; lia|by do 2 (apply Forall_cons; split; [done|])]].
  do 2 f_equal. rewrite <- (z2b_b2z b) at 3. f_equal. pose proof (Z.div_mod (b2z b) 16). lia.
Qed.

Definition harness_client (key : bytes) : clientFile :=
  mkClientFile loopback socksPort [] None None [relay_url] key false [] [] 0 0.
Definition harness_server (key : bytes) : serverFile := mkServerFile loopback serverPort key false [] [] [].

Lemma client_config_members key : un_struct client_members (client_config_json key) = Some (harness_client key).
Proof.
  unfold client_config_json, un_struct, client_members, member. cbn [foldl fst snd mbind option_bind]. member_names.
  cbn [mbind option_bind un_str un_bool]. change (un_int (json_int socksPort) 0) with (Some socksPort).
  change (un_strs (JArray [JString relay_url])) with (Some [relay_url]). reflexivity.
Qed.

Lemma server_config_members key : un_struct server_members (server_config_json key) = Some (harness_server key).
Proof.
  unfold server_config_json, un_struct, server_members, member. cbn [foldl fst snd mbind option_bind]. member_names.
  cbn [mbind option_bind un_str un_bool]. change (un_int (json_int serverPort) 0) with (Some serverPort). reflexivity.
Qed.

Section Written.
Context {L : CryptoLib} {J : JsonLib} (MarshalIndent : json -> bytes) (url_Parse : bytes -> option URL).
(** [json.Unmarshal] reads what [json.MarshalIndent] wrote, with a line end
    after it; and the relay URL is one. *)
Context (indent_parse : forall j, Forall ascii (json_strings j) -> json_parse (MarshalIndent j ++ [newline_]) = Some j).
Context (url_ok : url_Parse relay_url = Some (mkURL (str "http") (str "127.0.0.1:18443") relay_url)).

Lemma check_key_hex placeholder random : len random = 32 -> len placeholder <> 64 ->
  check_key placeholder (TrimSpace (mustHexKey random)) = Ok (mustHexKey random).
Proof.
  intros Hr Hp. destruct (mustHexKey_spec random) as (H1 & H2 & H3). rewrite TrimSpace_graph by done.
  unfold check_key. rewrite H1, H2, Hr. cbn [Z.mul Z.eqb Pos.eqb Pos.mul negb orb].
  rewrite bool_decide_eq_false_2; [done|]. intros E. rewrite <- E, H2, Hr in Hp. lia.
Qed.

(** The files the harness writes are a client and a server that fit: both load,
    each listens where the harness then waits, the client's only relay is the
    server's address, without fronting and without credentials, and both derive
    the same key. *)
Theorem harness_configs random : len random = 32 ->
  exists c s k,
    LoadClientFile url_Parse (fst (writeConfigs MarshalIndent (mustHexKey random))) = Ok c
    /\ LoadServerFile url_Parse (snd (writeConfigs MarshalIndent (mustHexKey random))) = Ok s
    /\ cc_ListenAddr c = str "127.0.0.1:11080" /\ sc_ListenAddr s = str "127.0.0.1:18443"
    /\ cc_ScriptURLs c = [str "http://127.0.0.1:18443/tunnel"] /\ cc_UseFronting c = false /\ cc_SocksUser c = []
    /\ NewCryptoFromHexKey (cc_AESKeyHex c) = Ok k /\ NewCryptoFromHexKey (sc_AESKeyHex s) = Ok k.
Proof.
  intros Hr. destruct (mustHexKey_spec random) as (H1 & H2 & H3). set (key := mustHexKey random) in *.
  assert (Hk : ascii key) by (eapply Forall_impl; [exact H3|by intros ? []]).
  assert (Hlc : LoadClient url_Parse (harness_client key)
    = Ok (mkClientCfg (str "127.0.0.1:11080") [] [] [relay_url] [[]] false key false [] [] 0 0 0)).
  { assert (Hru : relay_urls url_Parse [relay_url] = Ok [relay_url]).
    { unfold relay_urls, normalizeRelayURL. change (TrimSpace relay_url) with relay_url. by rewrite url_ok. }
    unfold LoadClient, harness_client.
    cbn [cf_SocksHost cf_SocksPort cf_RelayURLs cf_TunnelKey cf_SocksUser cf_SocksPass cf_CoalesceStepMs cf_IdleSlotsPerBucket cf_DebugTiming].
    change (listen_port [socksPort] 1080) with (Ok (E := config_err) 11080). cbn [res_bind]. rewrite Hru. cbn [res_bind].
    unfold key. rewrite check_key_hex by (try done; vm_compute; discriminate). cbn [res_bind]. reflexivity. }
  assert (Hls : LoadServer url_Parse (harness_server key) = Ok (mkServerCfg (str "127.0.0.1:18443") key false [])).
  { unfold LoadServer, harness_server.
    cbn [sf_ServerHost sf_ServerPort sf_TunnelKey sf_UpstreamProxy sf_ListenAddr sf_AESKeyHex sf_DebugTiming].
    change (parseLegacyListenAddr []) with (@nil Byte.byte, 0).
    change (listen_port [serverPort; 0] 8443) with (Ok (E := config_err) 18443). cbn [res_bind].
    assert (Hf : firstNonEmpty [key; []] = TrimSpace key).
    { cbn [firstNonEmpty]. rewrite (TrimSpace_graph key), H2, Hr by done. reflexivity. }
    rewrite Hf, TrimSpace_idem. unfold key. rewrite check_key_hex by (try done; vm_compute; discriminate). cbn [res_bind]. reflexivity. }
  assert (Hkey : exists k, NewCryptoFromHexKey key = Ok k).
  { unfold NewCryptoFromHexKey. rewrite H1, Hr. cbn. eauto. }
  destruct Hkey as [k Hkey]. do 3 eexists. unfold LoadClientFile, LoadServerFile, load, writeConfigs, writeJSON. cbn [fst snd].
  rewrite !indent_parse. 1: cbn [mbind option_bind].
  1: rewrite client_config_members, server_config_members, Hlc, Hls. 1: cbn [res_map_err]. 1: by repeat split.
  all: cbn -[str ascii loopback relay_url key]; repeat (apply Forall_cons; split; [first [done|ascii_str]|]); done.
Qed.
End Written.

(** ** The run *)

(** [log.Fatalf] does not run what was deferred: a run that fails after a child
    was started leaves it and the directory with the tunnel key behind; only
    one that gets to the end stops all three and removes the directory. *)
Theorem harness_leaves results left_ fatal :
  harness_main stages results (mkChildren [] false) = Some (fatal, left_) -> (12 <= length results)%nat ->
  match fatal with
  | None => running left_ = [] /\ tmpDir left_ = false
  | Some MakeDir => running left_ = [] /\ tmpDir left_ = false
  | Some (Wait p) => p ∈ running left_ /\ tmpDir left_ = true
  | Some (Preflight | Dialer | WriteResults) => running left_ = [ClientProc; ServerProc; SinkProc] /\ tmpDir left_ = true
  | Some _ => tmpDir left_ = true
  end.
Proof.
  intros H Hl. unfold stages in *.
  do 11 (destruct results as [|[] results]; cbn in H, Hl; [lia| |injection H as <- <-; cbn; split_and?; set_solver]).
  injection H as <- <-. done.
Qed.

(** The sink listens where the harness dials. *)
Lemma sink_ports : map (fun l => sink_addr (fst l)) sink_listeners = [sinkEcho; sinkSized; sinkSource; sinkQuick].
Proof. vm_compute. reflexivity. Qed.

(** ** The loops *)

(** [scenarioTTFB] ends with exactly [n] samples, those of its turns in order,
    or with the first failure. *)
Lemma ttfb_loop_spec n turns samples :
  match ttfb_loop n turns samples with
  | Some (inl out) => exists us, out = samples ++ us /\ length us = n /\ map TSample us `prefix_of` turns
  | Some (inr t) => exists us rest, turns = map TSample us ++ t :: rest /\ (length us < n)%nat /\ forall u, t <> TSample u
  | None => exists us, turns = map TSample us /\ (length us < n)%nat
  end.
Proof.
  revert turns samples. induction n as [|n IH]; intros turns samples; cbn.
  { exists []. rewrite app_nil_r. split; [done|]. split; [done|apply prefix_nil]. }
  destruct turns as [|t turns]; [exists []; split; [done|cbn; lia]|].
  destruct t as [| | |u]; [exists [], turns; split; [done|split; [cbn; lia|done]]..|].
  specialize (IH turns (samples ++ [u])). destruct (ttfb_loop n turns (samples ++ [u])) as [[out|t]|].
  - destruct IH as (us & -> & Hl & Hp). exists (u :: us). rewrite <- app_assoc. split; [done|].
    split; [cbn; lia|]. cbn. by apply prefix_cons.
  - destruct IH as (us & rest & -> & Hl & Ht). exists (u :: us), rest. split; [done|]. split; [cbn; lia|done].
  - destruct IH as (us & -> & Hl). exists (u :: us). split; [done|cbn; lia].
Qed.

(** [scenarioSessionsPerSec] counts every attempt that began before the end. *)
Lemma quick_loop_spec end_ turns ok fail out :
  quick_loop end_ turns ok fail = Some out ->
  exists done_ t rest, turns = done_ ++ t :: rest /\ Forall (fun p => fst p < end_) done_ /\ end_ <= fst t
    /\ fst out + snd out = ok + fail + len done_
    /\ fst out = ok + len (List.filter (fun p => match snd p with QOk => true | _ => false end) done_).
Proof.
  revert ok fail. induction turns as [|[now t] turns IH]; intros ok fail; cbn; [done|].
  destruct (Z.ltb_spec now end_) as [Hlt|Hge].
  - intros H. assert (Hx : exists ok' fail', quick_loop end_ turns ok' fail' = Some out /\ ok' + fail' = ok + fail + 1
      /\ ok' = ok + (match t with QOk => 1 | _ => 0 end)).
    { destruct t; [exists ok, (fail + 1)|exists ok, (fail + 1)|exists (ok + 1), fail]; (split; [done|lia]). }
    destruct Hx as (ok' & fail' & H' & Hs & Ho). destruct (IH _ _ H') as (d & t' & rest & -> & Hd & Hge & H1 & H2).
    exists ((now, t) :: d), t', rest. split; [done|]. split; [by constructor|]. split; [done|]. rewrite len_cons.
    split; [lia|]. cbn. rewrite H2, Ho. destruct t; cbn [List.filter snd]; rewrite ?len_cons; lia.
  - intros [= <-]. exists [], (now, t), turns. cbn. split; [done|]. split; [constructor|]. split; [done|].
    rewrite len_nil. split; lia.
Qed.

(** The two lists of [scenarioIdleOverhead] have as many samples. *)
Lemma idle_loop_len end_ turns client server c s :
  idle_loop end_ turns client server = Some (Some (c, s)) -> len client = len server -> len c = len s.
Proof.
  revert client server. induction turns as [|[now t] turns IH]; intros client server; cbn; [done|].
  case_bool; [|by intros [= <- <-]]. destruct t as [|x y]; [done|]. intros H Hl. eapply IH; [exact H|].
  rewrite !len_app, Hl. done.
Qed.

(** [waitTCP] says that the address is ready only if a dial has succeeded in a
    turn that began before the deadline had passed. *)
Lemma waitTCP_ready deadline turns :
  waitTCP deadline turns = Some Ready -> exists t, t ∈ turns /\ wt_dialled t = true /\ wt_now t <= deadline.
Proof.
  induction turns as [|t turns IH]; cbn; [done|]. destruct (Z.ltb_spec deadline (wt_now t)); [done|].
  destruct (wt_dialled t) eqn:Hd; [intros _; exists t; split; [left|done]|].
  destruct (wt_cancelled t); [done|]. intros (t' & Hin & H')%IH. exists t'. split; [by right|done].
Qed.

(** The errors sent are those of the uploads that have ended. *)
Lemma upload_steps_errs n results u :
  rtc (upload_step n) (mkUploads results []) u -> omap id (up_running u) ++ up_errs u ≡ₚ omap id results.
Proof.
  assert (Hs : forall a b, upload_step n a b ->
    omap id (up_running b) ++ up_errs b ≡ₚ omap id (up_running a) ++ up_errs a).
  { intros a b [l1 l2 errs|l1 e l2 errs _]; cbn; rewrite !omap_app; cbn; [done|].
    rewrite <- !app_assoc. apply Permutation_app_head. cbn. by rewrite (app_assoc _ errs), (Permutation_app_comm _ [e]). }
  enough (forall a, rtc (upload_step n) a u -> omap id (up_running u) ++ up_errs u ≡ₚ omap id (up_running a) ++ up_errs a).
  { intros Hr. rewrite (H _ Hr). cbn. by rewrite app_nil_r. }
  intros a. induction 1 as [|a b c Hab _ IH]; [done|]. by rewrite IH, (Hs a b).
Qed.

Lemma omap_length_le (l : list (option bytes)) : (length (omap id l) <= length l)%nat.
Proof. induction l as [|[e|] l IH]; cbn in *; lia. Qed.

(** No upload waits to report its error, since the channel has room for all; and
    when all have ended, the scenario fails exactly if one of them has failed,
    with the error of one that has. *)
Theorem uploads_report n results u :
  length results = n -> rtc (upload_step n) (mkUploads results []) u ->
  (forall l1 r l2, up_running u = l1 ++ r :: l2 -> exists u', upload_step n u u' /\ up_running u' = l1 ++ l2)
  /\ (up_running u = [] ->
      (first_error (up_errs u) = None <-> Forall (fun r => r = None) results)
      /\ forall e, first_error (up_errs u) = Some e -> Some e ∈ results).
Proof.
  intros Hn Hr. pose proof (upload_steps_errs n results u Hr) as Hp. split.
  - intros l1 r l2 E. destruct u as [running errs]. cbn in E, Hp. subst running.
    destruct r as [e|]; [|eexists; by split; [apply us_done|]].
    exists (mkUploads (l1 ++ l2) (errs ++ [e])). split; [|done]. apply us_failed.
    apply Permutation_length in Hp. rewrite omap_app in Hp. cbn in Hp. rewrite !length_app in Hp. cbn in Hp.
    pose proof (omap_length_le results). lia.
  - intros E. rewrite E in Hp. cbn in Hp. split.
    + unfold first_error. rewrite head_None. split.
      * intros He. rewrite He in Hp. apply Permutation_nil_l in Hp. apply Forall_forall. intros [e|] Hin; [|done].
        assert (Hx : e ∈ omap id results) by (apply list_elem_of_omap; by exists (Some e)).
        rewrite <- Hp in Hx. by apply elem_of_nil in Hx.
      * intros Hall. assert (Hz : omap id results = []).
        { clear -Hall. induction Hall as [|r l -> _ IH]; [done|]. exact IH. }
        rewrite Hz in Hp. by apply Permutation_nil_r in Hp.
    + unfold first_error. intros e He. apply head_Some_elem_of in He. rewrite Hp in He.
      apply list_elem_of_omap in He as (r & Hr' & E'). cbn in E'. by subst r.
Qed.

(** ** Concrete texts *)

Lemma bits_pos_tail p l : bits_pos (pos_bits p ++ z2b 125 :: l) = p.
Proof. induction p as [p IH|p IH|]; cbn; by rewrite ?IH. Qed.

Lemma test_indent j : json_parse (json_print j ++ [newline_]) = Some j.
Proof. cbn. rewrite <- app_assoc. cbn. rewrite bits_pos_tail, decode_encode. cbn. apply tree_json_tree. Qed.

Definition loopback_url : bytes -> option URL := fun v => Some (mkURL (str "http") (str "127.0.0.1:18443") v).

Lemma harness_configs_witness :
  exists c, LoadClientFile loopback_url (fst (writeConfigs json_print (mustHexKey (zeros 32)))) = Ok c
    /\ cc_ListenAddr c = str "127.0.0.1:11080".
Proof.
  destruct (harness_configs (L := TestLib.TestLib) json_print loopback_url (fun j _ => test_indent j) eq_refl (zeros 32) eq_refl)
    as (c & s & k & H1 & _ & H2 & _).
  exists c. split; [exact H1|exact H2].
Defined.

Lemma harness_leaves_witness :
  harness_main stages (replicate 7 true ++ replicate 5 false) (mkChildren [] false)
    = Some (Some (Wait ClientProc), mkChildren [ClientProc; ServerProc; SinkProc] true)
  /\ ClientProc ∈ [ClientProc; ServerProc; SinkProc].
Proof.
  split; [reflexivity|].
  exact (proj1 (harness_leaves (replicate 7 true ++ replicate 5 false) (mkChildren [ClientProc; ServerProc; SinkProc] true)
    (Some (Wait ClientProc)) eq_refl ltac:(cbn; lia))).
Defined.
